(* ===== verification/_CoqProject ===== *)
-Q . S2P
Prelude.v
Text.v
Arrow.v
DriverApi.v
Auth.v
AuthFacts.v
Config.v
EditDistance.v
ConfigFacts.v
Core.v
CoreFacts.v
Cluster.v
ClusterFacts.v
ClusterStores.v
Metadata.v
ServiceData.v
Results.v
ResultsFacts.v
ComponentExamples.v
Service.v
ServiceSpec.v
ServiceCluster.v
NodeSteps.v
SharedSessions.v
SharedResults.v
Collect.v
GatewayFacts.v
GatewaySessions.v
Tenants.v
EndToEnd.v
GatewayExamples.v
Lifecycle.v
ClusterNodeExamples.v
Chars.v
Output.v
OutputFacts.v
ReplText.v
Repl.v
ReplFacts.v
ShellExamples.v
PageToken.v
Headers.v
HttpEvents.v
Http.v
HttpApi.v
HttpFacts.v
HttpPaging.v
HttpExamples.v
ArrowTypes.v
FlightTypes.v
FlightTypeFacts.v
FlightTokenFacts.v
FlightPolicy.v
Flight.v
FlightFacts.v
FlightResults.v
FlightPolicyFacts.v
FlightExamples.v
ArrowBuild.v
Sink.v
Demo.v
DemoFacts.v
Sql.v
TrinoTypes.v
TrinoTypeFacts.v
TrinoValues.v
Trino.v
TrinoFacts.v
Databricks.v
DatabricksFacts.v
Snowflake.v
SnowflakeFacts.v
MetadataSql.v
CliArgs.v
Cli.v
Serve.v
CliFacts.v
AuthLoad.v
DriverExamples.v
CliExamples.v
