(* ===== verification/Prelude.v ===== *)
(** * ConfluxQuery: a verification library of the query gateway

    ConfluxQuery is a gateway between clients and SQL engines.  A client
    authenticates, opens versioned sessions on configured targets, and submits
    queries; an engine adapter produces Arrow batches that the gateway retains,
    in memory or in spill files, and serves as pages, streams and partitions.
    Several nodes can share sessions and results through a cluster store.  This
    library models the crates that hold that logic, operation by operation, and
    proves what makes them correct.

    ** The program and the files that model it

    - crates/qcli-driver-api: [DriverApi], the data of the adapter interface and
      the [EngineAdapter] trait with its default methods.  [Arrow] is the
      interface to the arrow crates (record batches, IPC files) as two type
      classes with their documented laws, and a concrete instance.
    - crates/qcli-core: [Core], [SessionManager] (compare-and-swap mutations,
      the process-wide counter of session ids) and [QueryService] with the two
      bounded channels of a query ([pipe_step]).  Theorems: [CoreFacts].
    - crates/qcli-config: [Config], from the text of a file to resolved targets.
      Theorems: [EditDistance] and [ConfigFacts].
    - crates/qcli-auth: [Auth], API keys, OIDC and the composite provider, and
      [AuthLoad], the loading of their files and the credentials of adapters.
      Theorems: [AuthFacts] and [AuthLoad].
    - crates/qcli-cluster: [Cluster], the [ClusterStateStore] trait as a record
      of operations with its contract as a class, the in-memory store and the
      PostgreSQL store (the effect of each SQL statement).  [ClusterFacts]
      proves the coordination theorems against the contract, [ClusterStores]
      that both stores meet it and where they differ.
    - crates/qcli-metadata: [Metadata], the scoped cache, with its theorems.
    - crates/qcli-service: [ServiceData] (limits, errors, event log, records),
      [Results] (retention, spilling, pages, readers, partitions), [Service]
      ([ServiceState] and the local operations of [GatewayService]), [Collect]
      ([collect_query], one item at a time, and [gateway_step], which
      interleaves collectors with client calls) and [ServiceCluster] (the
      clustered operations of a [Node] over the shared stores, and the publisher
      of a query, turn by turn).
    - crates/qcli-output: [Output], all formats of [StreamOutput], over [Chars],
      the characters of UTF-8 strings and the taking apart of text.  Theorems:
      [OutputFacts].
    - crates/qcli-repl: [ReplText], the pure functions of the shell, and [Repl],
      its read loop, commands and the session around them.  Theorems: [ReplText]
      and [ReplFacts].
    - crates/qcli-http: [PageToken] (continuation tokens), [HttpEvents] (event
      streams), [Http] (both layers, every handler) and [HttpApi] (the table of
      routes, the decoding of bodies, the OpenAPI description), over [Headers].
      Theorems: in those files, [HttpFacts] and [HttpPaging].
    - crates/qcli-flight-sql: [FlightTypes] (native types as [ArrowTypes], signed
      tickets and session tokens), [FlightPolicy] (the interceptor, session
      options, statuses) and [Flight] (every handler).  Theorems:
      [FlightTypeFacts], [FlightTokenFacts], [FlightPolicyFacts], [FlightFacts]
      and [FlightResults].
    - The engine adapters.  [Sink] is the [QuerySink] as they use it, with the
      promise [Conforming] (a class, [Conforms]) every one of them keeps, and the
      harness of crates/qcli-driver-conformance; [ArrowBuild] the building of
      record batches; [Sql] the quoting of names and a reading of SQL text as
      tokens.  crates/qcli-driver-demo: [Demo], [DemoFacts].
      crates/qcli-driver-trino: [TrinoTypes] (type signatures, values, batches),
      [Trino] (the protocol, metadata, configuration); [TrinoTypeFacts],
      [TrinoValues], [TrinoFacts].  crates/qcli-driver-databricks: [Databricks],
      [DatabricksFacts].  crates/qcli-driver-snowflake: [Snowflake],
      [SnowflakeFacts].
    - crates/qcli-cli: [CliArgs] (errors, exit codes, arguments), [Cli] (the
      commands and their dispatch) and [Serve] (the start of the servers).
      Theorems: [CliFacts] and [Serve].
    - [Lifecycle]: what runs beside the requests, the renewal of a node's lease
      ([renew_loop], against the class [NodeRegistry] both stores implement), the
      signal ([on_signal]) and the end of a server ([server_step],
      [wait_for_queries]).

    ** How code becomes definitions

    A method that mutates a component and may fail is a function of the monad
    [M] below: it returns a result and the state it leaves, also on the error
    path.  A mutex-protected map is a [gmap]; an [Arc] to a record shared by the
    registry and a collector is the record's identifier.  Clock readings, UUIDs,
    the environment, file contents and what an adapter does are arguments
    ([Ambient], [Invocation]).  u64 and usize arithmetic wraps or saturates
    where the source's does.  Strings are their UTF-8 bytes ([Text]).  Each
    operation of the service runs as one step: the atomicity of a single call is
    an assumption, the interleaving of calls and collectors is not.

    ** What is proved

    - Results.  [ResultsFacts]: pages are row ranges, paging and partitions
      cover a result exactly, retention is bounded.  [EndToEnd]: in any run of
      the gateway, a query that ended without an error serves exactly the rows
      its adapter produced, because spill files are never shared and no other
      query or client touches them.
    - Authorization.  [ServiceSpec] lists the atomic changes a principal is
      entitled to ([step], [register]) and proves that every operation is a
      sequence of them; the invariants below are proved per change.
      [GatewaySessions]: sessions have one owner and a target it may use, and
      quotas and limits hold in every reachable state.  [Tenants]: no operation
      touches the live session of another principal or what runs in it, foreign
      identifiers look unknown, and a shutdown only winds down.
    - Shutdown and leases.  [Lifecycle]: a signalled server stops, with no query
      unfinished or after its grace period; a node's registration lasts as long
      as its renewals succeed.
    - Queries.  [GatewayFacts]: every unfinished query has exactly one
      collector, and every query comes to an end; event logs are numbered, end
      once, and show the state; a late cancellation hides the results of a
      completed query.
    - Clusters.  The class [ClusterAvailable] of [ClusterStores] says when a store
      answers, and over any store that meets its contract [SharedSessions] shows
      how sessions move between nodes and where an update is lost,
      [SharedResults] that published results are the same on every node, and what
      recovery of a lost node's queries does.
    - Gateways.  [NodeSteps] lifts the authorized changes to nodes; [HttpFacts]
      and [FlightFacts] show that every request and call acts only for the
      principal of its credential.  [HttpEvents]: event streams are complete and
      in order.  [HttpApi]: the OpenAPI description is that of the router.
      [HttpPaging]: a client that follows the continuation tokens receives every
      row of a result.  [FlightTokenFacts]: accepted tokens were issued, to who
      shows them.  [FlightResults]: the endpoints of a query carry its whole
      result; ingestion is bounded and cleans up.  [FlightTypeFacts]: type names
      are read as the types they denote.
    - The shell and its output.  [ReplFacts]: the shell stays in step with its
      session, secrets do not influence what is printed, and the history file
      gains only statements that look like no credential.
      [OutputFacts]: what is written depends on the rows alone, decimals are
      exact.
    - Adapters.  Each keeps the promise of [Sink], whatever its engine answers;
      the conformance harness and the command line are proved against that
      promise ([Sink], [CliFacts]).  [TrinoFacts], [DatabricksFacts] and
      [SnowflakeFacts]: all pages, chunks and rows of a result are sent, in order.
      [TrinoTypeFacts] and [TrinoValues]: types mean what they say and values take
      their shape, and where values are lost.  [TrinoFacts]: retries are bounded,
      cancellations confirmed, credentials sent over TLS only.  [MetadataSql] and
      [Sql]: no name breaks out of a metadata statement, and patterns keep
      their meaning.  [DemoFacts]: generated and ingested rows.
    - The command line.  [CliFacts]: reading the batches of a query before its
      events never stalls, what is printed is the rows the adapter sent and as
      many as it counted, arguments are read in any order, secrets are not
      shown.  [Serve]: what is exposed is authenticated and encrypted.
    - Sessions, cluster, metadata, configuration, authentication: the theorems
      of [CoreFacts], [ClusterFacts], [ClusterStores], [Metadata],
      [EditDistance], [ConfigFacts], [AuthFacts] and [AuthLoad].

    The files named Examples run the definitions on concrete inputs and apply
    each theorem there.

    ** Bounds and fuel

    Loops over text and readers are structural where the source walks a sequence.
    [expand_loop] takes the length of its text as fuel and [expansion_equation]
    shows that this is enough; [read_batches] takes one call more than the source
    has items ([read_to_end_spec]), and the client of [follow_pages] one request
    more than the result has rows.  Collectors are a step relation with a
    decreasing measure ([work]).  [arrow_type] takes the length of the type name
    ([arrow_type_unfold]); a wait of the Flight gateway takes the number of looks
    its deadline allows ([w_looks]), and running out of them is the time-out of the
    source; the wait of a server that stops needs one look more than its grace
    period has intervals ([waits_are_bounded]).  The loops of the adapters run for
    a number of turns and say when they are still running ([iterate]); the demo
    adapter has enough ([demo_execute_ends]), and the theorems on pages and chunks
    give the number that is enough for what the engine serves.  Type signatures and
    values take their size ([signature_type_unfold], [normalize_unfold]).

    ** What is not modelled

    Accept loops, terminals and the delivery of signals, which are the runtime's;
    the schema of a result reader and the encoding of Flight data; the matching of
    paths, and the parsing of JSON, TOML, query strings and protobuf messages.
    Third-party code is a parameter: Arrow, the clients of the engines, reqwest,
    URL parsing, Argon2, JWT decoding, HMAC, SHA-256, base64, serde_json, the hash
    of metadata properties, PostgreSQL beyond the effect of the statements.  Lock
    poisoning and task panics other than as a failed join are left out. *)
From stdpp Require Export base gmap strings list fin_maps pretty.
#[global] Open Scope Z_scope.

(** ** Results *)

(** Rust's [Result<A, E>]. *)
Inductive result (A E : Type) : Type :=
| Ok (a : A)
| Err (e : E).
Arguments Ok {A E} _.
Arguments Err {A E} _.

Definition is_ok {A E} (r : result A E) : bool :=
  match r with Ok _ => true | Err _ => false end.

Definition map_err {A E F} (f : E → F) (r : result A E) : result A F :=
  match r with Ok a => Ok a | Err e => Err (f e) end.

Definition ok_or {A E} (o : option A) (e : E) : result A E :=
  match o with Some a => Ok a | None => Err e end.

Definition ok_of {A E} (r : result A E) : option A :=
  match r with Ok a => Some a | Err _ => None end.

(** The [?] operator on a plain [Result]. *)
Definition and_then {A B E} (r : result A E) (f : A → result B E) : result B E :=
  match r with Ok a => f a | Err e => Err e end.

Notation "'let?' x := r 'in' k" := (and_then r (λ x, k))
  (at level 10, x pattern, r at level 100, k at level 200,
   format "'[v' 'let?'  x  :=  r  'in' '/' k ']'").

(** ** Stateful fallible computations

    A method of the program that mutates a component and returns a [Result] is
    a function from the component's state to the result and the state it
    leaves.  The state is kept on the error path too: what was changed before
    a [?] or an early [return Err] stays changed, as in the source. *)
Definition M (S E A : Type) : Type := S → result A E * S.

#[global] Instance M_ret {S E} : MRet (M S E) := λ A a s, (Ok a, s).
#[global] Instance M_bind {S E} : MBind (M S E) :=
  λ A B f m s,
    match m s with
    | (Ok a, s') => f a s'
    | (Err e, s') => (Err e, s')
    end.

Section Monad.
Context {S E : Type}.

Definition fail {A} (e : E) : M S E A := λ s, (Err e, s).
Definition gets {A} (f : S → A) : M S E A := λ s, (Ok (f s), s).
Definition get_state : M S E S := gets (λ s, s).
Definition modify (f : S → S) : M S E unit := λ s, (Ok tt, f s).

(** [return Err(e)] when the condition holds. *)
Definition reject_if (b : bool) (e : E) : M S E unit :=
  if b then fail e else mret tt.

Definition of_result {A} (r : result A E) : M S E A := λ s, (r, s).

(** [match m { Ok(a) => .., Err(e) => .. }] and [if let Ok(a) = m]. *)
Definition attempt {A} (m : M S E A) : M S E (result A E) :=
  λ s, let '(r, s') := m s in (Ok r, s').

(** [m.ok();]: the result is discarded. *)
Definition ignore {A} (m : M S E A) : M S E unit :=
  λ s, (Ok tt, (m s).2).
End Monad.

(** Run an operation of a component held in a field, and map its error. *)
Definition on {S T E F A} (get : S → T) (put : T → S → S) (f : F → E)
    (m : M T F A) : M S E A :=
  λ s, let '(r, t) := m (get s) in (map_err f r, put t s).

(** ** Reasoning about them *)

(** [m] keeps [I] on every path, errors included. *)
Definition preserves {S E A} (I : S → Prop) (m : M S E A) : Prop :=
  ∀ s, I s → I (m s).2.

(** From a state in [P], a normal return is in [Q] and an error return in [R]. *)
Definition triple {S E A} (P : S → Prop) (m : M S E A)
    (Q : A → S → Prop) (R : E → S → Prop) : Prop :=
  ∀ s, P s →
    match m s with
    | (Ok a, s') => Q a s'
    | (Err e, s') => R e s'
    end.

Create HintDb gateway.

Section Rules.
Context {S E : Type} (I : S → Prop).

Lemma preserves_ret {A} (a : A) : preserves (E:=E) I (mret a).
Proof. by intros s. Qed.

Lemma preserves_fail {A} (e : E) : preserves (A:=A) I (fail e).
Proof. by intros s. Qed.

Lemma preserves_gets {A} (f : S → A) : preserves (E:=E) I (gets f).
Proof. by intros s. Qed.

Lemma preserves_get_state : preserves (E:=E) I get_state.
Proof. by intros s. Qed.

Lemma preserves_modify (f : S → S) :
  (∀ s, I s → I (f s)) → preserves (E:=E) I (modify f).
Proof. intros H s. apply H. Qed.

Lemma preserves_of_result {A} (r : result A E) : preserves I (of_result r).
Proof. by intros s. Qed.

Lemma preserves_reject_if (b : bool) (e : E) : preserves I (reject_if b e).
Proof. by intros s; destruct b. Qed.

Lemma preserves_bind {A B} (m : M S E A) (f : A → M S E B) :
  preserves I m → (∀ a, preserves I (f a)) → preserves I (mbind f m).
Proof.
  intros Hm Hf s Hs. unfold mbind, M_bind. specialize (Hm s Hs).
  destruct (m s) as [[a|e] s']; [by apply Hf | done].
Qed.

Lemma preserves_attempt {A} (m : M S E A) :
  preserves I m → preserves I (attempt m).
Proof.
  intros Hm s Hs. unfold attempt. specialize (Hm s Hs). by destruct (m s).
Qed.

Lemma preserves_ignore {A} (m : M S E A) :
  preserves I m → preserves (E:=E) I (ignore m).
Proof. intros Hm s Hs. by apply Hm. Qed.

Lemma preserves_on {T F A} (get : S → T) (put : T → S → S) (g : F → E)
    (m : M T F A) :
  (∀ s, I s → I (put (m (get s)).2 s)) → preserves I (on get put g m).
Proof.
  intros H s Hs. unfold on. specialize (H s Hs). by destruct (m (get s)).
Qed.

Lemma preserves_if {A} (b : bool) (m1 m2 : M S E A) :
  preserves I m1 → preserves I m2 → preserves I (if b then m1 else m2).
Proof. by destruct b. Qed.

Lemma triple_bind {A B} (P : S → Prop) (m : M S E A) (f : A → M S E B) Q Q' R :
  triple P m Q R → (∀ a, triple (Q a) (f a) Q' R) → triple P (mbind f m) Q' R.
Proof.
  intros Hm Hf s Hs. unfold mbind, M_bind. specialize (Hm s Hs).
  destruct (m s) as [[a|e] s']; [by apply Hf | done].
Qed.
End Rules.

#[export] Hint Resolve preserves_ret preserves_fail preserves_gets preserves_get_state
  preserves_of_result preserves_reject_if preserves_attempt preserves_ignore
  preserves_if : gateway.
#[export] Hint Resolve preserves_bind | 3 : gateway.

(** Split a composed operation into its steps and discharge the easy ones. *)
Ltac preserve :=
  repeat first
    [ match goal with |- ∀ _, preserves _ _ => intro end
    | apply preserves_bind
    | apply preserves_if
    | solve [eauto with gateway nocore] ].

(** Run a concrete step of the monad in the goal or in a hypothesis. *)
Ltac unfold_M :=
  unfold get_state, reject_if, attempt, ignore, on, of_result, map_err in *;
  unfold mbind, M_bind, mret, M_ret, fail, gets, modify in *.

(** Case analysis on a scrutinee that contains no other match. *)
Ltac case_inner :=
  match goal with
  | |- context [match ?x with _ => _ end] =>
      lazymatch x with context [match _ with _ => _ end] => fail | _ => destruct x eqn:? end
  | H : context [match ?x with _ => _ end] |- _ =>
      lazymatch x with context [match _ with _ => _ end] => fail | _ => destruct x eqn:? end
  end.

(** Run an operation to the end on every path. *)
Ltac run_M := unfold_M; simpl in *; repeat (case_inner; simpl in *; simplify_eq; simpl in *).

(** ** Machine integers *)

Definition u64_max : Z := 2 ^ 64 - 1.
Definition usize_max : Z := 2 ^ 64 - 1.

(** [a + b] on [u64] and [usize], wrapping as the release build does. *)
Definition u64_add (a b : Z) : Z := (a + b) mod 2 ^ 64.
Definition usize_add (a b : Z) : Z := (a + b) mod 2 ^ 64.
(** [a + b] on [i64]. *)
Definition i64_add (a b : Z) : Z := (a + b + 2 ^ 63) mod 2 ^ 64 - 2 ^ 63.

Definition usize_saturating_add (a b : Z) : Z := Z.min (a + b) usize_max.
Definition usize_saturating_mul (a b : Z) : Z := Z.min (a * b) usize_max.

Lemma u64_add_small a b : 0 ≤ a → 0 ≤ b → a + b ≤ u64_max → u64_add a b = a + b.
Proof. unfold u64_add, u64_max. intros. apply Z.mod_small. lia. Qed.

Lemma usize_add_small a b :
  0 ≤ a → 0 ≤ b → a + b ≤ usize_max → usize_add a b = a + b.
Proof. unfold usize_add, usize_max. intros. apply Z.mod_small. lia. Qed.

Lemma i64_add_small a b : - 2 ^ 63 ≤ a + b < 2 ^ 63 → i64_add a b = a + b.
Proof. unfold i64_add. intros. rewrite Z.mod_small; lia. Qed.

(** [Instant::duration_since], which saturates at zero. *)
Definition duration_since (now earlier : Z) : Z := Z.max 0 (now - earlier).

(** ** Maps *)

(** [map.values().filter(p).count()]. *)
Definition count_values {K A} `{Countable K} (p : A → bool) (m : gmap K A) : nat :=
  size (filter (λ kv, p kv.2 = true) m).

(** [a.extend(b)]: the entries of [b] win. *)
Definition extend {K A} `{Countable K} (a b : gmap K A) : gmap K A := b ∪ a.

(** [map.retain(|_, v| p(v))]. *)
Definition retain {K A} `{Countable K} (p : A → bool) (m : gmap K A) : gmap K A :=
  filter (λ kv, p kv.2 = true) m.

Section Maps.
Context {K A : Type} `{Countable K}.
Implicit Types (m : gmap K A) (p : A → bool).

Lemma lookup_extend (a b : gmap K A) k :
  extend a b !! k = match b !! k with Some v => Some v | None => a !! k end.
Proof.
  unfold extend. rewrite lookup_union. by destruct (b !! k), (a !! k).
Qed.

Lemma retain_Some p m k v : retain p m !! k = Some v ↔ m !! k = Some v ∧ p v = true.
Proof. apply map_lookup_filter_Some. Qed.

Lemma retain_lookup p m k :
  retain p m !! k =
    match m !! k with Some v => if p v then Some v else None | None => None end.
Proof.
  destruct (retain p m !! k) as [v|] eqn:E.
  - apply retain_Some in E as [-> ->]. done.
  - destruct (m !! k) as [v|] eqn:Em; [|done].
    destruct (p v) eqn:Ep; [|done].
    assert (retain p m !! k = Some v) by by apply retain_Some. congruence.
Qed.

Lemma retain_subseteq p m : retain p m ⊆ m.
Proof. apply map_filter_subseteq. Qed.

Lemma count_values_insert p m k v :
  m !! k = None →
  count_values p (<[k := v]> m) = (count_values p m + if p v then 1 else 0)%nat.
Proof.
  intros Hk. unfold count_values. destruct (p v) eqn:Ep.
  - rewrite map_filter_insert_True by done.
    rewrite map_size_insert_None; [lia|].
    apply map_lookup_filter_None. left. done.
  - rewrite map_filter_insert_False by (simpl; by rewrite Ep).
    rewrite delete_id by done. lia.
Qed.

Lemma count_values_mono p m m' : m ⊆ m' → (count_values p m ≤ count_values p m')%nat.
Proof.
  intros Hs. unfold count_values. apply map_subseteq_size.
  by apply map_filter_subseteq_mono.
Qed.

Lemma count_values_dom p m :
  count_values p m = size (dom (filter (λ kv, p kv.2 = true) m)).
Proof. unfold count_values. by rewrite size_dom. Qed.
End Maps.

(** Every counted entry of [m'] comes from a counted entry of [m]. *)
Lemma count_values_le {K A B} `{Countable K} (p : A → bool) (q : B → bool)
    (m : gmap K A) (m' : gmap K B) :
  (∀ k v', m' !! k = Some v' → q v' = true → ∃ v, m !! k = Some v ∧ p v = true) →
  (count_values q m' ≤ count_values p m)%nat.
Proof.
  intros Hle. rewrite !count_values_dom. apply subseteq_size. intros k.
  rewrite !elem_of_dom. intros [v' [Hv' Hq]%map_lookup_filter_Some].
  destruct (Hle k v' Hv' Hq) as (v & Hv & Hp). exists v. by apply map_lookup_filter_Some.
Qed.

(** One more entry counts at most once. *)
Lemma count_values_insert_le {K A} `{Countable K} (p : A → bool) (m : gmap K A) k v :
  (count_values p (<[k := v]> m) ≤ count_values p m + 1)%nat.
Proof.
  rewrite <- (insert_delete_eq m k v). rewrite count_values_insert by apply lookup_delete_eq.
  pose proof (count_values_mono p (delete k m) m (delete_subseteq m k)). case_match; lia.
Qed.
