(* ===== verification/Text.v ===== *)
(** * Strings

    Rust strings are UTF-8 byte sequences; a [string] here is that byte
    sequence.  Functions of the source that walk [chars()] and compare with
    ASCII characters only are byte functions on valid UTF-8; the ones that
    produce one output per character ([safe_username]) skip the continuation
    bytes. *)
From S2P Require Import Prelude.
From Stdlib Require Import Ascii String.

#[global] Open Scope string_scope.
#[global] Open Scope list_scope.
#[global] Open Scope Z_scope.

Definition code (c : ascii) : N := N_of_ascii c.

Definition in_range (lo hi : N) (c : ascii) : bool :=
  ((lo <=? code c) && (code c <=? hi))%N.

Definition is_ascii_digit (c : ascii) : bool := in_range 48 57 c.
Definition is_ascii_uppercase (c : ascii) : bool := in_range 65 90 c.
Definition is_ascii_alphabetic (c : ascii) : bool :=
  in_range 65 90 c || in_range 97 122 c.
Definition is_ascii_alphanumeric (c : ascii) : bool :=
  is_ascii_alphabetic c || is_ascii_digit c.

(** The second and later bytes of a UTF-8 encoded character. *)
Definition is_continuation (c : ascii) : bool := in_range 128 191 c.

Definition to_ascii_lowercase_char (c : ascii) : ascii :=
  if is_ascii_uppercase c then ascii_of_N (code c + 32) else c.

Fixpoint string_map (f : ascii → ascii) (s : string) : string :=
  match s with
  | EmptyString => EmptyString
  | String c s => String (f c) (string_map f s)
  end.

Definition to_ascii_lowercase : string → string := string_map to_ascii_lowercase_char.

Fixpoint string_forallb (p : ascii → bool) (s : string) : bool :=
  match s with
  | EmptyString => true
  | String c s => p c && string_forallb p s
  end.

Definition is_empty (s : string) : bool :=
  match s with EmptyString => true | _ => false end.

(** [str::len]: bytes. *)
Definition len (s : string) : Z := Z.of_nat (String.length s).

Definition starts_with (p s : string) : bool := String.prefix p s.

Fixpoint strip_prefix (p s : string) : option string :=
  match p, s with
  | EmptyString, _ => Some s
  | String a p, String b s => if Ascii.eqb a b then strip_prefix p s else None
  | String _ _, EmptyString => None
  end.

(** [str::find(needle)] with its split: the text before the first occurrence
    and the text after it. *)
Fixpoint split_once (needle s : string) : option (string * string) :=
  match strip_prefix needle s with
  | Some rest => Some (EmptyString, rest)
  | None =>
      match s with
      | EmptyString => None
      | String c s =>
          match split_once needle s with
          | Some (before, after) => Some (String c before, after)
          | None => None
          end
      end
  end.

Definition contains (needle s : string) : bool :=
  match split_once needle s with Some _ => true | None => false end.

Fixpoint rev_append (s acc : string) : string :=
  match s with
  | EmptyString => acc
  | String c s => rev_append s (String c acc)
  end.
Definition string_rev (s : string) : string := rev_append s EmptyString.

Definition strip_suffix (p s : string) : option string :=
  string_rev <$> strip_prefix (string_rev p) (string_rev s).
Definition ends_with (p s : string) : bool :=
  match strip_suffix p s with Some _ => true | None => false end.

(** [str::trim]: the code points of Unicode [White_Space], as bytes. *)
Definition whitespace : list string :=
  let b n := String (ascii_of_N n) EmptyString in
  [b 9%N; b 10%N; b 11%N; b 12%N; b 13%N; b 32%N;
   b 194%N +:+ b 133%N; b 194%N +:+ b 160%N;
   b 225%N +:+ b 154%N +:+ b 128%N;
   b 226%N +:+ b 128%N +:+ b 168%N; b 226%N +:+ b 128%N +:+ b 169%N;
   b 226%N +:+ b 128%N +:+ b 175%N; b 226%N +:+ b 129%N +:+ b 159%N;
   b 227%N +:+ b 128%N +:+ b 128%N]
  ++ ((λ n, b 226%N +:+ b 128%N +:+ b (128 + N.of_nat n)%N) <$> seq 0 11).

Fixpoint first_stripped (ps : list string) (s : string) : option string :=
  match ps with
  | [] => None
  | p :: ps =>
      match strip_prefix p s with
      | Some rest => Some rest
      | None => first_stripped ps s
      end
  end.

Fixpoint trim_loop (ps : list string) (fuel : nat) (s : string) : string :=
  match fuel with
  | O => s
  | S fuel =>
      match first_stripped ps s with
      | Some rest => trim_loop ps fuel rest
      | None => s
      end
  end.

Definition trim_start (s : string) : string :=
  trim_loop whitespace (String.length s) s.
Definition trim_end (s : string) : string :=
  string_rev (trim_loop (string_rev <$> whitespace) (String.length s) (string_rev s)).
Definition trim (s : string) : string := trim_end (trim_start s).

(** [format!("{:02}", n)] for a two-digit counter and [format!("{:016x}", n)]. *)
Definition digit_char (base_ten_or_more : N) : ascii :=
  if (base_ten_or_more <? 10)%N then ascii_of_N (48 + base_ten_or_more)
  else ascii_of_N (87 + base_ten_or_more).

Fixpoint digits_padded (base : N) (width : nat) (n : N) (acc : string) : string :=
  match width with
  | O => acc
  | S width => digits_padded base width (n / base) (String (digit_char (n mod base)) acc)
  end.

Definition format_02 (n : Z) : string := digits_padded 10 2 (Z.to_N n) EmptyString.
Definition format_016x (n : Z) : string := digits_padded 16 16 (Z.to_N n) EmptyString.

(** ** Facts *)

#[global] Arguments String.append : simpl nomatch.

Lemma string_app_nil_r s : s +:+ "" = s.
Proof. induction s as [|c s IH]; simpl; [done|by rewrite IH]. Qed.

Lemma string_app_assoc a b c : (a +:+ b) +:+ c = a +:+ (b +:+ c).
Proof. induction a as [|x a IH]; simpl; [done|by rewrite IH]. Qed.

Lemma string_app_inv_l a b c : a +:+ b = a +:+ c → b = c.
Proof. induction a as [|x a IH]; simpl; [done|]. intros [= ?]. by apply IH. Qed.

Lemma string_length_app a b :
  String.length (a +:+ b) = (String.length a + String.length b)%nat.
Proof. induction a as [|x a IH]; simpl; [done|by rewrite IH]. Qed.

Lemma strip_prefix_app p s : strip_prefix p (p +:+ s) = Some s.
Proof. induction p as [|c p IH]; simpl; [done|]. by rewrite Ascii.eqb_refl. Qed.

Lemma strip_prefix_Some p s rest : strip_prefix p s = Some rest ↔ s = p +:+ rest.
Proof.
  split; [|intros ->; apply strip_prefix_app].
  revert s. induction p as [|c p IH]; intros s; simpl; [by intros [= ->]|].
  destruct s as [|d s]; [done|]. destruct (Ascii.eqb_spec c d) as [->|]; [|done].
  intros ->%IH. done.
Qed.

Lemma split_once_Some n s a b : split_once n s = Some (a, b) → s = a +:+ n +:+ b.
Proof.
  revert a b. induction s as [|c s IH]; intros a b; simpl.
  - destruct (strip_prefix n "") eqn:E; [|done]. intros [= <- <-].
    by apply strip_prefix_Some in E.
  - destruct (strip_prefix n (String c s)) eqn:E.
    + intros [= <- <-]. by apply strip_prefix_Some in E.
    + destruct (split_once n s) as [[x y]|] eqn:Es; [|done].
      intros [= <- <-]. simpl. by rewrite (IH x y).
Qed.

(** The character does not occur before the first separator. *)
Lemma split_once_char c a b :
  string_forallb (λ d, negb (Ascii.eqb c d)) a = true →
  split_once (String c "") (a +:+ String c b) = Some (a, b).
Proof.
  induction a as [|d a IH]; simpl; [by rewrite Ascii.eqb_refl|].
  intros [Hd Ha]%andb_true_iff. apply negb_true_iff in Hd. by rewrite Hd, IH.
Qed.

Lemma string_forallb_impl (p q : ascii → bool) s :
  (∀ c, p c = true → q c = true) → string_forallb p s = true → string_forallb q s = true.
Proof.
  intros H. induction s as [|c s IH]; [done|]. cbn [string_forallb].
  intros [Hc Hs]%andb_true_iff. by rewrite (H _ Hc), IH.
Qed.

Lemma string_forallb_map p f s :
  (∀ c, p (f c) = true) → string_forallb p (string_map f s) = true.
Proof. intros Hp. induction s as [|c s IH]; simpl; [done|]. by rewrite Hp. Qed.

Lemma digits_padded_length base w n acc :
  String.length (digits_padded base w n acc) = (w + String.length acc)%nat.
Proof.
  revert n acc. induction w as [|w IH]; intros; simpl; [done|].
  rewrite IH. simpl. lia.
Qed.

Lemma code_ascii_of_N n : (n < 256)%N → code (ascii_of_N n) = n.
Proof. apply N_ascii_embedding. Qed.

Lemma digit_char_inj a b :
  (a < 16)%N → (b < 16)%N → digit_char a = digit_char b → a = b.
Proof.
  intros Ha Hb H%(f_equal code). revert H. unfold digit_char.
  destruct (N.ltb_spec a 10), (N.ltb_spec b 10); rewrite !code_ascii_of_N; lia.
Qed.

(** Fixed-width rendering is injective on the numbers that fit. *)
Lemma digits_padded_inj base w : (1 < base ≤ 16)%N → ∀ n m a b,
  (n < base ^ N.of_nat w)%N → (m < base ^ N.of_nat w)%N →
  String.length a = String.length b →
  digits_padded base w n a = digits_padded base w m b → n = m ∧ a = b.
Proof.
  intros Hb. induction w as [|w IH]; intros n m a b Hn Hm Hl; simpl.
  - simpl in *. intros ->. split; [lia|done].
  - rewrite Nat2N.inj_succ, N.pow_succ_r' in Hn, Hm. intros H.
    apply IH in H as [Hd [= Hc ->]].
    + apply digit_char_inj in Hc;
        [| pose proof (N.mod_lt n base); lia | pose proof (N.mod_lt m base); lia].
      split; [|done]. rewrite (N.div_mod n base), (N.div_mod m base) by lia.
      by rewrite Hd, Hc.
    + apply N.Div0.div_lt_upper_bound. lia.
    + apply N.Div0.div_lt_upper_bound. lia.
    + simpl. by rewrite Hl.
Qed.

Lemma format_02_inj n m :
  0 ≤ n < 100 → 0 ≤ m < 100 → format_02 n = format_02 m → n = m.
Proof.
  intros Hn Hm H. apply digits_padded_inj in H as [H _]; try done; try lia.
Qed.

Lemma format_016x_inj n m :
  0 ≤ n ≤ u64_max → 0 ≤ m ≤ u64_max → format_016x n = format_016x m → n = m.
Proof.
  unfold u64_max. intros Hn Hm H.
  apply digits_padded_inj in H as [H _]; try done; simpl; lia.
Qed.

(** ** JSON values ([serde_json::Value] with [preserve_order])

    The data the program builds and inspects: objects keep insertion order.  A
    number that is no integer of 64 bits is the text it is printed as. *)

Inductive Value :=
| Null
| Bool (b : bool)
| Number (n : Z)
| Float (text : string)
| VString (s : string)
| Array (l : list Value)
| Object (fields : list (string * Value)).

(** [Value::get(name)] on an object. *)
Fixpoint field (name : string) (fields : list (string * Value)) : option Value :=
  match fields with
  | [] => None
  | (k, v) :: fields => if String.eqb k name then Some v else field name fields
  end.

Definition value_get (name : string) (v : Value) : option Value :=
  match v with Object fields => field name fields | _ => None end.

Definition as_str (v : Value) : option string :=
  match v with VString s => Some s | _ => None end.

(** [json!] of an [Option]. *)
Definition opt_value {A} (f : A → Value) (o : option A) : Value :=
  match o with Some a => f a | None => Null end.

(** [#[derive(Deserialize)]] of a struct: from an object each field exactly once,
    other fields ignored; from an array the fields in order. *)
Definition unique_field (fields : list (string * Value)) (name : string) : option Value :=
  match filter (λ e, e.1 = name) fields with
  | [(_, v)] => Some v
  | _ => None
  end.
Definition struct_fields (names : list string) (v : Value) : option (list Value) :=
  match v with
  | Object fields => mapM (unique_field fields) names
  | Array l => if (List.length l =? List.length names)%nat then Some l else None
  | _ => None
  end.

Definition as_unsigned (max : Z) (v : Value) : option Z :=
  match v with
  | Number n => if (0 <=? n) && (n <=? max) then Some n else None
  | _ => None
  end.
