(* ===== verification/Arrow.v ===== *)
(** * The Arrow interfaces the program calls

    [arrow_array::RecordBatch], [arrow_ipc::writer::FileWriter] and
    [arrow_ipc::reader::FileReader] are third-party code: the development is
    stated over any implementation of the two classes below, whose laws are
    the documented behaviour it relies on.  [Concrete] gives an instance that
    evaluates. *)
From S2P Require Import Prelude Text.

Class Arrow := {
  Schema : Type;
  Schema_eq_dec :: EqDecision Schema;
  schema_empty : Schema;
  Row : Type;
  RecordBatch : Type;
  batch_schema : RecordBatch → Schema;
  batch_rows : RecordBatch → list Row;
  num_columns : RecordBatch → Z;
  (** [columns().iter().map(get_array_memory_size)] *)
  column_sizes : RecordBatch → list Z;
  slice : RecordBatch → Z → Z → RecordBatch;
  column_sizes_nonneg b : Forall (λ n, 0 ≤ n) (column_sizes b);
  slice_rows b offset length_ :
    0 ≤ offset → 0 ≤ length_ →
    offset + length_ ≤ Z.of_nat (length (batch_rows b)) →
    batch_rows (slice b offset length_)
    = take (Z.to_nat length_) (drop (Z.to_nat offset) (batch_rows b));
}.

Definition num_rows `{Arrow} (b : RecordBatch) : Z := Z.of_nat (length (batch_rows b)).

(** The rows of a sequence of batches, in order. *)
Definition all_rows `{Arrow} (bs : list RecordBatch) : list Row := bs ≫= batch_rows.

Definition sum_rows `{Arrow} (bs : list RecordBatch) : Z :=
  foldr (λ b n, num_rows b + n) 0 bs.

Lemma sum_rows_all_rows `{Arrow} bs : sum_rows bs = Z.of_nat (length (all_rows bs)).
Proof.
  unfold all_rows. induction bs as [|b bs IH]; csimpl; [done|].
  rewrite IH, length_app. unfold num_rows. lia.
Qed.

Lemma sum_rows_app `{Arrow} a b : sum_rows (a ++ b) = sum_rows a + sum_rows b.
Proof. induction a as [|x a IH]; simpl; [done|]. rewrite IH. lia. Qed.

(** Arrow IPC files.  A writer is created for a schema, takes batches one at a
    time, and produces the file when it is finished; a reader opens a file and
    iterates over its batches. *)
Class ArrowIpc `{Arrow} := {
  Bytes : Type;
  bytes_empty : Bytes;
  Writer : Type;
  writer_try_new : Schema → result Writer string;
  writer_write : RecordBatch → M Writer string unit;
  writer_finish : Writer → result Bytes string;
  reader_try_new : Bytes → result (list (result RecordBatch string)) string;
}.

(** Write batches in order, stopping at the first error. *)
Fixpoint write_all `{ArrowIpc} (bs : list RecordBatch) : M Writer string unit :=
  match bs with
  | [] => mret tt
  | b :: bs => writer_write b ≫= λ _, write_all bs
  end.

(** A file read back has the batches that were written to it. *)
Class ArrowIpcLaws `{ArrowIpc} : Prop := {
  ipc_roundtrip schema w0 bs w bytes :
    writer_try_new schema = Ok w0 →
    write_all bs w0 = (Ok tt, w) →
    writer_finish w = Ok bytes →
    reader_try_new bytes = Ok (Ok <$> bs);
}.

Lemma write_all_app `{ArrowIpc} a b w w' :
  write_all a w = (Ok tt, w') → write_all (a ++ b) w = write_all b w'.
Proof.
  revert w. induction a as [|x a IH]; intros w; simpl.
  - by intros [= ->].
  - unfold_M. destruct (writer_write x w) as [[[]|e] w1]; [apply IH|done].
Qed.

(** [FileReader::collect::<Result<Vec<_>, _>>()]. *)
Fixpoint collect_results {A E} (rs : list (result A E)) : result (list A) E :=
  match rs with
  | [] => Ok []
  | Ok a :: rs => match collect_results rs with Ok l => Ok (a :: l) | Err e => Err e end
  | Err e :: _ => Err e
  end.

Lemma collect_results_Ok {A E} (l : list A) : collect_results (E:=E) (Ok <$> l) = Ok l.
Proof. induction l as [|a l IH]; simpl; [done|]. unfold fmap in IH. by rewrite IH. Qed.

(** ** A concrete implementation *)
Module Concrete.
Record batch := {
  schema : list string;
  rows : list (list Z);
}.

Definition cut (b : batch) (offset length_ : Z) : batch :=
  {| schema := schema b;
     rows := take (Z.to_nat length_) (drop (Z.to_nat offset) (rows b)) |}.

(** Eight bytes a value. *)
Definition sizes (b : batch) : list Z :=
  (λ _, 8 * Z.of_nat (length (rows b))) <$> schema b.

Lemma sizes_nonneg b : Forall (λ n, 0 ≤ n) (sizes b).
Proof. apply Forall_fmap, Forall_true. intros. simpl. lia. Qed.

Definition arrow : Arrow := {|
  Schema := list string;
  schema_empty := [];
  Row := list Z;
  RecordBatch := batch;
  batch_schema := schema;
  batch_rows := rows;
  num_columns b := Z.of_nat (length (schema b));
  column_sizes := sizes;
  slice := cut;
  column_sizes_nonneg := sizes_nonneg;
  slice_rows _ _ _ _ _ _ := eq_refl;
|}.
#[export] Existing Instance arrow.

(** A writer that rejects a batch of another schema, as Arrow's does. *)
Definition write (b : batch) : M (list string * list batch) string unit :=
  λ w, if decide (schema b = w.1) then (Ok tt, (w.1, w.2 ++ [b]))
       else (Err "schema mismatch", w).

Definition ipc : ArrowIpc := {|
  Bytes := list batch;
  bytes_empty := [];
  Writer := list string * list batch;
  writer_try_new s := Ok (s, []);
  writer_write := write;
  writer_finish w := Ok w.2;
  reader_try_new bs := Ok (Ok <$> bs);
|}.
#[export] Existing Instance ipc.

Lemma write_all_batches bs w w' : write_all bs w = (Ok tt, w') → w'.2 = w.2 ++ bs.
Proof.
  revert w. induction bs as [|b bs IH]; intros w; simpl.
  - intros [= <-]. by rewrite app_nil_r.
  - unfold_M. simpl. unfold write. case_decide; [|done].
    intros ->%IH. simpl. by rewrite <-app_assoc.
Qed.

#[export] Instance ipc_laws : ArrowIpcLaws.
Proof.
  constructor. intros schema w0 bs w bytes [= <-] Hw [= <-].
  simpl. by rewrite (write_all_batches _ _ _ Hw).
Qed.
End Concrete.
