(* ===== verification/DriverApi.v ===== *)
(** * Engine adapter contracts (crates/qcli-driver-api/src/lib.rs)

    The data of the adapter interface, the [EngineAdapter] trait as a record of
    operations with the trait's default methods, and what an execution of an
    adapter is for its caller: the events and batches it sends to its sink and
    the result it returns. *)
From S2P Require Import Prelude Text Arrow.

Inductive QueryState :=
| Submitted | Running | ProducingResults | Completed | Cancelling | Cancelled | Failed.

#[global] Instance QueryState_eq_dec : EqDecision QueryState.
Proof. solve_decision. Defined.

Record QueryProgress := {
  progress_state : option string;
  progress_scheduled : option bool;
  completed_splits : option Z;
  total_splits : option Z;
  processed_rows : option Z;
  processed_bytes : option Z;
  elapsed_millis : option Z;
}.

Inductive QueryEvent :=
| State (s : QueryState)
| EngineQueryId (id : string)
| RowsProduced (rows : Z)
| Progress (p : QueryProgress)
| SessionProperties (properties : gmap string string).

Record QueryRequest := {
  qcli_query_id : string;
  rq_session_id : string;
  rq_session_version : Z;
  rq_target : string;
  rq_engine : string;
  rq_sql : string;
  rq_properties : gmap string string;
}.

Record DriverError := { de_code : string; de_message : string }.

#[global] Instance DriverError_eq_dec : EqDecision DriverError.
Proof. solve_decision. Defined.

Definition DriverError_new (code message : string) : DriverError :=
  {| de_code := code; de_message := message |}.

(** [impl Display for DriverError]. *)
Definition DriverError_display (e : DriverError) : string :=
  de_code e +:+ ": " +:+ de_message e.

(** [CancellationSignal(Arc<AtomicBool>)]: the flag every clone shares. *)
Definition CancellationSignal := bool.
Definition signal_default : CancellationSignal := false.
Definition signal_cancel (_ : CancellationSignal) : CancellationSignal := true.
Definition is_cancelled (s : CancellationSignal) : bool := s.

Inductive IngestTableExists := Fail | Append | Replace.

Record IngestRequest := {
  ig_session_id : string;
  ig_session_version : Z;
  ig_target : string;
  ig_engine : string;
  ig_properties : gmap string string;
  ig_catalog : option string;
  ig_schema : option string;
  ig_table : string;
  create_if_missing : bool;
  if_exists : IngestTableExists;
  temporary : bool;
  ig_options : gmap string string;
}.

Inductive AdapterCapability :=
| StreamResults | CancelQuery | ListCatalogs | ListSchemas | ListObjects
| DescribeObject | PreparedStatements | TypedParameters | StatementUpdates
| BulkIngest.

#[global] Instance AdapterCapability_eq_dec : EqDecision AdapterCapability.
Proof. solve_decision. Defined.

Definition AdapterCapability_ALL : list AdapterCapability :=
  [StreamResults; CancelQuery; ListCatalogs; ListSchemas; ListObjects;
   DescribeObject; PreparedStatements; TypedParameters; StatementUpdates;
   BulkIngest].

Definition AdapterCapability_as_str (c : AdapterCapability) : string :=
  match c with
  | StreamResults => "stream_results"
  | CancelQuery => "cancel_query"
  | ListCatalogs => "list_catalogs"
  | ListSchemas => "list_schemas"
  | ListObjects => "list_objects"
  | DescribeObject => "describe_object"
  | PreparedStatements => "prepared_statements"
  | TypedParameters => "typed_parameters"
  | StatementUpdates => "statement_updates"
  | BulkIngest => "bulk_ingest"
  end.

(** The [BTreeSet] of capabilities, as the list of its elements. *)
Record AdapterCapabilities := { supported : list AdapterCapability }.

Definition from_supported (cs : list AdapterCapability) : AdapterCapabilities :=
  {| supported := cs |}.

Definition supports (cs : AdapterCapabilities) (c : AdapterCapability) : bool :=
  bool_decide (c ∈ supported cs).

Inductive IdentifierCase := Insensitive | Upper | Lower | Mixed.

Record IdentifierCapabilities := {
  unquoted : IdentifierCase;
  quoted : IdentifierCase;
  quote : string;
}.

Definition dquote : string := String (Ascii.ascii_of_N 34) EmptyString.

Definition IdentifierCapabilities_default : IdentifierCapabilities :=
  {| unquoted := Insensitive; quoted := Mixed; quote := dquote |}.

Record MetadataRequest := {
  mr_identity : string;
  mr_target : string;
  mr_engine : string;
  mr_properties : gmap string string;
  mr_catalog : option string;
  mr_schema : option string;
  mr_pattern : option string;
}.

Record CatalogMetadata := { cat_name : string }.
Record SchemaMetadata := { sm_catalog : option string; sm_name : string }.
Inductive ObjectKind := Table | View | Other.
Record ObjectMetadata := {
  om_catalog : option string;
  om_schema : option string;
  om_name : string;
  om_kind : ObjectKind;
}.
Record ColumnMetadata := {
  cm_name : string;
  cm_data_type : string;
  cm_nullable : option bool;
  cm_comment : option string;
}.

(** What an adapter call observes besides its request: the time it is made
    and the answer of each poll of the cancellation signal. *)
Record Invocation := {
  invoked_at : Z;
  poll : nat → bool;
}.

Section Adapter.
Context `{Arrow}.

Record PreparedStatementMetadata := {
  dataset_schema : Schema;
  parameter_schema : Schema;
}.

(** [QueryItem] (crates/qcli-core/src/lib.rs): an event or a batch. *)
Inductive QueryItem :=
| Event (e : QueryEvent)
| Batch (b : RecordBatch).

(** What the caller of [execute] sees of it: what is sent to the event and
    batch channels of the [QuerySink], in sending order, and the returned
    result. *)
Record Execution := {
  ex_items : list QueryItem;
  ex_result : result unit DriverError;
}.

Definition no_output (e : DriverError) : Execution :=
  {| ex_items := []; ex_result := Err e |}.

(** [trait EngineAdapter]. *)
Record EngineAdapter := {
  engine : string;
  capabilities : AdapterCapabilities;
  identifier_capabilities : IdentifierCapabilities;
  execute : QueryRequest → Invocation → Execution;
  prepare : QueryRequest → Invocation → result PreparedStatementMetadata DriverError;
  execute_prepared : QueryRequest → list RecordBatch → Invocation → Execution;
  execute_update : QueryRequest → Invocation → result Z DriverError;
  execute_prepared_update :
    QueryRequest → list RecordBatch → Invocation → result Z DriverError;
  ingest : IngestRequest → list RecordBatch → Invocation → result Z DriverError;
  list_catalogs : MetadataRequest → Invocation → result (list CatalogMetadata) DriverError;
  list_schemas : MetadataRequest → Invocation → result (list SchemaMetadata) DriverError;
  list_objects : MetadataRequest → Invocation → result (list ObjectMetadata) DriverError;
  describe_object :
    MetadataRequest → string → Invocation → result (list ColumnMetadata) DriverError;
}.

(** *** The trait's default methods *)

Definition default_prepare (_ : QueryRequest) (_ : Invocation) :
    result PreparedStatementMetadata DriverError :=
  Ok {| dataset_schema := schema_empty; parameter_schema := schema_empty |}.

Definition all_without_columns (parameters : list RecordBatch) : bool :=
  forallb (λ b, num_columns b =? 0) parameters.

Definition default_execute_prepared
    (exec : QueryRequest → Invocation → Execution)
    (request : QueryRequest) (parameters : list RecordBatch) (i : Invocation) :
    Execution :=
  if all_without_columns parameters then exec request i
  else no_output (DriverError_new "unsupported_capability"
         "native typed parameter binding is not supported by this adapter").

Definition default_execute_update (_ : QueryRequest) (_ : Invocation) :
    result Z DriverError :=
  Err (DriverError_new "unsupported_capability"
    "native statement update counts are not supported by this adapter").

Definition default_execute_prepared_update
    (update : QueryRequest → Invocation → result Z DriverError)
    (request : QueryRequest) (parameters : list RecordBatch) (i : Invocation) :
    result Z DriverError :=
  if match parameters with [] => true | _ => false end
     || all_without_columns parameters
  then update request i
  else Err (DriverError_new "unsupported_capability"
         "native typed prepared updates are not supported by this adapter").

Definition default_ingest (_ : IngestRequest) (_ : list RecordBatch) (_ : Invocation) :
    result Z DriverError :=
  Err (DriverError_new "unsupported_capability"
    "Arrow bulk ingestion is not supported by this adapter").

Definition default_list_catalogs (_ : MetadataRequest) (_ : Invocation) :
    result (list CatalogMetadata) DriverError :=
  Err (DriverError_new "unsupported_capability" "catalog discovery is not supported").
Definition default_list_schemas (_ : MetadataRequest) (_ : Invocation) :
    result (list SchemaMetadata) DriverError :=
  Err (DriverError_new "unsupported_capability" "schema discovery is not supported").
Definition default_list_objects (_ : MetadataRequest) (_ : Invocation) :
    result (list ObjectMetadata) DriverError :=
  Err (DriverError_new "unsupported_capability" "object discovery is not supported").
Definition default_describe_object (_ : MetadataRequest) (_ : string) (_ : Invocation) :
    result (list ColumnMetadata) DriverError :=
  Err (DriverError_new "unsupported_capability" "object description is not supported").
End Adapter.

(** The wire names of the capabilities are pairwise different. *)
Lemma AdapterCapability_as_str_inj c d :
  AdapterCapability_as_str c = AdapterCapability_as_str d → c = d.
Proof. by destruct c, d. Qed.

Lemma AdapterCapability_ALL_complete c : c ∈ AdapterCapability_ALL.
Proof. destruct c; set_solver. Qed.
