(* ===== verification/Auth.v ===== *)
(** * Authentication and caller policy (crates/qcli-auth/src/lib.rs)

    Principals and their target allowlists, API-key and OIDC authenticators,
    and the composite that tries several.  Argon2, the JWT library, the clock
    and the files are arguments. *)
From S2P Require Import Prelude Text.
From Stdlib Require Import Ascii.

Record AuthenticatedPrincipal := {
  principal_id : string;
  allowed_targets : gset string;
  max_sessions : Z;
  max_concurrent_queries : Z;
}.

Definition can_use_target (p : AuthenticatedPrincipal) (target : string) : bool :=
  bool_decide ("*" ∈ allowed_targets p) || bool_decide (target ∈ allowed_targets p).

Inductive AuthenticationErrorKind := Missing | Invalid | Configuration.

#[global] Instance AuthenticationErrorKind_eq_dec : EqDecision AuthenticationErrorKind.
Proof. solve_decision. Defined.

Record AuthenticationError := {
  ae_kind : AuthenticationErrorKind;
  ae_message : string;
}.

Definition AuthenticationError_invalid : AuthenticationError :=
  {| ae_kind := Invalid; ae_message := "invalid or expired bearer credential" |}.

(** [SecretString]: the text is reachable through [expose] only. *)
Record SecretString := { secret_text : string }.
Definition SecretString_debug (_ : SecretString) : string := "SecretString(<redacted>)".
Definition SecretString_display (_ : SecretString) : string := "<redacted>".

(** [trait Authenticator]: a bearer credential is accepted or rejected at a
    time; authentication may change the authenticator (key reload). *)
Definition Authenticator (S : Type) : Type :=
  string → Z → M S AuthenticationError AuthenticatedPrincipal.

(** The trait's default [authenticate_immediate]. *)
Definition default_authenticate_immediate {S} : Authenticator S := λ _ _,
  fail {| ae_kind := Configuration;
          ae_message := "authentication provider does not support immediate validation" |}.

Definition default_max_sessions : Z := 8.
Definition default_max_concurrent_queries : Z := 4.

(** ** API keys *)

Record PrincipalEntry := {
  pe_targets : gset string;
  pe_max_sessions : Z;
  pe_max_concurrent_queries : Z;
}.

Record KeyEntry := {
  ke_principal : string;
  ke_secret_hash : string;
  ke_enabled : bool;
  ke_expires_at : option Z;
}.

Definition parse_api_key (key : string) : option (string * string) :=
  match strip_prefix "qcli_k1_" key with
  | None => None
  | Some rest =>
      match split_once "_" rest with
      | None => None
      | Some (key_id, secret) =>
          if negb (is_empty key_id) && negb (is_empty secret)
          then Some (key_id, secret) else None
      end
  end.

Definition key_id_char (c : ascii) : bool :=
  is_ascii_alphanumeric c || Ascii.eqb c "-"%char.

Record ApiKeyAuthenticator := {
  ak_path : string;
  ak_principals : gmap string PrincipalEntry;
  ak_keys : gmap string KeyEntry;
  ak_dummy_hash : string;
}.

Section Argon2.
(** [PasswordHash::new(hash).is_ok()]. *)
Variable hash_parses : string → bool.
(** [Argon2::default().verify_password(secret, hash).is_ok()]. *)
Variable verify_password : string → string → bool.
(** [Argon2::default().hash_password(secret, salt)]. *)
Variable hash_password : string → string → result string string.
(** [SaltString::encode_b64]. *)
Variable encode_b64 : string → result string string.

(** [generate_api_key_material]; the three random UUIDs are arguments. *)
Definition generate_api_key_material (key_id uuid1 uuid2 uuid3 : string) :
    result (SecretString * string) AuthenticationError :=
  if is_empty key_id || negb (string_forallb key_id_char key_id)
  then Err {| ae_kind := Configuration;
              ae_message := "key ID must contain only letters, digits, and '-'" |}
  else
    let secret := uuid1 +:+ uuid2 in
    let? salt := map_err (λ error, {| ae_kind := Configuration;
      ae_message := "could not generate API-key salt: " +:+ error |}) (encode_b64 uuid3) in
    let? hash := map_err (λ error, {| ae_kind := Configuration;
      ae_message := "could not hash API key: " +:+ error |}) (hash_password secret salt) in
    Ok ({| secret_text := "qcli_k1_" +:+ key_id +:+ "_" +:+ secret |}, hash).

(** [ApiKeyAuthenticator::authenticate_immediate].  The hash is verified
    before the key is looked at, also for an unknown key. *)
Definition api_key_authenticate (a : ApiKeyAuthenticator) (bearer : string) (now : Z) :
    result AuthenticatedPrincipal AuthenticationError :=
  let? (key_id, secret) := ok_or (parse_api_key bearer) AuthenticationError_invalid in
  let key := ak_keys a !! key_id in
  let hash := match key with Some e => ke_secret_hash e | None => ak_dummy_hash a end in
  if negb (hash_parses hash) then Err AuthenticationError_invalid
  else
    let verified := verify_password secret hash in
    match key with
    | None => Err AuthenticationError_invalid
    | Some key =>
        if negb verified || negb (ke_enabled key)
           || match ke_expires_at key with Some e => e <=? now | None => false end
        then Err AuthenticationError_invalid
        else
          let? policy := ok_or (ak_principals a !! ke_principal key)
                           AuthenticationError_invalid in
          Ok {| principal_id := ke_principal key;
                allowed_targets := pe_targets policy;
                max_sessions := pe_max_sessions policy;
                max_concurrent_queries := pe_max_concurrent_queries policy |}
    end.
End Argon2.

(** ** OIDC *)

Record OidcPolicy := {
  op_targets : gset string;
  op_max_sessions : Z;
  op_max_concurrent_queries : Z;
}.

Definition OidcPolicy_default : OidcPolicy :=
  {| op_targets := ∅; op_max_sessions := default_max_sessions;
     op_max_concurrent_queries := default_max_concurrent_queries |}.

Definition claim_strings (value : option Value) : gset string :=
  match value with
  | Some (VString s) => {[ s ]}
  | Some (Array values) => list_to_set (omap as_str values)
  | _ => ∅
  end.

(** The merge of the group policies into the default one: the loop over the
    groups of [authenticate_immediate]. *)
Definition merge_policy (policies : gmap string OidcPolicy) (acc : OidcPolicy)
    (group : string) : OidcPolicy :=
  match policies !! group with
  | None => acc
  | Some policy =>
      {| op_targets := op_targets acc ∪ op_targets policy;
         op_max_sessions := Z.max (op_max_sessions acc) (op_max_sessions policy);
         op_max_concurrent_queries :=
           Z.max (op_max_concurrent_queries acc) (op_max_concurrent_queries policy) |}
  end.

Section Oidc.
(** The [jsonwebtoken] and [serde_json] calls. *)
Context {Algorithm Jwk DecodingKey : Type} `{EqDecision Algorithm}.
Variable decode_header : string → option (Algorithm * option string).
Variable parse_jwks : string → result (gmap string Jwk) string.
(** [DecodingKey::from_jwk]. *)
Variable from_jwk : Jwk → option DecodingKey.
(** [decode::<Value>(bearer, key, validation)] with the issuer, audiences,
    leeway and required claims of the validation, at a time. *)
Variable decode : string → DecodingKey → Algorithm → string → gset string → Z → Z →
  option (list (string * Value)).

Record JwksSnapshot := { jwks_source : string; jwks_keys : gmap string Jwk }.

Record OidcAuthenticator := {
  oi_issuer : string;
  oi_audiences : gset string;
  oi_jwks_path : string;
  oi_algorithms : list Algorithm;
  oi_groups_claim : string;
  oi_clock_skew_seconds : Z;
  oi_defaults : OidcPolicy;
  oi_group_policies : gmap string OidcPolicy;
  oi_jwks : JwksSnapshot;
}.

Definition set_jwks (s : JwksSnapshot) (a : OidcAuthenticator) : OidcAuthenticator :=
  {| oi_issuer := oi_issuer a; oi_audiences := oi_audiences a;
     oi_jwks_path := oi_jwks_path a; oi_algorithms := oi_algorithms a;
     oi_groups_claim := oi_groups_claim a;
     oi_clock_skew_seconds := oi_clock_skew_seconds a;
     oi_defaults := oi_defaults a; oi_group_policies := oi_group_policies a;
     oi_jwks := s |}.

(** [refresh]; [file] is the text of the JWKS file or the read error. *)
Definition refresh (file : result string string) :
    M OidcAuthenticator AuthenticationError bool :=
  a ← get_state;
  source ← of_result (map_err (λ error, {| ae_kind := Configuration;
    ae_message := oi_jwks_path a +:+ ": cannot read JWKS: " +:+ error |}) file);
  if String.eqb (jwks_source (oi_jwks a)) source then mret false
  else
    keys ← of_result (map_err (λ error, {| ae_kind := Configuration;
      ae_message := oi_jwks_path a +:+ ": invalid JWKS: " +:+ error |})
      (parse_jwks source));
    _ ← modify (set_jwks {| jwks_source := source; jwks_keys := keys |});
    mret true.

(** [OidcAuthenticator::authenticate_immediate]. *)
Definition oidc_authenticate (file : result string string) (bearer : string) (now : Z) :
    M OidcAuthenticator AuthenticationError AuthenticatedPrincipal :=
  _ ← refresh file;
  a ← get_state;
  header ← of_result (ok_or (decode_header bearer) AuthenticationError_invalid);
  _ ← reject_if (negb (bool_decide (header.1 ∈ oi_algorithms a)))
        AuthenticationError_invalid;
  kid ← of_result (ok_or header.2 AuthenticationError_invalid);
  jwk ← of_result (ok_or (jwks_keys (oi_jwks a) !! kid) AuthenticationError_invalid);
  key ← of_result (ok_or (from_jwk jwk) AuthenticationError_invalid);
  claims ← of_result (ok_or
    (decode bearer key header.1 (oi_issuer a) (oi_audiences a)
       (oi_clock_skew_seconds a) now) AuthenticationError_invalid);
  subject ← of_result (ok_or
    (match field "sub" claims with
     | Some (VString s) => if is_empty s then None else Some s
     | _ => None
     end) AuthenticationError_invalid);
  let groups := claim_strings (field (oi_groups_claim a) claims) in
  let policy := foldl (merge_policy (oi_group_policies a)) (oi_defaults a)
                  (elements groups) in
  _ ← reject_if (bool_decide (op_targets policy = ∅)) AuthenticationError_invalid;
  mret {| principal_id := oi_issuer a +:+ "#" +:+ subject;
          allowed_targets := op_targets policy;
          max_sessions := op_max_sessions policy;
          max_concurrent_queries := op_max_concurrent_queries policy |}.
End Oidc.

(** ** Composite *)

(** [CompositeAuthenticator::authenticate_immediate]: the first provider that
    does not answer [Invalid] decides. *)
Fixpoint composite_authenticate {S} (providers : list (Authenticator S))
    (bearer : string) (now : Z) : M S AuthenticationError AuthenticatedPrincipal :=
  match providers with
  | [] => fail AuthenticationError_invalid
  | provider :: providers =>
      r ← attempt (provider bearer now);
      match r with
      | Ok principal => mret principal
      | Err error =>
          if bool_decide (ae_kind error = Invalid)
          then composite_authenticate providers bearer now
          else fail error
      end
  end.
