(* ===== verification/AuthFacts.v ===== *)
(** * Authentication: who is let in, with which rights *)
From S2P Require Import Prelude Text Auth.
From Stdlib Require Import Ascii.

(** ** API keys *)

Section ApiKeys.
Variables (hash_parses : string → bool) (verify_password : string → string → bool).
Variables (hash_password : string → string → result string string).
Variables (encode_b64 : string → result string string).

Definition key_text (key_id secret : string) : string :=
  "qcli_k1_" +:+ key_id +:+ "_" +:+ secret.

Lemma parse_api_key_Some bearer key_id secret :
  parse_api_key bearer = Some (key_id, secret) →
  bearer = key_text key_id secret ∧ is_empty key_id = false ∧ is_empty secret = false.
Proof.
  unfold parse_api_key. destruct (strip_prefix _ bearer) as [rest|] eqn:E1; [|done].
  destruct (split_once "_" rest) as [[a b]|] eqn:E2; [|done].
  destruct (is_empty a) eqn:Ea; [done|]. destruct (is_empty b) eqn:Eb; [done|]. simpl.
  intros [= <- <-]. apply strip_prefix_Some in E1 as ->. by apply split_once_Some in E2 as ->.
Qed.

Lemma parse_api_key_text key_id secret :
  string_forallb key_id_char key_id = true → is_empty key_id = false →
  is_empty secret = false → parse_api_key (key_text key_id secret) = Some (key_id, secret).
Proof.
  intros Hid Hi Hs. unfold parse_api_key, key_text. rewrite strip_prefix_app.
  assert (string_forallb (λ d, negb (Ascii.eqb "_"%char d)) key_id = true) as Hno.
  { clear Hi. induction key_id as [|c k IH]; simpl in *; [done|].
    apply andb_true_iff in Hid as [Hc Hk]. rewrite IH by done. rewrite andb_true_r.
    apply negb_true_iff. destruct (Ascii.eqb "_"%char c) eqn:E; [|done].
    apply Ascii.eqb_eq in E as <-. vm_compute in Hc. congruence. }
  pose proof (split_once_char "_"%char key_id secret Hno) as Hsplit.
  change ("_" +:+ secret) with (String "_"%char secret). rewrite Hsplit. by rewrite Hi, Hs.
Qed.

Definition unexpired (now : Z) (e : option Z) : Prop :=
  match e with Some e => now < e | None => True end.

(** The key is stored, its secret verifies, and it is enabled and unexpired. *)
Definition accepts (a : ApiKeyAuthenticator) (key_id secret : string) (now : Z)
    (p : AuthenticatedPrincipal) : Prop :=
  ∃ entry policy, ak_keys a !! key_id = Some entry ∧
    hash_parses (ke_secret_hash entry) = true ∧
    verify_password secret (ke_secret_hash entry) = true ∧
    ke_enabled entry = true ∧ unexpired now (ke_expires_at entry) ∧
    ak_principals a !! ke_principal entry = Some policy ∧
    p = {| principal_id := ke_principal entry; allowed_targets := pe_targets policy;
           max_sessions := pe_max_sessions policy;
           max_concurrent_queries := pe_max_concurrent_queries policy |}.

Lemma authenticate_parsed a bearer key_id secret now :
  parse_api_key bearer = Some (key_id, secret) →
  match api_key_authenticate hash_parses verify_password a bearer now with
  | Ok p => accepts a key_id secret now p
  | Err e => e = AuthenticationError_invalid ∧ ∀ p, ¬ accepts a key_id secret now p
  end.
Proof.
  intros Hp. unfold api_key_authenticate. rewrite Hp. simpl.
  destruct (ak_keys a !! key_id) as [entry|] eqn:Ek.
  2: { destruct (negb _); (split; [done|]); intros p (en & po & ? & _); congruence. }
  destruct (hash_parses (ke_secret_hash entry)) eqn:Eh; simpl.
  2: { split; [done|]. intros p (en & po & ? & ? & _). congruence. }
  destruct (negb _ || negb _ || _) eqn:Ec.
  - split; [done|]. intros p (en & po & E & _ & Hv & Hen & Hex & _). simplify_eq.
    rewrite Hv, Hen in Ec. simpl in Ec. destruct (ke_expires_at entry); simpl in *; lia.
  - apply orb_false_iff in Ec as [[Hv%negb_false_iff Hen%negb_false_iff]%orb_false_iff Hex].
    destruct (ak_principals a !! ke_principal entry) as [policy|] eqn:Epo; simpl.
    + exists entry, policy. split_and!; try done. unfold unexpired.
      destruct (ke_expires_at entry); [lia|done].
    + split; [done|]. intros p (en & po & E & _ & _ & _ & _ & Hpo & _). congruence.
Qed.

(** API keys.  A bearer credential authenticates exactly as a stored key
    that is enabled, unexpired, of a known principal and verified by its hash,
    and then as that principal with its policy; everything else, malformed,
    unknown, disabled, expired or wrong, gets one and the same error. *)
Theorem api_keys_authenticate_exactly a bearer now :
  match api_key_authenticate hash_parses verify_password a bearer now with
  | Ok p => ∃ key_id secret, bearer = key_text key_id secret ∧ accepts a key_id secret now p
  | Err e => e = AuthenticationError_invalid ∧
      ∀ key_id secret p, parse_api_key bearer = Some (key_id, secret) →
        ¬ accepts a key_id secret now p
  end.
Proof.
  destruct (parse_api_key bearer) as [[key_id secret]|] eqn:E.
  - pose proof (authenticate_parsed a bearer key_id secret now E) as Ha.
    destruct (api_key_authenticate _ _ a bearer now) as [p|e].
    + exists key_id, secret. by apply parse_api_key_Some in E as (-> & _).
    + destruct Ha as [-> Hno]. split; [done|]. intros k s p [= <- <-]. apply Hno.
  - unfold api_key_authenticate. rewrite E. simpl. split; [done|]. congruence.
Qed.

(** Round trip of API keys.  A generated key, its hash stored under its
    identifier and enabled, authenticates as the principal of the entry until
    it expires. *)
Theorem generated_key_authenticates a key_id uuid1 uuid2 uuid3 key hash entry policy now :
  (∀ secret salt h, hash_password secret salt = Ok h →
     hash_parses h = true ∧ verify_password secret h = true) →
  generate_api_key_material hash_password encode_b64 key_id uuid1 uuid2 uuid3 = Ok (key, hash) →
  is_empty (uuid1 +:+ uuid2) = false →
  ak_keys a !! key_id = Some entry → ke_secret_hash entry = hash → ke_enabled entry = true →
  unexpired now (ke_expires_at entry) → ak_principals a !! ke_principal entry = Some policy →
  api_key_authenticate hash_parses verify_password a (secret_text key) now
  = Ok {| principal_id := ke_principal entry; allowed_targets := pe_targets policy;
          max_sessions := pe_max_sessions policy;
          max_concurrent_queries := pe_max_concurrent_queries policy |}.
Proof.
  intros Hhash Hgen Hne Hkey Hsh Hen Hex Hpo. unfold generate_api_key_material in Hgen.
  destruct (is_empty key_id) eqn:Ei; [done|]. simpl in Hgen.
  destruct (string_forallb key_id_char key_id) eqn:Ec; [|done]. simpl in Hgen.
  destruct (encode_b64 uuid3) as [salt|]; simpl in Hgen; [|done].
  destruct (hash_password (uuid1 +:+ uuid2) salt) as [h|] eqn:Eh; simpl in Hgen; [|done].
  injection Hgen as <- <-. apply Hhash in Eh as [Hparses Hverify].
  pose proof (parse_api_key_text key_id (uuid1 +:+ uuid2) Ec Ei Hne) as Hparse.
  pose proof (authenticate_parsed a _ _ _ now Hparse) as Ha. simpl. unfold key_text in Ha.
  assert (accepts a key_id (uuid1 +:+ uuid2) now
    {| principal_id := ke_principal entry; allowed_targets := pe_targets policy;
       max_sessions := pe_max_sessions policy;
       max_concurrent_queries := pe_max_concurrent_queries policy |}) as Hacc.
  { exists entry, policy. rewrite Hsh. by split_and!. }
  destruct (api_key_authenticate _ _ a _ now) as [p|e].
  - destruct Ha as (en & po & E & _ & _ & _ & _ & Hpo' & ->). by simplify_eq.
  - destruct Ha as [_ Hno]. by apply Hno in Hacc.
Qed.
End ApiKeys.

(** ** OIDC *)

Section Oidc.
Context {Algorithm Jwk DecodingKey : Type} `{EqDecision Algorithm}.
Variable decode_header : string → option (Algorithm * option string).
Variable parse_jwks : string → result (gmap string Jwk) string.
Variable from_jwk : Jwk → option DecodingKey.
Variable decode : string → DecodingKey → Algorithm → string → gset string → Z → Z →
  option (list (string * Value)).
Implicit Types a : @OidcAuthenticator Algorithm Jwk.

(** The rights of a set of groups: the defaults and what each policy adds. *)
Definition grants (defaults : OidcPolicy) (policies : gmap string OidcPolicy)
    (groups : list string) (p : OidcPolicy) : Prop :=
  (∀ t, t ∈ op_targets p ↔ t ∈ op_targets defaults ∨
     ∃ g pol, g ∈ groups ∧ policies !! g = Some pol ∧ t ∈ op_targets pol) ∧
  (∀ n, op_max_sessions p ≤ n ↔ op_max_sessions defaults ≤ n ∧
     ∀ g pol, g ∈ groups → policies !! g = Some pol → op_max_sessions pol ≤ n) ∧
  (∀ n, op_max_concurrent_queries p ≤ n ↔ op_max_concurrent_queries defaults ≤ n ∧
     ∀ g pol, g ∈ groups → policies !! g = Some pol → op_max_concurrent_queries pol ≤ n).

Lemma merge_grants policies groups : ∀ defaults,
  grants defaults policies groups (foldl (merge_policy policies) defaults groups).
Proof.
  induction groups as [|g groups IH]; intros defaults.
  { split_and!; simpl; [intros t|intros n|intros n]; set_solver. }
  simpl. pose proof (IH (merge_policy policies defaults g)) as (Ht & Hs & Hq).
  generalize dependent (foldl (merge_policy policies) (merge_policy policies defaults g) groups).
  intros res. unfold merge_policy. destruct (policies !! g) as [pol|] eqn:Eg;
    simpl; intros Ht Hs Hq; split_and!.
  - intros t. rewrite Ht, elem_of_union. split.
    + intros [[?|?]|(g' & p' & ? & ? & ?)]; [by left|right; exists g, pol; set_solver|].
      right. exists g', p'. set_solver.
    + intros [?|(g' & p' & [->|?]%elem_of_cons & ? & ?)]; [auto| |].
      * simplify_eq. auto.
      * right. eauto.
  - intros n. rewrite Hs, Z.max_lub_iff. setoid_rewrite elem_of_cons. naive_solver.
  - intros n. rewrite Hq, Z.max_lub_iff. setoid_rewrite elem_of_cons. naive_solver.
  - intros t. rewrite Ht. setoid_rewrite elem_of_cons. naive_solver.
  - intros n. rewrite Hs. setoid_rewrite elem_of_cons. naive_solver.
  - intros n. rewrite Hq. setoid_rewrite elem_of_cons. naive_solver.
Qed.

End Oidc.

(** ** Examples *)

(** A hash that is the secret in front of the salt. *)
Definition toy_hash (secret salt : string) : result string string := Ok (secret +:+ salt).
Definition toy_verify (secret hash : string) : bool := starts_with secret hash.

Lemma toy_law secret salt h :
  toy_hash secret salt = Ok h → true = true ∧ toy_verify secret h = true.
Proof.
  intros [= <-]. split; [done|]. unfold toy_verify, starts_with.
  induction secret as [|c s IH]; simpl; [by destruct salt|].
  by destruct (ascii_dec c c).
Qed.

Definition key_entry : KeyEntry :=
  {| ke_principal := "ada"; ke_secret_hash := "u1u2salt"; ke_enabled := true;
     ke_expires_at := Some 100 |}.
Definition ada_entry : PrincipalEntry :=
  {| pe_targets := {["warehouse"]}; pe_max_sessions := 2; pe_max_concurrent_queries := 1 |}.
Definition key_store : ApiKeyAuthenticator :=
  {| ak_path := "keys.toml"; ak_principals := {["ada" := ada_entry]};
     ak_keys := {["laptop-1" := key_entry]}; ak_dummy_hash := "" |}.

Lemma generated_key_witness :
  api_key_authenticate (λ _, true) toy_verify key_store "qcli_k1_laptop-1_u1u2" 50
  = Ok {| principal_id := "ada"; allowed_targets := {["warehouse"]}; max_sessions := 2;
          max_concurrent_queries := 1 |}.
Proof.
  apply (generated_key_authenticates (λ _, true) toy_verify toy_hash (λ _, Ok "salt") key_store
    "laptop-1" "u1" "u2" "u3" {| secret_text := "qcli_k1_laptop-1_u1u2" |} "u1u2salt"
    key_entry ada_entry 50 toy_law); vm_compute; reflexivity.
Defined.

Definition a_claims : list (string * Value) :=
  [("sub", VString "ada"); ("groups", Array [VString "analysts"; VString "ops"])].
Definition analysts : OidcPolicy :=
  {| op_targets := {["warehouse"]}; op_max_sessions := 16; op_max_concurrent_queries := 2 |}.
Definition a_provider : @OidcAuthenticator nat unit :=
  {| oi_issuer := "https://id"; oi_audiences := {["qcli"]}; oi_jwks_path := "jwks.json";
     oi_algorithms := [1%nat]; oi_groups_claim := "groups"; oi_clock_skew_seconds := 30;
     oi_defaults := OidcPolicy_default; oi_group_policies := {["analysts" := analysts]};
     oi_jwks := {| jwks_source := ""; jwks_keys := ∅ |} |}.
Definition a_refreshed : @OidcAuthenticator nat unit :=
  set_jwks {| jwks_source := "keys"; jwks_keys := {["k" := tt]} |} a_provider.

