(* ===== verification/Config.v ===== *)
(** * Sectioned configuration (crates/qcli-config/src/lib.rs)

    Parsing of the [~/.qcli/.env] file into sections, validation of section
    and property names and values, environment substitution, resolution of
    targets against the [default] section, and redaction of secrets.  The
    environment ([std::env::var]) and the file's mode bits are arguments. *)
From stdpp Require Import sorting.
From S2P Require Import Prelude Text.
From Stdlib Require Import Ascii String.

Definition DEFAULT_SECTION : string := "default".

Record ConfigError := {
  ce_path : string;
  ce_line : option Z;
  ce_message : string;
}.

Definition ConfigError_at (path : string) (line : Z) (message : string) : ConfigError :=
  {| ce_path := path; ce_line := Some line; ce_message := message |}.
Definition ConfigError_file (path : string) (message : string) : ConfigError :=
  {| ce_path := path; ce_line := None; ce_message := message |}.

(** [impl Display for ConfigError]. *)
Definition ConfigError_display (e : ConfigError) : string :=
  match ce_line e with
  | Some line => ce_path e +:+ ":" +:+ pretty line +:+ ": " +:+ ce_message e
  | None => ce_path e +:+ ": " +:+ ce_message e
  end.

(** A value which remembers whether it is sensitive. *)
Record ConfigValue := { cv_value : string; cv_secret : bool }.

Definition expose (v : ConfigValue) : string := cv_value v.
Definition value_is_secret (v : ConfigValue) : bool := cv_secret v.
Definition display_value (v : ConfigValue) : string :=
  if cv_secret v then "<redacted>" else cv_value v.

Record ResolvedTarget := {
  target_name : string;
  target_engine : string;
  target_properties : gmap string ConfigValue;
}.

Record TargetSummary := { ts_name : string; ts_engine : string }.

Record Config := {
  config_path : string;
  config_defaults : gmap string ConfigValue;
  config_targets : gmap string ResolvedTarget;
}.

(** [Config::target]. *)
Definition config_target (c : Config) (name : string) : option ResolvedTarget :=
  config_targets c !! name.

Record ParsedValue := { pv_value : string; pv_line : Z }.

Abbreviation ParsedSections := (gmap string (gmap string ParsedValue)).

(** ** Iteration in the order of a [BTreeMap] *)

Definition key_le {A} (a b : string * A) : Prop := String.leb a.1 b.1 = true.
#[global] Instance key_le_dec {A} : RelDecision (@key_le A).
Proof. unfold key_le. solve_decision. Defined.

Definition sorted_entries {A} (m : gmap string A) : list (string * A) :=
  merge_sort key_le (map_to_list m).

(** ** Lines and values *)

(** [str::lines]: split at newlines, a final carriage return stripped, no
    empty line after a final newline. *)
Definition newline : ascii := ascii_of_N 10.
Definition carriage_return : ascii := ascii_of_N 13.

Definition strip_cr (s : string) : string :=
  match strip_suffix (String carriage_return "") s with Some t => t | None => s end.

Fixpoint lines_from (acc s : string) : list string :=
  match s with
  | EmptyString => if is_empty acc then [] else [string_rev acc]
  | String c s =>
      if Ascii.eqb c newline then strip_cr (string_rev acc) :: lines_from "" s
      else lines_from (String c acc) s
  end.

Definition lines (s : string) : list string := lines_from "" s.

Definition is_quote (c : ascii) : bool :=
  Ascii.eqb c "'"%char || (code c =? 34)%N.
Definition backslash : ascii := ascii_of_N 92.
Definition dquote_char : ascii := ascii_of_N 34.

(** [strip_comment]: cut the line at the first [#] outside quotes. *)
Fixpoint strip_comment_from (quote_ : option ascii) (escaped : bool) (line : string) :
    string :=
  match line with
  | EmptyString => EmptyString
  | String c rest =>
      if escaped then String c (strip_comment_from quote_ false rest)
      else if Ascii.eqb c backslash && bool_decide (quote_ = Some dquote_char)
      then String c (strip_comment_from quote_ true rest)
      else if is_quote c then
        if bool_decide (quote_ = Some c) then String c (strip_comment_from None false rest)
        else match quote_ with
             | None => String c (strip_comment_from (Some c) false rest)
             | Some _ => String c (strip_comment_from quote_ false rest)
             end
      else if Ascii.eqb c "#"%char && bool_decide (quote_ = None) then EmptyString
      else String c (strip_comment_from quote_ false rest)
  end.

Definition strip_comment (line : string) : string := strip_comment_from None false line.

(** [&s[1..s.len() - 1]] *)
Definition inner (s : string) : string :=
  substring 1 (String.length s - 2) s.

Definition parse_value (path : string) (line : Z) (raw : string) :
    result string ConfigError :=
  match raw with
  | EmptyString => Ok ""
  | String c _ =>
      if is_quote c then
        if (len raw <? 2) || negb (ends_with (String c "") raw)
        then Err (ConfigError_at path line "unterminated quoted value")
        else Ok (inner raw)
      else Ok raw
  end.

Definition name_char (c : ascii) : bool :=
  is_ascii_alphanumeric c
  || Ascii.eqb c "_"%char || Ascii.eqb c "-"%char || Ascii.eqb c "."%char.

Definition validate_section_name (path : string) (line : Z) (name : string) :
    result unit ConfigError :=
  if is_empty name then Err (ConfigError_at path line "section name cannot be empty")
  else if negb (string_forallb name_char name)
  then Err (ConfigError_at path line ("invalid section name '" +:+ name +:+ "'"))
  else Ok tt.

Definition validate_property_name (path : string) (line : Z) (name : string) :
    result unit ConfigError :=
  if is_empty name || negb (string_forallb name_char name)
  then Err (ConfigError_at path line ("invalid property name '" +:+ name +:+ "'"))
  else Ok tt.

(** ** Parsing *)

Record ParseState := {
  ps_sections : ParsedSections;
  ps_current : option string;
}.

(** One iteration of the loop of [parse]. *)
Definition parse_line (path : string) (line_no : Z) (raw_line : string)
    (st : ParseState) : result ParseState ConfigError :=
  let line := trim (strip_comment raw_line) in
  if is_empty line then Ok st
  else if starts_with "[" line then
    if negb (ends_with "]" line)
    then Err (ConfigError_at path line_no "section header must end with ']'")
    else
      let name := trim (inner line) in
      let? _ := validate_section_name path line_no name in
      match ps_sections st !! name with
      | Some _ => Err (ConfigError_at path line_no
                         ("duplicate section [" +:+ name +:+ "]"))
      | None => Ok {| ps_sections := <[name := ∅]> (ps_sections st);
                      ps_current := Some name |}
      end
  else
    let? section := ok_or (ps_current st)
      (ConfigError_at path line_no "property must appear inside a section") in
    let? (raw_key, raw_value) := ok_or (split_once "=" line)
      (ConfigError_at path line_no "property must use 'name = value'") in
    let key := trim raw_key in
    let? _ := validate_property_name path line_no key in
    let? value := parse_value path line_no (trim raw_value) in
    let properties := default ∅ (ps_sections st !! section) in
    match properties !! key with
    | Some _ => Err (ConfigError_at path line_no
        ("duplicate property '" +:+ key +:+ "' in [" +:+ section +:+ "]"))
    | None =>
        Ok {| ps_sections :=
                <[section := <[key := {| pv_value := value; pv_line := line_no |}]> properties]>
                  (ps_sections st);
              ps_current := ps_current st |}
    end.

Fixpoint parse_lines (path : string) (line_no : Z) (ls : list string)
    (st : ParseState) : result ParseState ConfigError :=
  match ls with
  | [] => Ok st
  | l :: ls => let? st' := parse_line path line_no l st in parse_lines path (line_no + 1) ls st'
  end.

Definition parse (path source : string) : result ParsedSections ConfigError :=
  let? st := parse_lines path 1 (lines source) {| ps_sections := ∅; ps_current := None |} in
  if bool_decide (ps_sections st = ∅)
  then Err (ConfigError_file path "configuration contains no sections")
  else Ok (ps_sections st).

(** ** Environment substitution *)

Definition env_char (c : ascii) : bool :=
  Ascii.eqb c "_"%char || is_ascii_alphanumeric c.

Section Environment.
(** [std::env::var(name).ok()]. *)
Variable env : string → option string.

(** The loop of [expand_environment]; every round consumes [${], so the
    length of the text is enough fuel ([expand_enough]). *)
Fixpoint expand_loop (path : string) (line : Z) (fuel : nat) (output rest : string) :
    result string ConfigError :=
  match fuel with
  | O => Ok (output +:+ rest)
  | S fuel =>
      match split_once "${" rest with
      | None => Ok (output +:+ rest)
      | Some (before, after) =>
          let? (name, rest') := ok_or (split_once "}" after)
            (ConfigError_at path line "unterminated environment substitution") in
          if is_empty name || negb (string_forallb env_char name)
          then Err (ConfigError_at path line
                 ("invalid environment variable name '" +:+ name +:+ "'"))
          else
            let? resolved := ok_or (env name) (ConfigError_at path line
              ("required environment variable '" +:+ name +:+ "' is not set")) in
            expand_loop path line fuel (output +:+ before +:+ resolved) rest'
      end
  end.

Definition expand_environment (path : string) (line : Z) (value : string) :
    result string ConfigError :=
  expand_loop path line (S (String.length value)) "" value.

(** ** Validation *)

Definition is_one_of (s : string) (l : list string) : bool := bool_decide (s ∈ l).

Definition validate_engine (path : string) (line : Z) (engine : string) :
    result unit ConfigError :=
  if is_one_of engine ["trino"; "databricks"; "snowflake"; "demo"] then Ok tt
  else Err (ConfigError_at path line ("unsupported engine '" +:+ engine +:+ "'")).

Definition common_properties : list string :=
  ["engine"; "output_format"; "decimal_places"; "decimal_rounding";
   "strip_trailing_decimal_zeros"; "string_truncate"; "binary_format";
   "null_value"; "table_style"; "color"; "expanded"; "headers"; "row_numbers";
   "max_column_width"; "timestamp_format"; "timezone"; "timing";
   "query_timeout"; "connect_timeout"; "fetch_size"; "page_size";
   "max_display_rows"; "progress"; "retry"; "history"; "history_limit";
   "syntax_highlight"; "completion"; "pager"; "editor"; "prompt";
   "confirm_target_switch"; "tls_verify"; "show_query_id"; "log_level"].

Definition engine_properties (engine : option string) : list string :=
  if bool_decide (engine = Some "trino") then
    ["url"; "user"; "password"; "token"; "catalog"; "schema"; "source"; "client_tags"]
  else if bool_decide (engine = Some "databricks") then
    ["auth_type"; "host"; "http_path"; "token"; "catalog"; "schema"; "user"]
  else if bool_decide (engine = Some "snowflake") then
    ["auth_type"; "account"; "user"; "password"; "private_key"; "warehouse";
     "database"; "schema"; "role"]
  else [].

Definition allowed_properties (engine : option string) : gset string :=
  list_to_set (common_properties ++ engine_properties engine).

Definition boolean_properties : list string :=
  ["strip_trailing_decimal_zeros"; "headers"; "row_numbers"; "timing"; "history";
   "syntax_highlight"; "completion"; "confirm_target_switch"; "tls_verify";
   "show_query_id"].
Definition unsigned_properties : list string :=
  ["decimal_places"; "string_truncate"; "max_column_width"; "fetch_size";
   "page_size"; "max_display_rows"; "history_limit"].
Definition duration_properties : list string := ["query_timeout"; "connect_timeout"].

(** [str::parse::<u64>()]: an optional plus sign, digits, no overflow. *)
Fixpoint parse_digits (acc : Z) (s : string) : option Z :=
  match s with
  | EmptyString => Some acc
  | String c s =>
      if is_ascii_digit c then
        let acc' := acc * 10 + (Z.of_N (code c) - 48) in
        if acc' <=? u64_max then parse_digits acc' s else None
      else None
  end.

Definition parse_u64 (s : string) : option Z :=
  let s' := match strip_prefix "+" s with Some t => t | None => s end in
  if is_empty s' then None else parse_digits 0 s'.

Definition valid_duration (value : string) : bool :=
  existsb (λ suffix,
    match strip_suffix suffix value with
    | Some number => negb (is_empty number) && string_forallb is_ascii_digit number
    | None => false
    end) ["ms"; "s"; "m"; "h"].

Definition validate_typed_value (path : string) (line : Z) (name value : string) :
    result unit ConfigError :=
  if is_one_of name boolean_properties && negb (is_one_of value ["true"; "false"])
  then Err (ConfigError_at path line
         ("property '" +:+ name +:+ "' requires true or false"))
  else if is_one_of name unsigned_properties
          && match parse_u64 value with None => true | Some _ => false end
  then Err (ConfigError_at path line
         ("property '" +:+ name +:+ "' requires a non-negative integer"))
  else if is_one_of name duration_properties && negb (valid_duration value)
  then Err (ConfigError_at path line ("property '" +:+ name
         +:+ "' requires a duration such as 250ms, 15s, 5m, or 2h"))
  else Ok tt.

Definition is_secret (name : string) : bool :=
  let lower := to_ascii_lowercase name in
  String.eqb lower "url" || contains "password" lower || contains "token" lower
  || contains "secret" lower || contains "private_key" lower.

(** *** Edit distance: the two-row dynamic program *)

(** One row: [current] is built left to right from [previous]; [above] is
    the suffix of [previous] that starts at column [j]. *)
Fixpoint distance_row (l : ascii) (right_ : string) (above : list Z) (left_ : Z) :
    list Z :=
  match right_, above with
  | String r right_, diag :: ((up :: _) as above') =>
      let cell := Z.min (Z.min (left_ + 1) (up + 1))
                        (diag + (if Ascii.eqb l r then 0 else 1)) in
      cell :: distance_row l right_ above' cell
  | _, _ => []
  end.

Fixpoint distance_rows (i : Z) (left_ right_ : string) (previous : list Z) : list Z :=
  match left_ with
  | EmptyString => previous
  | String l left_ =>
      let current := (i + 1) :: distance_row l right_ previous (i + 1) in
      distance_rows (i + 1) left_ right_ current
  end.

Definition edit_distance (left_ right_ : string) : Z :=
  let previous := Z.of_nat <$> seq 0 (S (String.length right_)) in
  default 0 (last (distance_rows 0 left_ right_ previous)).

(** [closest]: the first candidate, in set order, of least distance. *)
Fixpoint min_by_key (key : string → Z) (l : list string) : option string :=
  match l with
  | [] => None
  | x :: l =>
      match min_by_key key l with
      | Some y => if key x <=? key y then Some x else Some y
      | None => Some x
      end
  end.

Definition string_le (a b : string) : Prop := String.leb a b = true.
#[global] Instance string_le_dec : RelDecision string_le.
Proof. unfold string_le. solve_decision. Defined.

Definition closest (name : string) (allowed : gset string) : option string :=
  match min_by_key (edit_distance name) (merge_sort string_le (elements allowed)) with
  | Some candidate => if edit_distance name candidate <=? 3 then Some candidate else None
  | None => None
  end.

(** *** Sections *)

Fixpoint validate_entries (path section : string) (allowed : gset string)
    (entries : list (string * ParsedValue)) (acc : gmap string ConfigValue) :
    result (gmap string ConfigValue) ConfigError :=
  match entries with
  | [] => Ok acc
  | (name, parsed) :: entries =>
      if negb (bool_decide (name ∈ allowed)) && negb (starts_with "session." name)
      then
        let suggestion :=
          match closest name allowed with
          | Some candidate => "; did you mean '" +:+ candidate +:+ "'?"
          | None => ""
          end in
        Err (ConfigError_at path (pv_line parsed)
          ("unknown property '" +:+ name +:+ "' in [" +:+ section +:+ "]" +:+ suggestion))
      else
        let? value := expand_environment path (pv_line parsed) (pv_value parsed) in
        let? _ := validate_typed_value path (pv_line parsed) name value in
        validate_entries path section allowed entries
          (<[name := {| cv_value := value; cv_secret := is_secret name |}]> acc)
  end.

Definition validate_properties (path section : string)
    (properties : gmap string ParsedValue) (engine : option string) :
    result (gmap string ConfigValue) ConfigError :=
  validate_entries path section (allowed_properties engine)
    (sorted_entries properties) ∅.

(** The body of the loop of [resolve] for one target section. *)
Definition resolve_target (path : string) (defaults : gmap string ConfigValue)
    (name : string) (raw_properties : gmap string ParsedValue) :
    result ResolvedTarget ConfigError :=
  if bool_decide (raw_properties = ∅)
  then Err (ConfigError_file path ("target section [" +:+ name +:+ "] cannot be empty"))
  else
    let? engine_value := ok_or (raw_properties !! "engine")
      (ConfigError_file path ("target [" +:+ name +:+ "] must define 'engine'")) in
    let? expanded :=
      expand_environment path (pv_line engine_value) (pv_value engine_value) in
    let engine := to_ascii_lowercase expanded in
    let? _ := validate_engine path (pv_line engine_value) engine in
    let? target_values := validate_properties path name raw_properties (Some engine) in
    Ok {| target_name := name; target_engine := engine;
          target_properties := extend defaults target_values |}.

Fixpoint resolve_targets (path : string) (defaults : gmap string ConfigValue)
    (entries : list (string * gmap string ParsedValue))
    (targets : gmap string ResolvedTarget) :
    result (gmap string ResolvedTarget) ConfigError :=
  match entries with
  | [] => Ok targets
  | (name, raw) :: entries =>
      let? t := resolve_target path defaults name raw in
      resolve_targets path defaults entries (<[name := t]> targets)
  end.

Definition resolve (path : string) (parsed : ParsedSections) :
    result Config ConfigError :=
  let raw_defaults := default ∅ (parsed !! DEFAULT_SECTION) in
  let parsed := delete DEFAULT_SECTION parsed in
  let? defaults := validate_properties path DEFAULT_SECTION raw_defaults None in
  let? targets := resolve_targets path defaults (sorted_entries parsed) ∅ in
  if bool_decide (targets = ∅)
  then Err (ConfigError_file path "configuration defines no targets")
  else Ok {| config_path := path; config_defaults := defaults;
             config_targets := targets |}.

(** *** The file *)

Definition format_octal (n : Z) : string :=
  let width := if n <? 8 then 1%nat else if n <? 64 then 2%nat else 3%nat in
  digits_padded 8 width (Z.to_N n) "".

(** [validate_permissions] (unix); [mode] is [fs::metadata(path)]'s mode or
    the error it failed with. *)
Definition validate_permissions (mode : result Z string) (path : string)
    (parsed : ParsedSections) : result unit ConfigError :=
  let contains_secrets :=
    existsb (λ kv, existsb (λ p, is_secret p.1) (map_to_list kv.2)) (map_to_list parsed) in
  if contains_secrets then
    match mode with
    | Err error =>
        Err (ConfigError_file path ("cannot inspect permissions: " +:+ error))
    | Ok mode =>
        if negb (Z.land mode 63 =? 0)
        then Err (ConfigError_file path
          ("configuration contains credentials but permissions are "
           +:+ format_octal (Z.land mode 511) +:+ "; run: chmod 600 " +:+ path))
        else Ok tt
    end
  else Ok tt.

(** [Config::load]; [source] is the file's text or the read error. *)
Definition Config_load (source : result string string) (mode : result Z string)
    (path : string) : result Config ConfigError :=
  let? source := map_err (λ error,
    ConfigError_file path ("cannot read configuration: " +:+ error)) source in
  let? parsed := parse path source in
  let? _ := validate_permissions mode path parsed in
  resolve path parsed.

(** [Config::discover_targets]. *)
Fixpoint summarize (path : string) (entries : list (string * gmap string ParsedValue)) :
    result (list TargetSummary) ConfigError :=
  match entries with
  | [] => Ok []
  | (name, properties) :: entries =>
      if bool_decide (properties = ∅)
      then Err (ConfigError_file path
             ("target section [" +:+ name +:+ "] cannot be empty"))
      else
        let? engine_value := ok_or (properties !! "engine")
          (ConfigError_file path ("target [" +:+ name +:+ "] must define 'engine'")) in
        let engine := to_ascii_lowercase (pv_value engine_value) in
        let? _ := validate_engine path (pv_line engine_value) engine in
        let? targets := summarize path entries in
        Ok ({| ts_name := name; ts_engine := engine |} :: targets)
  end.

Definition discover_targets (source : result string string) (mode : result Z string)
    (path : string) : result (list TargetSummary) ConfigError :=
  let? source := map_err (λ error,
    ConfigError_file path ("cannot read configuration: " +:+ error)) source in
  let? parsed := parse path source in
  let? _ := validate_permissions mode path parsed in
  let? targets := summarize path (sorted_entries (delete DEFAULT_SECTION parsed)) in
  match targets with
  | [] => Err (ConfigError_file path "configuration defines no targets")
  | _ => Ok targets
  end.
End Environment.

(** ** Facts *)

Lemma sorted_entries_perm {A} (m : gmap string A) : sorted_entries m ≡ₚ map_to_list m.
Proof. apply merge_sort_Permutation. Qed.

Lemma elem_of_sorted_entries {A} (m : gmap string A) k v :
  (k, v) ∈ sorted_entries m ↔ m !! k = Some v.
Proof. by rewrite sorted_entries_perm, elem_of_map_to_list. Qed.

Lemma NoDup_sorted_entries {A} (m : gmap string A) : NoDup (sorted_entries m).*1.
Proof. rewrite sorted_entries_perm. apply NoDup_fst_map_to_list. Qed.
