(* ===== verification/EditDistance.v ===== *)
(** * Suggestions are nearest names (crates/qcli-config/src/lib.rs)

    [edit_distance] keeps two rows of a table; its value is the least number of
    insertions, deletions and replacements of one byte that turn one name into
    the other, so [closest] suggests a nearest allowed property. *)
From stdpp Require Import sorting relations.
From S2P Require Import Prelude Text Config.
From Stdlib Require Import Ascii.
From Stdlib Require String.

(** One edit of a byte string. *)
Inductive edit_step : string → string → Prop :=
| edit_insert a b c : edit_step (a +:+ b) (a +:+ String c b)
| edit_delete a b c : edit_step (a +:+ String c b) (a +:+ b)
| edit_replace a b c d : edit_step (a +:+ String c b) (a +:+ String d b).

Section Lists.
Context {A : Type} `{EqDecision A}.
Implicit Types (s t p q : list A).

(** The same on lists. *)
Inductive list_edit : list A → list A → Prop :=
| list_insert a b c : list_edit (a ++ b) (a ++ c :: b)
| list_delete a b c : list_edit (a ++ c :: b) (a ++ b)
| list_replace a b c d : list_edit (a ++ c :: b) (a ++ d :: b).

Definition min3 (x y z : nat) : nat := Nat.min (Nat.min x y) z.

(** The recursive distance. *)
Fixpoint lev (s : list A) : list A → nat :=
  fix inner (t : list A) : nat :=
    match s, t with
    | [], _ => length t
    | _, [] => length s
    | a :: s', b :: t' =>
        min3 (S (lev s' t)) (S (inner t')) (lev s' t' + if decide (a = b) then 0 else 1)
    end.

Lemma lev_nil_l t : lev [] t = length t.
Proof. by destruct t. Qed.
Lemma lev_nil_r s : lev s [] = length s.
Proof. by destruct s. Qed.
Lemma lev_cons a s b t :
  lev (a :: s) (b :: t)
  = min3 (S (lev s (b :: t))) (S (lev (a :: s) t)) (lev s t + if decide (a = b) then 0 else 1).
Proof. done. Qed.

Lemma lev_refl s : lev s s = 0%nat.
Proof.
  induction s as [|a s IH]; [done|]. rewrite lev_cons, IH, decide_True by done.
  unfold min3. lia.
Qed.

Lemma lev_cons_l c b t : (lev (c :: b) t ≤ S (lev b t))%nat.
Proof. destruct t; [rewrite !lev_nil_r; done|]. rewrite lev_cons. unfold min3. lia. Qed.

Lemma lev_cons_r c s t : (lev s (c :: t) ≤ S (lev s t))%nat.
Proof. destruct s; [rewrite !lev_nil_l; done|]. rewrite lev_cons. unfold min3. lia. Qed.

(** At most one more edit is needed from a neighbour. *)
Definition near p q : Prop := ∀ t, (lev p t ≤ S (lev q t))%nat.

Lemma near_insert c b : near (c :: b) b.
Proof. intros t. apply lev_cons_l. Qed.

Lemma near_delete c b : near b (c :: b).
Proof.
  intros t. induction t as [|x t IH]; [rewrite !lev_nil_r; simpl; lia|].
  rewrite lev_cons. pose proof (lev_cons_r x b t). unfold min3. lia.
Qed.

Lemma near_replace c d b : near (d :: b) (c :: b).
Proof.
  intros t. induction t as [|x t IH]; [rewrite !lev_nil_r; simpl; lia|].
  pose proof (lev_cons_l d b (x :: t)). pose proof (lev_cons_r x (d :: b) t).
  rewrite (lev_cons c), (lev_cons d) in *. case_decide; case_decide; unfold min3 in *; lia.
Qed.

Lemma near_cons y p q : near p q → near (y :: p) (y :: q).
Proof.
  intros Hn t. induction t as [|x t IH].
  - pose proof (Hn []). rewrite !lev_nil_r in *. simpl. lia.
  - pose proof (Hn t). pose proof (Hn (x :: t)). rewrite !lev_cons. unfold min3. lia.
Qed.

Lemma near_app a p q : near p q → near (a ++ p) (a ++ q).
Proof. intros Hn. induction a as [|y a IH]; [done|]. simpl. by apply near_cons. Qed.

Lemma list_edit_near s s' : list_edit s s' → near s s'.
Proof.
  destruct 1; apply near_app; [apply near_delete|apply near_insert|apply near_replace].
Qed.

Lemma lev_least n s t : nsteps list_edit n s t → (lev s t ≤ n)%nat.
Proof.
  induction 1 as [s|n s s' t Hs _ IH]; [by rewrite lev_refl|].
  pose proof (list_edit_near _ _ Hs t). lia.
Qed.

Lemma list_edit_cons x s t : list_edit s t → list_edit (x :: s) (x :: t).
Proof.
  destruct 1 as [a b c|a b c|a b c d].
  - apply (list_insert (x :: a)).
  - apply (list_delete (x :: a)).
  - apply (list_replace (x :: a)).
Qed.

Lemma nsteps_edit_cons x n s t :
  nsteps list_edit n s t → nsteps list_edit n (x :: s) (x :: t).
Proof.
  induction 1 as [|n s s' t Hs _ IH]; [apply nsteps_O|].
  eapply nsteps_l; [by apply list_edit_cons|done].
Qed.

Lemma insert_all t : nsteps list_edit (length t) [] t.
Proof.
  induction t as [|x t IH]; [apply nsteps_O|]. simpl.
  eapply nsteps_r; [exact IH|]. apply (list_insert []).
Qed.

Lemma delete_all s : nsteps list_edit (length s) s [].
Proof.
  induction s as [|x s IH]; [apply nsteps_O|]. simpl.
  eapply nsteps_l; [apply (list_delete [])|done].
Qed.

(** The distance is reached. *)
Lemma lev_reached s : ∀ t, nsteps list_edit (lev s t) s t.
Proof.
  induction s as [|a s IHs]; intros t; [rewrite lev_nil_l; apply insert_all|].
  induction t as [|b t IHt]; [rewrite lev_nil_r; apply delete_all|].
  rewrite lev_cons. unfold min3.
  destruct (Nat.min_dec (Nat.min (S (lev s (b :: t))) (S (lev (a :: s) t)))
    (lev s t + if decide (a = b) then 0 else 1)) as [->| ->].
  - destruct (Nat.min_dec (S (lev s (b :: t))) (S (lev (a :: s) t))) as [->| ->].
    + eapply nsteps_l; [apply (list_delete [])|apply IHs].
    + eapply nsteps_r; [exact IHt|apply (list_insert [])].
  - case_decide as Hab.
    + subst. rewrite Nat.add_0_r. apply nsteps_edit_cons, IHs.
    + rewrite Nat.add_1_r. eapply nsteps_l; [apply (list_replace [])|].
      apply nsteps_edit_cons, IHs.
Qed.

Lemma list_edit_reverse s t : list_edit s t → list_edit (reverse s) (reverse t).
Proof.
  destruct 1 as [a b c|a b c|a b c d]; rewrite !reverse_app, ?reverse_cons, <- ?app_assoc.
  - apply list_insert.
  - apply list_delete.
  - apply list_replace.
Qed.

Lemma nsteps_edit_reverse n s t :
  nsteps list_edit n s t → nsteps list_edit n (reverse s) (reverse t).
Proof.
  induction 1 as [|n s s' t Hs _ IH]; [apply nsteps_O|].
  eapply nsteps_l; [by apply list_edit_reverse|done].
Qed.

Lemma lev_reverse s t : lev (reverse s) (reverse t) = lev s t.
Proof.
  assert (∀ s t, lev (reverse s) (reverse t) ≤ lev s t)%nat as Hle.
  { intros s' t'. apply lev_least, nsteps_edit_reverse, lev_reached. }
  pose proof (Hle s t). pose proof (Hle (reverse s) (reverse t)) as H2.
  rewrite !reverse_involutive in H2. lia.
Qed.
End Lists.

#[local] Arguments lev : simpl never.

(** ** Strings *)

Abbreviation chars := String.list_ascii_of_string.

Lemma chars_app a b : chars (a +:+ b) = chars a ++ chars b.
Proof. induction a as [|c a IH]; simpl; [done|by rewrite IH]. Qed.

Lemma string_edit_list s t : edit_step s t → list_edit (chars s) (chars t).
Proof. destruct 1; rewrite !chars_app; simpl; constructor. Qed.

Lemma of_list_app a b :
  String.string_of_list_ascii (a ++ b) = String.string_of_list_ascii a +:+ String.string_of_list_ascii b.
Proof. induction a as [|c a IH]; simpl; [done|by rewrite IH]. Qed.

Lemma list_edit_string l k :
  list_edit l k → edit_step (String.string_of_list_ascii l) (String.string_of_list_ascii k).
Proof. destruct 1; rewrite !of_list_app; simpl; constructor. Qed.

Lemma nsteps_map {X Y} (R : relation X) (R' : relation Y) (f : X → Y) n x y :
  (∀ a b, R a b → R' (f a) (f b)) → nsteps R n x y → nsteps R' n (f x) (f y).
Proof.
  intros Hf. induction 1 as [|n x x' y Hs _ IH]; [apply nsteps_O|].
  eapply nsteps_l; [by apply Hf|done].
Qed.

Lemma edits_string n s t : nsteps edit_step n s t ↔ nsteps list_edit n (chars s) (chars t).
Proof.
  split; [by apply nsteps_map, string_edit_list|].
  intros Hn. apply (nsteps_map _ edit_step String.string_of_list_ascii) in Hn;
    [|apply list_edit_string]. by rewrite !String.string_of_list_ascii_of_string in Hn.
Qed.

(** ** The two-row program *)

(** Row of the table for the left prefix with reversal [u]: column [j] is the
    distance to the first [j] bytes of [right_], reversed onto [v]. *)
Fixpoint row (u v : list ascii) (right_ : string) : list Z :=
  Z.of_nat (lev u v)
  :: match right_ with EmptyString => [] | String r right_ => row u (r :: v) right_ end.

Lemma distance_row_spec l u right_ : ∀ v,
  distance_row l right_ (row u v right_) (Z.of_nat (lev (l :: u) v))
  = tail (row (l :: u) v right_).
Proof.
  induction right_ as [|r right_ IH]; intros v; [done|].
  simpl distance_row. simpl row at 2. simpl tail.
  destruct (row u (r :: v) right_) as [|up rest] eqn:Erow; [by destruct right_|].
  assert (up = Z.of_nat (lev u (r :: v))) as -> by (destruct right_; simpl in Erow; congruence).
  set (cell := Z.min _ _).
  assert (cell = Z.of_nat (lev (l :: u) (r :: v))) as Hcell.
  { unfold cell. rewrite lev_cons. unfold min3.
    destruct (Ascii.eqb_spec l r); case_decide; try congruence; lia. }
  rewrite Hcell, <- Erow, IH. by destruct right_.
Qed.

Lemma distance_rows_spec left_ right_ : ∀ u,
  distance_rows (Z.of_nat (length u)) left_ right_ (row u [] right_)
  = row (reverse (chars left_) ++ u) [] right_.
Proof.
  induction left_ as [|l left_ IH]; intros u; [done|]. simpl distance_rows.
  replace (Z.of_nat (length u) + 1) with (Z.of_nat (length (l :: u))) by (simpl; lia).
  replace (Z.of_nat (length (l :: u))) with (Z.of_nat (lev (l :: u) [])) at 2 3
    by by rewrite lev_nil_r.
  rewrite distance_row_spec.
  assert (Z.of_nat (lev (l :: u) []) :: tail (row (l :: u) [] right_) = row (l :: u) [] right_)
    as -> by by destruct right_.
  rewrite IH. simpl chars. by rewrite reverse_cons, <- app_assoc.
Qed.

Lemma row_nil right_ : ∀ v,
  row [] v right_ = Z.of_nat <$> seq (length v) (S (String.length right_)).
Proof.
  induction right_ as [|r right_ IH]; intros v; simpl; rewrite lev_nil_l; [done|].
  by rewrite (IH (r :: v)).
Qed.

Lemma row_last u right_ : ∀ v,
  last (row u v right_) = Some (Z.of_nat (lev u (reverse (chars right_) ++ v))).
Proof.
  induction right_ as [|r right_ IH]; intros v; [done|].
  change (row u v (String r right_)) with (Z.of_nat (lev u v) :: row u (r :: v) right_).
  rewrite last_cons, IH. simpl chars. by rewrite reverse_cons, <- app_assoc.
Qed.

Lemma edit_distance_lev s t : edit_distance s t = Z.of_nat (lev (chars s) (chars t)).
Proof.
  unfold edit_distance. pose proof (row_nil t []) as Hrow. simpl length in Hrow.
  rewrite <- Hrow. pose proof (distance_rows_spec s t []) as Hrows. simpl length in Hrows.
  change (Z.of_nat 0) with 0 in Hrows. rewrite Hrows, row_last. simpl.
  by rewrite !app_nil_r, lev_reverse.
Qed.

(** The value is the least number of edits. *)
Lemma edit_distance_least s t :
  ∃ n, edit_distance s t = Z.of_nat n ∧ nsteps edit_step n s t ∧
       ∀ m, nsteps edit_step m s t → (n ≤ m)%nat.
Proof.
  exists (lev (chars s) (chars t)). split; [apply edit_distance_lev|]. split.
  - apply edits_string, lev_reached.
  - intros m Hm%edits_string. by apply lev_least.
Qed.

(** ** The suggestion *)

Lemma min_by_key_spec key l :
  match min_by_key key l with
  | Some x => x ∈ l ∧ ∀ y, y ∈ l → key x ≤ key y
  | None => l = []
  end.
Proof.
  induction l as [|x l IH]; [done|]. simpl. destruct (min_by_key key l) as [y|].
  - destruct IH as [Hy Hmin]. destruct (Z.leb_spec (key x) (key y)).
    + split; [set_solver|]. intros z [->|Hz]%elem_of_cons; [lia|]. specialize (Hmin z Hz). lia.
    + split; [set_solver|]. intros z [->|Hz]%elem_of_cons; [lia|]. auto.
  - subst. split; [set_solver|]. intros z [->|Hz]%elem_of_cons; [lia|]. by apply elem_of_nil in Hz.
Qed.

(** Suggestions.  The property [closest] suggests for a misspelt one is an
    allowed name that takes at most three edits, and no allowed name takes
    fewer; when it suggests none, every allowed name takes more than three. *)
Theorem suggestion_is_nearest name allowed :
  match closest name allowed with
  | Some c => c ∈ allowed ∧
      ∃ n, (n ≤ 3)%nat ∧ nsteps edit_step n name c ∧
        ∀ d m, d ∈ allowed → nsteps edit_step m name d → (n ≤ m)%nat
  | None => ∀ d m, d ∈ allowed → nsteps edit_step m name d → (3 < m)%nat
  end.
Proof.
  unfold closest. set (l := merge_sort string_le (elements allowed)).
  assert (∀ d, d ∈ l ↔ d ∈ allowed) as Hl.
  { intros d. unfold l. by rewrite merge_sort_Permutation, elem_of_elements. }
  pose proof (min_by_key_spec (edit_distance name) l) as Hmin.
  destruct (min_by_key _ l) as [c|].
  - destruct Hmin as [Hc Hmin].
    destruct (edit_distance_least name c) as (n & Hn & Hsteps & Hleast).
    assert (∀ d m, d ∈ allowed → nsteps edit_step m name d → (n ≤ m)%nat) as Hall.
    { intros d m Hd Hm. destruct (edit_distance_least name d) as (k & Hk & _ & Hleast').
      specialize (Hleast' m Hm). specialize (Hmin d (proj2 (Hl d) Hd)). lia. }
    destruct (Z.leb_spec (edit_distance name c) 3).
    + split; [by apply Hl|]. exists n. split; [lia|done].
    + intros d m Hd Hm. specialize (Hall d m Hd Hm). lia.
  - intros d m Hd. apply Hl in Hd. rewrite Hmin in Hd. by apply elem_of_nil in Hd.
Qed.

Example a_suggestion : closest "passwrd" (allowed_properties (Some "trino")) = Some "password".
Proof. vm_compute. reflexivity. Qed.
