(* ===== verification/ConfigFacts.v ===== *)
(** * Configuration: what a loaded file means *)
From stdpp Require Import sorting.
From S2P Require Import Prelude Text Config.
From Stdlib Require Import Ascii.
From Stdlib Require String.

Section ConfigFacts.
Variable env : string → option string.

(** ** Environment substitution *)

Lemma split_once_length n s a b :
  split_once n s = Some (a, b) →
  String.length s = (String.length a + String.length n + String.length b)%nat.
Proof. intros ->%split_once_Some. rewrite !string_length_app. lia. Qed.

Lemma expand_loop_output path line fuel : ∀ output rest,
  expand_loop env path line fuel output rest
  = let? tail := expand_loop env path line fuel "" rest in Ok (output +:+ tail).
Proof.
  induction fuel as [|fuel IH]; intros output rest; simpl; [done|].
  destruct (split_once "${" rest) as [[before after]|]; [|done].
  destruct (split_once "}" after) as [[name rest']|]; simpl; [|done].
  destruct (is_empty name || negb (string_forallb env_char name)); [done|].
  destruct (env name) as [v|]; simpl; [|done].
  rewrite IH, (IH (before +:+ v)). destruct (expand_loop env path line fuel "" rest'); simpl;
    [|done]. by rewrite !string_app_assoc.
Qed.

(** Enough fuel: more than the text is long. *)
Lemma expand_enough path line n : ∀ m output rest,
  (String.length rest < n)%nat → (String.length rest < m)%nat →
  expand_loop env path line n output rest = expand_loop env path line m output rest.
Proof.
  induction n as [|n IH]; intros m output rest Hn Hm; [lia|]. destruct m as [|m]; [lia|].
  simpl. destruct (split_once "${" rest) as [[before after]|] eqn:E1; [|done].
  destruct (split_once "}" after) as [[name rest']|] eqn:E2; simpl; [|done].
  apply split_once_length in E1, E2. simpl in *. repeat case_match; try done.
  simpl. destruct (env name); simpl; [|done]. apply IH; lia.
Qed.

(** Environment substitution.  [expand_environment] always ends, and is
    this: text without "${" is itself; otherwise the text before it, the value
    of the variable named up to the next "}", and the expansion of what
    follows.  The value is never expanded again, and a missing "}", a bad name
    or an unset variable is an error. *)
Theorem expansion_equation path line value :
  expand_environment env path line value
  = match split_once "${" value with
    | None => Ok value
    | Some (before, after) =>
        match split_once "}" after with
        | None => Err (ConfigError_at path line "unterminated environment substitution")
        | Some (name, rest) =>
            if is_empty name || negb (string_forallb env_char name)
            then Err (ConfigError_at path line
                   ("invalid environment variable name '" +:+ name +:+ "'"))
            else
              match env name with
              | None => Err (ConfigError_at path line
                  ("required environment variable '" +:+ name +:+ "' is not set"))
              | Some v =>
                  let? tail := expand_environment env path line rest in
                  Ok (before +:+ v +:+ tail)
              end
        end
    end.
Proof.
  unfold expand_environment. change (expand_loop env path line (S (String.length value)) "" value)
    with (match split_once "${" value with
          | None => Ok ("" +:+ value)
          | Some (before, after) =>
              let? (name, rest') := ok_or (split_once "}" after)
                (ConfigError_at path line "unterminated environment substitution") in
              if is_empty name || negb (string_forallb env_char name)
              then Err (ConfigError_at path line
                     ("invalid environment variable name '" +:+ name +:+ "'"))
              else
                let? resolved := ok_or (env name) (ConfigError_at path line
                  ("required environment variable '" +:+ name +:+ "' is not set")) in
                expand_loop env path line (String.length value) ("" +:+ before +:+ resolved) rest'
          end).
  destruct (split_once "${" value) as [[before after]|] eqn:E1; [|done].
  destruct (split_once "}" after) as [[name rest]|] eqn:E2; cbn [and_then ok_or]; [|done].
  destruct (is_empty name || negb (string_forallb env_char name)); [done|].
  destruct (env name) as [v|]; cbn [and_then ok_or]; [|done].
  apply split_once_length in E1, E2. simpl in E1, E2.
  rewrite (expand_enough path line _ (S (String.length rest))) by lia.
  rewrite expand_loop_output.
  destruct (expand_loop env path line (S (String.length rest)) "" rest); cbn [and_then]; [|done].
  change ("" +:+ before +:+ v) with (before +:+ v). by rewrite string_app_assoc.
Qed.

(** ** Sections *)

(** The value a property gets. *)
Definition property_value (path k : string) (pv : ParsedValue) : option ConfigValue :=
  match expand_environment env path (pv_line pv) (pv_value pv) with
  | Ok v => Some {| cv_value := v; cv_secret := is_secret k |}
  | Err _ => None
  end.

Definition property_allowed (allowed : gset string) (k : string) : Prop :=
  k ∈ allowed ∨ starts_with "session." k = true.

Lemma validate_entries_spec path section allowed entries : ∀ acc m,
  validate_entries env path section allowed entries acc = Ok m → NoDup entries.*1 →
  (∀ k pv, (k, pv) ∈ entries →
     property_allowed allowed k ∧
     ∃ v, property_value path k pv = Some v ∧ m !! k = Some v) ∧
  ∀ k, k ∉ entries.*1 → m !! k = acc !! k.
Proof.
  induction entries as [|[name pv] entries IH]; intros acc m; simpl.
  { intros [= ->] _. split; [by intros k pv ?%elem_of_nil|done]. }
  destruct (negb _ && negb _) eqn:Eallowed; [done|].
  destruct (expand_environment env path (pv_line pv) (pv_value pv)) as [v|] eqn:Ev; simpl; [|done].
  destruct (validate_typed_value _ _ _ _) as [[]|]; simpl; [|done].
  intros Hm [Hnew Hnd]%NoDup_cons. destruct (IH _ _ Hm Hnd) as [Hin Hout]. split.
  - intros k pv' [[= -> ->]|Hk]%elem_of_cons; [|by apply Hin]. split.
    + apply andb_false_iff in Eallowed as [E|E]; apply negb_false_iff in E;
        [left; by apply bool_decide_eq_true in E|by right].
    + eexists. unfold property_value. rewrite Ev. split; [done|].
      rewrite Hout by done. by rewrite lookup_insert_eq.
  - intros k Hk. rewrite Hout by set_solver. rewrite lookup_insert_ne; [done|]. set_solver.
Qed.

(** The values of a section. *)
Lemma validate_properties_spec path section properties engine m :
  validate_properties env path section properties engine = Ok m →
  ∀ k, match properties !! k with
       | None => m !! k = None
       | Some pv => property_allowed (allowed_properties engine) k ∧
           ∃ v, property_value path k pv = Some v ∧ m !! k = Some v
       end.
Proof.
  intros Hm k. apply validate_entries_spec in Hm as [Hin Hout]; [|apply NoDup_sorted_entries].
  destruct (properties !! k) as [pv|] eqn:E; [by apply Hin, elem_of_sorted_entries|].
  rewrite Hout; [apply lookup_empty|]. intros ([k' pv] & -> & Hk)%list_elem_of_fmap.
  apply elem_of_sorted_entries in Hk. simpl in E. congruence.
Qed.

(** A target of a file: its own values over those of [default]. *)
Definition target_of (path : string) (defaults : gmap string ConfigValue) (name : string)
    (raw : gmap string ParsedValue) (t : ResolvedTarget) : Prop :=
  target_name t = name ∧
  is_one_of (target_engine t) ["trino"; "databricks"; "snowflake"; "demo"] = true ∧
  ∀ k, match raw !! k with
       | Some pv => property_allowed (allowed_properties (Some (target_engine t))) k ∧
           ∃ v, property_value path k pv = Some v ∧ target_properties t !! k = Some v
       | None => target_properties t !! k = defaults !! k
       end.

Lemma resolve_target_spec path defaults name raw t :
  resolve_target env path defaults name raw = Ok t → target_of path defaults name raw t.
Proof.
  unfold resolve_target. destruct (bool_decide _); [done|].
  destruct (raw !! "engine") as [ev|]; simpl; [|done].
  destruct (expand_environment _ _ _ _) as [expanded|]; simpl; [|done].
  unfold validate_engine. destruct (is_one_of _ _) eqn:Ee; simpl; [|done].
  destruct (validate_properties _ _ _ _ _) as [values|] eqn:Ev; simpl; [|done].
  intros [= <-]. split; [done|]. split; [done|]. intros k. simpl.
  pose proof (validate_properties_spec _ _ _ _ _ Ev k) as Hk. rewrite lookup_extend.
  destruct (raw !! k) as [pv|].
  - destruct Hk as [Ha (v & Hv & ->)]. split; [done|]. by exists v.
  - by rewrite Hk.
Qed.

Lemma resolve_targets_spec path defaults entries : ∀ acc m,
  resolve_targets env path defaults entries acc = Ok m → NoDup entries.*1 →
  (∀ name raw, (name, raw) ∈ entries →
     ∃ t, m !! name = Some t ∧ target_of path defaults name raw t) ∧
  ∀ name, name ∉ entries.*1 → m !! name = acc !! name.
Proof.
  induction entries as [|[name raw] entries IH]; intros acc m; simpl.
  { intros [= ->] _. split; [by intros ? ? ?%elem_of_nil|done]. }
  destruct (resolve_target env path defaults name raw) as [t|] eqn:Et; simpl; [|done].
  intros Hm [Hnew Hnd]%NoDup_cons. destruct (IH _ _ Hm Hnd) as [Hin Hout]. split.
  - intros n r [[= -> ->]|Hn]%elem_of_cons; [|by apply Hin]. exists t.
    rewrite Hout, lookup_insert_eq by done. split; [done|]. by apply resolve_target_spec.
  - intros n Hn. rewrite Hout by set_solver. rewrite lookup_insert_ne; [done|]. set_solver.
Qed.

(** [resolve], from its parts. *)
Lemma resolve_spec path parsed c :
  resolve env path parsed = Ok c →
  (∀ name, is_Some (config_target c name) ↔
           name ≠ DEFAULT_SECTION ∧ is_Some (parsed !! name)) ∧
  ∀ name t, config_target c name = Some t →
    target_of path (config_defaults c) name (default ∅ (parsed !! name)) t ∧
    ∀ k, match default ∅ (parsed !! DEFAULT_SECTION) !! k with
         | None => config_defaults c !! k = None
         | Some pv => property_allowed (allowed_properties None) k ∧
             ∃ v, property_value path k pv = Some v ∧ config_defaults c !! k = Some v
         end.
Proof.
  unfold resolve. set (raw_defaults := default ∅ (parsed !! DEFAULT_SECTION)).
  destruct (validate_properties _ _ _ _ _) as [defaults|] eqn:Ed; simpl; [|done].
  destruct (resolve_targets _ _ _ _ _) as [targets|] eqn:Et; simpl; [|done].
  destruct (bool_decide _); [done|]. intros [= <-].
  apply resolve_targets_spec in Et as [Hin Hout]; [|apply NoDup_sorted_entries].
  assert (∀ name raw, parsed !! name = Some raw → name ≠ DEFAULT_SECTION →
    ∃ t, targets !! name = Some t ∧ target_of path defaults name raw t) as Hsome.
  { intros name raw Hp Hn. apply Hin, elem_of_sorted_entries. by rewrite lookup_delete_ne. }
  assert (∀ name, targets !! name ≠ None → name ≠ DEFAULT_SECTION ∧ is_Some (parsed !! name))
    as Hback.
  { intros name Hn. destruct (decide (name ∈ (sorted_entries (delete DEFAULT_SECTION parsed)).*1))
      as [([n raw] & -> & Hk)%list_elem_of_fmap|Hn'].
    - apply elem_of_sorted_entries, lookup_delete_Some in Hk as [Hd Hk]. simpl. split; [congruence|].
      eauto.
    - by rewrite Hout, lookup_empty in Hn. }
  unfold config_target. simpl. split.
  - intros name. split.
    + intros [t Ht]. apply Hback. congruence.
    + intros [Hn [raw Hraw]]. destruct (Hsome name raw Hraw Hn) as (t & -> & _). eauto.
  - intros name t Ht. destruct (Hback name) as [Hn [raw Hraw]]; [congruence|].
    destruct (Hsome name raw Hraw Hn) as (t' & Ht' & Hof). simplify_eq.
    rewrite Hraw. split; [done|]. exact (validate_properties_spec _ _ _ _ _ Ed).
Qed.

Lemma property_value_secret path k pv v :
  property_value path k pv = Some v → cv_secret v = is_secret k.
Proof. unfold property_value. by case_match; intros; simplify_eq. Qed.

(** Resolution.  The targets of a configuration that resolves are exactly
    its sections other than [default]; each has a supported engine, and each of
    its properties is the section's own value, environment substituted, or else
    the one of [default]; values of secret names are marked secret and shown
    redacted, and no property of an unknown name survives. *)
Theorem resolution_layers_sections path parsed c :
  resolve env path parsed = Ok c →
  (∀ name, is_Some (config_target c name) ↔
           name ≠ DEFAULT_SECTION ∧ is_Some (parsed !! name)) ∧
  ∀ name t, config_target c name = Some t →
    target_name t = name ∧
    is_one_of (target_engine t) ["trino"; "databricks"; "snowflake"; "demo"] = true ∧
    ∀ k, let own := default ∅ (parsed !! name) !! k in
         let shared := default ∅ (parsed !! DEFAULT_SECTION) !! k in
         match own, shared with
         | Some pv, _ | None, Some pv =>
             ∃ v, property_value path k pv = Some v ∧ target_properties t !! k = Some v ∧
               (is_secret k = true → display_value v = "<redacted>") ∧
               property_allowed (allowed_properties (Some (target_engine t)) ∪
                                 allowed_properties None) k
         | None, None => target_properties t !! k = None
         end.
Proof.
  intros Hc. apply resolve_spec in Hc as [Hnames Htargets]. split; [done|].
  intros name t Ht. destruct (Htargets name t Ht) as [(Hname & He & Hprops) Hdefs].
  split; [done|]. split; [done|]. intros k. cbv zeta.
  specialize (Hprops k). specialize (Hdefs k).
  assert (∀ pv v, property_value path k pv = Some v → is_secret k = true →
    display_value v = "<redacted>") as Hsec.
  { intros pv v Hv%property_value_secret Hs. unfold display_value. by rewrite Hv, Hs. }
  destruct (default ∅ (parsed !! name) !! k) as [pv|];
    [|destruct (default ∅ (parsed !! DEFAULT_SECTION) !! k) as [pv|]].
  - destruct Hprops as [Ha (v & Hv & Hk)]. exists v. split_and!; eauto.
    destruct Ha; [left; by apply elem_of_union_l|by right].
  - destruct Hdefs as [Ha (v & Hv & Hk)]. exists v. split_and!; eauto; [congruence|].
    destruct Ha; [left; by apply elem_of_union_r|by right].
  - congruence.
Qed.

(** ** Credentials *)

Lemma property_name_secret path parsed c name t k v :
  resolve env path parsed = Ok c → config_target c name = Some t →
  target_properties t !! k = Some v → cv_secret v = true →
  is_secret k = true ∧ ∃ section raw pv, parsed !! section = Some raw ∧ raw !! k = Some pv.
Proof.
  intros Hc Ht Hk Hs. apply resolve_spec in Hc as [_ Htargets].
  destruct (Htargets name t Ht) as [(_ & _ & Hprops) Hdefs].
  specialize (Hprops k). specialize (Hdefs k).
  assert (∀ section pv, default ∅ (parsed !! section) !! k = Some pv →
    ∃ section raw pv, parsed !! section = Some raw ∧ raw !! k = Some pv) as Hwhere.
  { intros section pv Hpv. destruct (parsed !! section) as [raw|] eqn:E; simpl in Hpv; [eauto|].
    by rewrite lookup_empty in Hpv. }
  destruct (default ∅ (parsed !! name) !! k) as [pv|] eqn:Eown.
  - destruct Hprops as [_ (v' & Hv & Hk')]. simplify_eq.
    apply property_value_secret in Hv. split; [congruence|eauto].
  - rewrite Hprops in Hk. destruct (default ∅ (parsed !! DEFAULT_SECTION) !! k) as [pv|] eqn:E;
      [|congruence]. destruct Hdefs as [_ (v' & Hv & Hk')]. simplify_eq.
    apply property_value_secret in Hv. split; [congruence|eauto].
Qed.

(** Credentials need a private file.  If a configuration loads and any
    target in it ends up with a secret property, its own or a shared one, then
    the mode of the file gives group and others no permission at all. *)
Theorem credentials_need_private_file source mode path c name t k v :
  Config_load env source mode path = Ok c → config_target c name = Some t →
  target_properties t !! k = Some v → cv_secret v = true →
  ∃ m, mode = Ok m ∧ Z.land m 63 = 0.
Proof.
  unfold Config_load. destruct source as [source|e]; simpl; [|done].
  destruct (parse path source) as [parsed|e]; simpl; [|done].
  destruct (validate_permissions mode path parsed) as [[]|e] eqn:Ep; simpl; [|done].
  intros Hc Ht Hk Hs.
  destruct (property_name_secret _ _ _ _ _ _ _ Hc Ht Hk Hs)
    as (Hsec & section & raw & pv & Hraw & Hpv).
  unfold validate_permissions in Ep. rewrite (proj2 (existsb_exists _ _)) in Ep.
  - destruct mode as [m|e]; [|done]. exists m. split; [done|].
    destruct (Z.eqb_spec (Z.land m 63) 0); [done|]. done.
  - exists (section, raw). split; [by apply list_elem_of_In, elem_of_map_to_list|].
    apply existsb_exists. exists (k, pv).
    split; [by apply list_elem_of_In, elem_of_map_to_list|done].
Qed.
End ConfigFacts.

(** ** A file *)

Definition a_file : string :=
  "[default]" +:+ String newline ("page_size = 50" +:+ String newline
  ("[warehouse] # main" +:+ String newline ("engine = Trino" +:+ String newline
  ("url = https://${HOST}/" +:+ String newline "token = 't#1'"))))%string.

Definition host_env (name : string) : option string :=
  if String.eqb name "HOST" then Some "db${X}" else None.

Definition a_config : Config :=
  match Config_load host_env (Ok a_file) (Ok 384) "f" with
  | Ok c => c
  | Err _ => {| config_path := ""; config_defaults := ∅; config_targets := ∅ |}
  end.
Definition a_target : ResolvedTarget :=
  default {| target_name := ""; target_engine := ""; target_properties := ∅ |}
    (config_target a_config "warehouse").

Example a_target_url :
  (target_engine a_target, expose <$> target_properties a_target !! "url",
   display_value <$> target_properties a_target !! "url",
   display_value <$> target_properties a_target !! "page_size")
  = ("trino", Some "https://db${X}/", Some "<redacted>", Some "50").
Proof. vm_compute. reflexivity. Qed.

Definition a_parsed : gmap string (gmap string ParsedValue) :=
  match parse "f" a_file with Ok p => p | Err _ => ∅ end.

Lemma resolution_witness :
  target_name a_target = "warehouse" ∧
  ∃ v, property_value host_env "f" "url"
         {| pv_value := "https://${HOST}/"; pv_line := 5 |} = Some v ∧
       target_properties a_target !! "url" = Some v.
Proof.
  destruct (resolution_layers_sections host_env "f" a_parsed a_config) as [_ Hall];
    [vm_compute; reflexivity|].
  destruct (Hall "warehouse" a_target) as (Hname & _ & Hk); [vm_compute; reflexivity|].
  split; [exact Hname|]. specialize (Hk "url"). cbv zeta in Hk.
  assert (default ∅ (a_parsed !! "warehouse") !! "url"
          = Some {| pv_value := "https://${HOST}/"; pv_line := 5 |}) as E
    by (vm_compute; reflexivity).
  rewrite E in Hk. destruct Hk as (v & Hv & Ht & _). exists v. split; [exact Hv|exact Ht].
Defined.

Lemma private_file_witness : ∃ m, Ok (E:=string) 384 = Ok m ∧ Z.land m 63 = 0.
Proof.
  apply (credentials_need_private_file host_env (Ok a_file) (Ok 384) "f" a_config "warehouse"
    a_target "token" {| cv_value := "t#1"; cv_secret := true |}); vm_compute; reflexivity.
Defined.
