(* ===== verification/Core.v ===== *)
(** * Versioned sessions and query orchestration (crates/qcli-core/src/lib.rs)

    [Module Sessions] is the [SessionManager] with the process-wide session-id
    state, [Module Queries] the [QueryService], the [QueryHandle] and the two
    bounded channels between the adapter's task and its consumer. *)
From S2P Require Import Prelude Text Arrow DriverApi Config.
From Stdlib Require Import Ascii.

Record SessionSnapshot := {
  snap_id : string;
  snap_version : Z;
  snap_target : string;
  snap_engine : string;
  snap_properties : gmap string string;
  snap_overrides : gmap string string;
}.

Record Session := {
  session_id : string;
  session_version : Z;
  session_target : ResolvedTarget;
  session_overrides : gmap string string;
}.

Inductive CoreError :=
| SessionNotFound (id : string)
| VersionConflict (expected actual : Z)
| AdapterNotFound (engine : string)
| Driver (e : DriverError)
| Task (message : string).

(** [impl Display for CoreError]. *)
Definition CoreError_display (e : CoreError) : string :=
  match e with
  | SessionNotFound id => "session '" +:+ id +:+ "' does not exist"
  | VersionConflict expected actual =>
      "session version conflict: expected " +:+ pretty expected
      +:+ ", actual " +:+ pretty actual
  | AdapterNotFound engine => "no adapter registered for engine '" +:+ engine +:+ "'"
  | Driver error => "driver error: " +:+ DriverError_display error
  | Task error => "query task failed: " +:+ error
  end.

Module Sessions.

(** The static [IDS] of [next_session_id]. *)
Record SessionIdState := { minute : string; counter : Z }.
Definition SessionIdState_default : SessionIdState := {| minute := ""; counter := 0 |}.

(** [SessionManager], with the id state it draws from. *)
Record SessionManager := {
  sessions : gmap string Session;
  ids : SessionIdState;
}.
Definition SessionManager_default (i : SessionIdState) : SessionManager :=
  {| sessions := ∅; ids := i |}.

Definition set_sessions (f : gmap string Session → gmap string Session)
    (m : SessionManager) : SessionManager :=
  {| sessions := f (sessions m); ids := ids m |}.
Definition set_ids (i : SessionIdState) (m : SessionManager) : SessionManager :=
  {| sessions := sessions m; ids := i |}.

(** [safe_username]: one output character per character of the name. *)
Fixpoint sanitize (username : string) : string :=
  match username with
  | EmptyString => EmptyString
  | String c rest =>
      if is_ascii_alphanumeric c || Ascii.eqb c "_"%char then String c (sanitize rest)
      else if is_continuation c then sanitize rest
      else String "_"%char (sanitize rest)
  end.

Definition safe_username (username : string) : string :=
  let sanitized := sanitize username in
  if is_empty sanitized then "qcli" else sanitized.

(** [next_session_id]; [now_minute] is [Local::now()] formatted to the minute. *)
Definition next_session_id (username now_minute : string) (st : SessionIdState) :
    string * SessionIdState :=
  let st := if String.eqb (minute st) now_minute then st
            else {| minute := now_minute; counter := 0 |} in
  let c := counter st mod 99 + 1 in
  (safe_username username +:+ "_" +:+ now_minute +:+ "_" +:+ format_02 c,
   {| minute := minute st; counter := c |}).

(** The free function [snapshot]: overrides shadow the target's properties. *)
Definition snapshot_of (s : Session) : SessionSnapshot :=
  {| snap_id := session_id s;
     snap_version := session_version s;
     snap_target := target_name (session_target s);
     snap_engine := target_engine (session_target s);
     snap_properties :=
       extend (expose <$> target_properties (session_target s)) (session_overrides s);
     snap_overrides := session_overrides s |}.

(** [SessionManager::restore]. *)
Definition restore (s : SessionSnapshot) (target : ResolvedTarget) :
    M SessionManager CoreError unit :=
  _ ← reject_if (negb (String.eqb (snap_target s) (target_name target))
                 || negb (String.eqb (snap_engine s) (target_engine target)))
        (SessionNotFound (snap_id s));
  modify (set_sessions (<[snap_id s :=
    {| session_id := snap_id s; session_version := snap_version s;
       session_target := target; session_overrides := snap_overrides s |}]>)).

(** The user a session id is named after. *)
Definition session_username (env : string → option string) (target : ResolvedTarget) :
    string :=
  match target_properties target !! "user" with
  | Some v => expose v
  | None =>
      match env "USER" with
      | Some u => u
      | None => match env "USERNAME" with Some u => u | None => "qcli" end
      end
  end.

(** [SessionManager::create_with_overrides] and [create]. *)
Definition create_with_overrides (env : string → option string) (now_minute : string)
    (target : ResolvedTarget) (overrides : gmap string string) :
    M SessionManager CoreError SessionSnapshot :=
  λ m,
    let '(id, i) := next_session_id (session_username env target) now_minute (ids m) in
    let session := {| session_id := id; session_version := 1;
                      session_target := target; session_overrides := overrides |} in
    (Ok (snapshot_of session), set_sessions (<[id := session]>) (set_ids i m)).

Definition create (env : string → option string) (now_minute : string)
    (target : ResolvedTarget) : M SessionManager CoreError SessionSnapshot :=
  create_with_overrides env now_minute target ∅.

(** [SessionManager::snapshot]. *)
Definition snapshot (id : string) : M SessionManager CoreError SessionSnapshot :=
  o ← gets (λ m, snapshot_of <$> sessions m !! id);
  of_result (ok_or o (SessionNotFound id)).

Definition bump (s : Session) (target : ResolvedTarget) (overrides : gmap string string) :
    Session :=
  {| session_id := session_id s;
     session_version := u64_add (session_version s) 1;
     session_target := target;
     session_overrides := overrides |}.

(** [SessionManager::set_options] and [set_option]. *)
Definition set_options (id : string) (expected_version : Z) (values : gmap string string) :
    M SessionManager CoreError SessionSnapshot :=
  o ← gets (λ m, sessions m !! id);
  session ← of_result (ok_or o (SessionNotFound id));
  _ ← reject_if (negb (session_version session =? expected_version))
        (VersionConflict expected_version (session_version session));
  let session' := bump session (session_target session)
                    (extend (session_overrides session) values) in
  _ ← modify (set_sessions (<[id := session']>));
  mret (snapshot_of session').

Definition set_option (id : string) (expected_version : Z) (name value : string) :
    M SessionManager CoreError SessionSnapshot :=
  set_options id expected_version {[ name := value ]}.

(** [SessionManager::switch_target]. *)
Definition switch_target (id : string) (expected_version : Z) (target : ResolvedTarget) :
    M SessionManager CoreError SessionSnapshot :=
  o ← gets (λ m, sessions m !! id);
  session ← of_result (ok_or o (SessionNotFound id));
  _ ← reject_if (negb (session_version session =? expected_version))
        (VersionConflict expected_version (session_version session));
  let session' := bump session target ∅ in
  _ ← modify (set_sessions (<[id := session']>));
  mret (snapshot_of session').

(** The loop of [mutate] over [BTreeMap<String, Option<String>>]. *)
Definition apply_mutation (overrides : gmap string string)
    (entry : string * option string) : gmap string string :=
  match entry.2 with
  | Some value => <[entry.1 := value]> overrides
  | None => delete entry.1 overrides
  end.

Definition apply_mutations (overrides : gmap string string)
    (values : gmap string (option string)) : gmap string string :=
  foldl apply_mutation overrides (sorted_entries values).

(** [SessionManager::mutate]. *)
Definition mutate (id : string) (expected_version : Z) (target : option ResolvedTarget)
    (values : gmap string (option string)) :
    M SessionManager CoreError SessionSnapshot :=
  o ← gets (λ m, sessions m !! id);
  session ← of_result (ok_or o (SessionNotFound id));
  _ ← reject_if (negb (session_version session =? expected_version))
        (VersionConflict expected_version (session_version session));
  let base := match target with Some _ => ∅ | None => session_overrides session end in
  let session' := bump session (default (session_target session) target)
                    (apply_mutations base values) in
  _ ← modify (set_sessions (<[id := session']>));
  mret (snapshot_of session').

(** [SessionManager::close]. *)
Definition close (id : string) : M SessionManager CoreError unit :=
  o ← gets (λ m, sessions m !! id);
  match o with
  | None => fail (SessionNotFound id)
  | Some _ => modify (set_sessions (delete id))
  end.

End Sessions.

Module Queries.
Section Queries.
Context `{ar : Arrow}.

Record QueryService := {
  next_id : Z;
  adapters : gmap string EngineAdapter;
  channel_capacity : Z;
}.

(** [QueryService::new]. *)
Definition QueryService_new (adapters_ : list EngineAdapter) (capacity : Z) : QueryService :=
  {| next_id := 1;
     adapters := foldl (λ m a, <[engine a := a]> m) ∅ adapters_;
     channel_capacity := Z.max capacity 1 |}.

(** What the spawned task sends on the two channels, in order, and what it
    returns: [task] is the join result, whose error is a panic's text. *)
Record QueryHandle := {
  qh_id : string;
  qh_session_id : string;
  qh_session_version : Z;
  qh_items : list QueryItem;
  qh_capacity : Z;
  qh_cancellation : CancellationSignal;
  qh_task : result (result unit DriverError) string;
}.

(** [fetch_add(1)] and [format!("qcli_{:016x}", ..)]. *)
Definition query_id_of (n : Z) : string := "qcli_" +:+ format_016x n.

Definition fresh_id : M QueryService CoreError string :=
  λ s, (Ok (query_id_of (next_id s)),
        {| next_id := u64_add (next_id s) 1; adapters := adapters s;
           channel_capacity := channel_capacity s |}).

Definition adapter_for (engine_ : string) : M QueryService CoreError EngineAdapter :=
  o ← gets (λ s, adapters s !! engine_);
  of_result (ok_or o (AdapterNotFound engine_)).

Definition request_of (id : string) (s : SessionSnapshot) (sql : string) : QueryRequest :=
  {| qcli_query_id := id; rq_session_id := snap_id s;
     rq_session_version := snap_version s; rq_target := snap_target s;
     rq_engine := snap_engine s; rq_sql := sql; rq_properties := snap_properties s |}.

Definition final_state (r : result unit DriverError) : QueryState :=
  match r with
  | Ok _ => Completed
  | Err e => if String.eqb (de_code e) "cancelled" then Cancelled else Failed
  end.

(** The items the task of [submit_with_parameters] sends around the
    adapter's own. *)
Definition task_items (e : Execution) : list QueryItem :=
  Event (State Submitted) :: ex_items e ++ [Event (State (final_state (ex_result e)))].

(** [submit_with_parameters]; [i] is what the adapter's run observes. *)
Definition submit_with_parameters (s : SessionSnapshot) (sql : string)
    (parameters : option (list RecordBatch)) (i : Invocation) :
    M QueryService CoreError QueryHandle :=
  adapter ← adapter_for (snap_engine s);
  id ← fresh_id;
  let request := request_of id s sql in
  let e := match parameters with
           | Some parameters => execute_prepared adapter request parameters i
           | None => execute adapter request i
           end in
  capacity ← gets channel_capacity;
  mret {| qh_id := id; qh_session_id := snap_id s; qh_session_version := snap_version s;
          qh_items := task_items e; qh_capacity := capacity;
          qh_cancellation := signal_default; qh_task := Ok (ex_result e) |}.

Definition submit (s : SessionSnapshot) (sql : string) (i : Invocation) :=
  submit_with_parameters s sql None i.
Definition submit_prepared (s : SessionSnapshot) (sql : string)
    (parameters : list RecordBatch) (i : Invocation) :=
  submit_with_parameters s sql (Some parameters) i.

(** [QueryHandle::finish]. *)
Definition finish (h : QueryHandle) : result unit CoreError :=
  match qh_task h with
  | Err error => Err (Task error)
  | Ok r => map_err Driver r
  end.

Definition query_prepare (s : SessionSnapshot) (sql : string) (i : Invocation) :
    M QueryService CoreError PreparedStatementMetadata :=
  adapter ← adapter_for (snap_engine s);
  id ← fresh_id;
  of_result (map_err Driver (prepare adapter (request_of id s sql) i)).

Definition query_execute_update (s : SessionSnapshot) (sql : string) (i : Invocation) :
    M QueryService CoreError Z :=
  adapter ← adapter_for (snap_engine s);
  id ← fresh_id;
  of_result (map_err Driver (execute_update adapter (request_of id s sql) i)).

Definition query_execute_prepared_update (s : SessionSnapshot) (sql : string)
    (parameters : list RecordBatch) (i : Invocation) : M QueryService CoreError Z :=
  adapter ← adapter_for (snap_engine s);
  id ← fresh_id;
  of_result (map_err Driver
    (execute_prepared_update adapter (request_of id s sql) parameters i)).

(** [QueryService::ingest]: the request's session fields are overwritten. *)
Definition ingest_request_of (s : SessionSnapshot) (r : IngestRequest) : IngestRequest :=
  {| ig_session_id := snap_id s; ig_session_version := snap_version s;
     ig_target := snap_target s; ig_engine := snap_engine s;
     ig_properties := snap_properties s;
     ig_catalog := ig_catalog r; ig_schema := ig_schema r; ig_table := ig_table r;
     create_if_missing := create_if_missing r; if_exists := if_exists r;
     temporary := temporary r; ig_options := ig_options r |}.

Definition query_ingest (s : SessionSnapshot) (r : IngestRequest)
    (batches : list RecordBatch) (i : Invocation) : M QueryService CoreError Z :=
  adapter ← adapter_for (snap_engine s);
  of_result (map_err Driver (ingest adapter (ingest_request_of s r) batches i)).

(** ** The channels between the task and its consumer

    [todo] is what the task still has to send, [event_queue] and
    [batch_queue] what the two bounded channels hold, [delivered] what
    [next_item] has returned.  [tokio::select!] takes either branch that is
    ready. *)
Record Pipe := {
  todo : list QueryItem;
  event_queue : list QueryEvent;
  batch_queue : list RecordBatch;
  delivered : list QueryItem;
}.

Inductive pipe_step (capacity : Z) : Pipe → Pipe → Prop :=
| send_event e rest eq bq d :
    Z.of_nat (length eq) < capacity →
    pipe_step capacity
      {| todo := Event e :: rest; event_queue := eq; batch_queue := bq; delivered := d |}
      {| todo := rest; event_queue := eq ++ [e]; batch_queue := bq; delivered := d |}
| send_batch b rest eq bq d :
    Z.of_nat (length bq) < capacity →
    pipe_step capacity
      {| todo := Batch b :: rest; event_queue := eq; batch_queue := bq; delivered := d |}
      {| todo := rest; event_queue := eq; batch_queue := bq ++ [b]; delivered := d |}
| receive_event t e eq bq d :
    pipe_step capacity
      {| todo := t; event_queue := e :: eq; batch_queue := bq; delivered := d |}
      {| todo := t; event_queue := eq; batch_queue := bq; delivered := d ++ [Event e] |}
| receive_batch t eq b bq d :
    pipe_step capacity
      {| todo := t; event_queue := eq; batch_queue := b :: bq; delivered := d |}
      {| todo := t; event_queue := eq; batch_queue := bq; delivered := d ++ [Batch b] |}.

Definition pipe_of (h : QueryHandle) : Pipe :=
  {| todo := qh_items h; event_queue := []; batch_queue := []; delivered := [] |}.

(** [next_item] answers [None]: the task has sent everything and dropped its
    senders, and both channels are drained. *)
Definition drained (p : Pipe) : Prop :=
  todo p = [] ∧ event_queue p = [] ∧ batch_queue p = [].

Definition events_of (items : list QueryItem) : list QueryEvent :=
  omap (λ i, match i with Event e => Some e | Batch _ => None end) items.
Definition batches_of (items : list QueryItem) : list RecordBatch :=
  omap (λ i, match i with Batch b => Some b | Event _ => None end) items.

(** What a consumer that reads to the end may receive: each channel in its
    sending order. *)
Definition delivery (sent received : list QueryItem) : Prop :=
  events_of received = events_of sent ∧ batches_of received = batches_of sent.
End Queries.
End Queries.
