(* ===== verification/CoreFacts.v ===== *)
(** * Properties of sessions and query orchestration

    Optimistic concurrency of session mutations, snapshots, session and query
    identifiers, and delivery through the bounded channels. *)
From stdpp Require Import sorting.
From S2P Require Import Prelude Text Arrow DriverApi Config Core.
Import Core.Sessions.

(** ** Session mutations are compare-and-swap *)

(** The abstract specification: the named session is replaced when the caller
    holds its version, and nothing changes otherwise. *)
Definition compare_and_swap (id : string) (expected : Z) (f : Session → Session)
    (m : SessionManager) : result SessionSnapshot CoreError * SessionManager :=
  match sessions m !! id with
  | None => (Err (SessionNotFound id), m)
  | Some s =>
      if session_version s =? expected
      then (Ok (snapshot_of (f s)), set_sessions (<[id := f s]>) m)
      else (Err (VersionConflict expected (session_version s)), m)
  end.

Inductive Mutation :=
| SetOption (name value : string)
| SetOptions (values : gmap string string)
| SwitchTarget (target : ResolvedTarget)
| Mutate (target : option ResolvedTarget) (values : gmap string (option string)).

Definition run_mutation (id : string) (expected : Z) (u : Mutation) :
    M SessionManager CoreError SessionSnapshot :=
  match u with
  | SetOption name value => set_option id expected name value
  | SetOptions values => set_options id expected values
  | SwitchTarget target => switch_target id expected target
  | Mutate target values => mutate id expected target values
  end.

(** The new session a mutation computes. *)
Definition mutated (u : Mutation) (s : Session) : Session :=
  match u with
  | SetOption name value =>
      bump s (session_target s) (<[name := value]> (session_overrides s))
  | SetOptions values => bump s (session_target s) (extend (session_overrides s) values)
  | SwitchTarget target => bump s target ∅
  | Mutate target values =>
      bump s (default (session_target s) target)
        (apply_mutations
           (match target with Some _ => ∅ | None => session_overrides s end) values)
  end.

Lemma run_mutation_cas id expected u m :
  run_mutation id expected u m = compare_and_swap id expected (mutated u) m.
Proof.
  unfold compare_and_swap.
  destruct u; simpl;
    unfold set_option, set_options, switch_target, mutate; unfold_M;
    destruct (sessions m !! id) as [s|]; simpl; try done;
    destruct (session_version s =? expected); simpl; try done.
  unfold extend. rewrite <-insert_union_singleton_l. done.
Qed.

(** A client's request, and a run of a sequence of them. *)
Record Request := { req_id : string; req_expected : Z; req_mutation : Mutation }.

Definition run_request (r : Request) : M SessionManager CoreError SessionSnapshot :=
  run_mutation (req_id r) (req_expected r) (req_mutation r).

Fixpoint run_requests (rs : list Request) (m : SessionManager) :
    list (Request * bool) * SessionManager :=
  match rs with
  | [] => ([], m)
  | r :: rs =>
      let '(res, m') := run_request r m in
      let '(log, m'') := run_requests rs m' in
      ((r, is_ok res) :: log, m'')
  end.

(** Successful requests on [id] that expected version [v]. *)
Definition wins (id : string) (v : Z) (log : list (Request * bool)) : list (Request * bool) :=
  filter (λ rb, rb.2 = true ∧ req_id rb.1 = id ∧ req_expected rb.1 = v) log.

Definition version_of (id : string) (m : SessionManager) : option Z :=
  session_version <$> sessions m !! id.

Lemma mutated_version u s : session_version (mutated u s) = u64_add (session_version s) 1.
Proof. by destruct u. Qed.

(** One request: on success the version it named moves by one; every other
    session, and every session on failure, is as before. *)
Lemma run_request_version r m id :
  version_of id (run_request r m).2 =
    if is_ok (run_request r m).1 && bool_decide (req_id r = id)
    then (λ v, u64_add v 1) <$> version_of id m else version_of id m.
Proof.
  unfold run_request. rewrite run_mutation_cas. unfold compare_and_swap, version_of.
  destruct (sessions m !! req_id r) as [s|] eqn:E; simpl; [|done].
  destruct (_ =? _); simpl; [|done].
  rewrite lookup_insert. case_decide as Hd; case_bool_decide; simplify_eq; [|done].
  rewrite E. simpl. by rewrite mutated_version.
Qed.

Lemma run_request_ok_version r m :
  is_ok (run_request r m).1 = true → version_of (req_id r) m = Some (req_expected r).
Proof.
  unfold run_request. rewrite run_mutation_cas. unfold compare_and_swap, version_of.
  destruct (sessions m !! req_id r) as [s|]; simpl; [|done].
  destruct (Z.eqb_spec (session_version s) (req_expected r)); simpl; congruence.
Qed.

(** While no version overflows, requests that expect a version below the
    current one cannot succeed. *)
Lemma no_stale_win rs : ∀ m log m' id v w,
  run_requests rs m = (log, m') →
  version_of id m = Some w → v < w → 0 ≤ w → w + Z.of_nat (length rs) ≤ u64_max →
  wins id v log = [].
Proof.
  induction rs as [|r rs IH]; intros m log m' id v w; simpl; [by intros [= <- <-]|].
  destruct (run_request r m) as [res m1] eqn:Er.
  destruct (run_requests rs m1) as [log1 m2] eqn:Ers. intros [= <- <-] Hw Hv H0 Hb.
  pose proof (run_request_version r m id) as Hstep.
  pose proof (run_request_ok_version r m) as Hok.
  rewrite Er in Hstep, Hok. simpl in Hstep, Hok.
  unfold wins. rewrite filter_cons_False.
  2:{ simpl. intros (Hr & Hid & Hexp). specialize (Hok Hr). subst id.
      rewrite Hw in Hok. simplify_eq. lia. }
  rewrite Hw in Hstep. simpl in Hstep. destruct (is_ok res && _) eqn:Eb; simpl in Hstep.
  - rewrite u64_add_small in Hstep by lia.
    eapply (IH m1 log1 m2 id v (w + 1)); eauto; lia.
  - eapply (IH m1 log1 m2 id v w); eauto; lia.
Qed.

(** no lost updates.  However the requests of any number of clients are
    ordered, at most one of those that expect the same version of the same
    session succeeds, as long as its version counter does not overflow. *)
Theorem at_most_one_winner rs m id v w :
  version_of id m = Some w → 0 ≤ w → w + Z.of_nat (length rs) ≤ u64_max →
  (length (wins id v (run_requests rs m).1) ≤ 1)%nat.
Proof.
  revert m w. induction rs as [|r rs IH]; intros m w Hw H0 Hb; simpl; [lia|].
  destruct (run_request r m) as [res m1] eqn:Er.
  destruct (run_requests rs m1) as [log1 m2] eqn:Ers. simpl.
  pose proof (run_request_version r m id) as Hstep.
  pose proof (run_request_ok_version r m) as Hok.
  rewrite Er in Hstep, Hok. simpl in Hstep, Hok. rewrite Hw in Hstep. simpl in Hstep, Hb.
  specialize (IH m1). rewrite Ers in IH. simpl in IH.
  unfold wins. destruct (decide (is_ok res = true ∧ req_id r = id ∧ req_expected r = v))
    as [(Hr & Hid & Hexp)|Hn].
  - rewrite filter_cons_True by done. simpl.
    rewrite (bool_decide_true _ Hid), Hr in Hstep. simpl in Hstep.
    subst id. rewrite Hok in Hw by done. simplify_eq.
    rewrite u64_add_small in Hstep by lia.
    pose proof (no_stale_win rs m1 log1 m2 (req_id r) (req_expected r)
      (req_expected r + 1) Ers Hstep ltac:(lia) ltac:(lia) ltac:(lia)) as Hnil.
    unfold wins in Hnil. rewrite Hnil. simpl. lia.
  - rewrite filter_cons_False by done.
    destruct (is_ok res && _); rewrite ?u64_add_small in Hstep by lia;
      eapply IH; eauto; lia.
Qed.

(** Successful requests on a session, whatever version they expected. *)
Definition successes (id : string) (log : list (Request * bool)) : list (Request * bool) :=
  filter (λ rb, rb.2 = true ∧ req_id rb.1 = id) log.

(** the version of a session counts its successful mutations. *)
Theorem version_counts_successes rs m id w :
  version_of id m = Some w → 0 ≤ w → w + Z.of_nat (length rs) ≤ u64_max →
  version_of id (run_requests rs m).2
  = Some (w + Z.of_nat (length (successes id (run_requests rs m).1))).
Proof.
  revert m w. induction rs as [|r rs IH]; intros m w Hw H0 Hb; simpl;
    [by rewrite Z.add_0_r|].
  destruct (run_request r m) as [res m1] eqn:Er.
  destruct (run_requests rs m1) as [log1 m2] eqn:Ers. simpl.
  pose proof (run_request_version r m id) as Hstep.
  rewrite Er, Hw in Hstep. simpl in Hstep, Hb.
  specialize (IH m1). rewrite Ers in IH. simpl in IH. unfold successes.
  destruct (decide (is_ok res = true ∧ req_id r = id)) as [[Hr Hid]|Hn].
  - rewrite filter_cons_True by done. rewrite (bool_decide_true _ Hid), Hr in Hstep.
    simpl in Hstep. rewrite u64_add_small in Hstep by lia.
    rewrite (IH (w + 1)) by (eauto; lia). unfold successes. simpl. f_equal. lia.
  - rewrite filter_cons_False by done.
    assert (is_ok res && bool_decide (req_id r = id) = false) as Hf.
    { destruct (is_ok res), (decide (req_id r = id)); simpl; try done.
      - naive_solver.
      - by apply bool_decide_false. }
    rewrite Hf in Hstep. rewrite (IH w) by (eauto; lia). done.
Qed.

(** ** What a mutation stores *)

Lemma apply_mutation_lookup o e k :
  apply_mutation o e !! k = if decide (e.1 = k) then e.2 else o !! k.
Proof.
  unfold apply_mutation. destruct e as [n [v|]]; simpl.
  - by rewrite lookup_insert.
  - by rewrite lookup_delete.
Qed.

Lemma foldl_mutations l : NoDup l.*1 → ∀ o k,
  foldl apply_mutation o l !! k
  = match list_to_map (M:=gmap string (option string)) l !! k with
    | Some v => v
    | None => o !! k
    end.
Proof.
  induction l as [|[n v] l IH]; intros Hnd o k; simpl; [done|].
  apply NoDup_cons in Hnd as [Hn Hnd]. rewrite IH by done.
  rewrite apply_mutation_lookup, lookup_insert. simpl. case_decide as Hk; [|done].
  subst k. rewrite not_elem_of_list_to_map_1 by done. done.
Qed.

(** Every key the caller names is set or removed, the others are kept. *)
Lemma apply_mutations_lookup o values k :
  apply_mutations o values !! k
  = match values !! k with Some v => v | None => o !! k end.
Proof.
  unfold apply_mutations. rewrite foldl_mutations by apply NoDup_sorted_entries.
  rewrite (list_to_map_proper _ (map_to_list values)) by
    (apply NoDup_sorted_entries || apply sorted_entries_perm).
  by rewrite list_to_map_to_list.
Qed.

(** The value a query of the session sees for a property. *)
Lemma snapshot_property s k :
  snap_properties (snapshot_of s) !! k
  = match session_overrides s !! k with
    | Some v => Some v
    | None => expose <$> target_properties (session_target s) !! k
    end.
Proof. simpl. rewrite lookup_extend, lookup_fmap. done. Qed.

(** a successful [mutate] answers with exactly the new view of the
    session: a named property has the given value, or the (new) target's
    configured value when it was removed; an unnamed one keeps its override
    unless the target was replaced, which clears all of them. *)
Theorem mutate_view id expected target values m snap m' k :
  mutate id expected target values m = (Ok snap, m') →
  ∃ s, sessions m !! id = Some s ∧ snapshot id m' = (Ok snap, m') ∧
    let t := default (session_target s) target in
    snap_target snap = target_name t ∧ snap_engine snap = target_engine t ∧
    snap_properties snap !! k =
      match values !! k with
      | Some (Some v) => Some v
      | Some None => expose <$> target_properties t !! k
      | None =>
          match (if target is Some _ then None else session_overrides s !! k) with
          | Some v => Some v
          | None => expose <$> target_properties t !! k
          end
      end.
Proof.
  pose proof (run_mutation_cas id expected (Mutate target values) m) as Hcas.
  simpl in Hcas. rewrite Hcas. unfold compare_and_swap.
  destruct (sessions m !! id) as [s|] eqn:Es; [|done].
  destruct (_ =? _); [|done]. intros [= <- <-]. exists s. split; [done|]. split.
  { unfold snapshot. unfold_M. simpl. by rewrite lookup_insert_eq. }
  simpl. split; [done|]. split; [done|].
  rewrite lookup_extend, lookup_fmap, apply_mutations_lookup.
  destruct (values !! k) as [[v|]|]; [done..|]. by destruct target.
Qed.

(** ** Session identifiers *)

Lemma eqb_refl_minute mnt : String.eqb mnt mnt = true.
Proof. apply String.eqb_refl. Qed.

(** The identifiers of [n] consecutive calls within one minute. *)
Fixpoint id_run (username now_minute : string) (n : nat) (st : SessionIdState) :
    list string :=
  match n with
  | O => []
  | S n => let '(id, st') := next_session_id username now_minute st in
           id :: id_run username now_minute n st'
  end.

Definition id_with (username now_minute : string) (c : Z) : string :=
  safe_username username +:+ "_" +:+ now_minute +:+ "_" +:+ format_02 c.

Lemma id_with_inj u mnt c d :
  0 ≤ c < 100 → 0 ≤ d < 100 → id_with u mnt c = id_with u mnt d → c = d.
Proof.
  intros Hc Hd H. unfold id_with in H.
  do 4 apply string_app_inv_l in H. by apply format_02_inj.
Qed.

Lemma length_id_run u mnt n st : length (id_run u mnt n st) = n.
Proof.
  revert st. induction n as [|n IH]; intros st; [done|]. cbn [id_run].
  destruct (next_session_id u mnt st). simpl. by rewrite IH.
Qed.

Lemma id_run_lookup u mnt n : ∀ c i,
  0 ≤ c → (i < n)%nat →
  id_run u mnt n {| minute := mnt; counter := c |} !! i
  = Some (id_with u mnt ((c + Z.of_nat i) mod 99 + 1)).
Proof.
  induction n as [|n IH]; intros c i Hc Hi; [lia|].
  cbn [id_run]. unfold next_session_id. simpl. rewrite eqb_refl_minute. simpl.
  destruct i as [|i]; simpl.
  - by rewrite Z.add_0_r.
  - rewrite IH by (pose proof (Z.mod_pos_bound c 99); lia). do 3 f_equal.
    rewrite <-Z.add_assoc, Z.add_mod_idemp_l by lia. f_equal. lia.
Qed.

(** within a minute, any 99 consecutive session identifiers of one user
    are pairwise different. *)
Theorem session_ids_distinct u mnt c :
  0 ≤ c → NoDup (id_run u mnt 99 {| minute := mnt; counter := c |}).
Proof.
  intros Hc. apply NoDup_alt. intros i j id Hi Hj.
  pose proof (lookup_lt_Some _ _ _ Hi) as Hli. pose proof (lookup_lt_Some _ _ _ Hj) as Hlj.
  rewrite length_id_run in Hli, Hlj.
  rewrite id_run_lookup in Hi, Hj by done. rewrite <-Hj in Hi.
  injection Hi as Hij. apply id_with_inj in Hij.
  - assert ((c + Z.of_nat i) mod 99 = (c + Z.of_nat j) mod 99) as Hm by lia.
    clear -Hm Hli Hlj Hc.
    pose proof (Z.div_mod (c + Z.of_nat i) 99). pose proof (Z.div_mod (c + Z.of_nat j) 99).
    lia.
  - pose proof (Z.mod_pos_bound (c + Z.of_nat i) 99). lia.
  - pose proof (Z.mod_pos_bound (c + Z.of_nat j) 99). lia.
Qed.

Lemma session_id_reused u mnt c :
  0 ≤ c →
  id_run u mnt 100 {| minute := mnt; counter := c |} !! 99%nat
  = id_run u mnt 100 {| minute := mnt; counter := c |} !! 0%nat.
Proof.
  intros Hc. rewrite !id_run_lookup by lia. do 3 f_equal.
  rewrite Z.add_0_r. change (Z.of_nat 99) with (1 * 99). apply Z.mod_add. lia.
Qed.

(** Sessions created one after the other within a minute, one per element of
    [os]. *)
Fixpoint create_run (env : string → option string) (mnt : string)
    (target : ResolvedTarget) (os : list (gmap string string)) (m : SessionManager) :
    list string * SessionManager :=
  match os with
  | [] => ([], m)
  | o :: os =>
      match create_with_overrides env mnt target o m with
      | (Ok s, m') => let '(l, m'') := create_run env mnt target os m' in
                      (snap_id s :: l, m'')
      | (Err _, m') => ([], m')
      end
  end.

Lemma create_run_ids env mnt t os : ∀ m,
  (create_run env mnt t os m).1
  = id_run (session_username env t) mnt (length os) (ids m).
Proof.
  induction os as [|o os IH]; intros m; [done|]. cbn [create_run id_run length].
  unfold create_with_overrides.
  destruct (next_session_id (session_username env t) mnt (ids m)) as [id i] eqn:E.
  specialize (IH (set_sessions (<[id := {| session_id := id; session_version := 1;
    session_target := t; session_overrides := o |}]>) (set_ids i m))).
  destruct (create_run _ _ _ _ _) as [l m'']. simpl in *. by rewrite IH.
Qed.

Lemma create_run_last env mnt t os o m :
  let '(l, m') := create_run env mnt t (os ++ [o]) m in
  ∃ id, last l = Some id ∧ session_overrides <$> sessions m' !! id = Some o.
Proof.
  revert m. induction os as [|o1 os IH]; intros m; cbn [create_run app].
  - unfold create_with_overrides. destruct (next_session_id _ _ _) as [id i]. simpl.
    exists id. by rewrite lookup_insert_eq.
  - destruct (create_with_overrides env mnt t o1 m) as [[s|e] m1] eqn:E.
    + specialize (IH m1). destruct (create_run _ _ _ (os ++ [o]) m1) as [l m2].
      destruct IH as (id & Hl & Hs). exists id. split; [|done].
      destruct l; [done|]. done.
    + unfold create_with_overrides in E. by destruct (next_session_id _ _ _).
Qed.

(** the two-digit counter of session identifiers wraps.  Creating one
    hundred sessions of a user within a minute gives the last one the
    identifier of the first, whose session is replaced: looking the first
    identifier up finds the overrides of the hundredth request. *)
Theorem hundredth_session_replaces_first env mnt t os o c ss :
  0 ≤ c → length os = 99%nat →
  let '(l, m') := create_run env mnt t (os ++ [o])
    {| sessions := ss; ids := {| minute := mnt; counter := c |} |} in
  ∃ first, l !! 0%nat = Some first ∧ l !! 99%nat = Some first ∧
    session_overrides <$> sessions m' !! first = Some o.
Proof.
  intros Hc Hlen.
  pose proof (create_run_ids env mnt t (os ++ [o])
    {| sessions := ss; ids := {| minute := mnt; counter := c |} |}) as Hids.
  pose proof (create_run_last env mnt t os o
    {| sessions := ss; ids := {| minute := mnt; counter := c |} |}) as Hlast.
  destruct (create_run _ _ _ _ _) as [l m']. simpl in Hids.
  destruct Hlast as (id & Hl & Hs). exists id.
  assert (length (os ++ [o]) = 100%nat) as H100 by (rewrite length_app; simpl; lia).
  rewrite H100 in Hids.
  assert (l !! 99%nat = Some id) as Hid.
  { rewrite last_lookup in Hl. rewrite Hids, length_id_run in Hl. by rewrite <-Hids in Hl. }
  split; [|by split]. rewrite Hids, <-session_id_reused, <-Hids by done. done.
Qed.

(** ** Query identifiers *)

Section QueryFacts.
Context `{ar : Arrow}.
Import Core.Queries.

Lemma query_id_injective n m :
  0 ≤ n ≤ u64_max → 0 ≤ m ≤ u64_max → query_id_of n = query_id_of m → n = m.
Proof.
  intros Hn Hm H. apply (string_app_inv_l "qcli_") in H. by apply format_016x_inj.
Qed.

(** The identifiers of [n] consecutive draws. *)
Fixpoint draw_ids (n : nat) (s : QueryService) : list string :=
  match n with
  | O => []
  | S n => match fresh_id s with
           | (Ok id, s') => id :: draw_ids n s'
           | (Err _, _) => []
           end
  end.

Lemma draw_ids_seq n : ∀ s,
  0 ≤ next_id s → next_id s + Z.of_nat n ≤ 2 ^ 64 →
  draw_ids n s = query_id_of <$> seqZ (next_id s) (Z.of_nat n).
Proof.
  induction n as [|n IH]; intros s H0 Hb; [done|]. simpl.
  rewrite seqZ_cons by lia. simpl. f_equal.
  destruct n as [|n]; [done|]. rewrite IH; simpl; rewrite ?u64_add_small;
    unfold u64_max; try lia. do 2 f_equal. lia.
Qed.

(** no two requests of a service share a query identifier, as long as
    its counter does not pass [u64::MAX]. *)
Theorem query_ids_distinct n s :
  0 ≤ next_id s → next_id s + Z.of_nat n ≤ 2 ^ 64 → NoDup (draw_ids n s).
Proof.
  intros H0 Hb. rewrite draw_ids_seq by done.
  apply NoDup_fmap_2_strong; [|apply NoDup_seqZ].
  intros x y Hx%elem_of_seqZ Hy%elem_of_seqZ. apply query_id_injective; unfold u64_max; lia.
Qed.

(** ** Delivery *)

Lemma events_of_app a b : events_of (a ++ b) = events_of a ++ events_of b.
Proof. apply omap_app. Qed.
Lemma batches_of_app a b : batches_of (a ++ b) = batches_of a ++ batches_of b.
Proof. apply omap_app. Qed.

(** The channels neither lose, duplicate nor reorder, and stay bounded. *)
Definition pipe_inv (capacity : Z) (sent : list QueryItem) (p : Pipe) : Prop :=
  events_of (delivered p) ++ event_queue p ++ events_of (todo p) = events_of sent ∧
  batches_of (delivered p) ++ batch_queue p ++ batches_of (todo p) = batches_of sent ∧
  Z.of_nat (length (event_queue p)) ≤ capacity ∧
  Z.of_nat (length (batch_queue p)) ≤ capacity.

Lemma pipe_step_inv capacity sent p p' :
  pipe_step capacity p p' → pipe_inv capacity sent p → pipe_inv capacity sent p'.
Proof.
  intros [] (He & Hb & Hle & Hlb); unfold pipe_inv; simpl in *;
    rewrite ?events_of_app, ?batches_of_app, ?length_app, ?app_nil_r in *; simpl in *;
    rewrite ?app_nil_r, <-?app_assoc in *; simpl in *; repeat split; try done; lia.
Qed.

Definition pipe_measure (p : Pipe) : nat :=
  2 * length (todo p) + length (event_queue p) + length (batch_queue p).

Lemma pipe_step_measure capacity p p' :
  pipe_step capacity p p' → (pipe_measure p' < pipe_measure p)%nat.
Proof. intros []; unfold pipe_measure; simpl; rewrite ?length_app; simpl; lia. Qed.

Lemma pipe_progress capacity p : 1 ≤ capacity → drained p ∨ ∃ p', pipe_step capacity p p'.
Proof.
  intros Hc. destruct p as [t [|e eq] [|b bq] d].
  - destruct t as [|[e|b] t]; [by left|right|right]; eexists.
    + apply send_event. simpl. lia.
    + apply send_batch. simpl. lia.
  - right. eexists. apply receive_batch.
  - right. eexists. apply receive_event.
  - right. eexists. apply receive_event.
Qed.

Lemma pipe_inv_start h : 0 ≤ qh_capacity h → pipe_inv (qh_capacity h) (qh_items h) (pipe_of h).
Proof. by intros. Qed.

(** the consumer of a query receives everything the task sent.  Whatever
    order [select!] and the scheduler choose, no state of the two bounded
    channels is stuck before both are drained, the queues never exceed the
    capacity, the whole exchange ends within twice as many steps as there
    are items, and a consumer that reads to the end has received each
    channel's items in sending order. *)
Theorem pipe_delivers h n p :
  1 ≤ qh_capacity h →
  nsteps (pipe_step (qh_capacity h)) n (pipe_of h) p →
  (n ≤ 2 * length (qh_items h))%nat ∧
  Z.of_nat (length (event_queue p)) ≤ qh_capacity h ∧
  Z.of_nat (length (batch_queue p)) ≤ qh_capacity h ∧
  (drained p ∨ ∃ p', pipe_step (qh_capacity h) p p') ∧
  (drained p → delivery (qh_items h) (delivered p)).
Proof.
  intros Hc Hn.
  assert (pipe_inv (qh_capacity h) (qh_items h) p ∧
          (n + pipe_measure p ≤ pipe_measure (pipe_of h))%nat) as [Hinv Hm].
  { pose proof (pipe_inv_start h ltac:(lia)) as Hi. revert Hi Hn.
    generalize (pipe_of h) as q. induction n as [|n IH]; intros q Hi Hn.
    - inversion Hn; subst. split; [done|lia].
    - inversion Hn as [|? ? q' ? Hstep Hrest]; subst.
      destruct (IH q') as [? ?]; [by eapply pipe_step_inv|done|].
      split; [done|]. apply pipe_step_measure in Hstep. lia. }
  destruct Hinv as (He & Hb & Hle & Hlb). split.
  { unfold pipe_measure, pipe_of in Hm. simpl in Hm. lia. }
  split; [done|]. split; [done|]. split; [by apply pipe_progress|].
  intros (Ht & Heq & Hbq). rewrite Ht, Heq, Hbq in *. simpl in *.
  rewrite app_nil_r in *. by split.
Qed.
End QueryFacts.
