(* ===== verification/Cluster.v ===== *)
(** * Cluster coordination (crates/qcli-cluster/src/lib.rs, schema.sql)

    The [ClusterStateStore] trait as a class of operations, the in-memory
    store ([Module Memory]), the PostgreSQL store as the effect of the SQL
    statements it sends on the tables of schema.sql ([Module Postgres]), and
    the shared result store ([Module Objects]).  Times are nanoseconds; the
    clock reading of an operation, [Utc::now()] or [clock_timestamp()], is its
    last argument, and random UUIDs are arguments. *)
From stdpp Require Import sorting.
From S2P Require Import Prelude Text Config.

Definition STATE_SCHEMA_VERSION : Z := 1.

Record ClusterError := { cl_code : string; cl_message : string }.
Definition ClusterError_new (code message : string) : ClusterError :=
  {| cl_code := code; cl_message := message |}.

Record NodeRegistration := {
  node_id : string;
  instance_version : string;
  node_capabilities : list string;
  draining : bool;
  lease_epoch : Z;
  node_expires_at : Z;
}.

Record SharedResource := {
  resource_id : string;
  resource_principal : string;
  resource_kind : string;
  resource_version : Z;
  payload : Value;
  resource_expires_at : Z;
}.

Record QueryLease := {
  lease_query : string;
  lease_principal : string;
  owner_node_id : string;
  fencing_token : Z;
  lease_expires_at : Z;
}.

(** [chrono::Duration::from_std]: the same duration, unless it is out of
    chrono's range. *)
Class Chrono := {
  from_std : Z → option Z;
  from_std_same d r : from_std d = Some r → r = d;
}.

Definition nanos_per_day : Z := 86400 * 10 ^ 9.

(** [deadline]. *)
Definition deadline `{Chrono} (ttl now : Z) : Z :=
  now + default (365 * nanos_per_day) (from_std ttl).

(** [trait ClusterStateStore] over a store with state [St]. *)
Class ClusterStateStore (St : Type) := {
  migrate : M St ClusterError unit;
  register_node : string → string → list string → Z → Z → M St ClusterError NodeRegistration;
  renew_node : string → Z → Z → M St ClusterError NodeRegistration;
  set_draining : string → bool → M St ClusterError unit;
  live_nodes : Z → M St ClusterError (list NodeRegistration);
  put_resource : SharedResource → option Z → M St ClusterError SharedResource;
  get_resource : string → string → string → Z → M St ClusterError (option SharedResource);
  delete_resource : string → string → string → M St ClusterError bool;
  claim_query : string → string → string → Z → Z → M St ClusterError QueryLease;
  renew_query : QueryLease → Z → Z → M St ClusterError QueryLease;
  release_query : QueryLease → M St ClusterError bool;
  acquire_quota : string → string → Z → Z → string → Z → M St ClusterError string;
  release_quota : string → M St ClusterError unit;
}.

Definition with_expiry (l : QueryLease) (t : Z) : QueryLease :=
  {| lease_query := lease_query l; lease_principal := lease_principal l;
     owner_node_id := owner_node_id l; fencing_token := fencing_token l;
     lease_expires_at := t |}.

Definition with_version (r : SharedResource) (v : Z) : SharedResource :=
  {| resource_id := resource_id r; resource_principal := resource_principal r;
     resource_kind := resource_kind r; resource_version := v;
     payload := payload r; resource_expires_at := resource_expires_at r |}.

Definition with_node_expiry (n : NodeRegistration) (t : Z) : NodeRegistration :=
  {| node_id := node_id n; instance_version := instance_version n;
     node_capabilities := node_capabilities n; draining := draining n;
     lease_epoch := lease_epoch n; node_expires_at := t |}.

Definition with_draining (n : NodeRegistration) (b : bool) : NodeRegistration :=
  {| node_id := node_id n; instance_version := instance_version n;
     node_capabilities := node_capabilities n; draining := b;
     lease_epoch := lease_epoch n; node_expires_at := node_expires_at n |}.

(** A quota permit: principal, quota name, expiry. *)
Definition Permit : Type := string * string * Z.
Definition permit_for (principal quota : string) (p : Permit) : bool :=
  String.eqb p.1.1 principal && String.eqb p.1.2 quota.
Definition permit_live (now : Z) (p : Permit) : bool := now <? p.2.

Definition node_not_found : ClusterError :=
  ClusterError_new "node_not_found" "node registration does not exist".
Definition resource_forbidden : ClusterError :=
  ClusterError_new "forbidden" "resource belongs to another principal".
Definition lease_held : ClusterError :=
  ClusterError_new "lease_held" "query lease is held by another live node".
Definition quota_exhausted : ClusterError :=
  ClusterError_new "quota_exhausted" "distributed quota exhausted".

(** ** The in-memory store *)
Module Memory.

Record MemoryState := {
  nodes : gmap string NodeRegistration;
  resources : gmap (string * string) SharedResource;
  leases : gmap string QueryLease;
  permits : gmap string Permit;
  next_fence : Z;
}.

Definition MemoryState_default : MemoryState :=
  {| nodes := ∅; resources := ∅; leases := ∅; permits := ∅; next_fence := 0 |}.

Definition set_nodes f s := {| nodes := f (nodes s); resources := resources s;
  leases := leases s; permits := permits s; next_fence := next_fence s |}.
Definition set_resources f s := {| nodes := nodes s; resources := f (resources s);
  leases := leases s; permits := permits s; next_fence := next_fence s |}.
Definition set_leases f s := {| nodes := nodes s; resources := resources s;
  leases := f (leases s); permits := permits s; next_fence := next_fence s |}.
Definition set_permits f s := {| nodes := nodes s; resources := resources s;
  leases := leases s; permits := f (permits s); next_fence := next_fence s |}.
Definition set_next_fence n s := {| nodes := nodes s; resources := resources s;
  leases := leases s; permits := permits s; next_fence := n |}.

Section Memory.
Context `{Chrono}.

Definition mem_register_node (id version_ : string) (caps : list string) (ttl now : Z) :
    M MemoryState ClusterError NodeRegistration :=
  s ← get_state;
  let epoch := match nodes s !! id with
               | Some node => i64_add (lease_epoch node) 1
               | None => 1
               end in
  let node := {| node_id := id; instance_version := version_; node_capabilities := caps;
                 draining := false; lease_epoch := epoch;
                 node_expires_at := deadline ttl now |} in
  _ ← modify (set_nodes (<[id := node]>));
  mret node.

Definition mem_renew_node (id : string) (ttl now : Z) :
    M MemoryState ClusterError NodeRegistration :=
  o ← gets (λ s, nodes s !! id);
  node ← of_result (ok_or o node_not_found);
  let node' := with_node_expiry node (deadline ttl now) in
  _ ← modify (set_nodes (<[id := node']>));
  mret node'.

Definition mem_set_draining (id : string) (b : bool) : M MemoryState ClusterError unit :=
  o ← gets (λ s, nodes s !! id);
  node ← of_result (ok_or o node_not_found);
  modify (set_nodes (<[id := with_draining node b]>)).

Definition mem_live_nodes (now : Z) : M MemoryState ClusterError (list NodeRegistration) :=
  gets (λ s, filter (λ n, now < node_expires_at n) (map_to_list (nodes s)).*2).

Definition mem_put_resource (resource : SharedResource) (expected : option Z) :
    M MemoryState ClusterError SharedResource :=
  let key := (resource_kind resource, resource_id resource) in
  current ← gets (λ s, resources s !! key);
  _ ← reject_if
    match current with
    | Some value => negb (String.eqb (resource_principal value) (resource_principal resource))
    | None => false
    end resource_forbidden;
  let version := match current with Some value => resource_version value | None => 0 end in
  _ ← reject_if match expected with Some e => negb (e =? version) | None => false end
        (ClusterError_new "version_conflict" "resource version changed");
  let resource' := with_version resource (i64_add version 1) in
  _ ← modify (set_resources (<[key := resource']>));
  mret resource'.

Definition mem_get_resource (kind id principal : string) (now : Z) :
    M MemoryState ClusterError (option SharedResource) :=
  o ← gets (λ s, resources s !! (kind, id));
  match o with
  | None => mret None
  | Some resource =>
      _ ← reject_if (negb (String.eqb (resource_principal resource) principal))
            resource_forbidden;
      mret (if now <? resource_expires_at resource then Some resource else None)
  end.

Definition mem_delete_resource (kind id principal : string) :
    M MemoryState ClusterError bool :=
  o ← gets (λ s, resources s !! (kind, id));
  _ ← reject_if
    match o with
    | Some resource => negb (String.eqb (resource_principal resource) principal)
    | None => false
    end resource_forbidden;
  _ ← modify (set_resources (delete (kind, id)));
  mret (bool_decide (is_Some o)).

Definition mem_claim_query (query principal node : string) (ttl now : Z) :
    M MemoryState ClusterError QueryLease :=
  s ← get_state;
  _ ← match leases s !! query with
      | None => mret tt
      | Some lease =>
          _ ← reject_if (negb (String.eqb (lease_principal lease) principal))
                (ClusterError_new "forbidden" "query belongs to another principal");
          reject_if ((now <? lease_expires_at lease)
                     && negb (String.eqb (owner_node_id lease) node)) lease_held
      end;
  let fence := i64_add (next_fence s) 1 in
  let lease := {| lease_query := query; lease_principal := principal;
                  owner_node_id := node; fencing_token := fence;
                  lease_expires_at := deadline ttl now |} in
  _ ← modify (set_next_fence fence);
  _ ← modify (set_leases (<[query := lease]>));
  mret lease.

Definition same_holder (current lease : QueryLease) : bool :=
  String.eqb (owner_node_id current) (owner_node_id lease)
  && (fencing_token current =? fencing_token lease).

Definition mem_renew_query (lease : QueryLease) (ttl now : Z) :
    M MemoryState ClusterError QueryLease :=
  o ← gets (λ s, leases s !! lease_query lease);
  current ← of_result (ok_or o
    (ClusterError_new "lease_lost" "query lease does not exist"));
  _ ← reject_if (negb (same_holder current lease))
        (ClusterError_new "lease_lost" "query fencing token is stale");
  let current' := with_expiry current (deadline ttl now) in
  _ ← modify (set_leases (<[lease_query lease := current']>));
  mret current'.

Definition mem_release_query (lease : QueryLease) : M MemoryState ClusterError bool :=
  o ← gets (λ s, leases s !! lease_query lease);
  if match o with Some current => same_holder current lease | None => false end
  then _ ← modify (set_leases (delete (lease_query lease))); mret true
  else mret false.

Definition mem_acquire_quota (principal quota : string) (limit ttl : Z) (uuid : string)
    (now : Z) : M MemoryState ClusterError string :=
  _ ← modify (set_permits (retain (permit_live now)));
  s ← get_state;
  let used := Z.of_nat (count_values (permit_for principal quota) (permits s)) in
  _ ← reject_if (limit <=? used) quota_exhausted;
  _ ← modify (set_permits (<[uuid := (principal, quota, deadline ttl now)]>));
  mret uuid.

Definition mem_release_quota (permit : string) : M MemoryState ClusterError unit :=
  modify (set_permits (delete permit)).

#[global] Instance memory_store : ClusterStateStore MemoryState := {
  migrate := mret tt;
  register_node := mem_register_node;
  renew_node := mem_renew_node;
  set_draining := mem_set_draining;
  live_nodes := mem_live_nodes;
  put_resource := mem_put_resource;
  get_resource := mem_get_resource;
  delete_resource := mem_delete_resource;
  claim_query := mem_claim_query;
  renew_query := mem_renew_query;
  release_query := mem_release_query;
  acquire_quota := mem_acquire_quota;
  release_quota := mem_release_quota;
}.
End Memory.
End Memory.

(** ** The PostgreSQL store

    The tables of schema.sql and, for each method, the effect of the one SQL
    statement it sends.  A statement is atomic; the sub-statements of a [WITH]
    all see the tables as they were when the statement began; [nextval] is
    never rolled back.  Versions, epochs and tokens are unbounded here, where
    PostgreSQL raises an error past [bigint]. *)
Module Postgres.

Record Tables := {
  (** [Some e]: the connection is broken and every statement fails with [e]. *)
  link_error : option string;
  (** [qcli_cluster_schema]'s version, when the row exists. *)
  schema_row : option Z;
  nodes : gmap string NodeRegistration;
  resources : gmap (string * string) SharedResource;
  leases : gmap string QueryLease;
  permits : gmap string Permit;
  (** The last value of the sequence [qcli_fencing_token]. *)
  fence_sequence : Z;
}.

Definition set_schema_row v s := {| link_error := link_error s; schema_row := v;
  nodes := nodes s; resources := resources s; leases := leases s;
  permits := permits s; fence_sequence := fence_sequence s |}.
Definition set_nodes f s := {| link_error := link_error s; schema_row := schema_row s;
  nodes := f (nodes s); resources := resources s; leases := leases s;
  permits := permits s; fence_sequence := fence_sequence s |}.
Definition set_resources f s := {| link_error := link_error s; schema_row := schema_row s;
  nodes := nodes s; resources := f (resources s); leases := leases s;
  permits := permits s; fence_sequence := fence_sequence s |}.
Definition set_leases f s := {| link_error := link_error s; schema_row := schema_row s;
  nodes := nodes s; resources := resources s; leases := f (leases s);
  permits := permits s; fence_sequence := fence_sequence s |}.
Definition set_permits f s := {| link_error := link_error s; schema_row := schema_row s;
  nodes := nodes s; resources := resources s; leases := leases s;
  permits := f (permits s); fence_sequence := fence_sequence s |}.
Definition set_fence n s := {| link_error := link_error s; schema_row := schema_row s;
  nodes := nodes s; resources := resources s; leases := leases s;
  permits := permits s; fence_sequence := n |}.

Definition nanos_per_milli : Z := 10 ^ 6.

(** [millis]: [i64::try_from(duration.as_millis())]. *)
Definition millis (ttl : Z) : result Z ClusterError :=
  let ms := ttl / nanos_per_milli in
  if ms <=? 2 ^ 63 - 1 then Ok ms
  else Err (ClusterError_new "invalid_ttl" "lease TTL is too large").

(** [clock_timestamp() + $n::bigint * interval '1 millisecond'] *)
Definition after_millis (now ms : Z) : Z := now + ms * nanos_per_milli.

(** Send a statement: it fails when the connection does. *)
Definition statement {A} (m : M Tables ClusterError A) : M Tables ClusterError A :=
  o ← gets link_error;
  match o with
  | Some e => fail (ClusterError_new "postgres" e)
  | None => m
  end.

(** [migrate]: schema.sql creates what is missing and inserts version 1 when
    there is no row; the version found must be the supported one. *)
Definition pg_migrate : M Tables ClusterError unit :=
  _ ← statement (modify (λ s,
        set_schema_row (Some (default 1 (schema_row s))) s));
  row ← statement (gets (λ s, default 1 (schema_row s)));
  if row =? STATE_SCHEMA_VERSION then mret tt
  else fail (ClusterError_new "schema_version"
    ("cluster schema version " +:+ pretty row
     +:+ " is incompatible with supported version " +:+ pretty STATE_SCHEMA_VERSION)).

Definition pg_register_node (id version_ : string) (caps : list string) (ttl now : Z) :
    M Tables ClusterError NodeRegistration :=
  ttl_ms ← of_result (millis ttl);
  statement (
    s ← get_state;
    let epoch := match nodes s !! id with Some n => lease_epoch n + 1 | None => 1 end in
    let node := {| node_id := id; instance_version := version_; node_capabilities := caps;
                   draining := false; lease_epoch := epoch;
                   node_expires_at := after_millis now ttl_ms |} in
    _ ← modify (set_nodes (<[id := node]>));
    mret node).

Definition pg_renew_node (id : string) (ttl now : Z) :
    M Tables ClusterError NodeRegistration :=
  ttl_ms ← of_result (millis ttl);
  statement (
    o ← gets (λ s, nodes s !! id);
    node ← of_result (ok_or o node_not_found);
    let node' := with_node_expiry node (after_millis now ttl_ms) in
    _ ← modify (set_nodes (<[id := node']>));
    mret node').

Definition pg_set_draining (id : string) (b : bool) : M Tables ClusterError unit :=
  statement (
    o ← gets (λ s, nodes s !! id);
    node ← of_result (ok_or o node_not_found);
    modify (set_nodes (<[id := with_draining node b]>))).

(** [ORDER BY node_id]. *)
Definition pg_live_nodes (now : Z) : M Tables ClusterError (list NodeRegistration) :=
  statement (gets (λ s,
    filter (λ n, now < node_expires_at n) (sorted_entries (nodes s)).*2)).

(** [INSERT .. VALUES(.., 1, ..) ON CONFLICT DO UPDATE SET version = version + 1,
    .. WHERE principal_id = EXCLUDED.principal_id AND ($6 IS NULL OR version = $6)]:
    a missing row is inserted at version 1 whatever version is expected. *)
Definition pg_put_resource (resource : SharedResource) (expected : option Z) :
    M Tables ClusterError SharedResource :=
  let key := (resource_kind resource, resource_id resource) in
  statement (
    current ← gets (λ s, resources s !! key);
    match current with
    | None =>
        let r := with_version resource 1 in
        _ ← modify (set_resources (<[key := r]>)); mret r
    | Some value =>
        if String.eqb (resource_principal value) (resource_principal resource)
           && match expected with Some e => resource_version value =? e | None => true end
        then
          let r := with_version resource (resource_version value + 1) in
          _ ← modify (set_resources (<[key := r]>)); mret r
        else fail (ClusterError_new "version_conflict" "resource owner or version changed")
    end).

Definition pg_get_resource (kind id principal : string) (now : Z) :
    M Tables ClusterError (option SharedResource) :=
  statement (
    o ← gets (λ s, resources s !! (kind, id));
    match o with
    | Some resource =>
        if now <? resource_expires_at resource then
          if String.eqb (resource_principal resource) principal then mret (Some resource)
          else fail resource_forbidden
        else mret None
    | None => mret None
    end).

Definition pg_delete_resource (kind id principal : string) : M Tables ClusterError bool :=
  statement (
    o ← gets (λ s, resources s !! (kind, id));
    if match o with
       | Some r => String.eqb (resource_principal r) principal
       | None => false
       end
    then _ ← modify (set_resources (delete (kind, id))); mret true
    else mret false).

(** The proposed row draws a token even when it is not inserted; the update of
    an existing row draws a second one. *)
Definition pg_claim_query (query principal node : string) (ttl now : Z) :
    M Tables ClusterError QueryLease :=
  ttl_ms ← of_result (millis ttl);
  statement (
    s ← get_state;
    let first := fence_sequence s + 1 in
    _ ← modify (set_fence first);
    let lease token :=
      {| lease_query := query; lease_principal := principal; owner_node_id := node;
         fencing_token := token; lease_expires_at := after_millis now ttl_ms |} in
    match leases s !! query with
    | None => _ ← modify (set_leases (<[query := lease first]>)); mret (lease first)
    | Some held =>
        if String.eqb (lease_principal held) principal
           && (String.eqb (owner_node_id held) node || (lease_expires_at held <=? now))
        then
          let second := first + 1 in
          _ ← modify (set_fence second);
          _ ← modify (set_leases (<[query := lease second]>));
          mret (lease second)
        else fail lease_held
    end).

Definition pg_same_holder (current lease : QueryLease) : bool :=
  String.eqb (owner_node_id current) (owner_node_id lease)
  && (fencing_token current =? fencing_token lease).

Definition pg_renew_query (lease : QueryLease) (ttl now : Z) :
    M Tables ClusterError QueryLease :=
  ttl_ms ← of_result (millis ttl);
  statement (
    o ← gets (λ s, leases s !! lease_query lease);
    match o with
    | Some current =>
        if pg_same_holder current lease then
          let current' := with_expiry current (after_millis now ttl_ms) in
          _ ← modify (set_leases (<[lease_query lease := current']>));
          mret current'
        else fail (ClusterError_new "lease_lost" "query fencing token is stale")
    | None => fail (ClusterError_new "lease_lost" "query fencing token is stale")
    end).

Definition pg_release_query (lease : QueryLease) : M Tables ClusterError bool :=
  statement (
    o ← gets (λ s, leases s !! lease_query lease);
    if match o with Some current => pg_same_holder current lease | None => false end
    then _ ← modify (set_leases (delete (lease_query lease))); mret true
    else mret false).

(** The statement of [acquire_quota], with the snapshot it reads: [available]
    counts the permits of the snapshot, so neither what [cleaned] deletes nor
    what commits while [locked] waits is seen. *)
Definition pg_acquire_from (snapshot : Tables) (principal quota : string)
    (limit ttl_ms : Z) (uuid : string) (now : Z) : M Tables ClusterError string :=
  let used := Z.of_nat (count_values (permit_for principal quota) (permits snapshot)) in
  _ ← modify (set_permits (retain (permit_live now)));
  if used <? limit
  then _ ← modify (set_permits (<[uuid := (principal, quota, after_millis now ttl_ms)]>));
       mret uuid
  else fail quota_exhausted.

Definition pg_acquire_quota (principal quota : string) (limit ttl : Z) (uuid : string)
    (now : Z) : M Tables ClusterError string :=
  ttl_ms ← of_result (millis ttl);
  _ ← reject_if (2 ^ 63 - 1 <? limit)
        (ClusterError_new "invalid_quota" "quota limit is too large");
  statement (s ← get_state; pg_acquire_from s principal quota limit ttl_ms uuid now).

Definition pg_release_quota (permit : string) : M Tables ClusterError unit :=
  statement (modify (set_permits (delete permit))).

#[global] Instance postgres_store : ClusterStateStore Tables := {
  migrate := pg_migrate;
  register_node := pg_register_node;
  renew_node := pg_renew_node;
  set_draining := pg_set_draining;
  live_nodes := pg_live_nodes;
  put_resource := pg_put_resource;
  get_resource := pg_get_resource;
  delete_resource := pg_delete_resource;
  claim_query := pg_claim_query;
  renew_query := pg_renew_query;
  release_query := pg_release_query;
  acquire_quota := pg_acquire_quota;
  release_quota := pg_release_quota;
}.
End Postgres.

(** ** The shared result store *)
Module Objects.

(** What a call of the [object_store] crate answers. *)
Inductive StoreOutcome A :=
| Done (a : A)
| NotFound
| StoreFailed (message : string).
Arguments Done {A} _.
Arguments NotFound {A}.
Arguments StoreFailed {A} _.

Record SharedObjectStore := { prefix : string }.

Definition slash : string := "/".

(** [trim_matches('/')], through its two halves. *)
Definition trim_slashes_start (s : string) : string :=
  trim_loop [slash] (String.length s) s.
Definition trim_slashes (s : string) : string :=
  string_rev (trim_slashes_start (string_rev (trim_slashes_start s))).

Definition SharedObjectStore_new (prefix_ : string) : SharedObjectStore :=
  {| prefix := trim_slashes prefix_ |}.

Section Objects.
Context {Bytes ObjectPath : Type}.
(** [ObjectPath::parse]. *)
Variable parse_path : string → result ObjectPath string.
(** The calls of the [ObjectStore]. *)
Variable inner_put : ObjectPath → Bytes → StoreOutcome unit.
Variable inner_get : ObjectPath → StoreOutcome Bytes.
Variable inner_delete : ObjectPath → StoreOutcome unit.

Definition path (st : SharedObjectStore) (key : string) : result ObjectPath ClusterError :=
  if contains ".." key || starts_with slash key
  then Err (ClusterError_new "invalid_object_key"
         "object key must be relative and cannot contain '..'")
  else map_err (ClusterError_new "invalid_object_key")
         (parse_path (prefix st +:+ slash +:+ trim_slashes_start key)).

Definition object_error (message : string) : ClusterError :=
  ClusterError_new "object_store" message.

(** [from_url]: [url_parse] is [Url::parse], [store_parse] [object_store::parse_url]
    with the prefix it finds. *)
Definition from_url {Url : Type} (url_parse : string → result Url string)
    (store_parse : Url → result string string) (value : string) :
    result SharedObjectStore ClusterError :=
  let? url := map_err (ClusterError_new "object_store_url") (url_parse value) in
  let? prefix_ := map_err object_error (store_parse url) in
  Ok (SharedObjectStore_new prefix_).

Definition object_put (st : SharedObjectStore) (key : string) (value : Bytes) :
    result unit ClusterError :=
  let? p := path st key in
  match inner_put p value with
  | Done _ => Ok tt
  | NotFound => Err (object_error "not found")
  | StoreFailed e => Err (object_error e)
  end.

Definition object_get (st : SharedObjectStore) (key : string) :
    result (option Bytes) ClusterError :=
  let? p := path st key in
  match inner_get p with
  | Done bytes => Ok (Some bytes)
  | NotFound => Ok None
  | StoreFailed e => Err (object_error e)
  end.

Definition object_delete (st : SharedObjectStore) (key : string) :
    result unit ClusterError :=
  let? p := path st key in
  match inner_delete p with
  | Done _ | NotFound => Ok tt
  | StoreFailed e => Err (object_error e)
  end.
End Objects.
End Objects.
