(* ===== verification/ClusterFacts.v ===== *)
(** * The cluster store contract

    [ClusterContract] states what the gateway relies on: fenced leases,
    compare-and-swap resources bound to a principal, bounded quotas.  Both
    stores implement it; the theorems of the first part hold of any store that
    does. *)
From S2P Require Import Prelude Text Config Cluster.

(** What the contract talks about. *)
Class Observable (St : Type) := {
  lease_of : St → string → option QueryLease;
  resource_of : St → string * string → option SharedResource;
  permits_of : St → gmap string Permit;
  (** The highest fencing token handed out so far. *)
  issued : St → Z;
}.

(** Room for at least two more tokens below [i64::MAX]. *)
Definition fence_room {St} `{Observable St} (s : St) : Prop := 0 ≤ issued s < 2 ^ 63 - 2.

(** Live permits of a principal for a quota. *)
Definition live_permits {St} `{Observable St} (principal quota : string) (now : Z) (s : St) :
    nat :=
  count_values (λ p, permit_for principal quota p && permit_live now p) (permits_of s).

(** Two states that agree on leases and tokens, on resources, on permits. *)
Definition same_leases {St} `{Observable St} (s s' : St) : Prop :=
  issued s' = issued s ∧ ∀ q, lease_of s' q = lease_of s q.
Definition same_resources {St} `{Observable St} (s s' : St) : Prop :=
  ∀ k, resource_of s' k = resource_of s k.

#[global] Instance same_leases_refl {St} `{Observable St} : Reflexive same_leases.
Proof. by intros s. Qed.
#[global] Instance same_resources_refl {St} `{Observable St} : Reflexive same_resources.
Proof. by intros s. Qed.

Inductive ClusterOp :=
| OpMigrate
| OpRegister (node version_ : string) (caps : list string) (ttl now : Z)
| OpRenewNode (node : string) (ttl now : Z)
| OpDraining (node : string) (b : bool)
| OpLiveNodes (now : Z)
| OpPut (r : SharedResource) (expected : option Z)
| OpGet (kind id principal : string) (now : Z)
| OpDelete (kind id principal : string)
| OpClaim (query principal node : string) (ttl now : Z)
| OpRenew (l : QueryLease) (ttl now : Z)
| OpRelease (l : QueryLease)
| OpAcquire (principal quota : string) (limit ttl : Z) (uuid : string) (now : Z)
| OpReleaseQuota (permit : string).

Definition apply_op {St} `{ClusterStateStore St} (o : ClusterOp) (s : St) : St :=
  match o with
  | OpMigrate => (migrate s).2
  | OpRegister n v c ttl now => (register_node n v c ttl now s).2
  | OpRenewNode n ttl now => (renew_node n ttl now s).2
  | OpDraining n b => (set_draining n b s).2
  | OpLiveNodes now => (live_nodes now s).2
  | OpPut r e => (put_resource r e s).2
  | OpGet k i p now => (get_resource k i p now s).2
  | OpDelete k i p => (delete_resource k i p s).2
  | OpClaim q p n ttl now => (claim_query q p n ttl now s).2
  | OpRenew l ttl now => (renew_query l ttl now s).2
  | OpRelease l => (release_query l s).2
  | OpAcquire p q l ttl u now => (acquire_quota p q l ttl u now s).2
  | OpReleaseQuota p => (release_quota p s).2
  end.

Definition apply_ops {St} `{ClusterStateStore St} (os : list ClusterOp) (s : St) : St :=
  foldl (λ s o, apply_op o s) s os.

Definition touches_leases (o : ClusterOp) : bool :=
  match o with OpClaim _ _ _ _ _ | OpRenew _ _ _ | OpRelease _ => true | _ => false end.
Definition touches_resources (o : ClusterOp) : bool :=
  match o with OpPut _ _ | OpDelete _ _ _ => true | _ => false end.

(** The lease holder named by a lease value. *)
Definition holds (l c : QueryLease) : Prop :=
  owner_node_id c = owner_node_id l ∧ fencing_token c = fencing_token l.

(** The outcome of each operation that changes what the contract observes:
    the state before, then the result with the state after. *)
Section Outcomes.
Context {St : Type} `{!Observable St}.
Implicit Types s : St.

(** A claim gives the caller the highest token so far, and only when no other
    live node and no other principal holds the query. *)
Definition claim_outcome (query principal node : string) (now : Z) s
    (out : result QueryLease ClusterError * St) : Prop :=
  match out with
  | (Ok l, s') =>
      lease_query l = query ∧ lease_principal l = principal ∧ owner_node_id l = node ∧
      issued s < fencing_token l ∧ issued s' = fencing_token l ∧
      issued s' ≤ issued s + 2 ∧
      lease_of s' query = Some l ∧ (∀ q, q ≠ query → lease_of s' q = lease_of s q) ∧
      (∀ held, lease_of s query = Some held →
         lease_principal held = principal ∧
         (owner_node_id held = node ∨ lease_expires_at held ≤ now))
  | (Err _, s') =>
      issued s ≤ issued s' ≤ issued s + 1 ∧ (∀ q, lease_of s' q = lease_of s q)
  end.

(** Only the holder of the current token renews. *)
Definition renew_outcome (l : QueryLease) s (out : result QueryLease ClusterError * St) :
    Prop :=
  match out with
  | (Ok l', s') =>
      ∃ c t, lease_of s (lease_query l) = Some c ∧ holds l c ∧
        l' = with_expiry c t ∧ issued s' = issued s ∧
        lease_of s' (lease_query l) = Some l' ∧
        (∀ q, q ≠ lease_query l → lease_of s' q = lease_of s q)
  | (Err _, s') => same_leases s s'
  end.

Definition release_outcome (l : QueryLease) s (out : result bool ClusterError * St) : Prop :=
  match out with
  | (Ok true, s') =>
      ∃ c, lease_of s (lease_query l) = Some c ∧ holds l c ∧ issued s' = issued s ∧
        lease_of s' (lease_query l) = None ∧
        (∀ q, q ≠ lease_query l → lease_of s' q = lease_of s q)
  | (_, s') => same_leases s s'
  end.

(** A write needs the owner, and the expected version of an existing
    resource; it moves the version by one. *)
Definition put_outcome (r : SharedResource) (expected : option Z) s
    (out : result SharedResource ClusterError * St) : Prop :=
  let key := (resource_kind r, resource_id r) in
  match out with
  | (Ok r', s') =>
      resource_of s' key = Some r' ∧ payload r' = payload r ∧
      resource_principal r' = resource_principal r ∧
      resource_expires_at r' = resource_expires_at r ∧
      (resource_kind r', resource_id r') = key ∧
      (∀ k, k ≠ key → resource_of s' k = resource_of s k) ∧
      match resource_of s key with
      | None => resource_version r' = 1
      | Some old =>
          resource_principal old = resource_principal r ∧
          (resource_version old < 2 ^ 63 - 1 → - 2 ^ 63 ≤ resource_version old →
             resource_version r' = resource_version old + 1) ∧
          match expected with Some e => e = resource_version old | None => True end
      end
  | (Err _, s') => same_resources s s'
  end.

Definition get_outcome (kind id principal : string) (now : Z) s
    (out : result (option SharedResource) ClusterError * St) : Prop :=
  match out with
  | (Ok (Some r), s') =>
      s' = s ∧ resource_of s (kind, id) = Some r ∧ resource_principal r = principal ∧
      now < resource_expires_at r
  | (_, s') => s' = s
  end.

Definition delete_outcome (kind id principal : string) s
    (out : result bool ClusterError * St) : Prop :=
  match out with
  | (Ok true, s') =>
      (∃ r, resource_of s (kind, id) = Some r ∧ resource_principal r = principal) ∧
      resource_of s' (kind, id) = None ∧
      (∀ k, k ≠ (kind, id) → resource_of s' k = resource_of s k)
  | (_, s') => same_resources s s'
  end.

(** A granted permit is the one added, and leaves at most [limit] live
    permits. *)
Definition acquire_outcome (principal quota : string) (limit : Z) (uuid : string) (now : Z) s
    (out : result string ClusterError * St) : Prop :=
  match out with
  | (Ok id, s') =>
      id = uuid ∧ Z.of_nat (live_permits principal quota now s') ≤ limit ∧
      ∃ expiry, permits_of s' ⊆ <[uuid := (principal, quota, expiry)]> (permits_of s)
  | (Err _, s') => permits_of s' ⊆ permits_of s
  end.
End Outcomes.

Definition is_acquire (o : ClusterOp) : bool :=
  match o with OpAcquire _ _ _ _ _ _ => true | _ => false end.

Class ClusterContract (St : Type) `{ClusterStateStore St} `{Observable St} : Prop := {
  other_ops_keep_leases o s : touches_leases o = false → same_leases s (apply_op o s);
  other_ops_keep_resources o s : touches_resources o = false → same_resources s (apply_op o s);
  other_ops_permits o s : is_acquire o = false → permits_of (apply_op o s) ⊆ permits_of s;
  claim_spec query principal node ttl now s :
    fence_room s →
    claim_outcome query principal node now s (claim_query query principal node ttl now s);
  renew_spec l ttl now s : renew_outcome l s (renew_query l ttl now s);
  release_spec l s : release_outcome l s (release_query l s);
  put_spec r expected s : put_outcome r expected s (put_resource r expected s);
  get_spec kind id principal now s :
    get_outcome kind id principal now s (get_resource kind id principal now s);
  delete_spec kind id principal s :
    delete_outcome kind id principal s (delete_resource kind id principal s);
  acquire_spec principal quota limit ttl uuid now s :
    permits_of s !! uuid = None →
    acquire_outcome principal quota limit uuid now s
      (acquire_quota principal quota limit ttl uuid now s);
}.

Section Contract.
Context {St : Type} `{!ClusterStateStore St} `{!Observable St} `{!ClusterContract St}.

Lemma apply_op_issued o s :
  fence_room s → issued s ≤ issued (apply_op o s) ≤ issued s + 2.
Proof.
  intros Hr. destruct (touches_leases o) eqn:Ht.
  - destruct o; try done; simpl.
    + pose proof (claim_spec query principal node ttl now s Hr) as Hc.
    unfold claim_outcome in Hc.
      destruct (claim_query _ _ _ _ _ s) as [[l|e] s']; simpl; [|lia].
      destruct Hc as (_&_&_&?&?&?&_). lia.
    + pose proof (renew_spec l ttl now s) as Hc.
    unfold renew_outcome in Hc.
      destruct (renew_query _ _ _ s) as [[l'|e] s']; simpl.
      * destruct Hc as (?&?&_&_&_&?&_). lia.
      * destruct Hc as [? _]. lia.
    + pose proof (release_spec l s) as Hc.
    unfold release_outcome in Hc.
      destruct (release_query _ s) as [[[]|e] s']; simpl.
      * destruct Hc as (?&_&_&?&_). lia.
      * destruct Hc as [? _]. lia.
      * destruct Hc as [? _]. lia.
  - apply (other_ops_keep_leases o s) in Ht as [? _]. lia.
Qed.

(** From the moment token [t] is issued for a query, the query's lease, when
    there is one, carries [t] or a later token. *)
Definition at_least (q : string) (t : Z) (s : St) : Prop :=
  t ≤ issued s ∧ ∀ l, lease_of s q = Some l → t ≤ fencing_token l.

Lemma apply_op_at_least o q t s : fence_room s → at_least q t s → at_least q t (apply_op o s).
Proof.
  intros Hr [Hi Hl]. split; [pose proof (apply_op_issued o s Hr); lia|].
  destruct (touches_leases o) eqn:Ht.
  2:{ apply (other_ops_keep_leases o s) in Ht as [_ Hsame]. by rewrite Hsame. }
  destruct o; try done; simpl; intros l' Hl'.
  - pose proof (claim_spec query principal node ttl now s Hr) as Hc.
    unfold claim_outcome in Hc.
    destruct (claim_query _ _ _ _ _ s) as [[l|e] s']; simpl in *.
    + destruct Hc as (_&_&_&?&?&_&Hq&Hne&_).
      destruct (decide (q = query)) as [->|Hn]; [simplify_eq; lia|].
      rewrite Hne in Hl' by done. eauto.
    + destruct Hc as [_ Hsame]. rewrite Hsame in Hl'. eauto.
  - pose proof (renew_spec l ttl now s) as Hc.
    unfold renew_outcome in Hc.
    destruct (renew_query _ _ _ s) as [[l1|e] s']; simpl in *.
    + destruct Hc as (c&x&Hold&_&->&_&Hq&Hne).
      destruct (decide (q = lease_query l)) as [->|Hn].
      * simplify_eq. simpl. eauto.
      * rewrite Hne in Hl' by done. eauto.
    + destruct Hc as [_ Hsame]. rewrite Hsame in Hl'. eauto.
  - pose proof (release_spec l s) as Hc.
    unfold release_outcome in Hc.
    destruct (release_query _ s) as [[[]|e] s']; simpl in *.
    + destruct Hc as (c&_&_&_&Hq&Hne).
      destruct (decide (q = lease_query l)) as [->|Hn]; [congruence|].
      rewrite Hne in Hl' by done. eauto.
    + destruct Hc as [_ Hsame]. rewrite Hsame in Hl'. eauto.
    + destruct Hc as [_ Hsame]. rewrite Hsame in Hl'. eauto.
Qed.

Definition room_for (n : nat) (s : St) : Prop :=
  0 ≤ issued s ∧ issued s + 2 * Z.of_nat n < 2 ^ 63 - 2.

Lemma room_for_fence n s : room_for n s → fence_room s.
Proof. unfold room_for, fence_room. lia. Qed.

Lemma room_for_mono n m s : room_for n s → (m ≤ n)%nat → room_for m s.
Proof. unfold room_for. lia. Qed.

Lemma apply_op_room n o s : room_for (S n) s → room_for n (apply_op o s).
Proof.
  intros Hr. pose proof (apply_op_issued o s (room_for_fence _ _ Hr)).
  unfold room_for in *. lia.
Qed.

Lemma apply_ops_at_least os : ∀ n q t s,
  room_for (length os + n) s → at_least q t s →
  at_least q t (apply_ops os s) ∧ room_for n (apply_ops os s).
Proof.
  induction os as [|o os IH]; intros n q t s Hr Ha; [done|].
  apply (IH n q t (apply_op o s)).
  - by apply apply_op_room.
  - apply apply_op_at_least; [|done]. by eapply room_for_fence.
Qed.

(** *** Leases *)

Lemma claim_at_least query principal node ttl now s l s' :
  fence_room s → claim_query query principal node ttl now s = (Ok l, s') →
  at_least query (fencing_token l) s'.
Proof.
  intros Hr E. pose proof (claim_spec query principal node ttl now s Hr) as Hc.
    unfold claim_outcome in Hc.
  rewrite E in Hc. destruct Hc as (_&_&_&_&?&_&Hq&_).
  split; [lia|]. intros l' Hl'. by simplify_eq.
Qed.

(** A lease whose token is behind can neither be renewed nor released. *)
Lemma stale_renew l t ttl now s :
  at_least (lease_query l) t s → fencing_token l < t →
  (∃ e, (renew_query l ttl now s).1 = Err e) ∧ same_leases s (renew_query l ttl now s).2.
Proof.
  intros [_ Ha] Hlt. pose proof (renew_spec l ttl now s) as Hc.
    unfold renew_outcome in Hc.
  destruct (renew_query l ttl now s) as [[l'|e] s']; simpl; [|eauto].
  destruct Hc as (c&x&Hc&[_ Hf]&_). apply Ha in Hc. lia.
Qed.

Lemma stale_release l t s :
  at_least (lease_query l) t s → fencing_token l < t →
  (release_query l s).1 ≠ Ok true ∧ same_leases s (release_query l s).2.
Proof.
  intros [_ Ha] Hlt. pose proof (release_spec l s) as Hc.
    unfold release_outcome in Hc.
  destruct (release_query l s) as [[[]|e] s']; simpl; [|done..].
  destruct Hc as (c&Hc&[_ Hf]&_). apply Ha in Hc. lia.
Qed.

(** C39: Fencing.  Once a query has been claimed again, by whatever node and
    after whatever operations, the new token is higher, and from then on the
    earlier lease can neither be renewed nor released: both leave every lease
    as it is. *)
Theorem takeover_fences_the_old_owner query p1 n1 ttl1 t1 l1 s s1 ops1 p2 n2 ttl2 t2 l2 s2
    ops2 :
  room_for (length ops1 + length ops2 + 2) s →
  claim_query query p1 n1 ttl1 t1 s = (Ok l1, s1) →
  claim_query query p2 n2 ttl2 t2 (apply_ops ops1 s1) = (Ok l2, s2) →
  let s3 := apply_ops ops2 s2 in
  fencing_token l1 < fencing_token l2 ∧
  (∀ ttl now, (∃ e, (renew_query l1 ttl now s3).1 = Err e) ∧
              same_leases s3 (renew_query l1 ttl now s3).2) ∧
  (release_query l1 s3).1 ≠ Ok true ∧ same_leases s3 (release_query l1 s3).2.
Proof.
  intros Hr E1 E2 s3.
  assert (s1 = apply_op (OpClaim query p1 n1 ttl1 t1) s) as Hs1 by (simpl; by rewrite E1).
  assert (Hr1 : room_for (length ops1 + (length ops2 + 1)) s1)
    by (subst s1; apply apply_op_room; eapply room_for_mono; [exact Hr|lia]).
  assert (at_least query (fencing_token l1) s1) as Ha1
    by (eapply claim_at_least, E1; by eapply room_for_fence).
  destruct (apply_ops_at_least ops1 (length ops2 + 1) _ _ _ Hr1 Ha1) as [Ha Hr2].
  set (sm := apply_ops ops1 s1) in *.
  assert (fence_room sm) as Hf by by eapply room_for_fence.
  pose proof (claim_spec query p2 n2 ttl2 t2 sm Hf) as Hc.
    unfold claim_outcome in Hc. rewrite E2 in Hc.
  destruct Hc as (Hq&_&_&Hlt&_). destruct Ha as [Hi _].
  assert (lease_query l1 = query) as Hq1.
  { pose proof (claim_spec query p1 n1 ttl1 t1 s (room_for_fence _ _ Hr)) as Hc1.
    unfold claim_outcome in Hc1.
    rewrite E1 in Hc1. tauto. }
  assert (at_least query (fencing_token l2) s2) as Ha2 by by eapply claim_at_least.
  assert (s2 = apply_op (OpClaim query p2 n2 ttl2 t2) sm) as Hs2 by (simpl; by rewrite E2).
  assert (room_for (length ops2 + 0) s2) as Hr3
    by (subst s2; apply apply_op_room; eapply room_for_mono; [exact Hr2|lia]).
  destruct (apply_ops_at_least ops2 0 _ _ _ Hr3 Ha2) as [Ha3 _].
  rewrite <- Hq1 in Ha3.
  split; [lia|]. split; [intros ttl now; eapply stale_renew|eapply stale_release];
    try exact Ha3; lia.
Qed.

(** Mutual exclusion.  While a node's lease is live no other node can
    claim the query, and no other principal ever can while a lease is there:
    the claim is an error and leaves every lease as it is. *)
Theorem live_lease_excludes_others query principal node ttl now s held :
  fence_room s → lease_of s query = Some held →
  (lease_principal held ≠ principal ∨
   (owner_node_id held ≠ node ∧ now < lease_expires_at held)) →
  (∃ e, (claim_query query principal node ttl now s).1 = Err e) ∧
  ∀ q, lease_of (claim_query query principal node ttl now s).2 q = lease_of s q.
Proof.
  intros Hr Hh Hex. pose proof (claim_spec query principal node ttl now s Hr) as Hc.
    unfold claim_outcome in Hc.
  destruct (claim_query query principal node ttl now s) as [[l|e] s']; simpl.
  - destruct Hc as (_&_&_&_&_&_&_&_&Hc). apply Hc in Hh as [? ?]. exfalso. destruct Hex as [?|[? ?]]; [done|]. intuition lia.
  - destruct Hc as [_ ?]. eauto.
Qed.

(** *** Resources *)

(** An operation that writes or deletes the resource [k] for [principal]. *)
Definition writes_as (k : string * string) (principal : string) (o : ClusterOp) : bool :=
  match o with
  | OpPut r _ => bool_decide ((resource_kind r, resource_id r) = k)
                 && String.eqb (resource_principal r) principal
  | OpDelete kind id p => bool_decide ((kind, id) = k) && String.eqb p principal
  | _ => false
  end.

Lemma apply_op_foreign k r o s :
  resource_of s k = Some r → writes_as k (resource_principal r) o = false →
  resource_of (apply_op o s) k = Some r.
Proof.
  intros Hk Hw. destruct (touches_resources o) eqn:Ht.
  2:{ apply (other_ops_keep_resources o s) in Ht. by rewrite Ht. }
  destruct o as [| | | | |r0 e| |kind id p| | | | |]; try done; simpl in *.
  - pose proof (put_spec r0 e s) as Hc.
    unfold put_outcome in Hc. cbv zeta in Hc.
    destruct (put_resource r0 e s) as [[r'|err] s']; simpl; [|by rewrite Hc].
    destruct Hc as (_&_&_&_&_&Hne&Hold).
    destruct (decide ((resource_kind r0, resource_id r0) = k)) as [Heq|Hn].
    + rewrite Heq, Hk in Hold. destruct Hold as [Hp _].
      rewrite bool_decide_true in Hw by done. simpl in Hw.
      by rewrite Hp, String.eqb_refl in Hw.
    + by rewrite Hne.
  - pose proof (delete_spec kind id p s) as Hc.
    unfold delete_outcome in Hc.
    destruct (delete_resource kind id p s) as [[[]|err] s']; simpl; [|by rewrite Hc..].
    destruct Hc as ((r0&Hr0&Hp)&_&Hne).
    destruct (decide ((kind, id) = k)) as [Heq|Hn].
    + rewrite Heq, Hk in Hr0. simplify_eq.
      by rewrite bool_decide_true, String.eqb_refl in Hw.
    + by rewrite Hne.
Qed.

(** Tenant isolation.  Whatever sequence of operations runs, a stored
    resource is exactly what its own principal made it: operations on behalf
    of other principals, or on other resources, never change or remove it. *)
Theorem foreign_operations_keep_resources k r os s :
  resource_of s k = Some r →
  Forall (λ o, writes_as k (resource_principal r) o = false) os →
  resource_of (apply_ops os s) k = Some r.
Proof.
  intros Hk Hf. revert s Hk. induction Hf as [|o os Ho _ IH]; intros s Hk; [done|].
  apply (IH (apply_op o s)). by apply apply_op_foreign.
Qed.

Definition deletes (k : string * string) (o : ClusterOp) : bool :=
  match o with OpDelete kind id _ => bool_decide ((kind, id) = k) | _ => false end.

(** The resource [k] is there, at version at least [v]. *)
Definition version_from (k : string * string) (v : Z) (s : St) (r : SharedResource) : Prop :=
  resource_of s k = Some r ∧ v ≤ resource_version r.

Lemma apply_op_version k v o s r :
  - 2 ^ 63 ≤ v → version_from k v s r → deletes k o = false →
  resource_version r < 2 ^ 63 - 1 →
  ∃ r', version_from k v (apply_op o s) r' ∧ resource_version r' ≤ resource_version r + 1.
Proof.
  intros Hlo [Hk Hv] Hd Hhi. destruct (touches_resources o) eqn:Ht.
  2:{ apply (other_ops_keep_resources o s) in Ht. exists r. unfold version_from.
      rewrite Ht. auto with lia. }
  destruct o as [| | | | |r0 e| |kind id p| | | | |]; try done; simpl in *.
  - pose proof (put_spec r0 e s) as Hc.
    unfold put_outcome in Hc. cbv zeta in Hc. unfold version_from.
    destruct (put_resource r0 e s) as [[r'|err] s']; simpl;
      [|exists r; rewrite Hc; auto with lia].
    destruct Hc as (Hkey&_&_&_&_&Hne&Hold).
    destruct (decide ((resource_kind r0, resource_id r0) = k)) as [Heq|Hn].
    + rewrite Heq, Hk in Hold. destruct Hold as (_&Hver&_). rewrite Heq in Hkey.
      exists r'. rewrite Hkey, Hver by lia. auto with lia.
    + exists r. rewrite Hne by done. auto with lia.
  - apply bool_decide_eq_false in Hd. pose proof (delete_spec kind id p s) as Hc.
    unfold delete_outcome in Hc.
    exists r. unfold version_from.
    destruct (delete_resource kind id p s) as [[[]|err] s']; simpl;
      [|rewrite Hc; auto with lia..].
    destruct Hc as (_&_&Hne). rewrite Hne by done. auto with lia.
Qed.

Lemma apply_ops_version k v os : ∀ s r,
  - 2 ^ 63 ≤ v → version_from k v s r → Forall (λ o, deletes k o = false) os →
  resource_version r + Z.of_nat (length os) < 2 ^ 63 →
  ∃ r', version_from k v (apply_ops os s) r'.
Proof.
  induction os as [|o os IH]; intros s r Hlo Hv Hf Hhi; [by exists r|].
  apply Forall_cons in Hf as [Ho Hf]. simpl in Hhi.
  destruct (apply_op_version k v o s r) as (r'&Hv'&Hle); [done..|lia|].
  apply (IH (apply_op o s) r'); [done..|lia].
Qed.

(** Compare-and-swap.  Of the writers that read the same version of a
    resource, at most one succeeds: after a successful write that expected
    version [v], and any operations but a deletion of the resource, another
    write that expects [v] fails and changes nothing. *)
Theorem resource_cas_once r1 r2 v old r1' s s1 os :
  let key := (resource_kind r1, resource_id r1) in
  (resource_kind r2, resource_id r2) = key →
  resource_of s key = Some old →
  - 2 ^ 63 ≤ resource_version old → resource_version old + Z.of_nat (length os) < 2 ^ 63 - 1 →
  put_resource r1 (Some v) s = (Ok r1', s1) →
  Forall (λ o, deletes key o = false) os →
  let s2 := apply_ops os s1 in
  (∃ e, (put_resource r2 (Some v) s2).1 = Err e) ∧
  same_resources s2 (put_resource r2 (Some v) s2).2.
Proof.
  intros key Hkey Hold Hlo Hhi E Hf s2.
  pose proof (put_spec r1 (Some v) s) as Hc.
    unfold put_outcome in Hc. cbv zeta in Hc. fold key in Hc.
  rewrite E, Hold in Hc. destruct Hc as (Hnew&_&_&_&_&_&_&Hver&Hexp).
  specialize (Hver ltac:(lia) Hlo).
  destruct (apply_ops_version key (v + 1) os s1 r1') as (r'&Hr'&Hge);
    [lia|split; [done|lia]|done|lia|].
  pose proof (put_spec r2 (Some v) s2) as Hc.
    unfold put_outcome in Hc. cbv zeta in Hc. rewrite Hkey in Hc.
  unfold s2 in *. rewrite Hr' in Hc.
  destruct (put_resource r2 (Some v) _) as [[r''|err] s3]; simpl; [|eauto].
  destruct Hc as (_&_&_&_&_&_&_&_&?). lia.
Qed.

(** *** Quotas *)

Definition acquired_uuid (o : ClusterOp) : option string :=
  match o with OpAcquire _ _ _ _ u _ => Some u | _ => None end.

(** Every permit of [principal] for [quota] is asked with at most [limit], and
    not after [now]. *)
Definition bounded_acquire (principal quota : string) (limit now : Z) (o : ClusterOp) : Prop :=
  match o with
  | OpAcquire p q l _ _ t => t ≤ now ∧ (p = principal → q = quota → l ≤ limit)
  | _ => True
  end.

Lemma apply_op_permits_dom o s :
  (∀ u, acquired_uuid o = Some u → permits_of s !! u = None) →
  dom (permits_of (apply_op o s))
    ⊆ dom (permits_of s) ∪ list_to_set (option_list (acquired_uuid o)).
Proof.
  intros Hu. destruct o as [| | | | | | | | | | |p q l ttl u t|];
    try (etrans; [apply subseteq_dom, other_ops_permits, eq_refl|set_solver]).
  pose proof (acquire_spec p q l ttl u t s (Hu u eq_refl)) as Hc.
    unfold acquire_outcome in Hc. simpl.
  destruct (acquire_quota p q l ttl u t s) as [[id|e] s']; simpl.
  - destruct Hc as (_&_&x&Hsub). apply subseteq_dom in Hsub.
    rewrite dom_insert in Hsub. clear Hu. set_solver.
  - apply subseteq_dom in Hc. clear Hu. set_solver.
Qed.

Lemma live_permits_later principal quota t now (s : St) :
  t ≤ now → (live_permits principal quota now s ≤ live_permits principal quota t s)%nat.
Proof.
  intros Hle. unfold live_permits, count_values. apply map_subseteq_size.
  apply map_filter_subseteq_ext. intros k x _. unfold permit_live. simpl.
  rewrite !andb_true_iff, !Z.ltb_lt. intuition lia.
Qed.

Lemma live_permits_mono principal quota now (s s' : St) :
  permits_of s' ⊆ permits_of s →
  (live_permits principal quota now s' ≤ live_permits principal quota now s)%nat.
Proof. apply count_values_mono. Qed.

Lemma apply_op_quota principal quota limit now o s :
  bounded_acquire principal quota limit now o →
  (∀ u, acquired_uuid o = Some u → permits_of s !! u = None) →
  Z.of_nat (live_permits principal quota now s) ≤ limit →
  Z.of_nat (live_permits principal quota now (apply_op o s)) ≤ limit.
Proof.
  intros Hb Hu Hle. destruct o as [| | | | | | | | | | |p q l ttl u t|];
    try (etrans; [apply Nat2Z.inj_le, live_permits_mono, other_ops_permits, eq_refl|done]).
  destruct Hb as [Ht Hb].
  pose proof (acquire_spec p q l ttl u t s (Hu u eq_refl)) as Hc.
    unfold acquire_outcome in Hc. simpl.
  destruct (acquire_quota p q l ttl u t s) as [[id|e] s']; simpl.
  - destruct Hc as (_&Hlive&x&Hsub).
    destruct (decide (p = principal ∧ q = quota)) as [[-> ->]|Hn].
    + pose proof (live_permits_later principal quota t now s' Ht).
      specialize (Hb eq_refl eq_refl). lia.
    + etrans; [|exact Hle]. apply Nat2Z.inj_le.
      etrans; [by apply count_values_mono|].
      rewrite count_values_insert by auto.
      assert (permit_for principal quota (p, q, x) = false) as ->; [|simpl; unfold live_permits; lia].
      apply andb_false_iff. rewrite !String.eqb_neq. simpl.
      destruct (decide (p = principal)); [right|left]; naive_solver.
  - etrans; [apply Nat2Z.inj_le, live_permits_mono, Hc|done].
Qed.

(** Distributed quotas.  Whatever the operations, as long as every
    acquisition of a quota asks for at most [limit] with a fresh permit id, a
    principal never holds more than [limit] live permits. *)
Theorem quota_never_exceeded principal quota limit now os s :
  Z.of_nat (live_permits principal quota now s) ≤ limit →
  Forall (bounded_acquire principal quota limit now) os →
  NoDup (omap acquired_uuid os) →
  (∀ u, u ∈ omap acquired_uuid os → permits_of s !! u = None) →
  Z.of_nat (live_permits principal quota now (apply_ops os s)) ≤ limit.
Proof.
  revert s. induction os as [|o os IH]; intros s Hle Hf Hnd Hfresh; [done|].
  apply Forall_cons in Hf as [Ho Hf]. simpl in *.
  assert (∀ u, acquired_uuid o = Some u → permits_of s !! u = None) as Hu.
  { intros u Hu. apply Hfresh. rewrite Hu. set_solver. }
  apply (IH (apply_op o s)); [by apply apply_op_quota|done| |].
  - destruct (acquired_uuid o); [by apply NoDup_cons in Hnd as [_ ?]|done].
  - intros u Hin. apply not_elem_of_dom. intros Hd.
    apply (apply_op_permits_dom o s Hu) in Hd.
    apply elem_of_union in Hd as [Hd|Hd].
    + apply elem_of_dom in Hd as [x Hx]. rewrite Hfresh in Hx; [done|].
      destruct (acquired_uuid o); set_solver.
    + destruct (acquired_uuid o) as [u'|]; [|set_solver].
      apply NoDup_cons in Hnd as [Hn _]. set_solver.
Qed.
End Contract.
