(* ===== verification/ClusterStores.v ===== *)
(** * The two cluster stores

    The in-memory store and the PostgreSQL store both implement
    [ClusterContract], so the theorems of ClusterFacts hold of each; where the
    two differ beyond the contract is stated last. *)
From S2P Require Import Prelude Text Config Cluster ClusterFacts.

#[export] Instance memory_observable : Observable Memory.MemoryState := {
  lease_of s q := Memory.leases s !! q;
  resource_of s k := Memory.resources s !! k;
  permits_of := Memory.permits;
  issued := Memory.next_fence;
}.

#[export] Instance postgres_observable : Observable Postgres.Tables := {
  lease_of s q := Postgres.leases s !! q;
  resource_of s k := Postgres.resources s !! k;
  permits_of := Postgres.permits;
  issued := Postgres.fence_sequence;
}.

Lemma same_holder_holds l c :
  Memory.same_holder c l = true → holds l c.
Proof.
  unfold Memory.same_holder, holds. rewrite andb_true_iff, String.eqb_eq, Z.eqb_eq. done.
Qed.

(** Counting the live permits of a quota after the expired ones are dropped. *)
Lemma count_retain_live principal quota now (m : gmap string Permit) :
  count_values (λ p, permit_for principal quota p && permit_live now p) m
  = count_values (permit_for principal quota) (retain (permit_live now) m).
Proof.
  unfold count_values, retain. f_equal. apply map_eq. intros k.
  apply option_eq. intros x. rewrite !map_lookup_filter_Some. simpl.
  rewrite andb_true_iff. tauto.
Qed.

(** A permit granted under [limit] keeps the live count at [limit]. *)
Lemma grant_within_limit principal quota now limit uuid expiry (m : gmap string Permit) :
  m !! uuid = None →
  Z.of_nat (count_values (permit_for principal quota) (retain (permit_live now) m)) < limit →
  Z.of_nat (count_values (λ p, permit_for principal quota p && permit_live now p)
    (<[uuid := (principal, quota, expiry)]> (retain (permit_live now) m))) ≤ limit.
Proof.
  intros Hu Hlt. rewrite count_values_insert.
  - rewrite count_retain_live.
    assert (retain (permit_live now) (retain (permit_live now) m)
            = retain (permit_live now) m) as ->.
    { apply map_eq. intros k. rewrite !retain_lookup.
      destruct (m !! k) as [x|]; [|done]. destruct (permit_live now x) eqn:E; [by rewrite E|done]. }
    case_match; lia.
  - by rewrite retain_lookup, Hu.
Qed.

Lemma insert_retain_subseteq (m : gmap string Permit) p u x :
  <[u := x]> (retain p m) ⊆ <[u := x]> m.
Proof. apply insert_mono, retain_subseteq. Qed.

Section MemoryStore.
Context `{Chrono}.
Import Memory.

Local Ltac run := unfold mem_register_node, mem_renew_node, mem_set_draining,
  mem_live_nodes, mem_put_resource, mem_get_resource, mem_delete_resource,
  mem_claim_query, mem_renew_query, mem_release_query, mem_acquire_quota,
  mem_release_quota, ok_or, claim_outcome, renew_outcome, release_outcome,
  put_outcome, get_outcome, delete_outcome, acquire_outcome in *; run_M.

Lemma memory_keeps_leases o (s : MemoryState) :
  touches_leases o = false → same_leases s (apply_op o s).
Proof. unfold same_leases. destruct o; try done; intros _; simpl; run; done. Qed.

Lemma memory_keeps_resources o (s : MemoryState) :
  touches_resources o = false → same_resources s (apply_op o s).
Proof. unfold same_resources. destruct o; try done; intros _; simpl; run; done. Qed.

Lemma memory_permits o (s : MemoryState) :
  is_acquire o = false →
  permits_of (apply_op o s) ⊆ permits_of s.
Proof.
  destruct o; try done; intros _; simpl; run; try done. apply delete_subseteq.
Qed.

Lemma memory_claim query principal node ttl now (s : MemoryState) :
  fence_room s →
  claim_outcome query principal node now s (mem_claim_query query principal node ttl now s).
Proof.
  unfold fence_room. simpl. intros Hr. run.
  all: try rewrite i64_add_small by lia.
  all: repeat match goal with
    | H : negb _ = false |- _ => apply negb_false_iff, String.eqb_eq in H
    | H : _ && _ = false |- _ => apply andb_false_iff in H
    end.
  all: split_and?; try done; try lia.
  all: try (by rewrite lookup_insert_eq).
  all: try (intros; by rewrite lookup_insert_ne by done).
  all: intros held ?; simplify_eq; split_and?; try done.
  rewrite Z.ltb_ge, negb_false_iff, String.eqb_eq in *. tauto.
Qed.

Lemma memory_renew l ttl now (s : MemoryState) :
  renew_outcome l s (mem_renew_query l ttl now s).
Proof.
  run; try done. eexists _, _.
  split_and!; [done|by apply same_holder_holds, negb_false_iff|done..| |].
  - by rewrite lookup_insert_eq.
  - intros. by rewrite lookup_insert_ne.
Qed.

Lemma memory_release l (s : MemoryState) :
  release_outcome l s (mem_release_query l s).
Proof.
  run; try done. eexists. split_and!; [done|by apply same_holder_holds|done|..].
  - apply lookup_delete_eq.
  - intros. by rewrite lookup_delete_ne.
Qed.

Lemma memory_put r expected (s : MemoryState) :
  put_outcome r expected s (mem_put_resource r expected s).
Proof.
  run; try done.
  all: repeat match goal with
    | H : negb _ = false |- _ => apply negb_false_iff in H; rewrite ?String.eqb_eq, ?Z.eqb_eq in H
    end.
  all: split_and?; try done.
  all: try (by rewrite lookup_insert_eq).
  all: try (intros; by rewrite lookup_insert_ne by done).
  all: intros; apply i64_add_small; lia.
Qed.

Lemma memory_acquire principal quota limit ttl uuid now (s : MemoryState) :
  permits_of s !! uuid = None →
  acquire_outcome principal quota limit uuid now s
    (mem_acquire_quota principal quota limit ttl uuid now s).
Proof.
  intros Hu. run.
  - apply retain_subseteq.
  - split_and!; [done| |eexists; apply insert_retain_subseteq].
    apply grant_within_limit; [done|lia].
Qed.

Lemma memory_get kind id principal now (s : MemoryState) :
  get_outcome kind id principal now s (mem_get_resource kind id principal now s).
Proof.
  run; try done. split_and!; [done..| |lia].
  by match goal with H : negb _ = false |- _ => apply negb_false_iff, String.eqb_eq in H end.
Qed.

Lemma memory_delete kind id principal (s : MemoryState) :
  delete_outcome kind id principal s (mem_delete_resource kind id principal s).
Proof.
  run; try done.
  - split_and!; [eexists; split; [done|]|apply lookup_delete_eq|].
    + by match goal with
      | H : negb _ = false |- _ => apply negb_false_iff, String.eqb_eq in H end.
    + intros. by rewrite lookup_delete_ne.
  - intros k. simpl. destruct (decide (k = (kind, id))) as [->|Hn].
    + by rewrite lookup_delete_eq.
    + by rewrite lookup_delete_ne.
Qed.

#[export] Instance memory_contract : ClusterContract MemoryState := {|
  other_ops_keep_leases := memory_keeps_leases;
  other_ops_keep_resources := memory_keeps_resources;
  other_ops_permits := memory_permits;
  claim_spec := memory_claim;
  renew_spec := memory_renew;
  release_spec := memory_release;
  put_spec := memory_put;
  get_spec := memory_get;
  delete_spec := memory_delete;
  acquire_spec := memory_acquire;
|}.
End MemoryStore.

Section PostgresStore.
Import Postgres.

Local Ltac run := unfold pg_migrate, pg_register_node, pg_renew_node, pg_set_draining,
  pg_live_nodes, pg_put_resource, pg_get_resource, pg_delete_resource,
  pg_claim_query, pg_renew_query, pg_release_query, pg_acquire_quota, pg_acquire_from,
  pg_release_quota, statement, millis, ok_or, claim_outcome, renew_outcome,
  release_outcome, put_outcome, get_outcome, delete_outcome, acquire_outcome in *; run_M.

Lemma postgres_keeps_leases o (s : Tables) :
  touches_leases o = false → same_leases s (apply_op o s).
Proof. unfold same_leases. destruct o; try done; intros _; simpl; run; done. Qed.

Lemma postgres_keeps_resources o (s : Tables) :
  touches_resources o = false → same_resources s (apply_op o s).
Proof. unfold same_resources. destruct o; try done; intros _; simpl; run; done. Qed.

Lemma postgres_permits o (s : Tables) :
  is_acquire o = false → permits_of (apply_op o s) ⊆ permits_of s.
Proof.
  destruct o; try done; intros _; simpl; run; try done. apply delete_subseteq.
Qed.

Lemma postgres_claim query principal node ttl now (s : Tables) :
  fence_room s →
  claim_outcome query principal node now s (pg_claim_query query principal node ttl now s).
Proof.
  unfold fence_room. simpl. intros Hr. run.
  all: split_and?; try done; try lia.
  all: try (by rewrite lookup_insert_eq).
  all: try (intros; by rewrite lookup_insert_ne by done).
  all: intros held ?; simplify_eq; split_and?; try done.
  - by apply andb_true_iff in Heqb0 as [?%String.eqb_eq _].
  - apply andb_true_iff in Heqb0 as [_ ?].
    rewrite orb_true_iff, String.eqb_eq, Z.leb_le in *. tauto.
Qed.

Lemma postgres_renew l ttl now (s : Tables) :
  renew_outcome l s (pg_renew_query l ttl now s).
Proof.
  run; try done. eexists _, _.
  split_and!; [done|by apply same_holder_holds|done..| |].
  - by rewrite lookup_insert_eq.
  - intros. by rewrite lookup_insert_ne.
Qed.

Lemma postgres_release l (s : Tables) :
  release_outcome l s (pg_release_query l s).
Proof.
  run; try done. eexists. split_and!; [done|by apply same_holder_holds|done|..].
  - apply lookup_delete_eq.
  - intros. by rewrite lookup_delete_ne.
Qed.

Lemma postgres_put r expected (s : Tables) :
  put_outcome r expected s (pg_put_resource r expected s).
Proof.
  run; try done.
  all: split_and?; try done.
  all: try (by rewrite lookup_insert_eq).
  all: try (intros; by rewrite lookup_insert_ne by done).
  all: rewrite ?andb_true_iff, ?String.eqb_eq, ?Z.eqb_eq in *; intuition.
Qed.

Lemma postgres_get kind id principal now (s : Tables) :
  get_outcome kind id principal now s (pg_get_resource kind id principal now s).
Proof. run; try done. split_and!; [done..|by apply String.eqb_eq|lia]. Qed.

Lemma postgres_delete kind id principal (s : Tables) :
  delete_outcome kind id principal s (pg_delete_resource kind id principal s).
Proof.
  run; try done.
  split_and!; [eexists; split; [done|by apply String.eqb_eq]|apply lookup_delete_eq|].
  intros. by rewrite lookup_delete_ne.
Qed.

Lemma postgres_acquire principal quota limit ttl uuid now (s : Tables) :
  permits_of s !! uuid = None →
  acquire_outcome principal quota limit uuid now s
    (pg_acquire_quota principal quota limit ttl uuid now s).
Proof.
  intros Hu. run; try done.
  - split_and!; [done| |eexists; apply insert_retain_subseteq].
    apply grant_within_limit; [done|].
    pose proof (count_values_mono (permit_for principal quota) _ _
      (retain_subseteq (permit_live now) (permits s))). lia.
  - apply retain_subseteq.
Qed.

#[export] Instance postgres_contract : ClusterContract Tables := {|
  other_ops_keep_leases := postgres_keeps_leases;
  other_ops_keep_resources := postgres_keeps_resources;
  other_ops_permits := postgres_permits;
  claim_spec := postgres_claim;
  renew_spec := postgres_renew;
  release_spec := postgres_release;
  put_spec := postgres_put;
  get_spec := postgres_get;
  delete_spec := postgres_delete;
  acquire_spec := postgres_acquire;
|}.
End PostgresStore.

(** ** Where the stores differ *)
Section Differences.
Context `{Chrono}.

(** The in-memory store drops expired permits before it counts; the SQL
    statement counts them.  With every permit of a principal expired and as
    many of them as the limit, the first grants and the second refuses. *)
Theorem expired_permits_block_postgres principal quota limit ttl uuid now
    (m : Memory.MemoryState) (t : Postgres.Tables) :
  Postgres.permits t = Memory.permits m → Postgres.link_error t = None →
  0 < limit ≤ 2 ^ 63 - 1 → ttl / Postgres.nanos_per_milli ≤ 2 ^ 63 - 1 →
  live_permits principal quota now m = 0%nat →
  limit ≤ Z.of_nat (count_values (permit_for principal quota) (permits_of m)) →
  (acquire_quota principal quota limit ttl uuid now m).1 = Ok uuid ∧
  (acquire_quota principal quota limit ttl uuid now t).1 = Err quota_exhausted.
Proof.
  intros Ep El Hlim Httl Hlive Hcount. unfold live_permits in Hlive.
  rewrite count_retain_live in Hlive. simpl in *.
  unfold Memory.mem_acquire_quota, Postgres.pg_acquire_quota, Postgres.statement,
    Postgres.millis, Postgres.pg_acquire_from. unfold_M. simpl. rewrite Hlive.
  rewrite (proj2 (Z.leb_gt limit _)) by (simpl; lia).
  rewrite (proj2 (Z.leb_le _ _) Httl), (proj2 (Z.ltb_ge _ _) (proj2 Hlim)). simpl.
  rewrite El, Ep. rewrite (proj2 (Z.ltb_ge _ limit) Hcount). done.
Qed.

(** Two statements that overlap read the same snapshot (the advisory
    lock is taken inside the statement, after its snapshot): with one permit
    left both are granted and the principal holds more than the limit. *)
Theorem overlapping_acquires_exceed_the_limit principal quota limit ttl_ms u1 u2 now
    (t : Postgres.Tables) :
  u1 ≠ u2 → Postgres.permits t !! u1 = None → Postgres.permits t !! u2 = None →
  0 < ttl_ms →
  live_permits principal quota now t =
    count_values (permit_for principal quota) (permits_of t) →
  Z.of_nat (live_permits principal quota now t) = limit - 1 →
  ∃ t1 t2,
    Postgres.pg_acquire_from t principal quota limit ttl_ms u1 now t = (Ok u1, t1) ∧
    Postgres.pg_acquire_from t principal quota limit ttl_ms u2 now t1 = (Ok u2, t2) ∧
    Z.of_nat (live_permits principal quota now t2) = limit + 1.
Proof.
  intros Hne H1 H2 Httl Hall Hlim. rewrite Hall in Hlim. simpl in *.
  unfold Postgres.pg_acquire_from. unfold_M.
  rewrite (proj2 (Z.ltb_lt _ _)) by lia. simpl. eexists _, _. split_and!; [done..|].
  set (x := (principal, quota, Postgres.after_millis now ttl_ms)).
  assert (permit_live now x = true) as Hx.
  { apply Z.ltb_lt. unfold x, Postgres.after_millis, Postgres.nanos_per_milli. simpl. lia. }
  assert (permit_for principal quota x = true) as Hf.
  { unfold permit_for. simpl. by rewrite !String.eqb_refl. }
  unfold live_permits. simpl. rewrite count_values_insert.
  2:{ by rewrite retain_lookup, lookup_insert_ne, retain_lookup, H2 by done. }
  rewrite Hf, Hx. simpl. rewrite count_retain_live.
  assert (retain (permit_live now) (retain (permit_live now)
    (<[u1 := x]> (retain (permit_live now) (Postgres.permits t))))
    = <[u1 := x]> (retain (permit_live now) (Postgres.permits t))) as ->.
  { apply map_eq. intros k. rewrite !retain_lookup.
    destruct (decide (k = u1)) as [->|Hk].
    - rewrite lookup_insert_eq, Hx. by rewrite Hx.
    - rewrite lookup_insert_ne, retain_lookup by done.
      destruct (_ !! k) as [y|]; [|done].
      destruct (permit_live now y) eqn:E; [by rewrite !E|done]. }
  rewrite count_values_insert by (by rewrite retain_lookup, H1).
  rewrite Hf, <- count_retain_live. unfold live_permits in Hall. simpl in Hall. lia.
Qed.

(** A conditional write to a missing resource.  The in-memory store
    reports a conflict unless version 0 was expected; the SQL statement
    inserts the row, so a writer that lost a race with a deletion brings the
    resource back at version 1. *)
Theorem stale_write_recreates_on_postgres r v (m : Memory.MemoryState)
    (t : Postgres.Tables) :
  let key := (resource_kind r, resource_id r) in
  resource_of m key = None → resource_of t key = None →
  Postgres.link_error t = None → v ≠ 0 →
  (put_resource r (Some v) m).1
    = Err (ClusterError_new "version_conflict" "resource version changed") ∧
  put_resource r (Some v) t
    = (Ok (with_version r 1), Postgres.set_resources (<[key := with_version r 1]>) t).
Proof.
  intros key Hm Ht El Hv. simpl in *.
  unfold Memory.mem_put_resource, Postgres.pg_put_resource, Postgres.statement. unfold_M.
  fold key. rewrite Hm, El. rewrite Ht. apply Z.eqb_neq in Hv. by rewrite Hv.
Qed.
End Differences.

(** ** A cluster store that answers

    [ClusterContract] says what a successful call of a store means.
    [ClusterAvailable] adds when calls do succeed: a store that is [available]
    (its connection is up) answers every read and grants every write, claim and
    permit its rules allow.  Both stores are instances; the clustered
    operations of the gateway are verified against the two classes. *)

(** A duration the stores accept: at most [i64::MAX] milliseconds. *)
Definition sane_ttl (ttl : Z) : Prop := ttl / Postgres.nanos_per_milli ≤ 2 ^ 63 - 1.

Class ClusterAvailable (St : Type) `{ClusterStateStore St} `{Observable St} := {
  available : St → Prop;
  available_op o s : available s → available (apply_op o s);
  get_absent kind id principal now s :
    available s → resource_of s (kind, id) = None →
    get_resource kind id principal now s = (Ok None, s);
  get_owned kind id principal now s r :
    available s → resource_of s (kind, id) = Some r → resource_principal r = principal →
    get_resource kind id principal now s
    = (Ok (if now <? resource_expires_at r then Some r else None), s);
  get_foreign kind id principal now s r :
    available s → resource_of s (kind, id) = Some r → resource_principal r ≠ principal →
    now < resource_expires_at r →
    get_resource kind id principal now s = (Err resource_forbidden, s);
  put_granted r expected s :
    available s →
    match resource_of s (resource_kind r, resource_id r) with
    | None => expected = Some 0
    | Some old => resource_principal old = resource_principal r ∧
                  expected = Some (resource_version old)
    end →
    ∃ r' s', put_resource r expected s = (Ok r', s');
  claim_granted query principal node ttl now s :
    available s → sane_ttl ttl →
    match lease_of s query with
    | None => True
    | Some held => lease_principal held = principal ∧
                   (owner_node_id held = node ∨ lease_expires_at held ≤ now)
    end →
    ∃ l s', claim_query query principal node ttl now s = (Ok l, s');
  claim_refused query principal node ttl now s held :
    available s → sane_ttl ttl → lease_of s query = Some held →
    lease_principal held = principal → owner_node_id held ≠ node →
    now < lease_expires_at held →
    ∃ s', claim_query query principal node ttl now s = (Err lease_held, s') ∧
          same_resources s s';
}.

Section MemoryAvailable.
Import Memory.
Context `{Chrono}.

Lemma memory_put_granted r expected (s : MemoryState) :
  match resource_of s (resource_kind r, resource_id r) with
  | None => expected = Some 0
  | Some old => resource_principal old = resource_principal r ∧
                expected = Some (resource_version old)
  end →
  ∃ r' s', mem_put_resource r expected s = (Ok r', s').
Proof.
  simpl. unfold mem_put_resource. unfold_M. simpl.
  destruct (resources s !! _) as [old|]; simpl.
  - intros [-> ->]. rewrite String.eqb_refl, Z.eqb_refl. simpl. eauto.
  - intros ->. simpl. eauto.
Qed.

Lemma memory_claim_granted query principal node ttl now (s : MemoryState) :
  match lease_of s query with
  | None => True
  | Some held => lease_principal held = principal ∧
                 (owner_node_id held = node ∨ lease_expires_at held ≤ now)
  end →
  ∃ l s', mem_claim_query query principal node ttl now s = (Ok l, s').
Proof.
  simpl. unfold mem_claim_query. unfold_M. simpl.
  destruct (leases s !! query) as [held|]; simpl; [|eauto].
  intros [-> Hn]. rewrite String.eqb_refl. simpl.
  destruct Hn as [->|He]; [rewrite String.eqb_refl, andb_false_r; simpl; eauto|].
  rewrite (proj2 (Z.ltb_ge _ _) He). simpl. eauto.
Qed.

Lemma memory_get_absent kind id principal now (s : MemoryState) :
  resource_of s (kind, id) = None →
  mem_get_resource kind id principal now s = (Ok None, s).
Proof. intros Hr. simpl in *. unfold mem_get_resource. unfold_M. by rewrite Hr. Qed.

Lemma memory_get_owned kind id principal now (s : MemoryState) r :
  resource_of s (kind, id) = Some r → resource_principal r = principal →
  mem_get_resource kind id principal now s
  = (Ok (if now <? resource_expires_at r then Some r else None), s).
Proof.
  intros Hr <-. simpl in *. unfold mem_get_resource. unfold_M. by rewrite Hr, String.eqb_refl.
Qed.

Lemma memory_get_foreign kind id principal now (s : MemoryState) r :
  resource_of s (kind, id) = Some r → resource_principal r ≠ principal →
  mem_get_resource kind id principal now s = (Err resource_forbidden, s).
Proof.
  intros Hr Hn%String.eqb_neq. simpl in *. unfold mem_get_resource. unfold_M.
  by rewrite Hr, Hn.
Qed.

Lemma memory_claim_refused query principal node ttl now (s : MemoryState) held :
  lease_of s query = Some held → lease_principal held = principal →
  owner_node_id held ≠ node → now < lease_expires_at held →
  ∃ s', mem_claim_query query principal node ttl now s = (Err lease_held, s') ∧
        same_resources s s'.
Proof.
  intros Hl <- Hn%String.eqb_neq He. simpl in *.
  unfold mem_claim_query. unfold_M. rewrite Hl, String.eqb_refl, Hn. simpl.
  rewrite (proj2 (Z.ltb_lt _ _) He). simpl. by eexists.
Qed.

#[export] Instance memory_available : ClusterAvailable MemoryState := {|
  available _ := True;
  available_op _ _ _ := I;
  get_absent kind id p now s _ := memory_get_absent kind id p now s;
  get_owned kind id p now s r _ := memory_get_owned kind id p now s r;
  get_foreign kind id p now s r _ Hr Hn _ := memory_get_foreign kind id p now s r Hr Hn;
  put_granted r e s _ := memory_put_granted r e s;
  claim_granted q p n ttl now s _ _ := memory_claim_granted q p n ttl now s;
  claim_refused q p n ttl now s held _ _ := memory_claim_refused q p n ttl now s held;
|}.
End MemoryAvailable.

Section PostgresAvailable.
Import Postgres.

Lemma postgres_link o (s : Tables) : link_error s = None → link_error (apply_op o s) = None.
Proof.
  intros Hl. destruct o; simpl;
    unfold pg_migrate, pg_register_node, pg_renew_node, pg_set_draining, pg_live_nodes,
      pg_put_resource, pg_get_resource, pg_delete_resource, pg_claim_query, pg_renew_query,
      pg_release_query, pg_acquire_quota, pg_acquire_from, pg_release_quota, statement, millis;
    run_M; done.
Qed.

Lemma postgres_get_absent kind id principal now (s : Tables) :
  link_error s = None → resource_of s (kind, id) = None →
  pg_get_resource kind id principal now s = (Ok None, s).
Proof.
  intros Hl Hr. simpl in *. unfold pg_get_resource, statement. unfold_M. by rewrite Hl, Hr.
Qed.

Lemma postgres_get_owned kind id principal now (s : Tables) r :
  link_error s = None → resource_of s (kind, id) = Some r → resource_principal r = principal →
  pg_get_resource kind id principal now s
  = (Ok (if now <? resource_expires_at r then Some r else None), s).
Proof.
  intros Hl Hr <-. simpl in *. unfold pg_get_resource, statement. unfold_M.
  rewrite Hl, Hr, String.eqb_refl. by destruct (_ <? _).
Qed.

Lemma postgres_get_foreign kind id principal now (s : Tables) r :
  link_error s = None → resource_of s (kind, id) = Some r → resource_principal r ≠ principal →
  now < resource_expires_at r →
  pg_get_resource kind id principal now s = (Err resource_forbidden, s).
Proof.
  intros Hl Hr Hn%String.eqb_neq Hx. simpl in *. unfold pg_get_resource, statement. unfold_M.
  by rewrite Hl, Hr, (proj2 (Z.ltb_lt _ _) Hx), Hn.
Qed.

Lemma postgres_put_granted r expected (s : Tables) :
  link_error s = None →
  match resource_of s (resource_kind r, resource_id r) with
  | None => expected = Some 0
  | Some old => resource_principal old = resource_principal r ∧
                expected = Some (resource_version old)
  end →
  ∃ r' s', pg_put_resource r expected s = (Ok r', s').
Proof.
  intros Hl Hr. simpl in *. unfold pg_put_resource, statement. unfold_M. rewrite Hl.
  destruct (resources s !! _) as [old|]; simpl; [|eauto].
  destruct Hr as [-> ->]. rewrite String.eqb_refl, Z.eqb_refl. simpl. eauto.
Qed.

Lemma postgres_claim_granted query principal node ttl now (s : Tables) :
  link_error s = None → sane_ttl ttl →
  match lease_of s query with
  | None => True
  | Some held => lease_principal held = principal ∧
                 (owner_node_id held = node ∨ lease_expires_at held ≤ now)
  end →
  ∃ l s', pg_claim_query query principal node ttl now s = (Ok l, s').
Proof.
  intros Hl Httl Hh. simpl in *. unfold pg_claim_query, statement, millis.
  unfold_M. rewrite (proj2 (Z.leb_le _ _) Httl). simpl. rewrite Hl.
  destruct (leases s !! query) as [held|]; simpl; [|eauto]. destruct Hh as [-> Hh].
  rewrite String.eqb_refl. simpl.
  destruct Hh as [->|He]; [rewrite String.eqb_refl|rewrite (proj2 (Z.leb_le _ _) He), orb_true_r];
    simpl; eauto.
Qed.

Lemma postgres_claim_refused query principal node ttl now (s : Tables) held :
  link_error s = None → sane_ttl ttl → lease_of s query = Some held →
  lease_principal held = principal → owner_node_id held ≠ node → now < lease_expires_at held →
  ∃ s', pg_claim_query query principal node ttl now s = (Err lease_held, s') ∧
        same_resources s s'.
Proof.
  intros Hl Httl Hh <- Hn%String.eqb_neq He. simpl in *.
  unfold pg_claim_query, statement, millis. unfold_M. rewrite (proj2 (Z.leb_le _ _) Httl). simpl.
  rewrite Hl, Hh, String.eqb_refl, Hn, (proj2 (Z.leb_gt _ _) He). simpl. by eexists.
Qed.

#[export] Instance postgres_available : ClusterAvailable Tables := {|
  available s := link_error s = None;
  available_op := postgres_link;
  get_absent := postgres_get_absent;
  get_owned := postgres_get_owned;
  get_foreign := postgres_get_foreign;
  put_granted := postgres_put_granted;
  claim_granted := postgres_claim_granted;
  claim_refused := postgres_claim_refused;
|}.
End PostgresAvailable.
