(* ===== verification/Metadata.v ===== *)
(** * Metadata discovery (crates/qcli-metadata/src/lib.rs)

    The [MetadataService] and its context-scoped cache.  The hash of a
    request's properties is [DefaultHasher]'s, whose algorithm the standard
    library leaves unspecified: it is a parameter.  A call reads the clock when
    it looks the cache up and again when it stores the adapter's answer. *)
From S2P Require Import Prelude Text Arrow DriverApi.

Inductive Operation :=
| OpCatalogs
| OpSchemas
| OpObjects
| OpDescribe (object : string).

#[global] Instance Operation_eq_dec : EqDecision Operation.
Proof. solve_decision. Defined.

#[global] Instance Operation_countable : Countable Operation :=
  inj_countable'
    (λ o, match o with
          | OpCatalogs => inl (inl tt) | OpSchemas => inl (inr tt)
          | OpObjects => inr (inl tt) | OpDescribe s => inr (inr s)
          end)
    (λ x, match x with
          | inl (inl _) => OpCatalogs | inl (inr _) => OpSchemas
          | inr (inl _) => OpObjects | inr (inr s) => OpDescribe s
          end)
    (λ o, match o with OpDescribe _ | _ => eq_refl end).

Record CacheKey := {
  ck_identity : string;
  ck_target : string;
  ck_engine : string;
  ck_catalog : option string;
  ck_schema : option string;
  ck_pattern : option string;
  ck_properties : Z;
  ck_operation : Operation;
}.

#[global] Instance CacheKey_eq_dec : EqDecision CacheKey.
Proof. solve_decision. Defined.

#[global] Instance CacheKey_countable : Countable CacheKey :=
  inj_countable'
    (λ k, (ck_identity k, ck_target k, ck_engine k, ck_catalog k, ck_schema k, ck_pattern k,
           ck_properties k, ck_operation k))
    (λ '(i, t, e, c, s, p, h, o),
       {| ck_identity := i; ck_target := t; ck_engine := e; ck_catalog := c; ck_schema := s;
          ck_pattern := p; ck_properties := h; ck_operation := o |})
    (λ k, match k with Build_CacheKey _ _ _ _ _ _ _ _ => eq_refl end).

Inductive CachedValue :=
| Catalogs (v : list CatalogMetadata)
| Schemas (v : list SchemaMetadata)
| Objects (v : list ObjectMetadata)
| Columns (v : list ColumnMetadata).

Record CacheEntry := { inserted : Z; entry_value : CachedValue }.

Section Metadata.
Context `{ar : Arrow}.
(** [DefaultHasher] on the request's properties. *)
Variable hash_properties : gmap string string → Z.

Record MetadataService := {
  md_adapters : gmap string EngineAdapter;
  cache : gmap CacheKey CacheEntry;
  md_ttl : Z;
}.

(** [MetadataService::new]. *)
Definition MetadataService_new (adapters : list EngineAdapter) (ttl : Z) : MetadataService :=
  {| md_adapters := foldl (λ m a, <[engine a := a]> m) ∅ adapters;
     cache := ∅; md_ttl := ttl |}.

Definition set_cache (f : gmap CacheKey CacheEntry → gmap CacheKey CacheEntry)
    (s : MetadataService) : MetadataService :=
  {| md_adapters := md_adapters s; cache := f (cache s); md_ttl := md_ttl s |}.

Definition cache_key (request : MetadataRequest) (operation : Operation) : CacheKey :=
  {| ck_identity := mr_identity request; ck_target := mr_target request;
     ck_engine := mr_engine request; ck_catalog := mr_catalog request;
     ck_schema := mr_schema request; ck_pattern := mr_pattern request;
     ck_properties := hash_properties (mr_properties request);
     ck_operation := operation |}.

(** [entry.inserted.elapsed() <= self.ttl]. *)
Definition entry_fresh (ttl now : Z) (e : CacheEntry) : bool :=
  duration_since now (inserted e) <=? ttl.

Definition cached (key : CacheKey) (now : Z) :
    M MetadataService DriverError (option CachedValue) :=
  _ ← modify (λ s, set_cache (retain (entry_fresh (md_ttl s) now)) s);
  gets (λ s, entry_value <$> cache s !! key).

Definition cache_insert (key : CacheKey) (value : CachedValue) (now : Z) :
    M MetadataService DriverError unit :=
  modify (set_cache (<[key := {| inserted := now; entry_value := value |}]>)).

Definition md_adapter (engine_ : string) : M MetadataService DriverError EngineAdapter :=
  o ← gets (λ s, md_adapters s !! engine_);
  of_result (ok_or o (DriverError_new "adapter_not_found"
    ("no adapter registered for engine '" +:+ engine_ +:+ "'"))).

(** The adapter's answer, which is stored. *)
Definition fetch_and_store {A} (key : CacheKey) (wrap : A → CachedValue)
    (fetch : EngineAdapter → result A DriverError) (engine_ : string) (done : Z) :
    M MetadataService DriverError A :=
  a ← md_adapter engine_;
  value ← of_result (fetch a);
  _ ← cache_insert key (wrap value) done;
  mret value.

(** The body the four discovery methods share: a cached answer of the right
    kind, or the adapter's. *)
Definition discover {A} (key : CacheKey) (unwrap : CachedValue → option A)
    (wrap : A → CachedValue) (fetch : EngineAdapter → result A DriverError)
    (engine_ : string) (now done : Z) : M MetadataService DriverError A :=
  o ← cached key now;
  match o ≫= unwrap with
  | Some value => mret value
  | None => fetch_and_store key wrap fetch engine_ done
  end.

Definition catalogs (request : MetadataRequest) (i : Invocation) (done : Z) :
    M MetadataService DriverError (list CatalogMetadata) :=
  discover (cache_key request OpCatalogs)
    (λ v, match v with Catalogs l => Some l | _ => None end) Catalogs
    (λ a, list_catalogs a request i) (mr_engine request) (invoked_at i) done.

Definition schemas (request : MetadataRequest) (i : Invocation) (done : Z) :
    M MetadataService DriverError (list SchemaMetadata) :=
  discover (cache_key request OpSchemas)
    (λ v, match v with Schemas l => Some l | _ => None end) Schemas
    (λ a, list_schemas a request i) (mr_engine request) (invoked_at i) done.

Definition objects (request : MetadataRequest) (i : Invocation) (done : Z) :
    M MetadataService DriverError (list ObjectMetadata) :=
  discover (cache_key request OpObjects)
    (λ v, match v with Objects l => Some l | _ => None end) Objects
    (λ a, list_objects a request i) (mr_engine request) (invoked_at i) done.

Definition describe (request : MetadataRequest) (object : string) (i : Invocation) (done : Z) :
    M MetadataService DriverError (list ColumnMetadata) :=
  discover (cache_key request (OpDescribe object))
    (λ v, match v with Columns l => Some l | _ => None end) Columns
    (λ a, describe_object a request object i) (mr_engine request) (invoked_at i) done.

(** [invalidate_target]. *)
Definition invalidate_target (target : string) : M MetadataService DriverError unit :=
  modify (set_cache (filter (λ kv, ck_target kv.1 ≠ target))).

Definition md_capabilities (engine_ : string) (s : MetadataService) :
    option AdapterCapabilities :=
  capabilities <$> md_adapters s !! engine_.

Definition md_identifier_capabilities (engine_ : string) (s : MetadataService) :
    option IdentifierCapabilities :=
  identifier_capabilities <$> md_adapters s !! engine_.

(** ** What a cached answer can be *)

(** A call of the discovery interface, or an invalidation. *)
Inductive MetadataCall :=
| CallCatalogs (r : MetadataRequest) (i : Invocation) (done : Z)
| CallSchemas (r : MetadataRequest) (i : Invocation) (done : Z)
| CallObjects (r : MetadataRequest) (i : Invocation) (done : Z)
| CallDescribe (r : MetadataRequest) (object : string) (i : Invocation) (done : Z)
| CallInvalidate (target : string).

Definition call_request (c : MetadataCall) : option (MetadataRequest * Operation) :=
  match c with
  | CallCatalogs r _ _ => Some (r, OpCatalogs)
  | CallSchemas r _ _ => Some (r, OpSchemas)
  | CallObjects r _ _ => Some (r, OpObjects)
  | CallDescribe r o _ _ => Some (r, OpDescribe o)
  | CallInvalidate _ => None
  end.

(** When a call looks the cache up, and when it stores the adapter's answer. *)
Definition call_begin (c : MetadataCall) : Z :=
  match c with
  | CallCatalogs _ i _ | CallSchemas _ i _ | CallObjects _ i _ | CallDescribe _ _ i _ =>
      invoked_at i
  | CallInvalidate _ => 0
  end.
Definition call_done (c : MetadataCall) : Z :=
  match c with
  | CallCatalogs _ _ d | CallSchemas _ _ d | CallObjects _ _ d | CallDescribe _ _ _ d => d
  | CallInvalidate _ => 0
  end.

Definition wrap_result {A} (wrap : A → CachedValue) (r : result A DriverError) :
    option CachedValue :=
  match r with Ok a => Some (wrap a) | Err _ => None end.

(** Run a call: the answer it gives, when it gives one. *)
Definition run_call (c : MetadataCall) (s : MetadataService) :
    option CachedValue * MetadataService :=
  match c with
  | CallCatalogs r i d => let '(x, s') := catalogs r i d s in (wrap_result Catalogs x, s')
  | CallSchemas r i d => let '(x, s') := schemas r i d s in (wrap_result Schemas x, s')
  | CallObjects r i d => let '(x, s') := objects r i d s in (wrap_result Objects x, s')
  | CallDescribe r o i d => let '(x, s') := describe r o i d s in (wrap_result Columns x, s')
  | CallInvalidate t => (None, (invalidate_target t s).2)
  end.

(** What the adapter registered for the request's engine answers to a call. *)
Definition adapter_answer (adapters : gmap string EngineAdapter) (c : MetadataCall) :
    option CachedValue :=
  match c with
  | CallCatalogs r i _ =>
      a ← adapters !! mr_engine r; wrap_result Catalogs (list_catalogs a r i)
  | CallSchemas r i _ =>
      a ← adapters !! mr_engine r; wrap_result Schemas (list_schemas a r i)
  | CallObjects r i _ =>
      a ← adapters !! mr_engine r; wrap_result Objects (list_objects a r i)
  | CallDescribe r o i _ =>
      a ← adapters !! mr_engine r; wrap_result Columns (describe_object a r o i)
  | CallInvalidate _ => None
  end.

Definition call_key (c : MetadataCall) : option CacheKey :=
  '(r, o) ← call_request c; Some (cache_key r o).

(** [v] is the adapter's own answer to [c']. *)
Definition answered (adapters : gmap string EngineAdapter) (c' : MetadataCall) (v : CachedValue) :
    Prop := adapter_answer adapters c' = Some v.

(** Every entry is the adapter's answer to a past call with the entry's key. *)
Definition cache_sound (past : list MetadataCall) (s : MetadataService) : Prop :=
  ∀ k e, cache s !! k = Some e →
    ∃ c', c' ∈ past ∧ call_key c' = Some k ∧ answered (md_adapters s) c' (entry_value e) ∧
      inserted e = call_done c'.

(** A call leaves the configuration alone and the cache sound, and every answer
    it gives is its own adapter answer or a recent one to the same key. *)
Definition call_sound (c : MetadataCall) (past : list MetadataCall) (s : MetadataService)
    (out : option CachedValue * MetadataService) : Prop :=
  md_adapters out.2 = md_adapters s ∧ md_ttl out.2 = md_ttl s ∧
  cache_sound (c :: past) out.2 ∧
  ∀ v, out.1 = Some v →
    answered (md_adapters s) c v ∨
    ∃ c', c' ∈ past ∧ call_key c' = call_key c ∧ answered (md_adapters s) c' v ∧
          duration_since (call_begin c) (call_done c') ≤ md_ttl s.

Lemma cache_sound_kept p c past s :
  cache_sound past s → cache_sound (c :: past) (set_cache (retain p) s).
Proof.
  intros Hsound k e He. simpl in He. apply retain_Some in He as [He _].
  destruct (Hsound k e He) as (c'&?&?&?&?). exists c'. rewrite elem_of_cons. auto.
Qed.

Lemma fetch_and_store_sound {A} c key (wrap : A → CachedValue) fetch engine_ past s :
  call_key c = Some key →
  adapter_answer (md_adapters s) c
    = (a ← md_adapters s !! engine_; wrap_result wrap (fetch a)) →
  cache_sound (c :: past) s →
  call_sound c past s
    (let '(x, s') := fetch_and_store key wrap fetch engine_ (call_done c) s in
     (wrap_result wrap x, s')).
Proof.
  intros Hkey Hans Hsound. unfold fetch_and_store, md_adapter, cache_insert, call_sound.
  unfold_M. simpl in *.
  destruct (md_adapters s !! engine_) as [a|]; simpl in *; [|by split_and!].
  destruct (fetch a) as [x|e]; simpl in *; [|by split_and!].
  split_and!; [done..| |].
  - intros k e He. simpl in He. destruct (decide (k = key)) as [->|Hn].
    + rewrite lookup_insert_eq in He. simplify_eq. exists c. simpl.
      rewrite elem_of_cons. auto.
    + rewrite lookup_insert_ne in He by done. by apply Hsound.
  - intros v [= <-]. by left.
Qed.

Lemma discover_sound {A} c key unwrap (wrap : A → CachedValue) fetch engine_ past s :
  call_key c = Some key →
  (∀ v a, unwrap v = Some a → v = wrap a) →
  adapter_answer (md_adapters s) c
    = (a ← md_adapters s !! engine_; wrap_result wrap (fetch a)) →
  cache_sound past s →
  call_sound c past s
    (let '(x, s') := discover key unwrap wrap fetch engine_ (call_begin c) (call_done c) s in
     (wrap_result wrap x, s')).
Proof.
  intros Hkey Hwrap Hans Hsound. unfold discover, cached. unfold_M. simpl.
  set (kept := set_cache (retain (entry_fresh (md_ttl s) (call_begin c))) s).
  assert (Hkept : cache_sound (c :: past) kept) by by apply cache_sound_kept.
  destruct (option_bind _ _ unwrap _) as [a|] eqn:Eo.
  - apply bind_Some in Eo as (v & (e & He & ->)%fmap_Some & Hu).
    apply retain_Some in He as [He Hf%Z.leb_le].
    split_and!; [done..|]. intros v [= <-]. right.
    destruct (Hsound key e He) as (c'&?&?&?&Hins). exists c'.
    rewrite <- (Hwrap _ _ Hu), <- Hins, Hkey. auto.
  - apply (fetch_and_store_sound c key wrap fetch engine_ past kept); auto.
Qed.

Lemma run_call_sound c past s : cache_sound past s → call_sound c past s (run_call c s).
Proof.
  intros Hsound. destruct c as [r i d|r i d|r i d|r o i d|t]; simpl.
  - apply (discover_sound (CallCatalogs r i d) (cache_key r OpCatalogs) _ Catalogs
      (λ a, list_catalogs a r i) (mr_engine r)); [reflexivity| |reflexivity|exact Hsound].
    by intros [] ? [= ->].
  - apply (discover_sound (CallSchemas r i d) (cache_key r OpSchemas) _ Schemas
      (λ a, list_schemas a r i) (mr_engine r)); [reflexivity| |reflexivity|exact Hsound].
    by intros [] ? [= ->].
  - apply (discover_sound (CallObjects r i d) (cache_key r OpObjects) _ Objects
      (λ a, list_objects a r i) (mr_engine r)); [reflexivity| |reflexivity|exact Hsound].
    by intros [] ? [= ->].
  - apply (discover_sound (CallDescribe r o i d) (cache_key r (OpDescribe o)) _ Columns
      (λ a, describe_object a r o i) (mr_engine r)); [reflexivity| |reflexivity|exact Hsound].
    by intros [] ? [= ->].
  - unfold call_sound. split_and!; [done..| |done].
    intros k e He. simpl in He. apply map_lookup_filter_Some in He as [He _].
    destruct (Hsound k e He) as (c'&?&?&?&?). exists c'. rewrite elem_of_cons. auto.
Qed.

(** Run calls in order, newest last; the history is newest first. *)
Definition run_calls (cs : list MetadataCall) (s : MetadataService) : MetadataService :=
  foldl (λ s c, (run_call c s).2) s cs.

Lemma run_calls_sound cs : ∀ past s, cache_sound past s →
  cache_sound (reverse cs ++ past) (run_calls cs s) ∧
  md_adapters (run_calls cs s) = md_adapters s ∧ md_ttl (run_calls cs s) = md_ttl s.
Proof.
  induction cs as [|c cs IH]; intros past s Hs; [done|]. simpl.
  destruct (run_call_sound c past s Hs) as (Ha & Ht & Hs' & _).
  destruct (IH (c :: past) _ Hs') as (Hr & Ha' & Ht').
  rewrite reverse_cons, <- app_assoc. split_and!; [done| |].
  - by rewrite Ha', Ha.
  - by rewrite Ht', Ht.
Qed.

(** Two requests for the same discovery: everything but the properties. *)
Definition same_scope (r1 r2 : MetadataRequest) : Prop :=
  mr_identity r1 = mr_identity r2 ∧ mr_target r1 = mr_target r2 ∧
  mr_engine r1 = mr_engine r2 ∧ mr_catalog r1 = mr_catalog r2 ∧
  mr_schema r1 = mr_schema r2 ∧ mr_pattern r1 = mr_pattern r2.

Lemma cache_key_inv r1 o1 r2 o2 :
  cache_key r1 o1 = cache_key r2 o2 →
  same_scope r1 r2 ∧ o1 = o2 ∧
  hash_properties (mr_properties r1) = hash_properties (mr_properties r2).
Proof. unfold cache_key, same_scope. intros [=]. auto 10. Qed.

(** Cached metadata is scoped and fresh.  After any sequence of calls, an
    answer is what the adapter says to this very call, or what it said to an
    earlier call of the same operation by the same identity on the same target,
    engine, catalog, schema and pattern, with properties of the same hash, no
    longer ago than the time to live. *)
Theorem cached_answers_are_own_and_fresh adapters ttl cs c v r o :
  call_request c = Some (r, o) →
  (run_call c (run_calls cs (MetadataService_new adapters ttl))).1 = Some v →
  let registered := md_adapters (MetadataService_new adapters ttl) in
  answered registered c v ∨
  ∃ c' r', c' ∈ cs ∧ call_request c' = Some (r', o) ∧ same_scope r r' ∧
    hash_properties (mr_properties r) = hash_properties (mr_properties r') ∧
    answered registered c' v ∧
    duration_since (call_begin c) (call_done c') ≤ ttl.
Proof.
  intros Hr Hv registered.
  destruct (run_calls_sound cs [] (MetadataService_new adapters ttl)) as (Hs & Ha & Ht).
  { intros k e He. simpl in He. by rewrite lookup_empty in He. }
  destruct (run_call_sound c _ _ Hs) as (_ & _ & _ & Hans).
  apply Hans in Hv. rewrite Ha, Ht in Hv. destruct Hv as [Hv|(c' & Hin & Hk & Hv & Hd)];
    [by left|]. right.
  unfold call_key in Hk. rewrite Hr in Hk. simpl in Hk.
  destruct (call_request c') as [[r' o']|] eqn:Hr'; [|done]. simpl in Hk.
  injection Hk. intros.
  exists c', r'. simplify_eq. rewrite app_nil_r, elem_of_reverse in Hin.
  unfold same_scope. auto 12.
Qed.

(** After [invalidate_target], the next call for that target is answered
    by the adapter and not by the cache. *)
Theorem invalidated_target_is_fetched_again s c v r o :
  call_request c = Some (r, o) →
  (run_call c (run_call (CallInvalidate (mr_target r)) s).2).1 = Some v →
  answered (md_adapters s) c v.
Proof.
  intros Hr. set (s1 := (run_call (CallInvalidate (mr_target r)) s).2).
  assert (∀ p, retain p (cache s1) !! cache_key r o = None) as Hnone.
  { intros p. rewrite retain_lookup. simpl.
    rewrite (proj2 (map_lookup_filter_None _ _ _)); [done|]. right. simpl. naive_solver. }
  destruct c as [r' i d|r' i d|r' i d|r' ob i d|t]; try done; simpl in Hr; simplify_eq; simpl;
    unfold catalogs, schemas, objects, describe, discover, cached, fetch_and_store,
      md_adapter, cache_insert, answered; unfold_M; simpl; unfold s1 in Hnone; simpl in Hnone;
    rewrite Hnone; simpl;
    (destruct (md_adapters s !! mr_engine r) as [a|]; simpl; [|done]);
    match goal with |- context [match ?f with Ok _ => _ | Err _ => _ end] =>
      destruct f; simpl; try done end.
Qed.
End Metadata.
