(* ===== verification/ServiceData.v ===== *)
(** * The gateway service's data (crates/qcli-service/src/lib.rs)

    Limits, errors, events, query records and prepared statements, and the
    small functions on them: error classification, JSON payloads, the event log
    of a query. *)
From S2P Require Import Prelude Text Arrow DriverApi Auth Config Core Cluster.

Definition nanos_per_second : Z := 10 ^ 9.
Definition from_secs (n : Z) : Z := n * nanos_per_second.

Record ServiceLimits := {
  max_queries : Z;
  memory_result_bytes_per_query : Z;
  max_result_bytes_per_query : Z;
  result_ttl : Z;
  max_sql_bytes : Z;
  session_ttl : Z;
  shutdown_grace : Z;
  max_prepared_statements : Z;
  prepared_statement_ttl : Z;
}.

Definition ServiceLimits_default : ServiceLimits :=
  {| max_queries := 128;
     memory_result_bytes_per_query := 1024 * 1024;
     max_result_bytes_per_query := 64 * 1024 * 1024;
     result_ttl := from_secs (15 * 60);
     max_sql_bytes := 1024 * 1024;
     session_ttl := from_secs (30 * 60);
     shutdown_grace := from_secs 10;
     max_prepared_statements := 128;
     prepared_statement_ttl := from_secs (15 * 60) |}.

Record AuditEvent := {
  ae_action : string;
  ae_outcome : string;
  ae_principal : option string;
  ae_target : option string;
  ae_session_id : option string;
  ae_query_id : option string;
}.

Inductive ServiceErrorKind :=
| InvalidArgument | NotFound | Forbidden | Conflict | ResourceExhausted
| FailedPrecondition | Upstream | Internal.

Record ServiceError := {
  se_kind : ServiceErrorKind;
  se_code : string;
  se_message : string;
}.

Definition ServiceError_new (kind : ServiceErrorKind) (code message : string) : ServiceError :=
  {| se_kind := kind; se_code := code; se_message := message |}.

Record QueryError := { qe_code : string; qe_message : string }.

Record ServiceEvent := {
  ev_id : Z;
  ev_event : string;
  ev_data : Value;
  ev_terminal : bool;
}.

Record QueryStatus := {
  qs_id : string;
  qs_session_id : string;
  qs_session_version : Z;
  qs_target : string;
  qs_engine : string;
  qs_engine_query_id : option string;
  qs_state : string;
  qs_rows : Z;
  qs_retained_bytes : Z;
  qs_error : option QueryError;
}.

Record SessionOwner := { so_principal : string; so_last_access : Z }.

(** ** Errors *)

Definition session_not_found : ServiceError :=
  ServiceError_new NotFound "session_not_found" "session not found".
Definition query_not_found : ServiceError :=
  ServiceError_new NotFound "query_not_found" "query not found".
Definition prepared_not_found : ServiceError :=
  ServiceError_new NotFound "prepared_not_found" "prepared statement not found".
Definition query_running (message : string) : ServiceError :=
  ServiceError_new FailedPrecondition "query_running" message.
Definition results_after_completion : ServiceError :=
  query_running "results are available after query completion".

Definition core_error (e : CoreError) : ServiceError :=
  let kind := match e with
              | SessionNotFound _ => NotFound
              | VersionConflict _ _ => Conflict
              | AdapterNotFound _ => InvalidArgument
              | Driver _ | Task _ => Upstream
              end in
  ServiceError_new kind "core" (CoreError_display e).

Definition cluster_service_error (e : ClusterError) : ServiceError :=
  let kind :=
    if String.eqb (cl_code e) "forbidden" then NotFound
    else if String.eqb (cl_code e) "quota_exhausted" then ResourceExhausted
    else if String.eqb (cl_code e) "version_conflict" || String.eqb (cl_code e) "lease_held"
            || String.eqb (cl_code e) "lease_lost" then Conflict
    else Internal in
  ServiceError_new kind (cl_code e) (cl_message e).

Definition storage_error (message : string) : QueryError :=
  {| qe_code := "result_storage"; qe_message := message |}.

Definition storage_service_error (message : string) : ServiceError :=
  ServiceError_new Internal "result_storage" message.

(** The service error a recorded query error is reported as. *)
Definition reported (kind : ServiceErrorKind) (e : QueryError) : ServiceError :=
  ServiceError_new kind (qe_code e) (qe_message e).

(** ** Names and payloads *)

Definition state_name (s : QueryState) : string :=
  match s with
  | Submitted => "submitted"
  | Running => "running"
  | ProducingResults => "producing_results"
  | Completed => "completed"
  | Cancelling => "cancelling"
  | Cancelled => "cancelled"
  | Failed => "failed"
  end.

Definition terminal_name (s : string) : bool :=
  String.eqb s "completed" || String.eqb s "cancelled" || String.eqb s "failed".

(** [json!({ "state": state })]. *)
Definition state_json (s : string) : Value := Object [("state", VString s)].

Definition progress_json (p : QueryProgress) : Value :=
  Object
    [("state", opt_value VString (progress_state p));
     ("scheduled", opt_value Bool (progress_scheduled p));
     ("completed_splits", opt_value Number (completed_splits p));
     ("total_splits", opt_value Number (total_splits p));
     ("processed_rows", opt_value Number (processed_rows p));
     ("processed_bytes", opt_value Number (processed_bytes p));
     ("elapsed_millis", opt_value Number (elapsed_millis p))].

Definition is_sensitive_name (name : string) : bool :=
  let name := to_ascii_lowercase name in
  existsb (λ part, contains part name)
    ["password"; "token"; "secret"; "credential"; "private_key"].

(** The properties of a session event, sensitive ones masked. *)
Definition redacted_properties (properties : gmap string string) : gmap string string :=
  map_imap (λ name value, Some (if is_sensitive_name name then "<redacted>" else value))
    properties.

Definition properties_json (properties : gmap string string) : Value :=
  Object ((λ nv, (nv.1, VString nv.2)) <$> sorted_entries properties).

(** ** Query records *)

Section Records.
Context `{ipc : ArrowIpc}.

Inductive ResultStorage :=
| InMemory (batches : list RecordBatch)
| Spill (path : string) (writer : option Writer).

Record QueryData := {
  qd_state : string;
  qd_engine_query_id : option string;
  qd_rows : Z;
  qd_retained_bytes : Z;
  qd_schema : option Schema;
  qd_storage : ResultStorage;
  qd_events : list ServiceEvent;
  qd_next_event_id : Z;
  qd_error : option QueryError;
  qd_completed_at : option Z;
}.

(** The data of a record [submit_query] creates. *)
Definition QueryData_submitted : QueryData :=
  {| qd_state := "submitted"; qd_engine_query_id := None; qd_rows := 0;
     qd_retained_bytes := 0; qd_schema := None; qd_storage := InMemory [];
     qd_events := []; qd_next_event_id := 1; qd_error := None; qd_completed_at := None |}.

Definition set_state_name (name : string) (d : QueryData) : QueryData :=
  {| qd_state := name; qd_engine_query_id := qd_engine_query_id d; qd_rows := qd_rows d;
     qd_retained_bytes := qd_retained_bytes d; qd_schema := qd_schema d;
     qd_storage := qd_storage d; qd_events := qd_events d;
     qd_next_event_id := qd_next_event_id d; qd_error := qd_error d;
     qd_completed_at := qd_completed_at d |}.
Definition set_engine_query_id (id : string) (d : QueryData) : QueryData :=
  {| qd_state := qd_state d; qd_engine_query_id := Some id; qd_rows := qd_rows d;
     qd_retained_bytes := qd_retained_bytes d; qd_schema := qd_schema d;
     qd_storage := qd_storage d; qd_events := qd_events d;
     qd_next_event_id := qd_next_event_id d; qd_error := qd_error d;
     qd_completed_at := qd_completed_at d |}.
Definition set_schema (s : option Schema) (d : QueryData) : QueryData :=
  {| qd_state := qd_state d; qd_engine_query_id := qd_engine_query_id d; qd_rows := qd_rows d;
     qd_retained_bytes := qd_retained_bytes d; qd_schema := s;
     qd_storage := qd_storage d; qd_events := qd_events d;
     qd_next_event_id := qd_next_event_id d; qd_error := qd_error d;
     qd_completed_at := qd_completed_at d |}.
Definition set_storage (st : ResultStorage) (d : QueryData) : QueryData :=
  {| qd_state := qd_state d; qd_engine_query_id := qd_engine_query_id d; qd_rows := qd_rows d;
     qd_retained_bytes := qd_retained_bytes d; qd_schema := qd_schema d;
     qd_storage := st; qd_events := qd_events d;
     qd_next_event_id := qd_next_event_id d; qd_error := qd_error d;
     qd_completed_at := qd_completed_at d |}.
Definition set_counts (rows bytes : Z) (d : QueryData) : QueryData :=
  {| qd_state := qd_state d; qd_engine_query_id := qd_engine_query_id d; qd_rows := rows;
     qd_retained_bytes := bytes; qd_schema := qd_schema d;
     qd_storage := qd_storage d; qd_events := qd_events d;
     qd_next_event_id := qd_next_event_id d; qd_error := qd_error d;
     qd_completed_at := qd_completed_at d |}.
Definition set_error (e : QueryError) (d : QueryData) : QueryData :=
  {| qd_state := qd_state d; qd_engine_query_id := qd_engine_query_id d; qd_rows := qd_rows d;
     qd_retained_bytes := qd_retained_bytes d; qd_schema := qd_schema d;
     qd_storage := qd_storage d; qd_events := qd_events d;
     qd_next_event_id := qd_next_event_id d; qd_error := Some e;
     qd_completed_at := qd_completed_at d |}.
Definition set_completed_at (t : Z) (d : QueryData) : QueryData :=
  {| qd_state := qd_state d; qd_engine_query_id := qd_engine_query_id d; qd_rows := qd_rows d;
     qd_retained_bytes := qd_retained_bytes d; qd_schema := qd_schema d;
     qd_storage := qd_storage d; qd_events := qd_events d;
     qd_next_event_id := qd_next_event_id d; qd_error := qd_error d;
     qd_completed_at := Some t |}.
Definition log_event (e : ServiceEvent) (d : QueryData) : QueryData :=
  {| qd_state := qd_state d; qd_engine_query_id := qd_engine_query_id d; qd_rows := qd_rows d;
     qd_retained_bytes := qd_retained_bytes d; qd_schema := qd_schema d;
     qd_storage := qd_storage d; qd_events := qd_events d ++ [e];
     qd_next_event_id := u64_add (qd_next_event_id d) 1; qd_error := qd_error d;
     qd_completed_at := qd_completed_at d |}.

(** [QueryRecord]; the broadcast channel only repeats the event log. *)
Record QueryRecord := {
  qr_id : string;
  qr_owner : string;
  qr_session_id : string;
  qr_session_version : Z;
  qr_target : string;
  qr_engine : string;
  qr_cancel : CancellationSignal;
  qr_data : QueryData;
}.

Definition set_data (f : QueryData → QueryData) (r : QueryRecord) : QueryRecord :=
  {| qr_id := qr_id r; qr_owner := qr_owner r; qr_session_id := qr_session_id r;
     qr_session_version := qr_session_version r; qr_target := qr_target r;
     qr_engine := qr_engine r; qr_cancel := qr_cancel r; qr_data := f (qr_data r) |}.
Definition cancel_record (r : QueryRecord) : QueryRecord :=
  {| qr_id := qr_id r; qr_owner := qr_owner r; qr_session_id := qr_session_id r;
     qr_session_version := qr_session_version r; qr_target := qr_target r;
     qr_engine := qr_engine r; qr_cancel := signal_cancel (qr_cancel r);
     qr_data := qr_data r |}.

Definition query_status (r : QueryRecord) : QueryStatus :=
  {| qs_id := qr_id r; qs_session_id := qr_session_id r;
     qs_session_version := qr_session_version r; qs_target := qr_target r;
     qs_engine := qr_engine r; qs_engine_query_id := qd_engine_query_id (qr_data r);
     qs_state := qd_state (qr_data r); qs_rows := qd_rows (qr_data r);
     qs_retained_bytes := qd_retained_bytes (qr_data r); qs_error := qd_error (qr_data r) |}.

(** [push_event]: a ["state"] event moves the state, a terminal one also sets
    the completion time; every event is numbered and logged. *)
Definition push_event (event : string) (value : Value) (terminal : bool) (now : Z)
    (d : QueryData) : QueryData :=
  let d1 :=
    match (if String.eqb event "state" then value_get "state" value ≫= as_str else None) with
    | Some state =>
        let d' := set_state_name state d in
        if terminal then set_completed_at now d' else d'
    | None => d
    end in
  log_event {| ev_id := qd_next_event_id d1; ev_event := event; ev_data := value;
               ev_terminal := terminal |} d1.

(** [record_event]. *)
Definition record_event (event : QueryEvent) (now : Z) (d : QueryData) : QueryData :=
  match event with
  | State s => push_event "state" (state_json (state_name s)) (terminal_name (state_name s)) now d
  | EngineQueryId id =>
      push_event "engine_query_id" (Object [("engine_query_id", VString id)]) false now
        (set_engine_query_id id d)
  | RowsProduced rows => push_event "rows" (Object [("rows", Number rows)]) false now d
  | Progress p => push_event "progress" (progress_json p) false now d
  | SessionProperties properties =>
      push_event "session_properties"
        (Object [("properties", properties_json (redacted_properties properties))]) false now d
  end.

(** ** Prepared statements *)

Record PreparedStatementSnapshot := {
  ps_handle : string;
  ps_session_id : string;
  ps_sql : string;
  ps_dataset_schema : Schema;
  ps_parameter_schema : Schema;
  ps_parameters : list RecordBatch;
}.

Record PreparedStatementRecord := {
  pr_owner : string;
  pr_session_id : string;
  pr_owns_session : bool;
  pr_sql : string;
  pr_dataset_schema : Schema;
  pr_parameter_schema : Schema;
  pr_parameters : list RecordBatch;
  pr_last_access : Z;
}.

Definition prepared_snapshot (handle : string) (r : PreparedStatementRecord) :
    PreparedStatementSnapshot :=
  {| ps_handle := handle; ps_session_id := pr_session_id r; ps_sql := pr_sql r;
     ps_dataset_schema := pr_dataset_schema r;
     ps_parameter_schema := pr_parameter_schema r; ps_parameters := pr_parameters r |}.
End Records.
