(* ===== verification/Results.v ===== *)
(** * Result retention and paging (crates/qcli-service/src/lib.rs)

    Batches are kept in memory up to a limit and then spilled to an Arrow IPC
    file; finished results are read as row pages, as a batch stream, or as
    partitions.  [FileSystem] is the temporary directory: the files that exist
    and, when the disk fails, the error it reports.  A file being written has
    no readable contents until its writer finishes. *)
From S2P Require Import Prelude Text Arrow DriverApi Auth Config Core Cluster ServiceData.

Section Results.
Context `{ipc : ArrowIpc}.

Record FileSystem := {
  files : gmap string Bytes;
  disk_fault : option string;
}.

Definition set_files (f : gmap string Bytes → gmap string Bytes) (s : FileSystem) : FileSystem :=
  {| files := f (files s); disk_fault := disk_fault s |}.

(** [OpenOptions::new().create_new(true).write(true).open(path)]. *)
Definition create_new (path : string) (s : FileSystem) : result unit string * FileSystem :=
  match disk_fault s with
  | Some e => (Err e, s)
  | None => match files s !! path with
            | Some _ => (Err "File exists", s)
            | None => (Ok tt, set_files (<[path := bytes_empty]>) s)
            end
  end.

(** [File::open(path)] and [FileReader::try_new]: the batches the reader will
    produce. *)
Definition open_reader (path : string) (s : FileSystem) :
    result (list (result RecordBatch string)) string :=
  match disk_fault s with
  | Some e => Err e
  | None => match files s !! path with
            | None => Err "No such file or directory"
            | Some bytes => reader_try_new bytes
            end
  end.

(** ** Storing *)

(** A query's data together with the disk. *)
Definition Cell : Type := QueryData * FileSystem.

Definition on_data (f : QueryData → QueryData) : M Cell QueryError unit :=
  modify (λ c, (f c.1, c.2)).

(** [columns().iter().map(get_array_memory_size).sum::<usize>()]. *)
Definition batch_bytes (b : RecordBatch) : Z := foldl usize_add 0 (column_sizes b).

(** [temp_dir().join(format!("{query_id}-{uuid}.arrow"))]. *)
Definition spill_path (temp_dir query_id uuid : string) : string :=
  temp_dir +:+ "/" +:+ query_id +:+ "-" +:+ uuid +:+ ".arrow".

Definition result_limit (limits : ServiceLimits) : QueryError :=
  {| qe_code := "result_limit";
     qe_message := "query result exceeds the local "
       +:+ pretty (max_result_bytes_per_query limits) +:+ "-byte retention limit" |}.

Definition is_memory (st : ResultStorage) : bool :=
  match st with InMemory _ => true | Spill _ _ => false end.
Definition memory_batches (st : ResultStorage) : list RecordBatch :=
  match st with InMemory batches => batches | Spill _ _ => [] end.

(** The move from memory to a spill file: the file is created, its writer
    opened for the schema of the batch at hand, the batches held so far taken
    out of memory and written to it. *)
Definition spill (path : string) (schema : Schema) : M Cell QueryError unit :=
  _ ← (λ c, let '(r, fs) := create_new path c.2 in (map_err storage_error r, (c.1, fs)));
  w0 ← of_result (map_err storage_error (writer_try_new schema));
  existing ← gets (λ c, memory_batches (qd_storage c.1));
  _ ← on_data (set_storage (InMemory []));
  match write_all existing w0 with
  | (Err e, _) => fail (storage_error e)
  | (Ok _, w) => on_data (set_storage (Spill path (Some w)))
  end.

Definition spill_if (cond : bool) (path : string) (schema : Schema) : M Cell QueryError unit :=
  if cond then spill path schema else mret tt.

(** The last step: keep the batch where the results are. *)
Definition append_batch (batch : RecordBatch) : M Cell QueryError unit :=
  st ← gets (λ c, qd_storage c.1);
  match st with
  | InMemory batches => on_data (set_storage (InMemory (batches ++ [batch])))
  | Spill path (Some w) =>
      let '(r, w') := writer_write batch w in
      _ ← on_data (set_storage (Spill path (Some w')));
      of_result (map_err storage_error r)
  | Spill _ None =>
      fail {| qe_code := "result_storage"; qe_message := "result spill was already finalized" |}
  end.

(** [store_batch]; [path] is where this call would spill. *)
Definition store_batch (limits : ServiceLimits) (path : string) (batch : RecordBatch) :
    M Cell QueryError unit :=
  _ ← on_data (λ d, match qd_schema d with
                    | None => set_schema (Some (batch_schema batch)) d
                    | Some _ => d
                    end);
  let bytes := batch_bytes batch in
  d ← gets fst;
  let total := usize_saturating_add (qd_retained_bytes d) bytes in
  _ ← reject_if (max_result_bytes_per_query limits <? total) (result_limit limits);
  _ ← spill_if (is_memory (qd_storage d) && (memory_result_bytes_per_query limits <? total))
        path (batch_schema batch);
  _ ← append_batch batch;
  on_data (λ d, set_counts (usize_add (qd_rows d) (num_rows batch))
                  (usize_add (qd_retained_bytes d) bytes) d).

(** [finish_results]: the writer is taken out, then finished. *)
Definition finish_results : M Cell QueryError unit :=
  st ← gets (λ c, qd_storage c.1);
  match st with
  | Spill path (Some w) =>
      _ ← on_data (set_storage (Spill path None));
      match writer_finish w with
      | Ok bytes => modify (λ c, (c.1, set_files (<[path := bytes]>) c.2))
      | Err e => fail (storage_error e)
      end
  | _ => mret tt
  end.

(** ** Pages *)

(** The part of a batch that starts at row [cursor] of the result which lies in
    [start, stop), when there is one. *)
Definition overlap (batch : RecordBatch) (cursor start stop : Z) : list RecordBatch :=
  let batch_end := usize_add cursor (num_rows batch) in
  let overlap_start := Z.max start cursor in
  let overlap_end := Z.min stop batch_end in
  if overlap_start <? overlap_end
  then [slice batch (overlap_start - cursor) (overlap_end - overlap_start)]
  else [].

(** [slice_batches], from a row cursor. *)
Fixpoint slice_from (batches : list RecordBatch) (cursor start stop : Z) : list RecordBatch :=
  match batches with
  | [] => []
  | batch :: rest =>
      let batch_end := usize_add cursor (num_rows batch) in
      overlap batch cursor start stop
      ++ (if stop <=? batch_end then [] else slice_from rest batch_end start stop)
  end.

Definition slice_batches (batches : list RecordBatch) (start stop : Z) : list RecordBatch :=
  slice_from batches 0 start stop.

(** The same loop over a reader, which may fail. *)
Fixpoint slice_reader (batches : list (result RecordBatch string)) (cursor start stop : Z) :
    result (list RecordBatch) ServiceError :=
  match batches with
  | [] => Ok []
  | Err e :: _ => Err (storage_service_error e)
  | Ok batch :: rest =>
      let batch_end := usize_add cursor (num_rows batch) in
      let out := overlap batch cursor start stop in
      if stop <=? batch_end then Ok out
      else let? more := slice_reader rest batch_end start stop in Ok (out ++ more)
  end.

Inductive ResultSource :=
| SourceMemory (batches : list RecordBatch)
| SourceSpill (path : string).

Definition load_page (source : ResultSource) (start stop : Z) (fs : FileSystem) :
    result (list RecordBatch) ServiceError :=
  match source with
  | SourceMemory batches => Ok (slice_batches batches start stop)
  | SourceSpill path =>
      let? reader := map_err storage_service_error (open_reader path fs) in
      slice_reader reader 0 start stop
  end.

Record ResultPage := {
  page_batches : list RecordBatch;
  page_total_rows : Z;
  page_next_offset : option Z;
}.

(** The page arithmetic of [result_page] and [result_page_clustered]. *)
Definition page_start (rows offset : Z) : Z := Z.min offset rows.
Definition page_end (rows offset limit : Z) : Z :=
  Z.min (usize_saturating_add (page_start rows offset) (Z.max limit 1)) rows.
Definition page_of (batches : list RecordBatch) (rows offset limit : Z) : ResultPage :=
  {| page_batches := batches; page_total_rows := rows;
     page_next_offset :=
       if page_end rows offset limit <? rows then Some (page_end rows offset limit) else None |}.

(** [result_page], from the query's data on. *)
Definition page_of_data (d : QueryData) (fs : FileSystem) (offset limit : Z) :
    result ResultPage ServiceError :=
  let? source := match qd_storage d with
                 | InMemory batches => Ok (SourceMemory batches)
                 | Spill _ (Some _) => Err results_after_completion
                 | Spill path None => Ok (SourceSpill path)
                 end in
  match qd_error d with
  | Some e => Err (reported FailedPrecondition e)
  | None =>
      if negb (terminal_name (qd_state d)) then Err results_after_completion
      else
        let rows := qd_rows d in
        let? batches := load_page source (page_start rows offset)
                          (page_end rows offset limit) fs in
        Ok (page_of batches rows offset limit)
  end.

(** ** Batch readers *)

Inductive ReaderSource :=
| ReadMemory (batches : list RecordBatch)
| ReadSpill (batches : list (result RecordBatch string))
| ReadShared (batches : list (result RecordBatch string)).

Record ResultBatchReader := {
  rd_source : ReaderSource;
  rd_skip : Z;
  rd_remaining : option Z;
}.

(** The next item of the source. *)
Definition source_next (s : ReaderSource) :
    result (option RecordBatch) ServiceError * ReaderSource :=
  match s with
  | ReadMemory [] => (Ok None, s)
  | ReadMemory (b :: rest) => (Ok (Some b), ReadMemory rest)
  | ReadSpill [] | ReadShared [] => (Ok None, s)
  | ReadSpill (r :: rest) =>
      (match r with Ok b => Ok (Some b) | Err e => Err (storage_service_error e) end,
       ReadSpill rest)
  | ReadShared (r :: rest) =>
      (match r with Ok b => Ok (Some b) | Err e => Err (storage_service_error e) end,
       ReadShared rest)
  end.

Definition next_item : M ResultBatchReader ServiceError (option RecordBatch) :=
  λ r, let '(o, s) := source_next (rd_source r) in
       (o, {| rd_source := s; rd_skip := rd_skip r; rd_remaining := rd_remaining r |}).

Definition set_skip (n : Z) (r : ResultBatchReader) : ResultBatchReader :=
  {| rd_source := rd_source r; rd_skip := n; rd_remaining := rd_remaining r |}.
Definition set_remaining (n : option Z) (r : ResultBatchReader) : ResultBatchReader :=
  {| rd_source := rd_source r; rd_skip := rd_skip r; rd_remaining := n |}.

(** The [while self.skip > 0] loop; [false] when the source ended first.  The
    fuel is the number of batches to skip. *)
Fixpoint skip_loop (fuel : nat) : M ResultBatchReader ServiceError bool :=
  match fuel with
  | O => mret true
  | S fuel =>
      skipped ← next_item;
      match skipped with
      | None => mret false
      | Some _ =>
          _ ← modify (λ r, set_skip (rd_skip r - 1) r);
          skip_loop fuel
      end
  end.

Definition next_batch : M ResultBatchReader ServiceError (option RecordBatch) :=
  n ← gets (λ r, Z.to_nat (rd_skip r));
  more ← skip_loop n;
  if negb more then mret None
  else
    remaining ← gets rd_remaining;
    if bool_decide (remaining = Some 0) then mret None
    else
      batch ← next_item;
      _ ← (match batch, remaining with
           | Some _, Some k => modify (set_remaining (Some (k - 1)))
           | _, _ => mret tt
           end);
      mret batch.

(** [while let Some(batch) = reader.next_batch()?], with fuel; the source has
    finitely many items, one more call than them ends it. *)
Fixpoint read_batches (fuel : nat) : M ResultBatchReader ServiceError (list RecordBatch) :=
  match fuel with
  | O => mret []
  | S fuel =>
      o ← next_batch;
      match o with
      | None => mret []
      | Some b => rest ← read_batches fuel; mret (b :: rest)
      end
  end.

Definition source_length (s : ReaderSource) : nat :=
  match s with
  | ReadMemory l => length l
  | ReadSpill l | ReadShared l => length l
  end.

Definition read_to_end : M ResultBatchReader ServiceError (list RecordBatch) :=
  n ← gets (λ r, source_length (rd_source r));
  read_batches (S n).

(** [result_reader_range], from the query's data on. *)
Definition reader_of_data (d : QueryData) (fs : FileSystem) (skip : Z) (remaining : option Z) :
    result ResultBatchReader ServiceError :=
  match qd_error d with
  | Some e => Err (reported FailedPrecondition e)
  | None =>
      if negb (String.eqb (qd_state d) "completed" || String.eqb (qd_state d) "cancelled")
      then Err results_after_completion
      else
        let? source := match qd_storage d with
                       | InMemory batches => Ok (ReadMemory batches)
                       | Spill path None =>
                           let? reader := map_err storage_service_error (open_reader path fs) in
                           Ok (ReadSpill reader)
                       | Spill _ (Some _) => Err results_after_completion
                       end in
        Ok {| rd_source := source; rd_skip := skip; rd_remaining := remaining |}
  end.

(** [result_batch_count], from the query's data on. *)
Definition count_of_data (d : QueryData) (fs : FileSystem) : result Z ServiceError :=
  if negb (String.eqb (qd_state d) "completed")
  then Err (query_running "query must complete before partition discovery")
  else
    match qd_storage d with
    | InMemory batches => Ok (Z.of_nat (length batches))
    | Spill _ (Some _) => Err (query_running "query result is still being written")
    | Spill path None =>
        let? reader := map_err storage_service_error (open_reader path fs) in
        Ok (Z.of_nat (length reader))
    end.

(** The batch range of a partition. *)
Definition partition_start (batches partition partitions : Z) : Z :=
  usize_saturating_mul batches partition / partitions.

Definition invalid_partition : ServiceError :=
  ServiceError_new InvalidArgument "invalid_result_partition"
    "result partition is outside the advertised range".

(** [result_partition_reader], from the query's data on. *)
Definition partition_of_data (d : QueryData) (fs : FileSystem) (partition partitions : Z) :
    result ResultBatchReader ServiceError :=
  if (partitions =? 0) || (partitions <=? partition) then Err invalid_partition
  else
    let? batches := count_of_data d fs in
    let start := partition_start batches partition partitions in
    let stop := partition_start batches (usize_add partition 1) partitions in
    reader_of_data d fs start (Some (stop - start)).

(** [query_schema], from the query's data on. *)
Definition schema_of_data (d : QueryData) : result Schema ServiceError :=
  match qd_error d with
  | Some e => Err (reported Upstream e)
  | None =>
      match qd_schema d with
      | Some schema => Ok schema
      | None =>
          if terminal_name (qd_state d) then Ok schema_empty
          else Err (query_running "query schema is not available yet")
      end
  end.

(** ** Shared results *)

(** [encode_batches]; [into_inner] finishes the file. *)
Definition encode_batches (batches : list RecordBatch) : result Bytes ServiceError :=
  let schema := match batches with [] => schema_empty | b :: _ => batch_schema b end in
  let? w0 := map_err storage_service_error (writer_try_new schema) in
  match write_all batches w0 with
  | (Err e, _) => Err (storage_service_error e)
  | (Ok _, w) => map_err storage_service_error (writer_finish w)
  end.

(** [decode_batches]. *)
Definition decode_batches (bytes : Bytes) : result (list RecordBatch) ServiceError :=
  let? reader := map_err storage_service_error (reader_try_new bytes) in
  map_err storage_service_error (collect_results reader).

(** [encode_reader]. *)
Definition encode_reader : M ResultBatchReader ServiceError (Bytes * Z) :=
  batches ← read_to_end;
  bytes ← of_result (encode_batches batches);
  mret (bytes, Z.of_nat (length batches)).
End Results.
