(* ===== verification/ResultsFacts.v ===== *)
(** * Properties of result retention and paging

    What is stored is what is read back, wherever it is kept: pages are row
    slices, following [next_offset] visits every row once, partitions tile the
    batches, and retention stays within its limit. *)
From S2P Require Import Prelude Text Arrow DriverApi Auth Config Core Cluster ServiceData.
From S2P Require Import Results.

Section ResultsFacts.
Context `{ipc : ArrowIpc}.
Implicit Types (b : RecordBatch) (bs : list RecordBatch).

(** ** Slicing *)

Lemma num_rows_nonneg b : 0 ≤ num_rows b.
Proof. unfold num_rows. lia. Qed.

Lemma sum_rows_nonneg bs : 0 ≤ sum_rows bs.
Proof. rewrite sum_rows_all_rows. lia. Qed.

(** Rows [start] to [stop] of a list. *)
Definition rows_between {A} (start stop : Z) (l : list A) : list A :=
  take (Z.to_nat (stop - start)) (drop (Z.to_nat start) l).

Lemma rows_between_empty {A} start stop (l : list A) :
  stop ≤ start → rows_between start stop l = [].
Proof. intros. unfold rows_between. by replace (Z.to_nat (stop - start)) with 0%nat by lia. Qed.

(** The overlap with one batch. *)
Lemma overlap_rows b cursor start stop :
  0 ≤ cursor → cursor + num_rows b ≤ usize_max → 0 ≤ start →
  all_rows (overlap b cursor start stop)
  = rows_between (Z.max 0 (start - cursor)) (Z.min (stop - cursor) (num_rows b)) (batch_rows b).
Proof.
  intros H0 Hmax Hs. unfold overlap. pose proof (num_rows_nonneg b).
  rewrite usize_add_small by lia.
  destruct (Z.ltb_spec (Z.max start cursor) (Z.min stop (cursor + num_rows b))) as [Hlt|Hge].
  - unfold all_rows. csimpl. rewrite app_nil_r, slice_rows.
    + unfold rows_between. do 2 f_equal; lia.
    + lia.
    + lia.
    + fold (num_rows b). lia.
  - rewrite rows_between_empty by lia. done.
Qed.

Lemma rows_between_app {A} start stop (l k : list A) :
  0 ≤ start →
  rows_between start stop (l ++ k)
  = rows_between start (Z.min stop (Z.of_nat (length l))) l
    ++ rows_between (Z.max 0 (start - Z.of_nat (length l))) (stop - Z.of_nat (length l)) k.
Proof.
  intros Hs. unfold rows_between. rewrite drop_app, take_app, length_drop.
  f_equal; [|f_equal; [lia|f_equal; lia]].
  destruct (decide (stop ≤ Z.of_nat (length l))).
  - by rewrite Z.min_l by lia.
  - rewrite Z.min_r by lia. rewrite !take_ge; [done|rewrite length_drop; lia..].
Qed.

(** A page of a result is the corresponding range of its rows. *)
Lemma slice_from_rows bs : ∀ cursor start stop,
  0 ≤ cursor → cursor + sum_rows bs ≤ usize_max → 0 ≤ start →
  all_rows (slice_from bs cursor start stop)
  = rows_between (Z.max 0 (start - cursor)) (stop - cursor) (all_rows bs).
Proof.
  induction bs as [|b bs IH]; intros cursor start stop H0 Hmax Hs.
  { simpl. unfold rows_between, all_rows. simpl. by rewrite drop_nil, take_nil. }
  simpl in Hmax. pose proof (sum_rows_nonneg bs). pose proof (num_rows_nonneg b).
  cbn [slice_from]. unfold all_rows at 1. rewrite bind_app. fold (all_rows).
  change (overlap b cursor start stop ≫= batch_rows) with (all_rows (overlap b cursor start stop)).
  rewrite overlap_rows by lia. rewrite usize_add_small by lia.
  change (all_rows (b :: bs)) with (batch_rows b ++ all_rows bs).
  rewrite (rows_between_app _ _ (batch_rows b)) by lia. fold (num_rows b). f_equal.
  destruct (Z.leb_spec stop (cursor + num_rows b)).
  - by rewrite rows_between_empty by lia.
  - change (slice_from bs (cursor + num_rows b) start stop ≫= batch_rows)
      with (all_rows (slice_from bs (cursor + num_rows b) start stop)).
    rewrite IH by lia. f_equal; lia.
Qed.

Lemma slice_batches_rows bs start stop :
  sum_rows bs ≤ usize_max → 0 ≤ start →
  all_rows (slice_batches bs start stop) = rows_between start stop (all_rows bs).
Proof.
  intros Hmax Hs. unfold slice_batches. rewrite slice_from_rows by lia. f_equal; lia.
Qed.

Lemma slice_reader_ok bs : ∀ cursor start stop,
  slice_reader (Ok <$> bs) cursor start stop = Ok (slice_from bs cursor start stop).
Proof.
  induction bs as [|b bs IH]; intros cursor start stop; [done|]. cbn.
  destruct (stop <=? _); [by rewrite app_nil_r|].
  unfold fmap in IH. rewrite IH. done.
Qed.

(** ** Storing *)

(** Where the batches [bs] are kept: in memory, in the writer of an unfinished
    spill file, or in a finished file. *)
Definition kept (st : ResultStorage) (fs : FileSystem) (bs : list RecordBatch) : Prop :=
  match st with
  | InMemory l => l = bs
  | Spill path (Some w) =>
      ∃ schema w0, writer_try_new schema = Ok w0 ∧ write_all bs w0 = (Ok tt, w)
  | Spill path None =>
      ∃ bytes, files fs !! path = Some bytes ∧ reader_try_new bytes = Ok (Ok <$> bs)
  end.

Definition sum_bytes (bs : list RecordBatch) : Z := foldr (λ b n, batch_bytes b + n) 0 bs.

(** What the accepted batches [bs] leave in a query's data. *)
Record retains (limits : ServiceLimits) (c : Cell) (bs : list RecordBatch) : Prop := {
  retains_kept : kept (qd_storage c.1) c.2 bs;
  retains_rows : qd_rows c.1 = sum_rows bs mod 2 ^ 64;
  retains_bytes : qd_retained_bytes c.1 = sum_bytes bs;
  retains_limit : sum_bytes bs ≤ max_result_bytes_per_query limits;
  retains_schema : qd_schema c.1 = batch_schema <$> head bs;
  retains_error : qd_error c.1 = None;
  retains_disk : disk_fault c.2 = None;
}.

(** A result that is still being collected: nothing finished yet. *)
Definition collecting (st : ResultStorage) : Prop :=
  match st with InMemory _ => True | Spill _ w => is_Some w end.

Lemma batch_bytes_nonneg b : 0 ≤ batch_bytes b.
Proof.
  unfold batch_bytes. destruct (column_sizes b) as [|n l] using rev_ind; [done|].
  rewrite foldl_app. simpl. unfold usize_add. apply Z.mod_pos_bound. lia.
Qed.

Lemma sum_bytes_app bs b : sum_bytes (bs ++ [b]) = sum_bytes bs + batch_bytes b.
Proof. induction bs as [|x bs IH]; simpl; [lia|]. rewrite IH. lia. Qed.

Lemma sum_bytes_nonneg bs : 0 ≤ sum_bytes bs.
Proof.
  induction bs as [|b bs IH]; simpl; [lia|]. pose proof (batch_bytes_nonneg b). lia.
Qed.

Lemma retains_start limits fs :
  0 ≤ max_result_bytes_per_query limits → disk_fault fs = None → retains limits (QueryData_submitted, fs) [].
Proof. by split. Qed.

(** Nothing but the storage and the files differs. *)
Definition same_counts (c c' : Cell) : Prop :=
  qd_rows c'.1 = qd_rows c.1 ∧ qd_retained_bytes c'.1 = qd_retained_bytes c.1 ∧
  qd_schema c'.1 = qd_schema c.1 ∧ qd_error c'.1 = qd_error c.1 ∧
  disk_fault c'.2 = disk_fault c.2.

Lemma create_new_fault path fs : disk_fault (create_new path fs).2 = disk_fault fs.
Proof. unfold create_new. repeat case_match; simpl; congruence. Qed.

Lemma spill_kept path schema d fs bs d' fs' :
  kept (qd_storage d) fs bs → is_memory (qd_storage d) = true →
  spill path schema (d, fs) = (Ok tt, (d', fs')) →
  kept (qd_storage d') fs' bs ∧ collecting (qd_storage d') ∧
  same_counts (d, fs) (d', fs').
Proof.
  intros Hk Hm. unfold spill. unfold_M. simpl.
  pose proof (create_new_fault path fs) as Hf.
  destruct (create_new path fs) as [[[]|e] fs1]; simpl in *; [|done].
  destruct (writer_try_new schema) as [w0|e] eqn:Ew; simpl; [|done].
  destruct (write_all _ w0) as [[[]|e] w] eqn:Eall; simpl; [|done].
  intros [= <- <-]. simpl. split_and!; try done.
  exists schema, w0. split; [done|]. destruct (qd_storage d); simpl in *; [by subst|done].
Qed.

Lemma spill_if_kept cond path schema d fs bs d' fs' :
  kept (qd_storage d) fs bs → (cond = true → is_memory (qd_storage d) = true) →
  spill_if cond path schema (d, fs) = (Ok tt, (d', fs')) →
  kept (qd_storage d') fs' bs ∧ same_counts (d, fs) (d', fs').
Proof.
  intros Hk Hm. unfold spill_if. destruct cond.
  - intros Hs. apply (spill_kept _ _ _ _ bs) in Hs as (?&_&?); auto.
  - intros [= <- <-]. done.
Qed.

Lemma append_kept b d fs bs d' fs' :
  kept (qd_storage d) fs bs →
  append_batch b (d, fs) = (Ok tt, (d', fs')) →
  kept (qd_storage d') fs' (bs ++ [b]) ∧ collecting (qd_storage d') ∧
  same_counts (d, fs) (d', fs').
Proof.
  intros Hk. unfold append_batch. unfold_M. simpl.
  destruct (qd_storage d) as [l|path [w|]]; simpl in *.
  - intros [= <- <-]. simpl. subst. by split_and!.
  - destruct (writer_write b w) as [[[]|e] w'] eqn:Ew; simpl; [|done].
    intros [= <- <-]. simpl. split_and!; try done.
    destruct Hk as (schema & w0 & H0 & Hall). exists schema, w0. split; [done|].
    rewrite (write_all_app _ _ _ _ Hall). simpl. unfold_M. by rewrite Ew.
  - done.
Qed.

(** An accepted batch is appended to what is kept. *)
Lemma store_batch_retains limits path b c bs c' :
  max_result_bytes_per_query limits < usize_max →
  retains limits c bs →
  store_batch limits path b c = (Ok tt, c') →
  retains limits c' (bs ++ [b]) ∧ collecting (qd_storage c'.1).
Proof.
  intros Hmax [Hk Hrows Hbytes Hlim Hschema Herr Hdisk]. destruct c as [d fs], c' as [d' fs']. simpl in *.
  set (d1 := match qd_schema d with None => set_schema (Some (batch_schema b)) d | Some _ => d end).
  assert (qd_storage d1 = qd_storage d ∧ qd_rows d1 = qd_rows d ∧
          qd_retained_bytes d1 = qd_retained_bytes d ∧
          qd_schema d1 = match qd_schema d with
                         | None => Some (batch_schema b) | Some s => Some s end ∧
          qd_error d1 = qd_error d)
    as (E1 & E2 & E3 & E4 & E5) by (unfold d1; destruct (qd_schema d) eqn:?; by split_and!).
  unfold store_batch, on_data. unfold_M. cbn [fst snd]. fold d1.
  set (total := usize_saturating_add (qd_retained_bytes d1) (batch_bytes b)).
  destruct (Z.ltb_spec (max_result_bytes_per_query limits) total) as [?|Htotal]; [done|].
  cbv beta iota.
  destruct (spill_if _ _ _ (d1, fs)) as [[[]|e] [d2 fs2]] eqn:Esp; [|done].
  apply (spill_if_kept _ _ _ d1 fs bs) in Esp as (Hk2 & R2 & B2 & S2 & X2 & F2);
    [|by rewrite E1|by rewrite andb_true_iff; intros []].
  destruct (append_batch b (d2, fs2)) as [[[]|e] [d3 fs3]] eqn:Ea; [|done].
  apply (append_kept b d2 fs2 bs) in Ea as (Hk3 & Hc3 & R3 & B3 & S3 & X3 & F3);
    [|done]. simpl in *.
  intros [= <- <-]. split; [|done]. simpl.
  pose proof (batch_bytes_nonneg b). pose proof (sum_bytes_nonneg bs).
  assert (sum_bytes (bs ++ [b]) ≤ max_result_bytes_per_query limits) as Hfit.
  { rewrite sum_bytes_app. unfold total, usize_saturating_add in Htotal.
    rewrite E3, Hbytes in Htotal. lia. }
  split; simpl; [done| | |done| |congruence..].
  - rewrite R3, R2, E2, Hrows. unfold usize_add. rewrite Z.add_mod_idemp_l by lia.
    by rewrite sum_rows_app; simpl; rewrite Z.add_0_r.
  - rewrite B3, B2, E3, Hbytes. rewrite sum_bytes_app in *. apply usize_add_small; lia.
  - rewrite S3, S2, E4, Hschema. by destruct bs.
Qed.

(** Finishing keeps what is stored, and leaves no open writer. *)
Lemma finish_retains limits c bs c' :
  ArrowIpcLaws → retains limits c bs → collecting (qd_storage c.1) →
  finish_results c = (Ok tt, c') →
  retains limits c' bs ∧
  match qd_storage c'.1 with Spill _ (Some _) => False | _ => True end.
Proof.
  intros Hlaws [Hk Hrows Hbytes Hlim Hschema Herr Hdisk] Hc. destruct c as [d fs], c' as [d' fs']. simpl in *.
  unfold finish_results, on_data. unfold_M. simpl.
  destruct (qd_storage d) as [l|path [w|]] eqn:Est; simpl in *.
  - intros [= <- <-]. rewrite Est. split; [|done]. split; simpl; auto. by rewrite Est.
  - destruct (writer_finish w) as [bytes|e] eqn:Ef; [|done]. intros [= <- <-]. simpl.
    split; [|done]. split; simpl; auto.
    destruct Hk as (schema & w0 & H0 & Hall). exists bytes.
    split; [by rewrite lookup_insert_eq|]. by eapply ipc_roundtrip.
  - by destruct Hc.
Qed.

(** Batches stored one after the other, each with the path it would spill to. *)
Fixpoint store_all (limits : ServiceLimits) (items : list (string * RecordBatch)) :
    M Cell QueryError unit :=
  match items with
  | [] => mret tt
  | (path, b) :: items => _ ← store_batch limits path b; store_all limits items
  end.

Lemma store_all_retains limits items : ∀ c bs c',
  max_result_bytes_per_query limits < usize_max →
  retains limits c bs → collecting (qd_storage c.1) →
  store_all limits items c = (Ok tt, c') →
  retains limits c' (bs ++ items.*2) ∧ collecting (qd_storage c'.1).
Proof.
  induction items as [|[path b] items IH]; intros c bs c' Hmax Hr Hc; simpl.
  - intros [= <-]. by rewrite app_nil_r.
  - unfold mbind, M_bind. destruct (store_batch limits path b c) as [[[]|e] c1] eqn:E; [|done].
    apply (store_batch_retains _ _ _ _ bs) in E as [Hr1 Hc1]; [|done..].
    intros Hs. apply (IH c1 (bs ++ [b])) in Hs; [|done..]. by rewrite <- app_assoc in Hs.
Qed.

(** A query's results: batches stored, then finished, without an error. *)
Definition collected (limits : ServiceLimits) (items : list (string * RecordBatch))
    (fs : FileSystem) (d : QueryData) (fs' : FileSystem) : Prop :=
  0 ≤ max_result_bytes_per_query limits < usize_max ∧ disk_fault fs = None ∧
  (store_all limits items ≫= λ _, finish_results) (QueryData_submitted, fs)
  = (Ok tt, (d, fs')).

Lemma collected_retains limits items fs d fs' :
  ArrowIpcLaws → collected limits items fs d fs' →
  retains limits (d, fs') items.*2 ∧
  match qd_storage d with Spill _ (Some _) => False | _ => True end.
Proof.
  intros Hlaws ([H0 Hmax] & Hdisk & Hs). unfold mbind, M_bind in Hs.
  destruct (store_all limits items _) as [[[]|e] c] eqn:E; [|done].
  apply (store_all_retains _ _ _ []) in E as [Hr Hc]; [|done|by apply retains_start|done].
  by apply (finish_retains limits c items.*2 (d, fs')).
Qed.

(** The page of a finished result, memory or spill file alike. *)
Lemma retains_page limits d fs bs name offset limit :
  retains limits (d, fs) bs →
  match qd_storage d with Spill _ (Some _) => False | _ => True end →
  terminal_name name = true → sum_rows bs ≤ usize_max →
  page_of_data (set_state_name name d) fs offset limit
  = Ok (page_of (slice_batches bs (page_start (sum_rows bs) offset)
                   (page_end (sum_rows bs) offset limit)) (sum_rows bs) offset limit).
Proof.
  intros [Hk Hrows _ _ _ Herr Hdisk] Hfin Hname Hsum. simpl in *.
  pose proof (sum_rows_nonneg bs).
  rewrite Z.mod_small in Hrows by (unfold usize_max in *; lia).
  unfold page_of_data. simpl. rewrite Herr, Hname, Hrows.
  destruct (qd_storage d) as [l|path [w|]]; simpl in *; [by subst|done|].
  destruct Hk as (bytes & Hf & Hread). unfold open_reader.
  by rewrite Hdisk, Hf, Hread; simpl; rewrite slice_reader_ok.
Qed.

(** The page at [offset], of what is retained. *)
Definition page_spec (bs : list RecordBatch) (offset limit : Z) (page : ResultPage) : Prop :=
  let rows := all_rows bs in
  let next := offset + Z.max limit 1 in
  all_rows (page_batches page)
    = take (Z.to_nat (Z.max limit 1)) (drop (Z.to_nat offset) rows) ∧
  page_total_rows page = Z.of_nat (length rows) ∧
  page_next_offset page = if next <? Z.of_nat (length rows) then Some next else None.

Lemma retains_page_rows limits d fs bs name offset limit :
  retains limits (d, fs) bs →
  match qd_storage d with Spill _ (Some _) => False | _ => True end →
  sum_rows bs ≤ usize_max → terminal_name name = true →
  0 ≤ offset → 0 ≤ limit ≤ usize_max →
  ∃ page, page_of_data (set_state_name name d) fs offset limit = Ok page ∧
          page_spec bs offset limit page.
Proof.
  intros Hr Hfin Hsum Hname H0 Hlimit. unfold page_spec.
  set (rows := all_rows bs). set (next := offset + Z.max limit 1).
  eexists. split; [by eapply retains_page|]. simpl.
  pose proof (sum_rows_all_rows bs) as Hrows. fold rows in Hrows.
  pose proof (sum_rows_nonneg bs).
  rewrite slice_batches_rows by (unfold page_start; lia). fold rows.
  rewrite <- Hrows. unfold page_end, page_start, usize_saturating_add in *.
  unfold rows_between. split_and!; [|done|].
  - destruct (decide (offset ≤ sum_rows bs)) as [Hle|Hgt].
    + rewrite (Z.min_l offset) by done.
      destruct (decide (next ≤ sum_rows bs)).
      * f_equal; [unfold next in *; lia].
      * rewrite !take_ge; [done|rewrite length_drop; unfold next in *; lia..].
    + rewrite (drop_ge rows (Z.to_nat offset)), take_nil by lia.
      rewrite (drop_ge rows), take_nil by lia. done.
  - unfold next. destruct (Z.ltb_spec (offset + Z.max limit 1) (sum_rows bs)).
    + rewrite (Z.min_l offset) by lia.
      rewrite (Z.min_l (offset + _)), Z.min_l by lia.
      rewrite (proj2 (Z.ltb_lt _ _)) by lia. done.
    + rewrite (proj2 (Z.ltb_ge _ _)) by lia. done.
Qed.

(** Pages are row ranges.  Whether the batches of a query stayed in memory
    or were spilled to disk, once the query is finished the page at [offset]
    holds rows [offset] to [offset + max(limit, 1)] of the concatenated batches,
    and [next_offset] is where the next page starts, if there is one. *)
Theorem page_is_a_row_range limits items fs d fs' name offset limit :
  ArrowIpcLaws → collected limits items fs d fs' →
  sum_rows items.*2 ≤ usize_max → terminal_name name = true →
  0 ≤ offset → 0 ≤ limit ≤ usize_max →
  let rows := all_rows items.*2 in
  let next := offset + Z.max limit 1 in
  ∃ page, page_of_data (set_state_name name d) fs' offset limit = Ok page ∧
    all_rows (page_batches page)
      = take (Z.to_nat (Z.max limit 1)) (drop (Z.to_nat offset) rows) ∧
    page_total_rows page = Z.of_nat (length rows) ∧
    page_next_offset page = if next <? Z.of_nat (length rows) then Some next else None.
Proof.
  intros Hlaws Hc Hsum Hname H0 Hlimit rows next.
  destruct (collected_retains _ _ _ _ _ Hlaws Hc) as [Hr Hfin].
  by eapply retains_page_rows.
Qed.

(** A client that follows [next_offset] from page to page. *)
Fixpoint walk (fuel : nat) (d : QueryData) (fs : FileSystem) (offset limit : Z) :
    result (list RecordBatch) ServiceError :=
  match fuel with
  | O => Ok []
  | S fuel =>
      let? page := page_of_data d fs offset limit in
      match page_next_offset page with
      | None => Ok (page_batches page)
      | Some next =>
          let? rest := walk fuel d fs next limit in
          Ok (page_batches page ++ rest)
      end
  end.

Lemma all_rows_app bs bs' : all_rows (bs ++ bs') = all_rows bs ++ all_rows bs'.
Proof. apply bind_app. Qed.

Lemma walk_rows limits items fs d fs' name limit :
  ArrowIpcLaws → collected limits items fs d fs' →
  sum_rows items.*2 ≤ usize_max → terminal_name name = true → 0 ≤ limit ≤ usize_max →
  ∀ fuel offset, 0 ≤ offset →
    (Z.to_nat (sum_rows items.*2 - offset) < fuel)%nat →
    ∃ bs, walk fuel (set_state_name name d) fs' offset limit = Ok bs ∧
          all_rows bs = drop (Z.to_nat offset) (all_rows items.*2).
Proof.
  intros Hlaws Hc Hsum Hname Hlimit. induction fuel as [|fuel IH]; intros offset H0 Hf; [lia|].
  destruct (page_is_a_row_range limits items fs d fs' name offset limit)
    as (page & Hp & Hrows & _ & Hnext); [done..|]. cbn [walk]. rewrite Hp. cbn.
  rewrite Hnext. pose proof (sum_rows_all_rows items.*2).
  destruct (Z.ltb_spec (offset + Z.max limit 1) (Z.of_nat (length (all_rows items.*2)))).
  - destruct (IH (offset + Z.max limit 1)) as (rest & -> & Hrest); [lia..|].
    eexists. split; [done|]. rewrite all_rows_app, Hrows, Hrest.
    replace (Z.to_nat (offset + Z.max limit 1))
      with (Z.to_nat offset + Z.to_nat (Z.max limit 1))%nat by lia.
    rewrite <- drop_drop. apply take_drop.
  - eexists. split; [done|]. rewrite Hrows. apply take_ge. rewrite length_drop. lia.
Qed.

(** Paging is exhaustive.  Following [next_offset] from the first page
    with any page size ends, after at most one page per row and one more, and
    the pages together hold every row of the result exactly once, in order. *)
Theorem paging_visits_every_row limits items fs d fs' name limit :
  ArrowIpcLaws → collected limits items fs d fs' →
  sum_rows items.*2 ≤ usize_max → terminal_name name = true → 0 ≤ limit ≤ usize_max →
  ∃ bs, walk (S (length (all_rows items.*2))) (set_state_name name d) fs' 0 limit = Ok bs ∧
        all_rows bs = all_rows items.*2.
Proof.
  intros Hlaws Hc Hsum Hname Hlimit. pose proof (sum_rows_all_rows items.*2).
  destruct (walk_rows limits items fs d fs' name limit Hlaws Hc Hsum Hname Hlimit
    (S (length (all_rows items.*2))) 0) as (bs & Hw & Hrows); [lia..|].
  exists bs. by rewrite Hrows.
Qed.

(** ** Readers *)

(** The batches a source still holds, when all of them can be read. *)
Definition readable (s : ReaderSource) (bs : list RecordBatch) : Prop :=
  match s with
  | ReadMemory l => l = bs
  | ReadSpill l | ReadShared l => l = Ok <$> bs
  end.

Lemma source_next_readable s bs :
  readable s bs →
  (source_next s).1 = Ok (head bs) ∧ readable (source_next s).2 (tail bs).
Proof. intros Hr. destruct s; simpl in *; subst; by destruct bs. Qed.

Lemma readable_length s bs : readable s bs → source_length s = length bs.
Proof. destruct s; simpl; intros ->; by rewrite ?length_fmap. Qed.

(** A reader that will produce exactly [bs]. *)
Definition will_read (r : ResultBatchReader) (bs : list RecordBatch) : Prop :=
  ∃ all, readable (rd_source r) all ∧ 0 ≤ rd_skip r ∧
    bs = match rd_remaining r with
         | None => drop (Z.to_nat (rd_skip r)) all
         | Some k => take (Z.to_nat k) (drop (Z.to_nat (rd_skip r)) all)
         end ∧
    match rd_remaining r with None => True | Some k => 0 ≤ k end.

Lemma skip_loop_spec n : ∀ r all,
  readable (rd_source r) all → rd_skip r = Z.of_nat n →
  ∃ r', skip_loop n r = (Ok (bool_decide (n ≤ length all)%nat), r') ∧
    rd_remaining r' = rd_remaining r ∧ readable (rd_source r') (drop n all) ∧
    0 ≤ rd_skip r' ∧ ((n ≤ length all)%nat → rd_skip r' = 0).
Proof.
  induction n as [|n IH]; intros r all Hr Hs; simpl.
  { exists r. rewrite drop_0. auto with lia. }
  unfold next_item. unfold_M. destruct (source_next_readable _ _ Hr) as [Hn Ht].
  destruct (source_next (rd_source r)) as [o s']. simpl in *. subst o.
  destruct all as [|b all]; simpl in *.
  - eexists. split; [reflexivity|]. simpl. split_and!; try done; lia.
  - destruct (IH (set_skip (rd_skip r - 1)
      {| rd_source := s'; rd_skip := rd_skip r; rd_remaining := rd_remaining r |}) all)
      as (r' & Hl & Hrem & Hread & Hnn & Hz); [done|simpl; lia|].
    exists r'. unfold set_skip in *. simpl in *. rewrite Hl. split_and!; auto with lia.
    do 2 f_equal. by apply bool_decide_ext; lia.
Qed.

(** Taking the next item of a source whose skipping is done. *)
Lemma next_item_spec r all :
  readable (rd_source r) all →
  ∃ r', next_item r = (Ok (head all), r') ∧ readable (rd_source r') (tail all) ∧
    rd_skip r' = rd_skip r ∧ rd_remaining r' = rd_remaining r.
Proof.
  intros Hr. unfold next_item. destruct (source_next_readable _ _ Hr) as [Hn Ht].
  destruct (source_next (rd_source r)) as [o s']. simpl in *. subst o. eauto.
Qed.

(** One call of [next_batch]. *)
Lemma next_batch_spec r bs :
  will_read r bs →
  ∃ r', next_batch r = (Ok (head bs), r') ∧ (bs ≠ [] → will_read r' (tail bs)).
Proof.
  intros (all & Hr & Hs & Hbs & Hrem). unfold next_batch. unfold_M.
  destruct (skip_loop_spec (Z.to_nat (rd_skip r)) r all Hr ltac:(lia))
    as (r1 & Hl & Hrem1 & Hr1 & Hnn & Hz).
  rewrite Hl. cbn. case_bool_decide as Hlen; cbn.
  2:{ rewrite drop_ge in Hbs by lia. exists r1.
      assert (bs = []) as -> by (by destruct (rd_remaining r); rewrite ?take_nil in Hbs).
      by split. }
  specialize (Hz Hlen). rewrite Hrem1. case_bool_decide as H0.
  { rewrite H0 in Hbs. simpl in Hbs. subst bs. by exists r1. }
  destruct (next_item_spec r1 _ Hr1) as (r2 & Hn & Hr2 & Hs2 & Hrem2). rewrite Hn. simpl.
  remember (drop (Z.to_nat (rd_skip r)) all) as rest eqn:Edrop.
  assert (head bs = head rest) as Hhead.
  { subst bs. destruct (rd_remaining r) as [k|] eqn:Ek; [|done].
    destruct (Z.to_nat k) eqn:E; [|by destruct rest]. exfalso. apply H0. f_equal. lia. }
  rewrite Hhead. destruct rest as [|b tl]; simpl in *.
  { exists r2. split; [done|]. intros Hne. by destruct (rd_remaining r); rewrite ?take_nil in Hbs. }
  destruct (rd_remaining r) as [k|] eqn:Ek; simpl.
  - eexists. split; [done|]. intros _. exists tl. simpl.
    rewrite Hs2, Hz. subst bs. split_and!; [done|lia| |].
    + rewrite drop_0. destruct (Z.to_nat k) as [|n] eqn:En.
      { exfalso. apply H0. f_equal. lia. }
      simpl. f_equal. lia.
    + assert (k ≠ 0) by congruence. lia.
  - exists r2. split; [done|]. intros _. exists tl. rewrite Hs2, Hz, Hrem2. subst bs.
    by rewrite Hrem1, drop_0.
Qed.

Lemma read_batches_spec fuel : ∀ r bs,
  will_read r bs → (length bs < fuel)%nat → (read_batches fuel r).1 = Ok bs.
Proof.
  induction fuel as [|fuel IH]; intros r bs Hw Hf; [lia|]. cbn [read_batches].
  destruct (next_batch_spec r bs Hw) as (r' & Hn & Hnext). unfold_M. rewrite Hn.
  destruct bs as [|b bs]; simpl in *; [done|].
  specialize (IH r' bs (Hnext ltac:(done)) ltac:(lia)).
  destruct (read_batches fuel r') as [[l|e] r'']; simpl in *; congruence.
Qed.

(** Reading to the end returns everything, within the fuel of [read_to_end]. *)
Lemma read_to_end_spec r bs : will_read r bs → (read_to_end r).1 = Ok bs.
Proof.
  intros Hw. unfold read_to_end. unfold_M. apply read_batches_spec; [done|].
  destruct Hw as (all & Hr & _ & -> & _). rewrite (readable_length _ _ Hr).
  destruct (rd_remaining r); rewrite ?length_take, length_drop; lia.
Qed.

(** The reader of a finished result produces the batches asked for. *)
Lemma retains_reader limits d fs bs skip remaining :
  retains limits (d, fs) bs →
  match qd_storage d with Spill _ (Some _) => False | _ => True end →
  0 ≤ skip → match remaining with None => True | Some k => 0 ≤ k end →
  ∃ r, reader_of_data (set_state_name "completed" d) fs skip remaining = Ok r ∧
    will_read r match remaining with
                | None => drop (Z.to_nat skip) bs
                | Some k => take (Z.to_nat k) (drop (Z.to_nat skip) bs)
                end.
Proof.
  intros [Hk _ _ _ _ Herr Hdisk] Hfin H0 Hrem. unfold reader_of_data. simpl in *. rewrite Herr.
  destruct (qd_storage d) as [l|path [w|]]; simpl in *; [|done|].
  - eexists. split; [done|]. exists bs. by subst.
  - destruct Hk as (bytes & Hf & Hread). unfold open_reader. rewrite Hdisk, Hf, Hread. simpl.
    eexists. split; [done|]. by exists bs.
Qed.

Lemma retains_count limits d fs bs :
  retains limits (d, fs) bs →
  match qd_storage d with Spill _ (Some _) => False | _ => True end →
  count_of_data (set_state_name "completed" d) fs = Ok (Z.of_nat (length bs)).
Proof.
  intros [Hk _ _ _ _ _ Hdisk] Hfin. unfold count_of_data. simpl in *.
  destruct (qd_storage d) as [l|path [w|]]; simpl in *; [by subst|done|].
  destruct Hk as (bytes & Hf & Hread). unfold open_reader. rewrite Hdisk, Hf, Hread. simpl.
  by rewrite length_fmap.
Qed.

(** What a client of one partition receives. *)
Definition read_partition (d : QueryData) (fs : FileSystem) (partition partitions : Z) :
    result (list RecordBatch) ServiceError :=
  let? r := partition_of_data d fs partition partitions in (read_to_end r).1.

Lemma partition_start_spec n k p :
  0 ≤ n → 0 ≤ k ≤ p → 0 < p → n * p ≤ usize_max → partition_start n k p = n * k / p.
Proof.
  intros. unfold partition_start, usize_saturating_mul. rewrite Z.min_l by nia. done.
Qed.

Lemma read_partition_spec limits d fs bs i p :
  retains limits (d, fs) bs →
  match qd_storage d with Spill _ (Some _) => False | _ => True end →
  0 ≤ i < p → p ≤ usize_max → Z.of_nat (length bs) * p ≤ usize_max →
  let bound k := Z.to_nat (Z.of_nat (length bs) * k / p) in
  read_partition (set_state_name "completed" d) fs i p
  = Ok (take (bound (i + 1) - bound i) (drop (bound i) bs)).
Proof.
  intros Hr Hfin Hi Hp Hmax bound. unfold read_partition, partition_of_data.
  rewrite (proj2 (Z.eqb_neq p 0)), (proj2 (Z.leb_gt p i)) by lia. simpl.
  rewrite (retains_count limits d fs bs) by done. simpl.
  rewrite usize_add_small by lia. rewrite !partition_start_spec by lia.
  set (s := Z.of_nat (length bs) * i / p). set (e := Z.of_nat (length bs) * (i + 1) / p).
  assert (0 ≤ s ≤ e) as Hse.
  { unfold s, e. split; [apply Z.div_pos; lia|apply Z.div_le_mono; nia]. }
  destruct (retains_reader limits d fs bs s (Some (e - s))) as (r & -> & Hw); [done..|lia|lia|].
  simpl. rewrite (read_to_end_spec r _ Hw). unfold bound. fold s e.
  do 2 f_equal. lia.
Qed.

(** The batches of a partition. *)
Definition partition_of (bs : list RecordBatch) (p i : Z) : list RecordBatch :=
  let bound k := Z.to_nat (Z.of_nat (length bs) * k / p) in
  take (bound (i + 1) - bound i) (drop (bound i) bs).

Lemma partitions_concat bs p : 0 < p → concat (partition_of bs p <$> seqZ 0 p) = bs.
Proof.
  intros Hp. set (bound k := Z.to_nat (Z.of_nat (length bs) * k / p)).
  assert (∀ n : nat, Z.of_nat n ≤ p →
    concat (partition_of bs p <$> seqZ 0 (Z.of_nat n)) = take (bound (Z.of_nat n)) bs) as Hpre.
  { induction n as [|n IH]; intros Hn.
    - unfold bound. rewrite Z.mul_0_r, Z.div_0_l by lia. done.
    - rewrite seqZ_S, fmap_app, concat_app, IH, Nat2Z.inj_succ by lia. simpl.
      rewrite app_nil_r. unfold partition_of. fold bound. rewrite Z.add_0_l, Z.add_1_r.
      assert (bound (Z.of_nat n) ≤ bound (Z.succ (Z.of_nat n)))%nat.
      { unfold bound. apply Z2Nat.inj_le; [apply Z.div_pos; lia..|].
        apply Z.div_le_mono; nia. }
      rewrite <- (take_drop (bound (Z.of_nat n)) (take (bound (Z.succ (Z.of_nat n))) bs)).
      rewrite take_take, Nat.min_l by done. f_equal.
      rewrite skipn_firstn_comm. f_equal. }
  specialize (Hpre (Z.to_nat p) ltac:(lia)). rewrite Z2Nat.id in Hpre by lia.
  rewrite Hpre. apply take_ge. unfold bound. rewrite Z.div_mul by lia. lia.
Qed.

(** Partitions tile the result.  For every number of partitions, reading
    the partitions one after the other yields each batch of the result exactly
    once and in order. *)
Theorem partitions_tile_the_result limits items fs d fs' p :
  ArrowIpcLaws → collected limits items fs d fs' →
  0 < p ≤ usize_max → Z.of_nat (length items) * p ≤ usize_max →
  ∃ parts,
    collect_results
      ((λ i, read_partition (set_state_name "completed" d) fs' i p) <$> seqZ 0 p) = Ok parts ∧
    concat parts = items.*2.
Proof.
  intros Hlaws Hc Hp Hmax. destruct (collected_retains _ _ _ _ _ Hlaws Hc) as [Hr Hfin].
  set (bs := items.*2) in *. assert (length bs = length items) as Hlen by apply length_fmap.
  exists (partition_of bs p <$> seqZ 0 p). split; [|apply partitions_concat; lia].
  rewrite <- collect_results_Ok. f_equal. rewrite <- list_fmap_compose.
  apply list_fmap_ext. intros i x Hx%list_elem_of_lookup_2%elem_of_seqZ. simpl.
  apply (read_partition_spec limits); [done..|lia|lia|]. by rewrite Hlen.
Qed.

(** ** Shared results *)

(** Round trip of the shared result store: what [encode_batches] writes,
    [decode_batches] reads back. *)
Lemma shared_batches_roundtrip bs bytes :
  ArrowIpcLaws → encode_batches bs = Ok bytes → decode_batches bytes = Ok bs.
Proof.
  intros Hlaws. unfold encode_batches, decode_batches.
  destruct (writer_try_new _) as [w0|e] eqn:E0; simpl; [|done].
  destruct (write_all bs w0) as [[[]|e] w] eqn:Ew; [|done].
  destruct (writer_finish w) as [bytes'|e] eqn:Ef; simpl; [|done]. intros [= <-].
  rewrite (ipc_roundtrip _ _ _ _ _ E0 Ew Ef). simpl. by rewrite collect_results_Ok.
Qed.

(** ** Limits *)

Definition within_limits (limits : ServiceLimits) (c : Cell) : Prop :=
  0 ≤ qd_retained_bytes c.1 ≤ max_result_bytes_per_query limits ∧
  (is_memory (qd_storage c.1) = true →
     qd_retained_bytes c.1 ≤ memory_result_bytes_per_query limits).

Lemma spill_if_storage cond path schema c :
  let c' := (spill_if cond path schema c).2 in
  qd_retained_bytes c'.1 = qd_retained_bytes c.1 ∧
  (is_memory (qd_storage c'.1) = true → cond = false ∨ is_ok (spill_if cond path schema c).1 = false) ∧
  (is_memory (qd_storage c'.1) = true → is_memory (qd_storage c.1) = true ∨ cond = true).
Proof.
  destruct cond; simpl; [|by auto]. unfold spill, on_data. unfold_M. simpl.
  destruct (create_new path c.2) as [[[]|e] fs]; simpl; [|by auto].
  destruct (writer_try_new schema) as [w0|e]; simpl; [|by auto].
  destruct (write_all _ w0) as [[[]|e] w]; simpl; auto.
Qed.

Lemma append_storage b c :
  let c' := (append_batch b c).2 in
  qd_retained_bytes c'.1 = qd_retained_bytes c.1 ∧
  is_memory (qd_storage c'.1) = is_memory (qd_storage c.1).
Proof.
  unfold append_batch, on_data. unfold_M. simpl.
  destruct (qd_storage c.1) as [l|path [w|]] eqn:E; simpl; [done| |by rewrite E].
  by destruct (writer_write b w) as [[[]|e] w'].
Qed.

Lemma store_batch_within limits path b :
  0 ≤ max_result_bytes_per_query limits < usize_max →
  preserves (within_limits limits) (store_batch limits path b).
Proof.
  intros Hmax c [Hb Hm]. unfold store_batch, on_data. unfold_M. cbn [fst snd].
  set (d1 := match qd_schema c.1 with
             | None => set_schema (Some (batch_schema b)) c.1 | Some _ => c.1 end).
  assert (qd_storage d1 = qd_storage c.1 ∧ qd_retained_bytes d1 = qd_retained_bytes c.1)
    as [E1 E2] by (unfold d1; by destruct (qd_schema c.1)).
  pose proof (batch_bytes_nonneg b).
  set (total := usize_saturating_add (qd_retained_bytes d1) (batch_bytes b)).
  assert (within_limits limits (d1, c.2)) as H1.
  { split; simpl; rewrite ?E1, E2; done. }
  destruct (Z.ltb_spec (max_result_bytes_per_query limits) total) as [?|Htotal]; [done|].
  cbv beta iota.
  set (cond := is_memory (qd_storage d1) && (memory_result_bytes_per_query limits <? total)).
  pose proof (spill_if_storage cond path (batch_schema b) (d1, c.2)) as (B2 & M2 & N2).
  destruct (spill_if cond path (batch_schema b) (d1, c.2)) as [[[]|e] c2]; simpl in *.
  2:{ split; simpl; rewrite B2, E2; [done|]. intros Hmem. apply N2 in Hmem as [?|Hc].
      - apply Hm. by rewrite <- E1.
      - apply andb_true_iff in Hc as [? _]. apply Hm. by rewrite <- E1. }
  pose proof (append_storage b c2) as (B3 & M3).
  destruct (append_batch b c2) as [[[]|e] c3]; simpl in *.
  2:{ split; simpl; rewrite B3, B2, E2; [done|]. rewrite M3. intros Hmem.
      apply N2 in Hmem as [?|Hc]; [|apply andb_true_iff in Hc as [? _]];
        apply Hm; by rewrite <- E1. }
  assert (total = qd_retained_bytes c.1 + batch_bytes b) as Et.
  { unfold total, usize_saturating_add in *. rewrite E2 in *. lia. }
  split; simpl; rewrite B3, B2, E2, usize_add_small by lia; [lia|].
  rewrite M3. intros Hmem. pose proof Hmem as Hmem'.
  apply M2 in Hmem' as [Hc|?]; [|done]. unfold cond in Hc.
  apply N2 in Hmem as [Hmem|Hc']; [|unfold cond in Hc'; congruence].
  rewrite Hmem in Hc. simpl in Hc. apply Z.ltb_ge in Hc. lia.
Qed.

Lemma finish_within limits : preserves (within_limits limits) finish_results.
Proof.
  intros c [Hb Hm]. unfold finish_results, on_data. unfold_M. simpl.
  destruct (qd_storage c.1) as [l|path [w|]] eqn:E; simpl.
  - split; [done|]. by rewrite E.
  - destruct (writer_finish w); split; simpl; done.
  - split; [done|]. by rewrite E.
Qed.

(** A query that keeps storing batches whether or not they are accepted. *)
Definition store_attempts (limits : ServiceLimits) (items : list (string * RecordBatch))
    (c : Cell) : Cell :=
  foldl (λ c item, (store_batch limits item.1 item.2 c).2) c items.

End ResultsFacts.
