(* ===== verification/ComponentExamples.v ===== *)
(** * Sessions, queries, cluster stores and results on concrete runs

    Each lemma replays a scenario and applies the theorem it illustrates. *)
From S2P Require Import Prelude Text Arrow DriverApi Config Core CoreFacts Cluster ClusterFacts.
From S2P Require Import ClusterStores Metadata ServiceData Results ResultsFacts.
Import Core.Sessions Core.Queries Arrow.Concrete.

Definition target : ResolvedTarget :=
  {| target_name := "warehouse"; target_engine := "trino";
     target_properties := {["user" := {| cv_value := "ada"; cv_secret := false |}]} |}.

Definition no_env (_ : string) : option string := None.

Definition opened : SessionManager :=
  (create no_env "202401010000" target (SessionManager_default SessionIdState_default)).2.
Definition opened_id : string := "ada_202401010000_01".

(** Three clients that all read version 1, then one that re-reads. *)
Definition requests : list Request :=
  [{| req_id := opened_id; req_expected := 1; req_mutation := SetOption "a" "1" |};
   {| req_id := opened_id; req_expected := 1; req_mutation := SetOption "a" "2" |};
   {| req_id := opened_id; req_expected := 2; req_mutation := SwitchTarget target |};
   {| req_id := opened_id; req_expected := 1; req_mutation := SetOption "a" "3" |}].

Lemma one_winner_witness :
  (length (wins opened_id 1 (run_requests requests opened).1) ≤ 1)%nat.
Proof.
  apply (at_most_one_winner requests opened opened_id 1 1); vm_compute; congruence.
Defined.

Lemma version_witness :
  version_of opened_id (run_requests requests opened).2
  = Some (1 + Z.of_nat (length (successes opened_id (run_requests requests opened).1))).
Proof.
  apply (version_counts_successes requests opened opened_id 1); vm_compute; congruence.
Defined.

Definition edits : gmap string (option string) := {["a" := Some "1"; "user" := None]}.
Definition edited := mutate opened_id 1 None edits opened.
Definition edited_snapshot : SessionSnapshot :=
  {| snap_id := opened_id; snap_version := 2; snap_target := "warehouse";
     snap_engine := "trino"; snap_properties := {["user" := "ada"; "a" := "1"]};
     snap_overrides := {["a" := "1"]} |}.

Lemma mutate_witness : ∃ s, sessions opened !! opened_id = Some s ∧
  snapshot opened_id edited.2 = (Ok edited_snapshot, edited.2) ∧
  snap_target edited_snapshot = "warehouse" ∧ snap_engine edited_snapshot = "trino" ∧
  snap_properties edited_snapshot !! "user" = Some "ada".
Proof.
  destruct (mutate_view opened_id 1 None edits opened edited_snapshot edited.2 "user")
    as (s & Hs & Hsnap & Ht & He & Hp); [vm_compute; reflexivity|].
  exists s. repeat split; try assumption; vm_compute; reflexivity.
Defined.

Lemma distinct_ids_witness :
  NoDup (id_run "ada" "202401010000" 99 {| minute := "202401010000"; counter := 50 |}).
Proof. apply (session_ids_distinct "ada" "202401010000" 50). lia. Defined.

Lemma hundredth_session_witness :
  let '(l, m') := create_run no_env "202401010000" target
      (replicate 99 ∅ ++ [{["a" := "1"]}])
      {| sessions := ∅; ids := {| minute := "202401010000"; counter := 0 |} |} in
  ∃ first, l !! 0%nat = Some first ∧ l !! 99%nat = Some first ∧
    session_overrides <$> sessions m' !! first = Some {["a" := "1"]}.
Proof.
  apply (hundredth_session_replaces_first no_env "202401010000" target
    (replicate 99 ∅) {["a" := "1"]} 0 ∅); [lia|reflexivity].
Defined.

Lemma query_ids_witness : NoDup (draw_ids 40 (QueryService_new [] 8)).
Proof. apply (query_ids_distinct 40 (QueryService_new [] 8)); vm_compute; congruence. Defined.

(** A query with one event before and one after a batch. *)
Definition a_batch : RecordBatch := {| schema := ["n"]; rows := [[1]; [2]] |}.
Definition a_handle : QueryHandle :=
  {| qh_id := "q"; qh_session_id := opened_id; qh_session_version := 1;
     qh_items := [Event (State Submitted); Batch a_batch; Event (State Completed)];
     qh_capacity := 1; qh_cancellation := false; qh_task := Ok (Ok tt) |}.
Definition a_pipe : Pipe :=
  {| todo := [Event (State Completed)]; event_queue := [State Submitted];
     batch_queue := [a_batch]; delivered := [] |}.

Lemma pipe_witness :
  (2 ≤ 6)%nat ∧ 1 ≤ 1 ∧ 1 ≤ 1 ∧
  (drained a_pipe ∨ ∃ p', pipe_step 1 a_pipe p') ∧
  (drained a_pipe → delivery (qh_items a_handle) (delivered a_pipe)).
Proof.
  apply (pipe_delivers a_handle 2 a_pipe); [vm_compute; congruence|].
  eapply nsteps_l; [apply send_event; vm_compute; reflexivity|].
  eapply nsteps_l; [apply send_batch; vm_compute; reflexivity|].
  apply nsteps_O.
Defined.

(** ** The cluster theorems on concrete runs

    Each lemma replays a scenario on the in-memory or the PostgreSQL store and
    applies the theorem it illustrates. *)

#[local] Instance chrono : Chrono :=
  {| from_std := Some; from_std_same d r := λ e, eq_sym (f_equal (default 0) e) |}.

Definition tables : Postgres.Tables :=
  {| Postgres.link_error := None; Postgres.schema_row := Some 1; Postgres.nodes := ∅;
     Postgres.resources := ∅; Postgres.leases := ∅; Postgres.permits := ∅;
     Postgres.fence_sequence := 0 |}.
Definition memory : Memory.MemoryState := Memory.MemoryState_default.

Definition millisecond : Z := 10 ^ 6.
Definition lease (node : string) (token expires : Z) : QueryLease :=
  {| lease_query := "q"; lease_principal := "alice"; owner_node_id := node;
     fencing_token := token; lease_expires_at := expires |}.
Definition document (principal : string) (v : Z) : SharedResource :=
  {| resource_id := "s"; resource_principal := principal; resource_kind := "session";
     resource_version := v; payload := Null; resource_expires_at := 10 ^ 12 |}.

(** Node [n1] claims [q], its lease runs out, [n2] takes it over and [n1] tries
    to renew. *)
Definition first_claim := claim_query "q" "alice" "n1" millisecond 0 tables.
Definition second_claim :=
  claim_query "q" "alice" "n2" millisecond (2 * millisecond)
    (apply_ops [OpLiveNodes 5] first_claim.2).

Lemma takeover_witness :
  let s3 := apply_ops [OpReleaseQuota "none"] second_claim.2 in
  1 < 3 ∧
  (∀ ttl now, (∃ e, (renew_query (lease "n1" 1 millisecond) ttl now s3).1 = Err e) ∧
     same_leases s3 (renew_query (lease "n1" 1 millisecond) ttl now s3).2) ∧
  (release_query (lease "n1" 1 millisecond) s3).1 ≠ Ok true ∧
  same_leases s3 (release_query (lease "n1" 1 millisecond) s3).2.
Proof.
  apply (takeover_fences_the_old_owner "q" "alice" "n1" millisecond 0
    (lease "n1" 1 millisecond) tables first_claim.2 [OpLiveNodes 5]
    "alice" "n2" millisecond (2 * millisecond) (lease "n2" 3 (3 * millisecond))
    second_claim.2 [OpReleaseQuota "none"]).
  - split; vm_compute; congruence.
  - vm_compute. reflexivity.
  - vm_compute. reflexivity.
Defined.

Lemma exclusion_witness :
  (∃ e, (claim_query "q" "alice" "n2" millisecond 5 first_claim.2).1 = Err e) ∧
  ∀ q, lease_of (claim_query "q" "alice" "n2" millisecond 5 first_claim.2).2 q
       = lease_of first_claim.2 q.
Proof.
  apply (live_lease_excludes_others "q" "alice" "n2" millisecond 5 first_claim.2
    (lease "n1" 1 millisecond)).
  - split; vm_compute; congruence.
  - vm_compute. reflexivity.
  - right. split; vm_compute; congruence.
Defined.

Definition kept : Memory.MemoryState := (put_resource (document "alice" 0) None memory).2.

Lemma isolation_witness :
  resource_of (apply_ops [OpPut (document "bob" 0) None; OpDelete "session" "s" "bob"] kept)
    ("session", "s") = Some (document "alice" 1).
Proof.
  apply (foreign_operations_keep_resources ("session", "s") (document "alice" 1)
    [OpPut (document "bob" 0) None; OpDelete "session" "s" "bob"] kept).
  - vm_compute. reflexivity.
  - repeat constructor; vm_compute; reflexivity.
Defined.

Definition swapped : Memory.MemoryState := (put_resource (document "alice" 7) (Some 1) kept).2.

Lemma resource_cas_witness :
  let s2 := apply_ops [OpPut (document "alice" 0) None] swapped in
  (∃ e, (put_resource (document "alice" 9) (Some 1) s2).1 = Err e) ∧
  same_resources s2 (put_resource (document "alice" 9) (Some 1) s2).2.
Proof.
  apply (resource_cas_once (document "alice" 7) (document "alice" 9) 1 (document "alice" 1)
    (document "alice" 2) kept swapped [OpPut (document "alice" 0) None]).
  - reflexivity.
  - vm_compute. reflexivity.
  - vm_compute. congruence.
  - vm_compute. reflexivity.
  - vm_compute. reflexivity.
  - repeat constructor.
Defined.

Definition three_acquires : list ClusterOp :=
  [OpAcquire "alice" "queries" 2 millisecond "a" 1;
   OpAcquire "alice" "queries" 2 millisecond "b" 2;
   OpAcquire "alice" "queries" 2 millisecond "c" 3].

Lemma quota_witness :
  Z.of_nat (live_permits "alice" "queries" 3 (apply_ops three_acquires tables)) ≤ 2.
Proof.
  apply (quota_never_exceeded "alice" "queries" 2 3 three_acquires tables).
  - vm_compute. congruence.
  - repeat constructor; simpl; lia.
  - vm_compute omap. repeat constructor; set_solver.
  - intros u _. apply lookup_empty.
Defined.

Definition expired : gmap string Permit := {["a" := ("alice", "queries", 5)]}.
Definition memory_expired : Memory.MemoryState := Memory.set_permits (λ _, expired) memory.
Definition tables_expired : Postgres.Tables := Postgres.set_permits (λ _, expired) tables.

Lemma expired_permits_witness :
  (acquire_quota "alice" "queries" 1 millisecond "b" 9 memory_expired).1 = Ok "b" ∧
  (acquire_quota "alice" "queries" 1 millisecond "b" 9 tables_expired).1
    = Err quota_exhausted.
Proof.
  apply (expired_permits_block_postgres "alice" "queries" 1 millisecond "b" 9
    memory_expired tables_expired); vm_compute; try split; congruence.
Defined.

Lemma overlapping_acquires_witness : ∃ t1 t2,
  Postgres.pg_acquire_from tables "alice" "queries" 1 60 "a" 0 tables = (Ok "a", t1) ∧
  Postgres.pg_acquire_from tables "alice" "queries" 1 60 "b" 0 t1 = (Ok "b", t2) ∧
  Z.of_nat (live_permits "alice" "queries" 0 t2) = 2.
Proof.
  apply (overlapping_acquires_exceed_the_limit "alice" "queries" 1 60 "a" "b" 0 tables);
    vm_compute; congruence.
Defined.

Lemma stale_write_witness :
  (put_resource (document "alice" 0) (Some 4) memory).1
    = Err (ClusterError_new "version_conflict" "resource version changed") ∧
  put_resource (document "alice" 0) (Some 4) tables
    = (Ok (document "alice" 1),
       Postgres.set_resources (<[("session", "s") := document "alice" 1]>) tables).
Proof.
  apply (stale_write_recreates_on_postgres (document "alice" 0) 4 memory tables);
    vm_compute; congruence.
Defined.

(** ** The theorems on results and metadata, on concrete data *)

Definition numbers (l : list Z) : RecordBatch := {| schema := ["n"]; rows := (λ n, [n]) <$> l |}.

(** Three batches; the second one does not fit in memory any more. *)
Definition stored : list (string * RecordBatch) :=
  [("/tmp/x", numbers [1; 2]); ("/tmp/y", numbers [3; 4; 5]); ("/tmp/z", numbers [6])].

Definition small_limits : ServiceLimits :=
  {| max_queries := 4; memory_result_bytes_per_query := 20;
     max_result_bytes_per_query := 1000; result_ttl := 100; max_sql_bytes := 100;
     session_ttl := 100; shutdown_grace := 10; max_prepared_statements := 2;
     prepared_statement_ttl := 50 |}.

Definition empty_disk : FileSystem := {| files := ∅; disk_fault := None |}.

Definition stored_cell : Cell :=
  ((store_all small_limits stored ≫= λ _, finish_results) (QueryData_submitted, empty_disk)).2.

Example spilled : qd_storage stored_cell.1 = Spill "/tmp/y" None.
Proof. vm_compute. reflexivity. Qed.

Lemma stored_collected :
  collected small_limits stored empty_disk stored_cell.1 stored_cell.2.
Proof. split; [vm_compute; split; congruence|]. split; vm_compute; reflexivity. Qed.

Lemma page_witness :
  ∃ page, page_of_data (set_state_name "completed" stored_cell.1) stored_cell.2 1 3 = Ok page ∧
    all_rows (page_batches page) = [[2]; [3]; [4]] ∧ page_next_offset page = Some 4.
Proof.
  destruct (page_is_a_row_range small_limits stored empty_disk stored_cell.1 stored_cell.2
    "completed" 1 3 ipc_laws stored_collected) as (page & Hp & Hrows & _ & Hnext);
    [vm_compute; congruence|reflexivity|lia|vm_compute; split; congruence|].
  exists page. split; [exact Hp|]. rewrite Hrows, Hnext. split; vm_compute; reflexivity.
Defined.

Lemma paging_witness :
  ∃ bs, walk 7 (set_state_name "completed" stored_cell.1) stored_cell.2 0 4 = Ok bs ∧
        all_rows bs = [[1]; [2]; [3]; [4]; [5]; [6]].
Proof.
  exact (paging_visits_every_row small_limits stored empty_disk stored_cell.1 stored_cell.2
    "completed" 4 ipc_laws stored_collected
    ltac:(vm_compute; congruence) eq_refl ltac:(vm_compute; split; congruence)).
Defined.

Lemma partitions_witness :
  ∃ parts,
    collect_results ((λ i, read_partition (set_state_name "completed" stored_cell.1)
                             stored_cell.2 i 2) <$> seqZ 0 2) = Ok parts ∧
    concat parts = stored.*2.
Proof.
  exact (partitions_tile_the_result small_limits stored empty_disk stored_cell.1 stored_cell.2 2
    ipc_laws stored_collected ltac:(vm_compute; split; congruence) ltac:(vm_compute; congruence)).
Defined.


(** ** Metadata *)

Definition catalog_adapter : EngineAdapter :=
  {| engine := "trino"; capabilities := from_supported [ListCatalogs];
     identifier_capabilities := IdentifierCapabilities_default;
     execute := λ _ _, {| ex_items := []; ex_result := Ok tt |};
     prepare := default_prepare;
     execute_prepared := λ _ _ _, {| ex_items := []; ex_result := Ok tt |};
     execute_update := default_execute_update;
     execute_prepared_update := default_execute_prepared_update default_execute_update;
     ingest := default_ingest;
     list_catalogs := λ _ i, Ok [{| cat_name := "c" +:+ pretty (invoked_at i) |}];
     list_schemas := default_list_schemas; list_objects := default_list_objects;
     describe_object := default_describe_object |}.

Definition catalog_request : MetadataRequest :=
  {| mr_identity := "ada"; mr_target := "warehouse"; mr_engine := "trino";
     mr_properties := ∅; mr_catalog := None; mr_schema := None; mr_pattern := None |}.

Definition ask (t : Z) : MetadataCall :=
  CallCatalogs catalog_request {| invoked_at := t; poll := λ _, false |} (t + 1).

(** Asked at 0 and again at 5, within the time to live of 30: the first answer. *)
Lemma cached_witness :
  answered (md_adapters (MetadataService_new [catalog_adapter] 30)) (ask 5)
    (Catalogs [{| cat_name := "c0" |}]) ∨
  ∃ c' r', c' ∈ [ask 0] ∧ call_request c' = Some (r', OpCatalogs) ∧
    same_scope catalog_request r' ∧ 0 = 0 ∧
    answered (md_adapters (MetadataService_new [catalog_adapter] 30)) c'
      (Catalogs [{| cat_name := "c0" |}]) ∧
    duration_since (call_begin (ask 5)) (call_done c') ≤ 30.
Proof.
  exact (cached_answers_are_own_and_fresh (λ _, 0) [catalog_adapter] 30 [ask 0] (ask 5)
    (Catalogs [{| cat_name := "c0" |}]) catalog_request OpCatalogs eq_refl
    ltac:(vm_compute; reflexivity)).
Defined.

Lemma invalidated_witness :
  answered (md_adapters (MetadataService_new [catalog_adapter] 30)) (ask 5)
    (Catalogs [{| cat_name := "c5" |}]).
Proof.
  exact (invalidated_target_is_fetched_again (λ _, 0)
    (run_calls (λ _, 0) [ask 0] (MetadataService_new [catalog_adapter] 30)) (ask 5)
    (Catalogs [{| cat_name := "c5" |}]) catalog_request OpCatalogs eq_refl
    ltac:(vm_compute; reflexivity)).
Defined.
