(* ===== verification/Service.v ===== *)
(** * The gateway service (crates/qcli-service/src/lib.rs)

    [ServiceState] and the local operations of [GatewayService], each a
    computation on the state that keeps what it changed before an error.  An
    operation takes its [Ambient]: the clock reading and the calendar minute it
    runs at, the process environment, the UUID it draws and what the adapter
    call it makes observes.  The registries share their records: an operation
    on a query goes through its identifier, as the [Arc]s of the source lead to
    the same record.  [spawned] lists the collectors [tokio::spawn] started;
    Collect.v runs them. *)
From S2P Require Import Prelude Text Arrow DriverApi Auth Config Core Cluster Metadata.
From S2P Require Import ServiceData Results.
Import Core.Sessions Core.Queries.

Record Ambient := {
  am_now : Z;
  am_minute : string;
  am_env : string → option string;
  am_uuid : string;
  am_invocation : Invocation;
}.

Section Service.
Context `{ipc : ArrowIpc}.

(** A spawned [collect_query]: the record it fills, the handle it reads, and
    whether it closes the session of a stateless query. *)
Record Task := {
  tk_query : string;
  tk_handle : QueryHandle;
  tk_close_session : bool;
}.

Record ServiceState := {
  st_config : Config;
  st_sessions : SessionManager;
  st_queries : QueryService;
  st_metadata : MetadataService;
  session_owners : gmap string SessionOwner;
  records : gmap string QueryRecord;
  prepared : gmap string PreparedStatementRecord;
  st_limits : ServiceLimits;
  audit_log : list AuditEvent;
  shutting_down : bool;
  disk : FileSystem;
  spawned : list Task;
}.

Definition with_sessions (f : SessionManager → SessionManager) (s : ServiceState) : ServiceState :=
  {| st_config := st_config s; st_sessions := f (st_sessions s);
     st_queries := st_queries s; st_metadata := st_metadata s;
     session_owners := session_owners s; records := records s; prepared := prepared s;
     st_limits := st_limits s; audit_log := audit_log s; shutting_down := shutting_down s;
     disk := disk s; spawned := spawned s |}.
Definition with_queries (f : QueryService → QueryService) (s : ServiceState) : ServiceState :=
  {| st_config := st_config s; st_sessions := st_sessions s;
     st_queries := f (st_queries s); st_metadata := st_metadata s;
     session_owners := session_owners s; records := records s; prepared := prepared s;
     st_limits := st_limits s; audit_log := audit_log s; shutting_down := shutting_down s;
     disk := disk s; spawned := spawned s |}.
Definition with_metadata (f : MetadataService → MetadataService) (s : ServiceState) : ServiceState :=
  {| st_config := st_config s; st_sessions := st_sessions s; st_queries := st_queries s;
     st_metadata := f (st_metadata s); session_owners := session_owners s;
     records := records s; prepared := prepared s; st_limits := st_limits s;
     audit_log := audit_log s; shutting_down := shutting_down s; disk := disk s;
     spawned := spawned s |}.
Definition with_session_owners (f : gmap string SessionOwner → gmap string SessionOwner) (s : ServiceState) : ServiceState :=
  {| st_config := st_config s; st_sessions := st_sessions s; st_queries := st_queries s;
     st_metadata := st_metadata s; session_owners := f (session_owners s);
     records := records s; prepared := prepared s; st_limits := st_limits s;
     audit_log := audit_log s; shutting_down := shutting_down s; disk := disk s;
     spawned := spawned s |}.
Definition with_records (f : gmap string QueryRecord → gmap string QueryRecord) (s : ServiceState) : ServiceState :=
  {| st_config := st_config s; st_sessions := st_sessions s; st_queries := st_queries s;
     st_metadata := st_metadata s; session_owners := session_owners s;
     records := f (records s); prepared := prepared s; st_limits := st_limits s;
     audit_log := audit_log s; shutting_down := shutting_down s; disk := disk s;
     spawned := spawned s |}.
Definition with_prepared (f : gmap string PreparedStatementRecord → gmap string PreparedStatementRecord) (s : ServiceState) : ServiceState :=
  {| st_config := st_config s; st_sessions := st_sessions s; st_queries := st_queries s;
     st_metadata := st_metadata s; session_owners := session_owners s;
     records := records s; prepared := f (prepared s); st_limits := st_limits s;
     audit_log := audit_log s; shutting_down := shutting_down s; disk := disk s;
     spawned := spawned s |}.
Definition with_audit_log (f : list AuditEvent → list AuditEvent) (s : ServiceState) : ServiceState :=
  {| st_config := st_config s; st_sessions := st_sessions s; st_queries := st_queries s;
     st_metadata := st_metadata s; session_owners := session_owners s;
     records := records s; prepared := prepared s; st_limits := st_limits s;
     audit_log := f (audit_log s); shutting_down := shutting_down s; disk := disk s;
     spawned := spawned s |}.
Definition with_shutting_down (f : bool → bool) (s : ServiceState) : ServiceState :=
  {| st_config := st_config s; st_sessions := st_sessions s; st_queries := st_queries s;
     st_metadata := st_metadata s; session_owners := session_owners s;
     records := records s; prepared := prepared s; st_limits := st_limits s;
     audit_log := audit_log s; shutting_down := f (shutting_down s); disk := disk s;
     spawned := spawned s |}.
Definition with_disk (f : FileSystem → FileSystem) (s : ServiceState) : ServiceState :=
  {| st_config := st_config s; st_sessions := st_sessions s; st_queries := st_queries s;
     st_metadata := st_metadata s; session_owners := session_owners s;
     records := records s; prepared := prepared s; st_limits := st_limits s;
     audit_log := audit_log s; shutting_down := shutting_down s; disk := f (disk s);
     spawned := spawned s |}.
Definition with_spawned (f : list Task → list Task) (s : ServiceState) : ServiceState :=
  {| st_config := st_config s; st_sessions := st_sessions s; st_queries := st_queries s;
     st_metadata := st_metadata s; session_owners := session_owners s;
     records := records s; prepared := prepared s; st_limits := st_limits s;
     audit_log := audit_log s; shutting_down := shutting_down s; disk := disk s;
     spawned := f (spawned s) |}.

(** [GatewayService::new]. *)
Definition GatewayService_new (config : Config) (adapters : list EngineAdapter)
    (limits : ServiceLimits) (ids : SessionIdState) (fs : FileSystem) : ServiceState :=
  {| st_config := config; st_sessions := SessionManager_default ids;
     st_queries := QueryService_new adapters 8;
     st_metadata := MetadataService_new adapters (from_secs 30);
     session_owners := ∅; records := ∅; prepared := ∅; st_limits := limits;
     audit_log := []; shutting_down := false; disk := fs; spawned := [] |}.

Abbreviation Service A := (M ServiceState ServiceError A).

(** Calls into the session manager and the query service. *)
Definition in_sessions {A} (m : M SessionManager CoreError A) : Service A :=
  on st_sessions (λ m', with_sessions (λ _, m')) core_error m.
Definition in_queries {A} (m : M QueryService CoreError A) : Service A :=
  on st_queries (λ q, with_queries (λ _, q)) core_error m.

(** ** Auditing, expiry, ownership *)

Definition audit (action outcome : string) (principal : option AuthenticatedPrincipal)
    (target session_id query_id : option string) : Service unit :=
  modify (with_audit_log (λ log, log ++
    [{| ae_action := action; ae_outcome := outcome;
        ae_principal := principal_id <$> principal; ae_target := target;
        ae_session_id := session_id; ae_query_id := query_id |}])).

Definition cancel_if (p : QueryRecord → bool) (r : QueryRecord) : QueryRecord :=
  if p r then cancel_record r else r.

(** Cancel every query of a session. *)
Definition cancel_session_queries (session_id : string) : Service unit :=
  modify (with_records (fmap (cancel_if (λ r, String.eqb (qr_session_id r) session_id)))).

(** The loop body shared by both expiries of [cleanup_expired]. *)
Definition expire_session (outcome : string) (entry : string * string) : Service unit :=
  let '(session_id, principal) := entry in
  _ ← cancel_session_queries session_id;
  _ ← ignore (in_sessions (close session_id));
  _ ← modify (with_session_owners (delete session_id));
  modify (with_audit_log (λ log, log ++
    [{| ae_action := "session.expire"; ae_outcome := outcome;
        ae_principal := Some principal; ae_target := None;
        ae_session_id := Some session_id; ae_query_id := None |}])).

Fixpoint expire_sessions (outcome : string) (entries : list (string * string)) :
    Service unit :=
  match entries with
  | [] => mret tt
  | e :: entries => _ ← expire_session outcome e; expire_sessions outcome entries
  end.

Definition prepared_live (ttl now : Z) (r : PreparedStatementRecord) : bool :=
  duration_since now (pr_last_access r) <? ttl.

(** Sessions to close with the statements that own them. *)
Definition expired_owned (ttl now : Z) (m : gmap string PreparedStatementRecord) :
    list (string * string) :=
  omap (λ kr, if negb (prepared_live ttl now kr.2) && pr_owns_session kr.2
              then Some (pr_session_id kr.2, pr_owner kr.2) else None) (map_to_list m).

Definition record_live (ttl now : Z) (r : QueryRecord) : bool :=
  match qd_completed_at (qr_data r) with
  | None => true
  | Some completed => duration_since now completed <? ttl
  end.

(** [std::fs::remove_file(path).ok()]. *)
Definition remove_file (path : string) (fs : FileSystem) : FileSystem :=
  match disk_fault fs with Some _ => fs | None => set_files (delete path) fs end.

(** [Drop for QueryRecord]: the spill file goes with its record. *)
Definition drop_record (r : QueryRecord) (fs : FileSystem) : FileSystem :=
  match qd_storage (qr_data r) with
  | Spill path _ => remove_file path fs
  | InMemory _ => fs
  end.

Definition drop_expired_records (now : Z) : Service unit :=
  modify (λ s,
    let live := record_live (result_ttl (st_limits s)) now in
    let dropped := retain (λ r, negb (live r)) (records s) in
    with_disk (λ fs, foldr (λ kr fs, drop_record kr.2 fs) fs (map_to_list dropped))
      (with_records (retain live) s)).

Definition session_expired (ttl now : Z) (o : SessionOwner) : bool :=
  ttl <=? duration_since now (so_last_access o).

Definition expired_owners (ttl now : Z) (m : gmap string SessionOwner) :
    list (string * string) :=
  (λ ko, (ko.1, so_principal ko.2)) <$> map_to_list (retain (session_expired ttl now) m).

Definition cleanup_expired (now : Z) : Service unit :=
  s ← get_state;
  let ttl := prepared_statement_ttl (st_limits s) in
  let expired := expired_owned ttl now (prepared s) in
  _ ← modify (with_prepared (retain (prepared_live ttl now)));
  _ ← expire_sessions "prepared_handle_expired" expired;
  _ ← drop_expired_records now;
  s ← get_state;
  let expired := expired_owners (session_ttl (st_limits s)) now (session_owners s) in
  expire_sessions "cancelled_active_queries" expired.

Definition owned_record (principal : AuthenticatedPrincipal) (query_id : string) (now : Z) :
    Service QueryRecord :=
  _ ← cleanup_expired now;
  o ← gets (λ s, records s !! query_id);
  match o with
  | Some record =>
      if String.eqb (qr_owner record) (principal_id principal) then mret record
      else fail query_not_found
  | None => fail query_not_found
  end.

Definition authorized_target (principal : AuthenticatedPrincipal) (name : string) :
    Service ResolvedTarget :=
  if negb (can_use_target principal name) then
    _ ← audit "target.authorize" "denied" (Some principal) (Some name) None None;
    fail (ServiceError_new Forbidden "target_forbidden"
      ("principal is not authorized for target '" +:+ name +:+ "'"))
  else
    o ← gets (λ s, config_target (st_config s) name);
    of_result (ok_or o (ServiceError_new NotFound "target_not_found"
      ("target '" +:+ name +:+ "' does not exist"))).

(** The owner's access time is refreshed. *)
Definition require_session_owner (principal : AuthenticatedPrincipal) (session_id : string)
    (now : Z) : Service unit :=
  o ← gets (λ s, session_owners s !! session_id);
  match o with
  | Some owner =>
      if String.eqb (so_principal owner) (principal_id principal)
      then modify (with_session_owners (<[session_id :=
             {| so_principal := so_principal owner; so_last_access := now |}]>))
      else fail session_not_found
  | None => fail session_not_found
  end.

Definition enforce_session_quota (principal : AuthenticatedPrincipal) : Service unit :=
  count ← gets (λ s, count_values
    (λ o, String.eqb (so_principal o) (principal_id principal)) (session_owners s));
  reject_if (max_sessions principal <=? Z.of_nat count)
    (ServiceError_new ResourceExhausted "session_quota" "principal session quota reached").

Definition is_active (r : QueryRecord) : bool :=
  match qd_completed_at (qr_data r) with None => true | Some _ => false end.

Definition enforce_query_quota (principal : AuthenticatedPrincipal) : Service unit :=
  active ← gets (λ s, count_values
    (λ r, String.eqb (qr_owner r) (principal_id principal) && is_active r) (records s));
  reject_if (max_concurrent_queries principal <=? Z.of_nat active)
    (ServiceError_new ResourceExhausted "query_quota"
       "principal concurrent-query quota reached").

Definition shutting_down_error : ServiceError :=
  ServiceError_new FailedPrecondition "shutting_down" "server is shutting down".

Definition ensure_available : Service unit :=
  b ← gets shutting_down; reject_if b shutting_down_error.

Definition active_query_count (s : ServiceState) : nat := count_values is_active (records s).

Definition cancel_active_queries : Service unit :=
  modify (with_records (fmap (cancel_if is_active))).

Definition begin_shutdown : Service unit :=
  _ ← modify (with_shutting_down (λ _, true)); cancel_active_queries.

(** ** Sessions *)

Definition create_session (principal : AuthenticatedPrincipal) (target_name : string)
    (overrides : gmap string string) (am : Ambient) : Service SessionSnapshot :=
  _ ← ensure_available;
  _ ← cleanup_expired (am_now am);
  _ ← enforce_session_quota principal;
  target ← authorized_target principal target_name;
  snapshot ← in_sessions (create_with_overrides (am_env am) (am_minute am) target overrides);
  _ ← modify (with_session_owners (<[snap_id snapshot :=
        {| so_principal := principal_id principal; so_last_access := am_now am |}]>));
  _ ← audit "session.create" "allowed" (Some principal) (Some (snap_target snapshot))
        (Some (snap_id snapshot)) None;
  mret snapshot.

Definition session (principal : AuthenticatedPrincipal) (session_id : string) (now : Z) :
    Service SessionSnapshot :=
  _ ← require_session_owner principal session_id now;
  in_sessions (snapshot session_id).

Definition update_session (principal : AuthenticatedPrincipal) (session_id : string)
    (expected_version : Z) (overrides : gmap string string) (now : Z) :
    Service SessionSnapshot :=
  _ ← ensure_available;
  _ ← require_session_owner principal session_id now;
  in_sessions (set_options session_id expected_version overrides).

Definition service_switch_target (principal : AuthenticatedPrincipal) (session_id : string)
    (expected_version : Z) (target_name : string) (now : Z) : Service SessionSnapshot :=
  _ ← ensure_available;
  _ ← require_session_owner principal session_id now;
  target ← authorized_target principal target_name;
  in_sessions (switch_target session_id expected_version target).

Definition mutate_session (principal : AuthenticatedPrincipal) (session_id : string)
    (expected_version : Z) (target_name : option string)
    (overrides : gmap string (option string)) (now : Z) : Service SessionSnapshot :=
  _ ← ensure_available;
  _ ← require_session_owner principal session_id now;
  target ← match target_name with
           | Some name => t ← authorized_target principal name; mret (Some t)
           | None => mret None
           end;
  in_sessions (mutate session_id expected_version target overrides).

Definition close_session (principal : AuthenticatedPrincipal) (session_id : string) (now : Z) :
    Service unit :=
  _ ← require_session_owner principal session_id now;
  _ ← cancel_session_queries session_id;
  _ ← in_sessions (close session_id);
  _ ← modify (with_session_owners (delete session_id));
  _ ← modify (with_prepared (retain (λ r, negb (String.eqb (pr_session_id r) session_id))));
  audit "session.delete" "allowed" (Some principal) None (Some session_id) None.

(** ** Metadata requests *)

Definition metadata_request (principal : AuthenticatedPrincipal) (target engine_ : string)
    (properties : gmap string string) (catalog schema pattern : option string) :
    MetadataRequest :=
  {| mr_identity := principal_id principal; mr_target := target; mr_engine := engine_;
     mr_properties := properties; mr_catalog := catalog; mr_schema := schema;
     mr_pattern := pattern |}.

Definition session_metadata_request (principal : AuthenticatedPrincipal) (session_id : string)
    (catalog schema pattern : option string) (now : Z) : Service MetadataRequest :=
  snapshot ← session principal session_id now;
  mret (metadata_request principal (snap_target snapshot) (snap_engine snapshot)
          (snap_properties snapshot) catalog schema pattern).

Definition target_metadata_request (principal : AuthenticatedPrincipal) (name : string)
    (catalog schema pattern : option string) : Service MetadataRequest :=
  target ← authorized_target principal name;
  mret (metadata_request principal (target_name target) (target_engine target)
          (expose <$> target_properties target) catalog schema pattern).

(** ** Queries *)

Definition sql_too_large (limits : ServiceLimits) (sql : string) : bool :=
  is_empty sql || (max_sql_bytes limits <? len sql).

Definition submit_query (principal : AuthenticatedPrincipal) (snap : SessionSnapshot)
    (sql : string) (parameters : option (list RecordBatch)) (close_after : bool)
    (am : Ambient) : Service QueryStatus :=
  _ ← ensure_available;
  limits ← gets st_limits;
  _ ← reject_if (sql_too_large limits sql)
        (ServiceError_new InvalidArgument "invalid_sql_size"
           ("SQL must contain 1..=" +:+ pretty (max_sql_bytes limits) +:+ " bytes"));
  _ ← cleanup_expired (am_now am);
  _ ← enforce_query_quota principal;
  n ← gets (λ s, size (records s));
  _ ← reject_if (max_queries limits <=? Z.of_nat n)
        (ServiceError_new ResourceExhausted "query_limit" "local retained-query limit reached");
  handle ← in_queries
    match parameters with
    | Some parameters => submit_prepared snap sql parameters (am_invocation am)
    | None => submit snap sql (am_invocation am)
    end;
  let record :=
    {| qr_id := "qcli_" +:+ am_uuid am; qr_owner := principal_id principal;
       qr_session_id := snap_id snap; qr_session_version := snap_version snap;
       qr_target := snap_target snap; qr_engine := snap_engine snap;
       qr_cancel := qh_cancellation handle; qr_data := QueryData_submitted |} in
  _ ← modify (with_records (<[qr_id record := record]>));
  _ ← audit "query.submit" "allowed" (Some principal) (Some (snap_target snap))
        (Some (snap_id snap)) (Some (qr_id record));
  _ ← modify (with_spawned (λ l, l ++
        [{| tk_query := qr_id record; tk_handle := handle; tk_close_session := close_after |}]));
  mret (query_status record).

Definition submit_session_query (principal : AuthenticatedPrincipal) (session_id sql : string)
    (am : Ambient) : Service QueryStatus :=
  snap ← session principal session_id (am_now am);
  submit_query principal snap sql None false am.

Definition submit_stateless_query (principal : AuthenticatedPrincipal) (target_name : string)
    (overrides : gmap string string) (sql : string) (am : Ambient) : Service QueryStatus :=
  snap ← create_session principal target_name overrides am;
  r ← attempt (submit_query principal snap sql None true am);
  match r with
  | Ok status => mret status
  | Err error =>
      _ ← ignore (in_sessions (close (snap_id snap)));
      _ ← modify (with_session_owners (delete (snap_id snap)));
      fail error
  end.

Definition query (principal : AuthenticatedPrincipal) (query_id : string) (now : Z) :
    Service QueryStatus :=
  record ← owned_record principal query_id now;
  mret (query_status record).

(** Change the data of a registered query. *)
Definition on_record (query_id : string) (f : QueryData → QueryData) : Service unit :=
  modify (with_records (alter (set_data f) query_id)).

Definition cancel (principal : AuthenticatedPrincipal) (query_id : string) (now : Z) :
    Service QueryStatus :=
  record ← owned_record principal query_id now;
  _ ← modify (with_records (alter cancel_record query_id));
  _ ← audit "query.cancel" "allowed" (Some principal) (Some (qr_target record))
        (Some (qr_session_id record)) (Some (qr_id record));
  let f := push_event "state" (state_json "cancelling") false now in
  _ ← on_record query_id f;
  mret (query_status (set_data f record)).

Definition result_page (principal : AuthenticatedPrincipal) (query_id : string)
    (offset limit now : Z) : Service ResultPage :=
  record ← owned_record principal query_id now;
  fs ← gets disk;
  of_result (page_of_data (qr_data record) fs offset limit).

Definition result_batch_count (principal : AuthenticatedPrincipal) (query_id : string)
    (now : Z) : Service Z :=
  record ← owned_record principal query_id now;
  fs ← gets disk;
  of_result (count_of_data (qr_data record) fs).

Definition result_reader_range (principal : AuthenticatedPrincipal) (query_id : string)
    (skip : Z) (remaining : option Z) (now : Z) : Service ResultBatchReader :=
  record ← owned_record principal query_id now;
  fs ← gets disk;
  of_result (reader_of_data (qr_data record) fs skip remaining).

Definition result_reader (principal : AuthenticatedPrincipal) (query_id : string) (now : Z) :
    Service ResultBatchReader :=
  result_reader_range principal query_id 0 None now.

Definition result_partition_reader (principal : AuthenticatedPrincipal) (query_id : string)
    (partition partitions now : Z) : Service ResultBatchReader :=
  _ ← reject_if ((partitions =? 0) || (partitions <=? partition)) invalid_partition;
  batches ← result_batch_count principal query_id now;
  let start := partition_start batches partition partitions in
  let stop := partition_start batches (usize_add partition 1) partitions in
  result_reader_range principal query_id start (Some (stop - start)) now.

Definition query_schema (principal : AuthenticatedPrincipal) (query_id : string) (now : Z) :
    Service Schema :=
  record ← owned_record principal query_id now;
  of_result (schema_of_data (qr_data record)).

Definition event_history (principal : AuthenticatedPrincipal) (query_id : string)
    (after now : Z) : Service (list ServiceEvent) :=
  record ← owned_record principal query_id now;
  mret (filter (λ e, after < ev_id e) (qd_events (qr_data record))).

(** ** Prepared statements, updates and ingestion *)

Definition adapter_unavailable : ServiceError :=
  ServiceError_new InvalidArgument "adapter_not_found" "adapter capabilities are unavailable".

(** The adapter of an engine must have a capability. *)
Definition require_capability (engine_ : string) (c : AdapterCapability) (missing : ServiceError)
    (message : string) : Service unit :=
  o ← gets (λ s, md_capabilities engine_ (st_metadata s));
  capabilities ← of_result (ok_or o missing);
  reject_if (negb (supports capabilities c))
    (ServiceError_new FailedPrecondition "unsupported_capability" message).

(** The end of [create_prepared_statement], under the lock of the registry. *)
Definition store_prepared (principal : AuthenticatedPrincipal) (session_id sql : string)
    (metadata : PreparedStatementMetadata) (am : Ambient) :
    Service PreparedStatementSnapshot :=
  limits ← gets st_limits;
  n ← gets (λ s, size (prepared s));
  _ ← reject_if (max_prepared_statements limits <=? Z.of_nat n)
        (ServiceError_new ResourceExhausted "prepared_limit" "prepared statement limit reached");
  let handle := am_uuid am in
  let record :=
    {| pr_owner := principal_id principal; pr_session_id := session_id;
       pr_owns_session := false; pr_sql := sql;
       pr_dataset_schema := dataset_schema metadata;
       pr_parameter_schema := parameter_schema metadata; pr_parameters := [];
       pr_last_access := am_now am |} in
  _ ← modify (with_prepared (<[handle := record]>));
  mret (prepared_snapshot handle record).

Definition create_prepared_statement (principal : AuthenticatedPrincipal)
    (session_id sql : string) (am : Ambient) : Service PreparedStatementSnapshot :=
  _ ← ensure_available;
  limits ← gets st_limits;
  _ ← reject_if (sql_too_large limits sql)
        (ServiceError_new InvalidArgument "invalid_sql_size" "prepared SQL has an invalid size");
  snap ← session principal session_id (am_now am);
  _ ← require_capability (snap_engine snap) PreparedStatements adapter_unavailable
        "prepared statements are not supported by this adapter";
  metadata ← in_queries (query_prepare snap sql (am_invocation am));
  _ ← cleanup_expired (am_now am);
  store_prepared principal session_id sql metadata am.

Definition own_session (r : PreparedStatementRecord) : PreparedStatementRecord :=
  {| pr_owner := pr_owner r; pr_session_id := pr_session_id r; pr_owns_session := true;
     pr_sql := pr_sql r; pr_dataset_schema := pr_dataset_schema r;
     pr_parameter_schema := pr_parameter_schema r; pr_parameters := pr_parameters r;
     pr_last_access := pr_last_access r |}.

Definition create_stateless_prepared_statement (principal : AuthenticatedPrincipal)
    (target_name sql : string) (am : Ambient) : Service PreparedStatementSnapshot :=
  snap ← create_session principal target_name ∅ am;
  r ← attempt (create_prepared_statement principal (snap_id snap) sql am);
  match r with
  | Ok statement =>
      _ ← modify (with_prepared (alter own_session (ps_handle statement)));
      mret statement
  | Err error =>
      _ ← ignore (close_session principal (snap_id snap) (am_now am));
      fail error
  end.

(** [get_mut(handle).filter(|record| record.owner == principal.id)]. *)
Definition owned_prepared (principal : AuthenticatedPrincipal) (handle : string) :
    Service PreparedStatementRecord :=
  o ← gets (λ s, prepared s !! handle);
  match o with
  | Some r => if String.eqb (pr_owner r) (principal_id principal) then mret r
              else fail prepared_not_found
  | None => fail prepared_not_found
  end.

Definition bound (parameters : list RecordBatch) (now : Z) (r : PreparedStatementRecord) :
    PreparedStatementRecord :=
  {| pr_owner := pr_owner r; pr_session_id := pr_session_id r;
     pr_owns_session := pr_owns_session r; pr_sql := pr_sql r;
     pr_dataset_schema := pr_dataset_schema r;
     pr_parameter_schema := match parameters with
                            | [] => schema_empty
                            | b :: _ => batch_schema b
                            end;
     pr_parameters := parameters; pr_last_access := now |}.

Definition mixed_schemas (parameters : list RecordBatch) : bool :=
  match parameters with
  | [] => false
  | first :: _ =>
      existsb (λ b, negb (bool_decide (batch_schema b = batch_schema first))) parameters
  end.

Definition bind_prepared_statement (principal : AuthenticatedPrincipal) (handle : string)
    (parameters : list RecordBatch) (now : Z) : Service PreparedStatementSnapshot :=
  _ ← cleanup_expired now;
  record ← owned_prepared principal handle;
  snap ← session principal (pr_session_id record) now;
  _ ← require_capability (snap_engine snap) TypedParameters prepared_not_found
        "native typed parameter binding is not supported by this adapter";
  _ ← reject_if (mixed_schemas parameters)
        (ServiceError_new InvalidArgument "parameter_schema_mismatch"
           "all parameter batches must have the same Arrow schema");
  let record := bound parameters now record in
  _ ← modify (with_prepared (<[handle := record]>));
  mret (prepared_snapshot handle record).

Definition touched (now : Z) (r : PreparedStatementRecord) : PreparedStatementRecord :=
  {| pr_owner := pr_owner r; pr_session_id := pr_session_id r;
     pr_owns_session := pr_owns_session r; pr_sql := pr_sql r;
     pr_dataset_schema := pr_dataset_schema r;
     pr_parameter_schema := pr_parameter_schema r; pr_parameters := pr_parameters r;
     pr_last_access := now |}.

Definition prepared_statement (principal : AuthenticatedPrincipal) (handle : string) (now : Z) :
    Service PreparedStatementSnapshot :=
  _ ← cleanup_expired now;
  record ← owned_prepared principal handle;
  _ ← modify (with_prepared (<[handle := touched now record]>));
  mret (prepared_snapshot handle (touched now record)).

Definition execute_prepared_statement (principal : AuthenticatedPrincipal) (handle : string)
    (am : Ambient) : Service QueryStatus :=
  statement ← prepared_statement principal handle (am_now am);
  snap ← session principal (ps_session_id statement) (am_now am);
  submit_query principal snap (ps_sql statement) (Some (ps_parameters statement)) false am.

Definition service_execute_prepared_update (principal : AuthenticatedPrincipal)
    (handle : string) (am : Ambient) : Service Z :=
  statement ← prepared_statement principal handle (am_now am);
  snap ← session principal (ps_session_id statement) (am_now am);
  in_queries (query_execute_prepared_update snap (ps_sql statement) (ps_parameters statement)
                (am_invocation am)).

Definition execute_session_update (principal : AuthenticatedPrincipal)
    (session_id sql : string) (am : Ambient) : Service Z :=
  snap ← session principal session_id (am_now am);
  in_queries (query_execute_update snap sql (am_invocation am)).

Definition service_ingest (principal : AuthenticatedPrincipal) (session_id : string)
    (request : IngestRequest) (batches : list RecordBatch) (am : Ambient) : Service Z :=
  _ ← ensure_available;
  _ ← reject_if (is_empty (trim (ig_table request)) || (1024 <? len (ig_table request)))
        (ServiceError_new InvalidArgument "invalid_ingest_table"
           "ingestion table must contain between 1 and 1024 bytes");
  snap ← session principal session_id (am_now am);
  _ ← require_capability (snap_engine snap) BulkIngest adapter_unavailable
        "Arrow bulk ingestion is not supported by this adapter";
  let target := snap_target snap in
  _ ← audit "ingest.start" "allowed" (Some principal) (Some target) (Some session_id) None;
  r ← attempt (in_queries (query_ingest snap request batches (am_invocation am)));
  _ ← audit "ingest.finish" (if is_ok r then "allowed" else "failed") (Some principal)
        (Some target) (Some session_id) None;
  of_result r.

Definition close_prepared_statement (principal : AuthenticatedPrincipal) (handle : string)
    (now : Z) : Service unit :=
  record ← owned_prepared principal handle;
  _ ← modify (with_prepared (delete handle));
  if pr_owns_session record then close_session principal (pr_session_id record) now
  else mret tt.
End Service.
