(* ===== verification/ServiceSpec.v ===== *)
(** * What an operation of a principal may do

    [step] lists the changes an operation on behalf of a principal can make to
    the service's state, with the right that each of them needs: its own
    session, its own query, a target it may use, room in its quota.  Every
    operation of Service.v is a sequence of such steps ([run_op_steps]), so an
    invariant of the gateway is proved once per step and not once per
    operation. *)
From S2P Require Import Prelude Text Arrow DriverApi Auth Config Core CoreFacts Cluster.
From S2P Require Import Metadata ServiceData Results Service.
Import Core.Sessions Core.Queries.

Section ServiceSpec.
Context `{ipc : ArrowIpc}.
Implicit Types s : ServiceState.

(** The public operations. *)
Inductive ServiceOp :=
| OCreateSession (target : string) (overrides : gmap string string)
| OSession (id : string)
| OUpdateSession (id : string) (version_ : Z) (overrides : gmap string string)
| OSwitchTarget (id : string) (version_ : Z) (target : string)
| OMutateSession (id : string) (version_ : Z) (target : option string)
    (overrides : gmap string (option string))
| OCloseSession (id : string)
| OSessionMetadata (id : string) (catalog schema pattern : option string)
| OTargetMetadata (target : string) (catalog schema pattern : option string)
| OSubmitSession (id sql : string)
| OSubmitStateless (target : string) (overrides : gmap string string) (sql : string)
| OQuery (id : string)
| OCancel (id : string)
| OResultPage (id : string) (offset limit : Z)
| OBatchCount (id : string)
| OReader (id : string)
| OPartition (id : string) (partition partitions : Z)
| OSchema (id : string)
| OEvents (id : string) (after : Z)
| OCreatePrepared (id sql : string)
| OCreateStatelessPrepared (target sql : string)
| OBind (handle : string) (parameters : list RecordBatch)
| OPrepared (handle : string)
| OExecutePrepared (handle : string)
| OExecutePreparedUpdate (handle : string)
| OSessionUpdate (id sql : string)
| OIngest (id : string) (request : IngestRequest) (batches : list RecordBatch)
| OClosePrepared (handle : string)
| OCleanup
| OShutdown.

(** The state an operation leaves. *)
Definition run_op (o : ServiceOp) (p : AuthenticatedPrincipal) (am : Ambient)
    (s : ServiceState) : ServiceState :=
  let now := am_now am in
  match o with
  | OCreateSession t ov => (create_session p t ov am s).2
  | OSession id => (session p id now s).2
  | OUpdateSession id v ov => (update_session p id v ov now s).2
  | OSwitchTarget id v t => (service_switch_target p id v t now s).2
  | OMutateSession id v t ov => (mutate_session p id v t ov now s).2
  | OCloseSession id => (close_session p id now s).2
  | OSessionMetadata id c sc pt => (session_metadata_request p id c sc pt now s).2
  | OTargetMetadata t c sc pt => (target_metadata_request p t c sc pt s).2
  | OSubmitSession id sql => (submit_session_query p id sql am s).2
  | OSubmitStateless t ov sql => (submit_stateless_query p t ov sql am s).2
  | OQuery id => (query p id now s).2
  | OCancel id => (cancel p id now s).2
  | OResultPage id off lim => (result_page p id off lim now s).2
  | OBatchCount id => (result_batch_count p id now s).2
  | OReader id => (result_reader p id now s).2
  | OPartition id i n => (result_partition_reader p id i n now s).2
  | OSchema id => (query_schema p id now s).2
  | OEvents id after => (event_history p id after now s).2
  | OCreatePrepared id sql => (create_prepared_statement p id sql am s).2
  | OCreateStatelessPrepared t sql => (create_stateless_prepared_statement p t sql am s).2
  | OBind h ps => (bind_prepared_statement p h ps now s).2
  | OPrepared h => (prepared_statement p h now s).2
  | OExecutePrepared h => (execute_prepared_statement p h am s).2
  | OExecutePreparedUpdate h => (service_execute_prepared_update p h am s).2
  | OSessionUpdate id sql => (execute_session_update p id sql am s).2
  | OIngest id r bs => (service_ingest p id r bs am s).2
  | OClosePrepared h => (close_prepared_statement p h now s).2
  | OCleanup => (cleanup_expired now s).2
  | OShutdown => (begin_shutdown s).2
  end.

(** [p] owns the session. *)
Definition owns_session (p : AuthenticatedPrincipal) (id : string) s : Prop :=
  ∃ o, session_owners s !! id = Some o ∧ so_principal o = principal_id p.

(** [t] is a configured target [p] may use. *)
Definition usable_target (p : AuthenticatedPrincipal) (t : ResolvedTarget) s : Prop :=
  ∃ name, can_use_target p name = true ∧ config_target (st_config s) name = Some t.

Definition owner_now (p : AuthenticatedPrincipal) (am : Ambient) : SessionOwner :=
  {| so_principal := principal_id p; so_last_access := am_now am |}.

(** A session with its owner removed. *)
Definition without_session (id : string) s : ServiceState :=
  with_session_owners (delete id) (with_sessions (set_sessions (delete id)) s).

(** [p] may end the session now: its owning statement has expired, it is a
    session of [p], or it is idle for too long. *)
Definition may_end (p : AuthenticatedPrincipal) (am : Ambient) (doomed : gset string)
    (id : string) s : Prop :=
  id ∈ doomed ∨
  ∀ o, session_owners s !! id = Some o →
    so_principal o = principal_id p ∨
    session_expired (session_ttl (st_limits s)) (am_now am) o = true.

(** [p] may forget the prepared statement now. *)
Definition may_forget (p : AuthenticatedPrincipal) (am : Ambient)
    (r : PreparedStatementRecord) s : Prop :=
  prepared_live (prepared_statement_ttl (st_limits s)) (am_now am) r = false ∨
  pr_owner r = principal_id p ∨ owns_session p (pr_session_id r) s.

(** The changes an operation of [p] can make.  [doomed] are the sessions whose
    owning prepared statement has expired. *)
Inductive step (p : AuthenticatedPrincipal) (am : Ambient) (doomed : gset string) :
    ServiceState → ServiceState → Prop :=
| step_audit e s :
    step p am doomed s (with_audit_log (λ log, log ++ [e]) s)
| step_draw_id q s (Hadapters : adapters q = adapters (st_queries s)) :
    step p am doomed s (with_queries (λ _, q) s)
| step_shut_down s :
    step p am doomed s (with_shutting_down (λ _, true) s)
| step_cancel_all s (Hshut : shutting_down s = true) :
    step p am doomed s (with_records (fmap (cancel_if is_active)) s)
| step_cancel_session id s (Hend : may_end p am doomed id s) :
    step p am doomed s
      (with_records (fmap (cancel_if (λ r, String.eqb (qr_session_id r) id))) s)
| step_drop_expired s :
    step p am doomed s (drop_expired_records (am_now am) s).2
| step_end_session id s (Hend : may_end p am doomed id s) :
    step p am doomed s (without_session id s)
| step_touch_session id s (Hown : owns_session p id s) :
    step p am doomed s (with_session_owners (<[id := owner_now p am]>) s)
| step_create_session t ov id ids' s
    (Hroom : Z.of_nat (count_values (λ o, String.eqb (so_principal o) (principal_id p))
                         (session_owners s)) < max_sessions p)
    (Htarget : usable_target p t s) (Hopen : shutting_down s = false)
    (Hid : next_session_id (session_username (am_env am) t) (am_minute am)
             (ids (st_sessions s)) = (id, ids')) :
    step p am doomed s
      (with_session_owners (<[id := owner_now p am]>)
         (with_sessions (λ m, set_sessions (<[id := {| session_id := id; session_version := 1;
            session_target := t; session_overrides := ov |}]>) (set_ids ids' m)) s))
| step_change_session id old new s
    (Hown : owns_session p id s) (Hopen : shutting_down s = false)
    (Hold : sessions (st_sessions s) !! id = Some old)
    (Hsame : session_id new = session_id old)
    (Hversion : session_version new = u64_add (session_version old) 1)
    (Htarget : session_target new = session_target old ∨
               usable_target p (session_target new) s) :
    step p am doomed s (with_sessions (set_sessions (<[id := new]>)) s)
| step_cancel_own id r s (Hrecord : records s !! id = Some r)
    (Hown : qr_owner r = principal_id p) :
    step p am doomed s
      (with_records (alter (set_data (push_event "state" (state_json "cancelling") false
                                        (am_now am))) id) s)
| step_cancel_flag id s
    (Hown : ∃ r, records s !! id = Some r ∧ qr_owner r = principal_id p) :
    step p am doomed s (with_records (alter cancel_record id) s)
| step_forget_prepared m s (Hsub : m ⊆ prepared s)
    (Hforget : ∀ h r, prepared s !! h = Some r → m !! h = None → may_forget p am r s) :
    step p am doomed s (with_prepared (λ _, m) s)
| step_new_prepared r s
    (Hopen : shutting_down s = false)
    (Hroom : Z.of_nat (size (prepared s)) < max_prepared_statements (st_limits s))
    (Hown : pr_owner r = principal_id p) (Hnow : pr_last_access r = am_now am)
    (Hfree : pr_owns_session r = false) :
    step p am doomed s (with_prepared (<[am_uuid am := r]>) s)
| step_change_prepared h old new s
    (Hold : prepared s !! h = Some old) (Hown : pr_owner old = principal_id p)
    (Hsame : pr_owner new = pr_owner old) (Hsession : pr_session_id new = pr_session_id old)
    (Hnow : pr_last_access new = am_now am) :
    step p am doomed s (with_prepared (<[h := new]>) s)
| step_discover md s (Hmd : md_adapters md = md_adapters (st_metadata s)) :
    step p am doomed s (with_metadata (λ _, md) s).

(** The registration of a new query of [p] under the fresh identifier of the
    operation, within the quota of [p] and the limit of the service. *)
Inductive register (p : AuthenticatedPrincipal) (am : Ambient) :
    ServiceState → ServiceState → Prop :=
| register_query r h close_after s
    (Hopen : shutting_down s = false) (Hid : qr_id r = "qcli_" +:+ am_uuid am)
    (Hown : qr_owner r = principal_id p) (Hdata : qr_data r = QueryData_submitted)
    (Hquota : Z.of_nat (count_values
       (λ r, String.eqb (qr_owner r) (principal_id p) && is_active r) (records s))
       < max_concurrent_queries p)
    (Hroom : Z.of_nat (size (records s)) < max_queries (st_limits s)) :
    register p am s
      (with_spawned (λ l, l ++ [{| tk_query := qr_id r; tk_handle := h;
                                   tk_close_session := close_after |}])
         (with_records (<[qr_id r := r]>) s)).

(** ** Operations are sequences of steps *)

Section Refinement.
Context (p : AuthenticatedPrincipal) (am : Ambient) (doomed : gset string).
Abbreviation steps := (rtc (step p am doomed)).

(** The session of every expired statement that owns one is doomed. *)
Definition pending s : Prop :=
  0 < prepared_statement_ttl (st_limits s) ∧
  ∀ h r, prepared s !! h = Some r →
    prepared_live (prepared_statement_ttl (st_limits s)) (am_now am) r = false →
    pr_owns_session r = true → pr_session_id r ∈ doomed.

Lemma live_now ttl r :
  0 < ttl → pr_last_access r = am_now am → prepared_live ttl (am_now am) r = true.
Proof. intros ? Hr. unfold prepared_live, duration_since. rewrite Hr. lia. Qed.

Lemma step_static s s' : step p am doomed s s' → st_limits s' = st_limits s ∧ st_config s' = st_config s.
Proof. by destruct 1. Qed.

Lemma step_pending s s' : step p am doomed s s' → pending s → pending s'.
Proof.
  intros Hs [Httl Hp]. split; [by rewrite (proj1 (step_static _ _ Hs))|].
  destruct Hs; simpl in *; try exact Hp; intros h' r' Hr' Hlive Howns.
  - apply (lookup_weaken _ (prepared s)) in Hr'; eauto.
  - apply lookup_insert_Some in Hr' as [[_ <-]|[_ Hr']]; [|eauto].
    by rewrite live_now in Hlive.
  - apply lookup_insert_Some in Hr' as [[_ <-]|[_ Hr']]; [|eauto].
    by rewrite live_now in Hlive.
Qed.

Lemma steps_static s s' : steps s s' → st_limits s' = st_limits s ∧ st_config s' = st_config s.
Proof.
  induction 1 as [|s1 s2 s3 H1 _ [IHl IHc]]; [done|].
  apply step_static in H1 as [Hl Hc]. by rewrite IHl, IHc, Hl, Hc.
Qed.

Lemma steps_pending s s' : steps s s' → pending s → pending s'.
Proof. induction 1 as [|s1 s2 s3 H1 _ IH]; eauto using step_pending. Qed.

(** Steps, among which at most one query is registered. *)
Definition evolution s s' : Prop :=
  ∃ s1, steps s s1 ∧ (s' = s1 ∨ ∃ s2, register p am s1 s2 ∧ steps s2 s').

Lemma steps_evolution s s' : steps s s' → evolution s s'.
Proof. intros Hs. exists s'. auto. Qed.

Lemma steps_then_evolution s s1 s2 : steps s s1 → evolution s1 s2 → evolution s s2.
Proof. intros H1 (s3 & H3 & H4). exists s3. split; [by etrans|done]. Qed.

Lemma evolution_then_steps s s1 s2 : evolution s s1 → steps s1 s2 → evolution s s2.
Proof.
  intros (s3 & H3 & [->|(s4 & Hr & H4)]) H2.
  - apply steps_evolution. by etrans.
  - exists s3. split; [done|]. right. exists s4. split; [done|]. by etrans.
Qed.

(** What every step and a registration preserve, an operation preserves. *)
Lemma evolution_invariant (I : ServiceState → Prop) s s' :
  (∀ s s', step p am doomed s s' → I s → I s') →
  (∀ s s', register p am s s' → I s → I s') →
  evolution s s' → I s → I s'.
Proof.
  intros Hstep Hreg (s1 & H1 & Hrest) Hi.
  assert (∀ a b, steps a b → I a → I b) as Hsteps by (induction 1; eauto).
  destruct Hrest as [->|(s2 & Hr & H2)]; eauto.
Qed.

(** A computation whose effect is a sequence of steps. *)
Definition evolves {A} (m : M ServiceState ServiceError A) : Prop :=
  ∀ s, pending s → steps s (m s).2.

Lemma evolves_bind {A B} (m : M ServiceState ServiceError A) (f : A → M ServiceState ServiceError B) :
  evolves m → (∀ a, evolves (f a)) → evolves (mbind f m).
Proof.
  intros Hm Hf s Hs. unfold mbind, M_bind. pose proof (Hm s Hs) as Hstep.
  destruct (m s) as [[a|e] s1]; simpl in *; [|done].
  etrans; [exact Hstep|]. apply Hf. by eapply steps_pending.
Qed.

Lemma evolves_step (m : M ServiceState ServiceError unit) :
  (∀ s, pending s → step p am doomed s (m s).2) → evolves m.
Proof. intros Hm s Hs. by apply rtc_once, Hm. Qed.

(** Computations that change nothing. *)
Definition quiet {A} (m : M ServiceState ServiceError A) : Prop := ∀ s, (m s).2 = s.

Lemma quiet_evolves {A} (m : M ServiceState ServiceError A) : quiet m → evolves m.
Proof. intros Hq s _. by rewrite Hq. Qed.

Lemma evolves_ret {A} (a : A) : evolves (mret a).
Proof. by apply quiet_evolves. Qed.
Lemma evolves_fail {A} e : evolves (A:=A) (fail e).
Proof. by apply quiet_evolves. Qed.
Lemma evolves_gets {A} (f : ServiceState → A) : evolves (gets f).
Proof. by apply quiet_evolves. Qed.
Lemma evolves_get_state : evolves get_state.
Proof. by apply quiet_evolves. Qed.
Lemma evolves_of_result {A} (r : result A ServiceError) : evolves (of_result r).
Proof. by apply quiet_evolves. Qed.
Lemma evolves_reject_if b e : evolves (reject_if b e).
Proof. apply quiet_evolves. by destruct b. Qed.
Lemma evolves_if {A} (b : bool) (m1 m2 : M ServiceState ServiceError A) :
  evolves m1 → evolves m2 → evolves (if b then m1 else m2).
Proof. by destruct b. Qed.
Lemma evolves_attempt {A} (m : M ServiceState ServiceError A) : evolves m → evolves (attempt m).
Proof. intros Hm s Hs. unfold attempt. specialize (Hm s Hs). by destruct (m s). Qed.
Lemma evolves_ignore {A} (m : M ServiceState ServiceError A) : evolves m → evolves (ignore m).
Proof. intros Hm s Hs. by apply Hm. Qed.

Lemma evolves_audit a o pr t se q : evolves (audit a o pr t se q).
Proof. apply evolves_step. intros s _. apply step_audit. Qed.

Lemma evolves_ensure : evolves ensure_available.
Proof. apply quiet_evolves. intros s. unfold ensure_available. unfold_M. by destruct (shutting_down s). Qed.

(** *** Expiry *)

Lemma close_state id m : (close id m).2 = set_sessions (delete id) m.
Proof.
  unfold close. unfold_M. simpl. destruct (sessions m !! id) eqn:E; simpl; [done|].
  unfold set_sessions. rewrite delete_id by done. by destruct m.
Qed.

Lemma expire_session_state out id q s :
  (expire_session out (id, q) s).2
  = with_audit_log (λ log, log ++
      [{| ae_action := "session.expire"; ae_outcome := out; ae_principal := Some q;
          ae_target := None; ae_session_id := Some id; ae_query_id := None |}])
      (without_session id
         (with_records (fmap (cancel_if (λ r, String.eqb (qr_session_id r) id))) s)).
Proof.
  unfold expire_session, cancel_session_queries, in_sessions. unfold_M. simpl.
  pose proof (close_state id (st_sessions s)) as Hc.
  destruct (close id (st_sessions s)) as [r m]. simpl in *. by rewrite Hc.
Qed.

Lemma expire_session_ok out e s : (expire_session out e s).1 = Ok tt.
Proof. by destruct e. Qed.

Abbreviation may_end := (may_end p am doomed).

Lemma expire_session_steps out e s : may_end e.1 s → steps s (expire_session out e s).2.
Proof.
  destruct e as [id q]. cbn [fst]. intros Hend. rewrite expire_session_state.
  eapply rtc_l; [by apply step_cancel_session|]. eapply rtc_l; [by apply step_end_session|].
  apply rtc_once, step_audit.
Qed.

Lemma expire_sessions_state out entries : ∀ s,
  (expire_sessions out entries s).1 = Ok tt ∧
  (expire_sessions out entries s).2 = foldl (λ s e, (expire_session out e s).2) s entries.
Proof.
  induction entries as [|e entries IH]; intros s; [done|]. simpl.
  unfold mbind, M_bind. pose proof (expire_session_ok out e s).
  destruct (expire_session out e s) as [r s1]. simpl in *. subst r. apply IH.
Qed.

Lemma expire_sessions_steps out entries : ∀ s,
  (∀ e, e ∈ entries → may_end e.1 s) → steps s (expire_sessions out entries s).2.
Proof.
  intros s. rewrite (proj2 (expire_sessions_state out entries s)). revert s.
  induction entries as [|[id q] entries IH]; intros s Hend; [done|]. cbn [foldl].
  etrans; [apply (expire_session_steps out (id, q)), Hend; set_solver|].
  apply IH. intros [id' q'] Hin. rewrite expire_session_state.
  destruct (Hend (id', q')) as [?|Ho]; [set_solver|by left|]. right. intros o. simpl.
  intros [_ Hl]%lookup_delete_Some. auto.
Qed.

Lemma expired_owned_doomed s e :
  pending s →
  e ∈ expired_owned (prepared_statement_ttl (st_limits s)) (am_now am) (prepared s) →
  e.1 ∈ doomed.
Proof.
  intros [_ Hp]. unfold expired_owned. rewrite list_elem_of_omap.
  intros ([h r] & Hin%elem_of_map_to_list & He). simpl in He.
  destruct (prepared_live _ _ r) eqn:El; [done|].
  destruct (pr_owns_session r) eqn:Eo; [|done]. simpl in He. simplify_eq. eauto.
Qed.

Lemma expired_owners_end s e :
  e ∈ expired_owners (session_ttl (st_limits s)) (am_now am) (session_owners s) → may_end e.1 s.
Proof.
  unfold expired_owners. rewrite list_elem_of_fmap.
  intros ([id o] & -> & Hin%elem_of_map_to_list). apply retain_Some in Hin as [Ho Hx].
  right. intros o' Ho'. simpl in Ho'. simplify_eq. auto.
Qed.

Lemma evolves_cleanup : evolves (cleanup_expired (am_now am)).
Proof.
  intros s Hs. unfold cleanup_expired. unfold mbind, M_bind, get_state, gets, modify.
  set (live := prepared_live (prepared_statement_ttl (st_limits s)) (am_now am)).
  set (s1 := with_prepared (retain live) s).
  assert (steps s s1) as H1.
  { apply rtc_once. apply (step_forget_prepared p am doomed (retain live (prepared s)) s).
    - apply retain_subseteq.
    - intros h r Hr Hn. left. rewrite retain_lookup, Hr in Hn.
      fold live. by destruct (live r). }
  set (l := expired_owned _ _ _).
  pose proof (expire_sessions_state "prepared_handle_expired" l s1) as [Hok _].
  assert (steps s1 (expire_sessions "prepared_handle_expired" l s1).2) as H2.
  { apply expire_sessions_steps. intros e He. left. by eapply expired_owned_doomed. }
  destruct (expire_sessions _ l s1) as [r s2]. simpl in Hok, H2. subst r.
  assert (steps s2 (drop_expired_records (am_now am) s2).2) as H3
    by apply rtc_once, step_drop_expired.
  unfold drop_expired_records, modify in *. simpl in H3.
  match goal with |- steps _ (expire_sessions _ _ ?s3).2 => set (s3' := s3) in * end.
  etrans; [exact H1|]. etrans; [exact H2|]. etrans; [exact H3|].
  apply expire_sessions_steps, expired_owners_end.
Qed.

Lemma expire_sessions_open out entries : ∀ s,
  shutting_down (expire_sessions out entries s).2 = shutting_down s.
Proof.
  intros s. rewrite (proj2 (expire_sessions_state out entries s)). revert s.
  induction entries as [|[id q] entries IH]; intros s; [done|]. cbn [foldl].
  rewrite IH, expire_session_state. done.
Qed.

(** Cleaning up always succeeds and never shuts the service down. *)
Lemma cleanup_ok now s :
  (cleanup_expired now s).1 = Ok tt ∧
  shutting_down (cleanup_expired now s).2 = shutting_down s.
Proof.
  unfold cleanup_expired. unfold mbind, M_bind, get_state, gets, modify.
  set (s1 := with_prepared _ s). set (l := expired_owned _ _ _).
  pose proof (expire_sessions_state "prepared_handle_expired" l s1) as [Hok _].
  pose proof (expire_sessions_open "prepared_handle_expired" l s1) as Hsd.
  destruct (expire_sessions _ l s1) as [r s2]. simpl in Hok, Hsd. subst r.
  unfold drop_expired_records, modify.
  match goal with |- (expire_sessions _ ?k ?s3).1 = _ ∧ _ =>
    destruct (expire_sessions_state "cancelled_active_queries" k s3) as [-> _];
    rewrite (expire_sessions_open "cancelled_active_queries" k s3)
  end. done.
Qed.

(** *** Guards *)

Lemma require_session_owner_spec id s :
  (owns_session p id s ∧
   require_session_owner p id (am_now am) s
   = (Ok tt, with_session_owners (<[id := owner_now p am]>) s)) ∨
  require_session_owner p id (am_now am) s = (Err session_not_found, s).
Proof.
  unfold require_session_owner. unfold_M. simpl.
  destruct (session_owners s !! id) as [o|] eqn:Eo; simpl; [|by right].
  destruct (String.eqb_spec (so_principal o) (principal_id p)) as [Hp|]; [|by right].
  left. split; [by exists o|]. unfold owner_now. by rewrite <- Hp.
Qed.

Lemma evolves_require id : evolves (require_session_owner p id (am_now am)).
Proof.
  intros s _. destruct (require_session_owner_spec id s) as [[Ho ->]| ->]; [|done].
  by apply rtc_once, step_touch_session.
Qed.

Lemma owns_touched id s : owns_session p id (with_session_owners (<[id := owner_now p am]>) s).
Proof. exists (owner_now p am). simpl. by rewrite lookup_insert_eq. Qed.

Lemma authorized_target_spec name s :
  (∃ t, usable_target p t s ∧ authorized_target p name s = (Ok t, s)) ∨
  (∃ e, (authorized_target p name s).1 = Err e ∧ steps s (authorized_target p name s).2).
Proof.
  unfold authorized_target. destruct (can_use_target p name) eqn:Ec; simpl.
  - unfold_M. destruct (config_target (st_config s) name) as [t|] eqn:Et; simpl.
    + left. exists t. split; [by exists name|done].
    + right. eauto using rtc_refl.
  - right. unfold_M. simpl. eexists. split; [done|]. apply rtc_once, step_audit.
Qed.

Lemma evolves_authorized name : evolves (authorized_target p name).
Proof.
  intros s _. destruct (authorized_target_spec name s) as [(t & _ & ->)|(e & _ & Hs)]; done.
Qed.

(** *** Sessions *)

Lemma evolves_session id : evolves (session p id (am_now am)).
Proof.
  apply evolves_bind; [apply evolves_require|]. intros _. apply quiet_evolves. intros s.
  unfold in_sessions, snapshot. unfold_M. by destruct s.
Qed.

(** A mutation of an own session of a running service. *)
Lemma mutation_steps id v u s :
  owns_session p id s → shutting_down s = false →
  (∀ t, match u with
        | SwitchTarget t' => t = t'
        | Mutate (Some t') _ => t = t'
        | _ => False
        end → usable_target p t s) →
  steps s (in_sessions (run_mutation id v u) s).2.
Proof.
  intros Hown Hsd Ht. unfold in_sessions, on.
  rewrite run_mutation_cas. unfold compare_and_swap.
  assert (with_sessions (λ _, st_sessions s) s = s) as Hid by by destruct s.
  destruct (sessions (st_sessions s) !! id) as [old|] eqn:E; simpl; [|by rewrite Hid].
  destruct (_ =? _); simpl; [|by rewrite Hid].
  apply rtc_once.
  apply (step_change_session p am doomed id old (mutated u old) s); try done.
  - by destruct u.
  - apply mutated_version.
  - destruct u as [| |t|[t|]]; simpl; auto.
Qed.

Lemma evolves_update id v ov : evolves (update_session p id v ov (am_now am)).
Proof.
  intros s _. unfold update_session, ensure_available. unfold_M.
  destruct (shutting_down s) eqn:Esd; [done|]. simpl.
  destruct (require_session_owner_spec id s) as [[Ho E]|E]; rewrite E; [|done].
  eapply rtc_l; [by apply step_touch_session|].
  apply (mutation_steps id v (SetOptions ov)); [apply owns_touched|done|done].
Qed.

Lemma evolves_switch id v name : evolves (service_switch_target p id v name (am_now am)).
Proof.
  intros s _. unfold service_switch_target, ensure_available. unfold_M.
  destruct (shutting_down s) eqn:Esd; [done|]. simpl.
  destruct (require_session_owner_spec id s) as [[Ho E]|E]; rewrite E; [|done].
  eapply rtc_l; [by apply step_touch_session|]. set (s1 := with_session_owners _ s).
  destruct (authorized_target_spec name s1) as [(t & Ht & Ea)|(e & Ee & Hst)].
  - rewrite Ea. apply (mutation_steps id v (SwitchTarget t)); [apply owns_touched|done|].
    by intros t' ->.
  - destruct (authorized_target p name s1) as [r s2]. simpl in *. by subst r.
Qed.

Lemma evolves_mutate id v t ov : evolves (mutate_session p id v t ov (am_now am)).
Proof.
  intros s _. unfold mutate_session, ensure_available. unfold_M.
  destruct (shutting_down s) eqn:Esd; [done|]. simpl.
  destruct (require_session_owner_spec id s) as [[Ho E]|E]; rewrite E; [|done].
  eapply rtc_l; [by apply step_touch_session|]. set (s1 := with_session_owners _ s).
  destruct t as [name|].
  - destruct (authorized_target_spec name s1) as [(t & Ht & Ea)|(e & Ee & Hst)].
    + rewrite Ea. apply (mutation_steps id v (Mutate (Some t) ov)); [apply owns_touched|done|].
      by intros t' ->.
    + destruct (authorized_target p name s1) as [r s2]. simpl in *. by subst r.
  - apply (mutation_steps id v (Mutate None ov)); [apply owns_touched|done|done].
Qed.

#[local] Opaque next_session_id.

Lemma evolves_create t ov : evolves (create_session p t ov am).
Proof.
  intros s Hs. unfold create_session, ensure_available. unfold_M.
  destruct (shutting_down s) eqn:Esd; [done|]. simpl.
  pose proof (evolves_cleanup s Hs) as Hc. destruct (cleanup_ok (am_now am) s) as [Hok Hsd].
  destruct (cleanup_expired (am_now am) s) as [r s1]. simpl in *. subst r.
  etrans; [exact Hc|]. unfold enforce_session_quota. unfold_M. simpl.
  destruct (Z.leb_spec (max_sessions p) (Z.of_nat (count_values
    (λ o, String.eqb (so_principal o) (principal_id p)) (session_owners s1)))) as [|Hroom];
    [done|]. simpl.
  destruct (authorized_target_spec t s1) as [(tg & Ht & Ea)|(e & Ee & Hst)].
  2:{ destruct (authorized_target p t s1) as [r s2]. simpl in *. by subst r. }
  rewrite Ea. unfold in_sessions, create_with_overrides. unfold_M.
  destruct (next_session_id _ _ _) as [id ids'] eqn:En. simpl.
  eapply rtc_l; [eapply (step_create_session p am doomed tg ov id ids'); try done; congruence|].
  apply rtc_once, step_audit.
Qed.

Lemma evolves_close id : evolves (close_session p id (am_now am)).
Proof.
  intros s _. unfold close_session. unfold mbind at 1, M_bind at 1.
  destruct (require_session_owner_spec id s) as [[Ho E]|E]; rewrite E; [|done].
  eapply rtc_l; [by apply step_touch_session|].
  set (s1 := with_session_owners _ s).
  unfold cancel_session_queries, in_sessions, audit. unfold_M. simpl.
  set (s2 := with_records _ s1). change (st_sessions s) with (st_sessions s2).
  assert (may_end id s1) as Hend.
  { right. intros o. simpl. rewrite lookup_insert_eq. intros [= <-]. by left. }
  eapply rtc_l; [by apply step_cancel_session|]. fold s2.
  pose proof (close_state id (st_sessions s2)) as Hc.
  unfold close in *. unfold_M. simpl in *.
  destruct (sessions (st_sessions s) !! id) as [old|]; simpl in *.
  - eapply rtc_l; [apply (step_forget_prepared p am doomed
      (retain (λ r, negb (String.eqb (pr_session_id r) id)) (prepared s)) s2 (retain_subseteq _ _))|].
    { intros h r Hr Hn. right. right. simpl in Hr. rewrite retain_lookup, Hr in Hn.
      destruct (String.eqb_spec (pr_session_id r) id) as [->|]; [|done]. apply owns_touched. }
    eapply rtc_l; [by apply (step_end_session p am doomed id)|].
    apply rtc_once, step_audit.
  - by destruct s.
Qed.

Lemma evolves_session_metadata id c sc pt :
  evolves (session_metadata_request p id c sc pt (am_now am)).
Proof. apply evolves_bind; [apply evolves_session|]. intros. apply evolves_ret. Qed.

Lemma evolves_target_metadata t c sc pt : evolves (target_metadata_request p t c sc pt).
Proof. apply evolves_bind; [apply evolves_authorized|]. intros. apply evolves_ret. Qed.

(** *** Queries *)

Lemma owned_record_spec id s :
  let s1 := (cleanup_expired (am_now am) s).2 in
  (∃ r, records s1 !! id = Some r ∧ qr_owner r = principal_id p ∧
        owned_record p id (am_now am) s = (Ok r, s1)) ∨
  owned_record p id (am_now am) s = (Err query_not_found, s1).
Proof.
  intros s1. unfold owned_record. unfold mbind, M_bind.
  destruct (cleanup_ok (am_now am) s) as [Hok _]. fold s1.
  assert (cleanup_expired (am_now am) s = (Ok tt, s1)) as ->.
  { rewrite <- Hok. apply surjective_pairing. }
  unfold gets. destruct (records s1 !! id) as [r|] eqn:Er; [|by right].
  destruct (String.eqb_spec (qr_owner r) (principal_id p)); [|by right].
  left. by exists r.
Qed.

Lemma evolves_owned id : evolves (owned_record p id (am_now am)).
Proof.
  intros s Hs. destruct (owned_record_spec id s) as [(r & _ & _ & ->)| ->];
    by apply evolves_cleanup.
Qed.

Lemma evolves_cancel id : evolves (cancel p id (am_now am)).
Proof.
  intros s Hs. unfold cancel. unfold mbind at 1, M_bind at 1.
  pose proof (evolves_cleanup s Hs) as Hc.
  destruct (owned_record_spec id s) as [(r & Hr & Hown & ->)| ->]; [|done].
  etrans; [exact Hc|]. set (s1 := (cleanup_expired (am_now am) s).2) in *.
  unfold audit, on_record. unfold_M. simpl.
  eapply rtc_l; [apply (step_cancel_flag p am doomed id s1); eauto|].
  eapply rtc_l; [apply step_audit|].
  apply rtc_once. eapply (step_cancel_own p am doomed id (cancel_record r)); [|done].
  simpl. by rewrite lookup_alter_eq, Hr.
Qed.

(** Calls into the query service only draw identifiers. *)
Definition keeps_adapters {A} (m : M QueryService CoreError A) : Prop :=
  ∀ q, adapters (m q).2 = adapters q.

Lemma in_queries_steps {A} (m : M QueryService CoreError A) :
  keeps_adapters m → evolves (in_queries m).
Proof.
  intros Hm s _. unfold in_queries, on. specialize (Hm (st_queries s)).
  destruct (m (st_queries s)) as [r q]. simpl in *. by apply rtc_once, step_draw_id.
Qed.

Lemma submit_keeps snap sql ps i : keeps_adapters (submit_with_parameters snap sql ps i).
Proof.
  intros q. unfold submit_with_parameters, adapter_for. unfold_M. simpl.
  by destruct (adapters q !! snap_engine snap).
Qed.
Lemma prepare_keeps snap sql i : keeps_adapters (query_prepare snap sql i).
Proof.
  intros q. unfold query_prepare, adapter_for. unfold_M. simpl.
  by destruct (adapters q !! snap_engine snap).
Qed.
Lemma update_keeps snap sql i : keeps_adapters (query_execute_update snap sql i).
Proof.
  intros q. unfold query_execute_update, adapter_for. unfold_M. simpl.
  by destruct (adapters q !! snap_engine snap).
Qed.
Lemma prepared_update_keeps snap sql ps i :
  keeps_adapters (query_execute_prepared_update snap sql ps i).
Proof.
  intros q. unfold query_execute_prepared_update, adapter_for. unfold_M. simpl.
  by destruct (adapters q !! snap_engine snap).
Qed.
Lemma ingest_keeps snap r bs i : keeps_adapters (query_ingest snap r bs i).
Proof.
  intros q. unfold query_ingest, adapter_for. unfold_M. simpl.
  by destruct (adapters q !! snap_engine snap).
Qed.

(** A computation that may register a query. *)
Definition submits {A} (m : M ServiceState ServiceError A) : Prop :=
  ∀ s, pending s → evolution s (m s).2.

Lemma submits_bind {A B} (m : M ServiceState ServiceError A)
    (f : A → M ServiceState ServiceError B) :
  evolves m → (∀ a, submits (f a)) → submits (mbind f m).
Proof.
  intros Hm Hf s Hs. unfold mbind, M_bind. pose proof (Hm s Hs) as Hstep.
  destruct (m s) as [[a|e] s1]; simpl in *; [|by apply steps_evolution].
  eapply steps_then_evolution; [exact Hstep|]. apply Hf. by eapply steps_pending.
Qed.

Lemma submits_submit snap sql ps cl : submits (submit_query p snap sql ps cl am).
Proof.
  intros s Hs. unfold submit_query, ensure_available. unfold mbind, M_bind.
  unfold gets at 1. unfold reject_if at 1. destruct (shutting_down s) eqn:Esd;
    [by apply steps_evolution|].
  unfold mret at 1, M_ret at 1. unfold gets at 1. unfold reject_if at 1.
  destruct (sql_too_large _ sql); [by apply steps_evolution|]. unfold mret at 1, M_ret at 1.
  pose proof (evolves_cleanup s Hs) as Hc. destruct (cleanup_ok (am_now am) s) as [Hok Hsd].
  destruct (steps_static _ _ Hc) as [Hlim _].
  destruct (cleanup_expired (am_now am) s) as [r s1]. simpl in Hok, Hsd, Hc, Hlim. subst r.
  eapply steps_then_evolution; [exact Hc|]. unfold enforce_query_quota. unfold_M.
  destruct (Z.leb_spec (max_concurrent_queries p) (Z.of_nat (count_values
    (λ r, String.eqb (qr_owner r) (principal_id p) && is_active r) (records s1))))
    as [|Hquota]; [by apply steps_evolution|].
  destruct (Z.leb_spec (max_queries (st_limits s)) (Z.of_nat (size (records s1))))
    as [|Hroom]; [by apply steps_evolution|].
  match goal with |- context [in_queries ?m s1] =>
    assert (keeps_adapters m) as Hk by (destruct ps; apply submit_keeps);
    unfold in_queries, on; specialize (Hk (st_queries s1));
    destruct (m (st_queries s1)) as [[h|e] q]
  end; simpl in *; (eapply steps_then_evolution; [by apply rtc_once, step_draw_id|]);
    [|by apply steps_evolution].
  set (r := {| qr_id := "qcli_" +:+ am_uuid am; qr_owner := principal_id p;
    qr_session_id := snap_id snap; qr_session_version := snap_version snap;
    qr_target := snap_target snap; qr_engine := snap_engine snap;
    qr_cancel := qh_cancellation h; qr_data := QueryData_submitted |}).
  eexists. split; [reflexivity|]. right. eexists. split.
  - apply (register_query p am r h cl (with_queries (λ _, q) s1));
      simpl; try done; congruence.
  - apply rtc_once. apply (step_audit p am doomed {| ae_action := "query.submit";
      ae_outcome := "allowed"; ae_principal := Some (principal_id p);
      ae_target := Some (snap_target snap); ae_session_id := Some (snap_id snap);
      ae_query_id := Some (qr_id r) |}).
Qed.

(** A session of [p] stays its own until it ends. *)
Definition mine (id : string) s : Prop :=
  ∀ o, session_owners s !! id = Some o → so_principal o = principal_id p.

Lemma step_mine id s s' : step p am doomed s s' → mine id s → mine id s'.
Proof.
  intros Hs Hm. unfold mine in *. destruct Hs; simpl in *; try exact Hm; intros o Ho.
  - apply lookup_delete_Some in Ho as [_ Ho]. auto.
  - apply lookup_insert_Some in Ho as [[_ <-]|[_ Ho]]; auto.
  - apply lookup_insert_Some in Ho as [[_ <-]|[_ Ho]]; auto.
Qed.

Lemma steps_mine id s s' : steps s s' → mine id s → mine id s'.
Proof. induction 1; eauto using step_mine. Qed.

Lemma create_session_mine t ov s snap s' :
  create_session p t ov am s = (Ok snap, s') → mine (snap_id snap) s'.
Proof.
  unfold create_session, audit. unfold mbind, M_bind, modify, mret, M_ret.
  repeat match goal with
  | |- context [match ?m with pair _ _ => _ end] => destruct m as [[?|?] ?]; [|done]
  end.
  intros [= <- <-]. intros o. simpl. rewrite lookup_insert_eq. by intros [= <-].
Qed.

(** Ending a session of one's own, by [ignore (close ..)] and the removal of its
    owner. *)
Lemma abandon_steps id s :
  mine id s →
  steps s (with_session_owners (delete id) (ignore (in_sessions (close id)) s).2).
Proof.
  intros Hm. unfold in_sessions. unfold_M.
  pose proof (close_state id (st_sessions s)) as Hc.
  destruct (close id (st_sessions s)) as [r m]. simpl in *. subst m.
  apply rtc_once, (step_end_session p am doomed id s). right. auto.
Qed.

Lemma evolution_mine id s s' : evolution s s' → mine id s → mine id s'.
Proof. apply evolution_invariant; [apply step_mine|]. by destruct 1. Qed.

Lemma submits_submit_session id sql : submits (submit_session_query p id sql am).
Proof. apply submits_bind; [apply evolves_session|]. intros. apply submits_submit. Qed.

Lemma submits_stateless t ov sql : submits (submit_stateless_query p t ov sql am).
Proof.
  intros s Hs. unfold submit_stateless_query. unfold mbind at 1, M_bind at 1.
  pose proof (evolves_create t ov s Hs) as Hc. pose proof (create_session_mine t ov s) as Hm.
  destruct (create_session p t ov am s) as [[snap|e] s1]; [|by apply steps_evolution].
  simpl in Hc. specialize (Hm snap s1 eq_refl).
  eapply steps_then_evolution; [exact Hc|].
  pose proof (steps_pending _ _ Hc Hs) as Hs1.
  pose proof (submits_submit snap sql None true s1 Hs1) as Hq.
  unfold attempt, mbind, M_bind.
  destruct (submit_query p snap sql None true am s1) as [[st|e] s2]; [done|]. simpl in Hq.
  eapply evolution_then_steps; [exact Hq|]. unfold ignore, modify, fail. cbn [snd].
  apply (abandon_steps (snap_id snap) s2). by eapply evolution_mine.
Qed.

Lemma evolves_query id : evolves (query p id (am_now am)).
Proof. apply evolves_bind; [apply evolves_owned|]. intros. apply evolves_ret. Qed.

Lemma evolves_read {A} id (f : QueryRecord → FileSystem → result A ServiceError) :
  evolves (r ← owned_record p id (am_now am); fs ← gets disk; of_result (f r fs)).
Proof.
  apply evolves_bind; [apply evolves_owned|]. intros r.
  apply evolves_bind; [apply evolves_gets|]. intros fs. apply evolves_of_result.
Qed.

Lemma evolves_partition id i n : evolves (result_partition_reader p id i n (am_now am)).
Proof.
  apply evolves_bind; [apply evolves_reject_if|]. intros _.
  apply evolves_bind; [apply (evolves_read id (λ r fs, count_of_data (qr_data r) fs))|].
  intros k. apply (evolves_read id (λ r fs, reader_of_data (qr_data r) fs _ _)).
Qed.

(** *** Prepared statements *)

Lemma evolves_capability e c m msg : evolves (require_capability e c m msg).
Proof.
  apply evolves_bind; [apply evolves_gets|]. intros o.
  apply evolves_bind; [apply evolves_of_result|]. intros. apply evolves_reject_if.
Qed.

(** A computation that evolves while the service stays open. *)
Definition evolves_open {A} (m : M ServiceState ServiceError A) : Prop :=
  ∀ s, pending s → shutting_down s = false →
    steps s (m s).2 ∧ shutting_down (m s).2 = false.

Lemma evolves_open_bind {A B} (m : M ServiceState ServiceError A)
    (f : A → M ServiceState ServiceError B) :
  evolves_open m → (∀ a, evolves_open (f a)) → evolves_open (mbind f m).
Proof.
  intros Hm Hf s Hs Ho. unfold mbind, M_bind. destruct (Hm s Hs Ho) as [Hst Ho'].
  destruct (m s) as [[a|e] s1]; simpl in *; [|done].
  destruct (Hf a s1) as [Hst' Ho'']; [by eapply steps_pending|done|].
  split; [by etrans|done].
Qed.

Lemma evolves_open_of {A} (m : M ServiceState ServiceError A) :
  evolves m → (∀ s, shutting_down (m s).2 = shutting_down s) → evolves_open m.
Proof. intros Hm Hk s Hs Ho. rewrite Hk. auto. Qed.

Lemma ensured {A} (m : M ServiceState ServiceError A) :
  evolves_open m → evolves (ensure_available ≫= λ _, m).
Proof.
  intros Hm s Hs. unfold ensure_available. unfold mbind, M_bind, gets, reject_if.
  destruct (shutting_down s) eqn:E; [done|]. by apply Hm.
Qed.

Lemma open_quiet {A} (m : M ServiceState ServiceError A) : quiet m → evolves_open m.
Proof. intros Hq s _ Ho. by rewrite Hq. Qed.

Lemma open_session id : evolves_open (session p id (am_now am)).
Proof.
  apply evolves_open_of; [apply evolves_session|]. intros s. unfold session.
  unfold mbind, M_bind. destruct (require_session_owner_spec id s) as [[_ ->]| ->]; done.
Qed.

Lemma open_capability e c m msg : evolves_open (require_capability e c m msg).
Proof.
  apply open_quiet. intros s. unfold require_capability. unfold_M.
  destruct (md_capabilities e (st_metadata s)) as [cs|]; simpl; [|done].
  by destruct (supports cs c).
Qed.

Lemma open_in_queries {A} (m : M QueryService CoreError A) :
  keeps_adapters m → evolves_open (in_queries m).
Proof.
  intros Hm. apply evolves_open_of; [by apply in_queries_steps|]. intros s.
  unfold in_queries, on. by destruct (m (st_queries s)).
Qed.

Lemma open_cleanup : evolves_open (cleanup_expired (am_now am)).
Proof. apply evolves_open_of; [apply evolves_cleanup|]. apply cleanup_ok. Qed.

Lemma open_store_prepared id sql md : evolves_open (store_prepared p id sql md am).
Proof.
  intros s _ Ho. unfold store_prepared. unfold_M. simpl.
  destruct (Z.leb_spec (max_prepared_statements (st_limits s)) (Z.of_nat (size (prepared s))));
    [done|]. split; [|done]. by apply rtc_once, step_new_prepared.
Qed.

Lemma evolves_create_prepared id sql : evolves (create_prepared_statement p id sql am).
Proof.
  apply ensured. apply evolves_open_bind; [by apply open_quiet|]. intros limits.
  apply evolves_open_bind; [apply open_quiet; intros s; by destruct (sql_too_large _ _)|].
  intros _. apply evolves_open_bind; [apply open_session|]. intros snap.
  apply evolves_open_bind; [apply open_capability|]. intros _.
  apply evolves_open_bind; [apply open_in_queries, prepare_keeps|]. intros md.
  apply evolves_open_bind; [apply open_cleanup|]. intros _. apply open_store_prepared.
Qed.

(** What a computation that returns has left behind. *)
Definition leaves {A} (m : M ServiceState ServiceError A) (Q : A → ServiceState → Prop) : Prop :=
  ∀ s, match m s with (Ok a, s') => Q a s' | (Err _, _) => True end.

Lemma leaves_bind {A B} (m : M ServiceState ServiceError A)
    (f : A → M ServiceState ServiceError B) Q :
  (∀ a, leaves (f a) Q) → leaves (mbind f m) Q.
Proof.
  intros Hf s. unfold mbind, M_bind. destruct (m s) as [[a|e] s1]; [apply Hf|done].
Qed.

Definition statement_fresh (st : PreparedStatementSnapshot) s : Prop :=
  ∃ r, prepared s !! ps_handle st = Some r ∧ pr_owner r = principal_id p ∧
       pr_last_access r = am_now am.

Lemma create_prepared_fresh id sql :
  leaves (create_prepared_statement p id sql am) statement_fresh.
Proof.
  do 7 (apply leaves_bind; intros ?). intros s. unfold store_prepared. unfold_M. simpl.
  destruct (_ <=? _); [done|]. eexists. simpl. by rewrite lookup_insert_eq.
Qed.

Lemma evolves_stateless_prepared t sql :
  evolves (create_stateless_prepared_statement p t sql am).
Proof.
  apply evolves_bind; [apply evolves_create|]. intros snap s Hs.
  unfold attempt, mbind, M_bind.
  pose proof (evolves_create_prepared (snap_id snap) sql s Hs) as Hc.
  pose proof (create_prepared_fresh (snap_id snap) sql s) as Hf.
  destruct (create_prepared_statement p (snap_id snap) sql am s) as [[st|e] s1]; simpl in Hc.
  - etrans; [exact Hc|]. destruct Hf as (r & Hr & Hown & Hnow). simpl.
    apply rtc_once.
    assert (alter own_session (ps_handle st) (prepared s1)
            = <[ps_handle st := own_session r]> (prepared s1)) as Ha.
    { apply map_eq. intros k. destruct (decide (k = ps_handle st)) as [->|Hn].
      - by rewrite lookup_alter_eq, lookup_insert_eq, Hr.
      - by rewrite lookup_alter_ne, lookup_insert_ne. }
    change (with_prepared (alter own_session (ps_handle st)) s1)
      with (with_prepared (λ _, alter own_session (ps_handle st) (prepared s1)) s1).
    rewrite Ha. by eapply (step_change_prepared p am doomed _ r).
  - etrans; [exact Hc|]. simpl. apply (evolves_close (snap_id snap) s1).
    by eapply steps_pending.
Qed.

Lemma owned_prepared_spec h s :
  (∃ r, prepared s !! h = Some r ∧ pr_owner r = principal_id p ∧
        owned_prepared p h s = (Ok r, s)) ∨
  owned_prepared p h s = (Err prepared_not_found, s).
Proof.
  unfold owned_prepared. unfold_M. destruct (prepared s !! h) as [r|]; [|by right].
  destruct (String.eqb_spec (pr_owner r) (principal_id p)); [|by right]. left. by exists r.
Qed.

Lemma evolves_prepared h : evolves (prepared_statement p h (am_now am)).
Proof.
  apply evolves_bind; [apply evolves_cleanup|]. intros _ s Hs. unfold mbind, M_bind.
  destruct (owned_prepared_spec h s) as [(r & Hr & Hown & ->)| ->]; [|done].
  simpl. apply rtc_once. by eapply (step_change_prepared p am doomed h r).
Qed.

(** Nothing between the lookup of a statement and its rebinding touches it. *)
Lemma session_keeps_prepared id s : prepared (session p id (am_now am) s).2 = prepared s.
Proof.
  unfold session. unfold mbind, M_bind.
  by destruct (require_session_owner_spec id s) as [[_ ->]| ->].
Qed.

Lemma evolves_bind_prepared h ps : evolves (bind_prepared_statement p h ps (am_now am)).
Proof.
  apply evolves_bind; [apply evolves_cleanup|]. intros _ s Hs. unfold mbind, M_bind.
  destruct (owned_prepared_spec h s) as [(r & Hr & Hown & ->)| ->]; [|done].
  pose proof (evolves_session (pr_session_id r) s Hs) as Hse.
  pose proof (session_keeps_prepared (pr_session_id r) s) as Hk.
  destruct (session p (pr_session_id r) (am_now am) s) as [[snap|e] s1]; [|done].
  simpl in Hse, Hk. etrans; [exact Hse|].
  assert (∀ e c m msg, (require_capability e c m msg s1).2 = s1) as Hq.
  { intros. unfold require_capability. unfold_M.
    destruct (md_capabilities _ _) as [cs|]; simpl; [|done]. by destruct (supports cs _). }
  match goal with |- context [require_capability ?e ?c ?m ?msg s1] =>
    specialize (Hq e c m msg); destruct (require_capability e c m msg s1) as [[[]|e0] s2] end;
    simpl in Hq; subst s2; [|done].
  unfold reject_if. destruct (mixed_schemas ps); [done|]. simpl.
  apply rtc_once. eapply (step_change_prepared p am doomed h r); [by rewrite Hk|done..].
Qed.

Lemma submits_execute_prepared h : submits (execute_prepared_statement p h am).
Proof.
  apply submits_bind; [apply evolves_prepared|]. intros st.
  apply submits_bind; [apply evolves_session|]. intros snap. apply submits_submit.
Qed.

Lemma evolves_prepared_update h : evolves (service_execute_prepared_update p h am).
Proof.
  apply evolves_bind; [apply evolves_prepared|]. intros st.
  apply evolves_bind; [apply evolves_session|]. intros snap.
  apply in_queries_steps, prepared_update_keeps.
Qed.

Lemma evolves_session_update id sql : evolves (execute_session_update p id sql am).
Proof.
  apply evolves_bind; [apply evolves_session|]. intros snap.
  apply in_queries_steps, update_keeps.
Qed.

Lemma evolves_ingest id r bs : evolves (service_ingest p id r bs am).
Proof.
  apply evolves_bind; [apply evolves_ensure|]. intros _.
  apply evolves_bind; [apply evolves_reject_if|]. intros _.
  apply evolves_bind; [apply evolves_session|]. intros snap.
  apply evolves_bind; [apply evolves_capability|]. intros _.
  apply evolves_bind; [apply evolves_audit|]. intros _.
  apply evolves_bind; [apply evolves_attempt, in_queries_steps, ingest_keeps|]. intros res.
  apply evolves_bind; [apply evolves_audit|]. intros _. apply evolves_of_result.
Qed.

Lemma evolves_close_prepared h : evolves (close_prepared_statement p h (am_now am)).
Proof.
  intros s Hs. unfold close_prepared_statement. unfold mbind, M_bind.
  destruct (owned_prepared_spec h s) as [(r & Hr & Hown & ->)| ->]; [|done].
  unfold modify. set (s1 := with_prepared (delete h) s).
  assert (step p am doomed s s1) as H1.
  { apply (step_forget_prepared p am doomed (delete h (prepared s)) s); [apply delete_subseteq|].
    intros h' r' Hr' [Hn|Hn]%lookup_delete_None; [|congruence]. simplify_eq.
    right. by left. }
  eapply rtc_l; [exact H1|]. destruct (pr_owns_session r); [|done].
  apply evolves_close. by eapply step_pending.
Qed.

(** Every operation of [p] is a sequence of the steps [p] is entitled to, with
    at most one query registered on the way. *)
Lemma run_op_evolution o s : pending s → evolution s (run_op o p am s).
Proof.
  intros Hs. destruct o; simpl; try (
    first [ apply submits_submit_session | apply submits_stateless
          | apply submits_execute_prepared
          | apply steps_evolution, evolves_create | apply steps_evolution, evolves_session
          | apply steps_evolution, evolves_update | apply steps_evolution, evolves_switch
          | apply steps_evolution, evolves_mutate | apply steps_evolution, evolves_close
          | apply steps_evolution, evolves_session_metadata
          | apply steps_evolution, evolves_target_metadata
          | apply steps_evolution, evolves_query | apply steps_evolution, evolves_cancel
          | apply steps_evolution, evolves_partition
          | apply steps_evolution, evolves_create_prepared
          | apply steps_evolution, evolves_stateless_prepared
          | apply steps_evolution, evolves_bind_prepared
          | apply steps_evolution, evolves_prepared
          | apply steps_evolution, evolves_prepared_update
          | apply steps_evolution, evolves_session_update
          | apply steps_evolution, evolves_ingest
          | apply steps_evolution, evolves_close_prepared
          | apply steps_evolution, evolves_cleanup ];
    exact Hs); apply steps_evolution.
  - by apply (evolves_read id (λ r fs, page_of_data (qr_data r) fs offset limit)).
  - by apply (evolves_read id (λ r fs, count_of_data (qr_data r) fs)).
  - by apply (evolves_read id (λ r fs, reader_of_data (qr_data r) fs 0 None)).
  - apply evolves_bind; [apply evolves_owned| |done]. intros. apply evolves_of_result.
  - apply evolves_bind; [apply evolves_owned| |done]. intros. apply evolves_ret.
  - eapply rtc_l; [apply step_shut_down|]. by apply rtc_once, step_cancel_all.
Qed.
End Refinement.

(** The sessions whose owning prepared statement has expired. *)
Definition doomed_sessions (now : Z) s : gset string :=
  list_to_set (expired_owned (prepared_statement_ttl (st_limits s)) now (prepared s)).*1.

Lemma pending_start am s :
  0 < prepared_statement_ttl (st_limits s) → pending am (doomed_sessions (am_now am) s) s.
Proof.
  intros Httl. split; [done|]. intros h r Hr Hl Ho. unfold doomed_sessions.
  apply elem_of_list_to_set, list_elem_of_fmap. exists (pr_session_id r, pr_owner r).
  split; [done|]. apply list_elem_of_omap. exists (h, r). simpl.
  rewrite Hl, Ho. by rewrite elem_of_map_to_list.
Qed.

(** C8: Authorization refinement.  Whatever operation a principal calls, at
    whatever time, its effect on the service is a sequence of the steps that
    principal is entitled to: it ends, touches and changes only sessions of its
    own (or expired ones), moves them only to targets it may use, creates them
    only within its quota and while the service is open, changes only its own
    queries and prepared statements, and registers at most one query, within
    its quota and the limits of the service. *)
Theorem operations_refine_authorized_steps o p am s :
  0 < prepared_statement_ttl (st_limits s) →
  evolution p am (doomed_sessions (am_now am) s) s (run_op o p am s).
Proof. intros Httl. by apply run_op_evolution, pending_start. Qed.
End ServiceSpec.
