(* ===== verification/ServiceCluster.v ===== *)
(** * The clustered operations of the gateway (crates/qcli-service/src/lib.rs)

    The [_clustered] methods of [GatewayService] and the task that publishes
    the progress of a query.  [Node] is what such a method can reach: the local
    [ServiceState], the cluster store and the object store that all nodes
    share, and the publishers the node has spawned.  The stores are any
    implementations of their traits; [serde_json] and the hash of a principal
    are parameters.  [World] holds several nodes over one store. *)
From S2P Require Import Prelude Text Arrow DriverApi Auth Config Core Cluster Metadata.
From S2P Require Import ServiceData Results Service.
Import Core.Sessions Core.Queries.

(** [serde_json::to_value] and [from_value] at a type that derives
    [Serialize] and [Deserialize]. *)
Class Serde (A : Type) := {
  to_value : A → result Value string;
  from_value : Value → result A string;
}.

(** Serialization succeeds, and what was serialized is read back. *)
Class SerdeLaws (A : Type) `{Serde A} : Prop := {
  serde_total a : ∃ v, to_value a = Ok v;
  serde_roundtrip a v : to_value a = Ok v → from_value v = Ok a;
}.

(** [trait ResultObjectStore] over a store with state [Ob]. *)
Class ResultObjectStore (Bytes Ob : Type) := {
  objects_put : string → Bytes → M Ob ClusterError unit;
  objects_get : string → M Ob ClusterError (option Bytes);
  objects_delete : string → M Ob ClusterError unit;
}.

Record ClusterContext := {
  cc_node_id : string;
  cc_lease_ttl : Z;
}.

Record SharedSession := {
  ss_snapshot : SessionSnapshot;
  ss_quota_permit : string;
}.

Record SharedQuery := {
  sq_status : QueryStatus;
  sq_result_key : option string;
  sq_batch_count : Z;
  sq_fencing_token : Z;
}.

Record SharedPrepared := {
  sp_session_id : string;
  sp_sql : string;
  sp_parameters_key : option string;
}.

(** A spawned [publish_query_completion]. *)
Record Publisher := {
  pb_principal : AuthenticatedPrincipal;
  pb_query : string;
  pb_lease : QueryLease;
}.

(** What a clustered call reads from its surroundings: a local call's
    [Ambient], the wall clock, and the UUID of a quota permit. *)
Record ClusterCall := {
  ca_ambient : Ambient;
  ca_utc : Z;
  ca_permit : string;
}.
Definition ca_now (ca : ClusterCall) : Z := am_now (ca_ambient ca).

Definition json_service_error (message : string) : ServiceError :=
  ServiceError_new Internal "shared_state_json" message.

(** [SystemTime::now() + ttl]. *)
Definition chrono_deadline (ttl utc : Z) : Z := utc + ttl.

Definition shared_result_missing : ServiceError :=
  ServiceError_new Internal "shared_result_missing" "completed shared result is unavailable".

Definition orphaned_query : QueryError :=
  {| qe_code := "orphaned_query";
     qe_message := "the owning qcli node was lost and this adapter cannot reattach safely" |}.

Definition retention_failed : QueryError :=
  {| qe_code := "shared_result_store";
     qe_message := "query completed but shared result retention failed" |}.

(** [status.state = "failed"; status.error = Some(error)]. *)
Definition failed_status (e : QueryError) (s : QueryStatus) : QueryStatus :=
  {| qs_id := qs_id s; qs_session_id := qs_session_id s;
     qs_session_version := qs_session_version s; qs_target := qs_target s;
     qs_engine := qs_engine s; qs_engine_query_id := qs_engine_query_id s;
     qs_state := "failed"; qs_rows := qs_rows s;
     qs_retained_bytes := qs_retained_bytes s; qs_error := Some e |}.

(** [SharedResource { payload, expires_at, ..resource }]. *)
Definition rewritten (r : SharedResource) (v : Value) (expires : Z) : SharedResource :=
  {| resource_id := resource_id r; resource_principal := resource_principal r;
     resource_kind := resource_kind r; resource_version := resource_version r;
     payload := v; resource_expires_at := expires |}.

Section Clustered.
Context `{ipc : ArrowIpc}.
Context {St : Type} `{!ClusterStateStore St}.
Context {Ob : Type} `{!ResultObjectStore Bytes Ob}.
Context `{!Serde SharedSession} `{!Serde SharedQuery} `{!Serde SharedPrepared}.
(** The [DefaultHasher] digest of a principal, as sixteen hexadecimal digits. *)
Variable hash_hex : string → string.

(** What a node works on; the two stores are shared by all nodes. *)
Record Node := {
  nd_service : ServiceState;
  nd_cluster : option ClusterContext;
  nd_store : St;
  nd_objects : Ob;
  nd_publishers : list Publisher;
}.

Definition with_service (s : ServiceState) (n : Node) : Node :=
  {| nd_service := s; nd_cluster := nd_cluster n; nd_store := nd_store n;
     nd_objects := nd_objects n; nd_publishers := nd_publishers n |}.
Definition with_store (s : St) (n : Node) : Node :=
  {| nd_service := nd_service n; nd_cluster := nd_cluster n; nd_store := s;
     nd_objects := nd_objects n; nd_publishers := nd_publishers n |}.
Definition with_objects (o : Ob) (n : Node) : Node :=
  {| nd_service := nd_service n; nd_cluster := nd_cluster n; nd_store := nd_store n;
     nd_objects := o; nd_publishers := nd_publishers n |}.
Definition with_publishers (l : list Publisher) (n : Node) : Node :=
  {| nd_service := nd_service n; nd_cluster := nd_cluster n; nd_store := nd_store n;
     nd_objects := nd_objects n; nd_publishers := l |}.

(** [with_cluster]: the stores a node is given. *)
Definition with_cluster (node_id : string) (store : St) (objects : Ob) (lease_ttl : Z)
    (n : Node) : Node :=
  {| nd_service := nd_service n;
     nd_cluster := Some {| cc_node_id := node_id; cc_lease_ttl := lease_ttl |};
     nd_store := store; nd_objects := objects; nd_publishers := nd_publishers n |}.

Abbreviation Clustered A := (M Node ServiceError A).

(** A local operation, a call of the cluster store, a call of the object
    store; errors become [ServiceError]s. *)
Definition locally {A} (m : M ServiceState ServiceError A) : Clustered A :=
  on nd_service with_service (λ e, e) m.
Definition in_store {A} (m : M St ClusterError A) : Clustered A :=
  on nd_store with_store cluster_service_error m.
Definition in_objects {A} (m : M Ob ClusterError A) : Clustered A :=
  on nd_objects with_objects cluster_service_error m.

Definition serialize {A} `{Serde A} (a : A) : Clustered Value :=
  of_result (map_err json_service_error (to_value a)).
Definition deserialize {A} `{Serde A} (v : Value) : Clustered A :=
  of_result (map_err json_service_error (from_value v)).

(** [self.state.cluster.as_ref().ok_or_else(..)]. *)
Definition require_cluster (missing : ServiceError) : Clustered ClusterContext :=
  o ← gets nd_cluster; of_result (ok_or o missing).

(** [get_resource(..).await.map_err(..)?.ok_or_else(..)?]. *)
Definition shared_resource (kind id : string) (principal : AuthenticatedPrincipal)
    (missing : ServiceError) (utc : Z) : Clustered SharedResource :=
  o ← in_store (get_resource kind id (principal_id principal) utc);
  of_result (ok_or o missing).

Definition session_ttl_of (n : Node) : Z := session_ttl (st_limits (nd_service n)).
Definition prepared_ttl_of (n : Node) : Z := prepared_statement_ttl (st_limits (nd_service n)).
Definition result_ttl_of (n : Node) : Z := result_ttl (st_limits (nd_service n)).

(** ** Sessions *)

Definition create_session_clustered (principal : AuthenticatedPrincipal)
    (target_name : string) (overrides : gmap string string) (ca : ClusterCall) :
    Clustered SessionSnapshot :=
  cluster ← gets nd_cluster;
  match cluster with
  | None => locally (create_session principal target_name overrides (ca_ambient ca))
  | Some _ =>
      _ ← locally ensure_available;
      ttl ← gets session_ttl_of;
      permit ← in_store (acquire_quota (principal_id principal) "sessions"
                  (max_sessions principal) ttl (ca_permit ca) (ca_utc ca));
      created ← attempt (locally (create_session principal target_name overrides
                                    (ca_ambient ca)));
      match created with
      | Err error => _ ← ignore (in_store (release_quota permit)); fail error
      | Ok snap =>
          v ← serialize {| ss_snapshot := snap; ss_quota_permit := permit |};
          put ← attempt (in_store (put_resource
                  {| resource_id := snap_id snap;
                     resource_principal := principal_id principal;
                     resource_kind := "session"; resource_version := 0; payload := v;
                     resource_expires_at := chrono_deadline ttl (ca_utc ca) |} (Some 0)));
          match put with
          | Err error =>
              _ ← ignore (locally (close_session principal (snap_id snap) (ca_now ca)));
              _ ← ignore (in_store (release_quota permit));
              fail error
          | Ok _ => mret snap
          end
      end
  end.

(** A session this node does not know is restored from the shared record. *)
Definition restore_session (principal : AuthenticatedPrincipal) (session_id : string)
    (ca : ClusterCall) : Clustered SessionSnapshot :=
  _ ← require_cluster session_not_found;
  resource ← shared_resource "session" session_id principal session_not_found (ca_utc ca);
  shared ← deserialize (payload resource);
  let snap := ss_snapshot shared in
  o ← gets (λ n, config_target (st_config (nd_service n)) (snap_target snap));
  target ← of_result (ok_or o session_not_found);
  _ ← locally (in_sessions (restore snap target));
  _ ← locally (modify (with_session_owners (<[snap_id snap :=
        {| so_principal := principal_id principal; so_last_access := ca_now ca |}]>)));
  mret snap.

Definition session_clustered (principal : AuthenticatedPrincipal) (session_id : string)
    (ca : ClusterCall) : Clustered SessionSnapshot :=
  known ← attempt (locally (session principal session_id (ca_now ca)));
  match known with
  | Ok snap => mret snap
  | Err _ => restore_session principal session_id ca
  end.

Definition mutate_session_clustered (principal : AuthenticatedPrincipal) (session_id : string)
    (expected_version : Z) (target_name : option string)
    (overrides : gmap string (option string)) (ca : ClusterCall) : Clustered SessionSnapshot :=
  _ ← session_clustered principal session_id ca;
  snap ← locally (mutate_session principal session_id expected_version target_name overrides
                    (ca_now ca));
  cluster ← gets nd_cluster;
  match cluster with
  | None => mret snap
  | Some _ =>
      resource ← shared_resource "session" session_id principal session_not_found (ca_utc ca);
      shared ← deserialize (payload resource);
      v ← serialize {| ss_snapshot := snap; ss_quota_permit := ss_quota_permit shared |};
      ttl ← gets session_ttl_of;
      _ ← in_store (put_resource (rewritten resource v (chrono_deadline ttl (ca_utc ca)))
                      (Some (resource_version resource)));
      mret snap
  end.

Definition update_session_clustered (principal : AuthenticatedPrincipal) (session_id : string)
    (expected_version : Z) (overrides : gmap string string) (ca : ClusterCall) :
    Clustered SessionSnapshot :=
  mutate_session_clustered principal session_id expected_version None (Some <$> overrides) ca.

Definition switch_target_clustered (principal : AuthenticatedPrincipal) (session_id : string)
    (expected_version : Z) (target_name : string) (ca : ClusterCall) : Clustered SessionSnapshot :=
  mutate_session_clustered principal session_id expected_version (Some target_name) ∅ ca.

Definition close_session_clustered (principal : AuthenticatedPrincipal) (session_id : string)
    (ca : ClusterCall) : Clustered unit :=
  _ ← session_clustered principal session_id ca;
  cluster ← gets nd_cluster;
  match cluster with
  | None => locally (close_session principal session_id (ca_now ca))
  | Some _ =>
      resource ← in_store (get_resource "session" session_id (principal_id principal)
                             (ca_utc ca));
      let shared := resource ≫= λ r, ok_of (from_value (payload r)) in
      _ ← locally (close_session principal session_id (ca_now ca));
      _ ← in_store (delete_resource "session" session_id (principal_id principal));
      match shared with
      | Some shared => ignore (in_store (release_quota (ss_quota_permit shared)))
      | None => mret tt
      end
  end.

(** ** Publishing queries *)

(** The record's version is read just before it is written; the fencing token
    is stored and never compared. *)
Definition put_shared_query (principal : AuthenticatedPrincipal) (status : QueryStatus)
    (result_key : option string) (batch_count : Z) (lease : QueryLease) (utc : Z) :
    Clustered unit :=
  v ← serialize {| sq_status := status; sq_result_key := result_key;
                   sq_batch_count := batch_count; sq_fencing_token := fencing_token lease |};
  current ← in_store (get_resource "query" (qs_id status) (principal_id principal) utc);
  _ ← in_store (put_resource
        {| resource_id := qs_id status; resource_principal := principal_id principal;
           resource_kind := "query"; resource_version := 0; payload := v;
           resource_expires_at := chrono_deadline (from_secs (15 * 60)) utc |}
        (Some (match current with Some r => resource_version r | None => 0 end)));
  mret tt.

Definition publish_cluster_query (principal : AuthenticatedPrincipal) (status : QueryStatus)
    (ca : ClusterCall) : Clustered unit :=
  cluster ← gets nd_cluster;
  match cluster with
  | None => mret tt
  | Some cc =>
      lease ← in_store (claim_query (qs_id status) (principal_id principal) (cc_node_id cc)
                          (cc_lease_ttl cc) (ca_utc ca));
      _ ← put_shared_query principal status None 0 lease (ca_utc ca);
      modify (λ n, with_publishers (nd_publishers n ++
        [{| pb_principal := principal; pb_query := qs_id status; pb_lease := lease |}]) n)
  end.

Definition principal_object_prefix (principal : string) : string :=
  "principals/" +:+ hash_hex principal.

Definition result_object_key (principal query_id : string) : string :=
  principal_object_prefix principal +:+ "/" +:+ query_id +:+ ".arrow".

(** The encoded result of a completed query, when it can be read. *)
Definition retained_result (principal : AuthenticatedPrincipal) (status : QueryStatus)
    (query_id : string) (now : Z) : Clustered (option (Bytes * Z)) :=
  if String.eqb (qs_state status) "completed" then
    reader ← attempt (locally (result_reader principal query_id now));
    mret (match reader with
          | Ok r => ok_of (encode_reader r).1
          | Err _ => None
          end)
  else mret None.

(** Keep the result in the object store; the status to publish, the key and
    the number of batches. *)
Definition share_result (principal : AuthenticatedPrincipal) (status : QueryStatus)
    (query_id : string) (retained : option (Bytes * Z)) :
    Clustered (QueryStatus * option string * Z) :=
  match retained with
  | None => mret (status, None, 0)
  | Some (bytes, batches) =>
      let key := result_object_key (principal_id principal) query_id in
      put ← attempt (in_objects (objects_put key bytes));
      mret (match put with
            | Ok _ => (status, Some key, batches)
            | Err _ => (failed_status retention_failed status, None, 0)
            end)
  end.

(** One turn of the loop of [publish_query_completion]: the lease to go on
    with, or [None] when the task returns. *)
Definition publish_turn (p : Publisher) (now utc : Z) : Clustered (option QueryLease) :=
  cluster ← gets nd_cluster;
  match cluster with
  | None => mret None
  | Some cc =>
      let principal := pb_principal p in
      found ← attempt (locally (query principal (pb_query p) now));
      match found with
      | Err _ => mret None
      | Ok status =>
          if terminal_name (qs_state status) then
            retained ← retained_result principal status (pb_query p) now;
            shared ← share_result principal status (pb_query p) retained;
            let '(status', key, batches) := shared in
            _ ← ignore (put_shared_query principal status' key batches (pb_lease p) utc);
            _ ← ignore (in_store (release_query (pb_lease p)));
            mret None
          else
            _ ← ignore (put_shared_query principal status None 0 (pb_lease p) utc);
            renewed ← attempt (in_store (renew_query (pb_lease p) (cc_lease_ttl cc) utc));
            mret (ok_of renewed)
      end
  end.

Definition submit_session_query_clustered (principal : AuthenticatedPrincipal)
    (session_id sql : string) (ca : ClusterCall) : Clustered QueryStatus :=
  snap ← session_clustered principal session_id ca;
  status ← locally (submit_query principal snap sql None false (ca_ambient ca));
  _ ← publish_cluster_query principal status ca;
  mret status.

Definition submit_stateless_query_clustered (principal : AuthenticatedPrincipal)
    (target_name : string) (overrides : gmap string string) (sql : string) (ca : ClusterCall) :
    Clustered QueryStatus :=
  snap ← create_session_clustered principal target_name overrides ca;
  status ← locally (submit_query principal snap sql None true (ca_ambient ca));
  _ ← publish_cluster_query principal status ca;
  mret status.

(** ** Prepared statements *)

Definition create_prepared_statement_clustered (principal : AuthenticatedPrincipal)
    (session_id sql : string) (ca : ClusterCall) : Clustered PreparedStatementSnapshot :=
  _ ← session_clustered principal session_id ca;
  statement ← locally (create_prepared_statement principal session_id sql (ca_ambient ca));
  cluster ← gets nd_cluster;
  match cluster with
  | None => mret statement
  | Some _ =>
      v ← serialize {| sp_session_id := session_id; sp_sql := sql; sp_parameters_key := None |};
      ttl ← gets prepared_ttl_of;
      _ ← in_store (put_resource
            {| resource_id := ps_handle statement;
               resource_principal := principal_id principal;
               resource_kind := "prepared"; resource_version := 0; payload := v;
               resource_expires_at := chrono_deadline ttl (ca_utc ca) |} (Some 0));
      mret statement
  end.

(** The parameters of a shared statement. *)
Definition shared_parameters (key : option string) : Clustered (list RecordBatch) :=
  match key with
  | None => mret []
  | Some key =>
      o ← in_objects (objects_get key);
      bytes ← of_result (ok_or o prepared_not_found);
      of_result (decode_batches bytes)
  end.

(** A statement this node does not know is prepared again from the shared
    record. *)
Definition restore_prepared (principal : AuthenticatedPrincipal) (handle : string)
    (ca : ClusterCall) : Clustered PreparedStatementSnapshot :=
  _ ← require_cluster prepared_not_found;
  resource ← shared_resource "prepared" handle principal prepared_not_found (ca_utc ca);
  shared ← deserialize (payload resource);
  snap ← session_clustered principal (sp_session_id shared) ca;
  metadata ← locally (in_queries (query_prepare snap (sp_sql shared)
                                    (am_invocation (ca_ambient ca))));
  parameters ← shared_parameters (sp_parameters_key shared);
  let record :=
    {| pr_owner := principal_id principal; pr_session_id := sp_session_id shared;
       pr_owns_session := false; pr_sql := sp_sql shared;
       pr_dataset_schema := dataset_schema metadata;
       pr_parameter_schema := parameter_schema metadata; pr_parameters := parameters;
       pr_last_access := ca_now ca |} in
  _ ← locally (modify (with_prepared (<[handle := record]>)));
  mret (prepared_snapshot handle record).

Definition prepared_statement_clustered (principal : AuthenticatedPrincipal)
    (handle : string) (ca : ClusterCall) : Clustered PreparedStatementSnapshot :=
  known ← attempt (locally (prepared_statement principal handle (ca_now ca)));
  match known with
  | Ok statement => mret statement
  | Err _ => restore_prepared principal handle ca
  end.

Definition parameters_object_key (principal handle : string) : string :=
  principal_object_prefix principal +:+ "/prepared/" +:+ handle +:+ ".arrow".

Definition bind_prepared_statement_clustered (principal : AuthenticatedPrincipal)
    (handle : string) (parameters : list RecordBatch) (ca : ClusterCall) :
    Clustered PreparedStatementSnapshot :=
  _ ← prepared_statement_clustered principal handle ca;
  statement ← locally (bind_prepared_statement principal handle parameters (ca_now ca));
  cluster ← gets nd_cluster;
  match cluster with
  | None => mret statement
  | Some _ =>
      let key := parameters_object_key (principal_id principal) handle in
      bytes ← of_result (encode_batches parameters);
      _ ← in_objects (objects_put key bytes);
      resource ← shared_resource "prepared" handle principal prepared_not_found (ca_utc ca);
      shared ← deserialize (payload resource);
      v ← serialize {| sp_session_id := sp_session_id shared; sp_sql := sp_sql shared;
                       sp_parameters_key := Some key |};
      ttl ← gets prepared_ttl_of;
      _ ← in_store (put_resource (rewritten resource v (chrono_deadline ttl (ca_utc ca)))
                      (Some (resource_version resource)));
      mret statement
  end.

Definition execute_prepared_statement_clustered (principal : AuthenticatedPrincipal)
    (handle : string) (ca : ClusterCall) : Clustered QueryStatus :=
  statement ← prepared_statement_clustered principal handle ca;
  snap ← session_clustered principal (ps_session_id statement) ca;
  status ← locally (submit_query principal snap (ps_sql statement)
                      (Some (ps_parameters statement)) false (ca_ambient ca));
  _ ← publish_cluster_query principal status ca;
  mret status.

Definition execute_prepared_update_clustered (principal : AuthenticatedPrincipal)
    (handle : string) (ca : ClusterCall) : Clustered Z :=
  _ ← prepared_statement_clustered principal handle ca;
  locally (service_execute_prepared_update principal handle (ca_ambient ca)).

Definition close_prepared_statement_clustered (principal : AuthenticatedPrincipal)
    (handle : string) (ca : ClusterCall) : Clustered unit :=
  _ ← prepared_statement_clustered principal handle ca;
  _ ← locally (close_prepared_statement principal handle (ca_now ca));
  cluster ← gets nd_cluster;
  match cluster with
  | None => mret tt
  | Some _ =>
      _ ← in_store (delete_resource "prepared" handle (principal_id principal));
      mret tt
  end.

(** ** Reading queries and results *)

Definition shared_query (principal : AuthenticatedPrincipal) (query_id : string) (utc : Z) :
    Clustered SharedQuery :=
  _ ← require_cluster query_not_found;
  resource ← shared_resource "query" query_id principal query_not_found utc;
  deserialize (payload resource).

Definition query_clustered (principal : AuthenticatedPrincipal) (query_id : string)
    (now utc : Z) : Clustered QueryStatus :=
  known ← attempt (locally (query principal query_id now));
  match known with
  | Ok status => mret status
  | Err _ => shared ← shared_query principal query_id utc; mret (sq_status shared)
  end.

Definition recover_query_clustered (principal : AuthenticatedPrincipal) (query_id : string)
    (utc : Z) : Clustered QueryStatus :=
  cc ← require_cluster query_not_found;
  resource ← shared_resource "query" query_id principal query_not_found utc;
  shared ← deserialize (payload resource);
  if terminal_name (qs_state (sq_status shared)) then mret (sq_status shared)
  else
    lease ← in_store (claim_query query_id (principal_id principal) (cc_node_id cc)
                        (cc_lease_ttl cc) utc);
    let status := failed_status orphaned_query (sq_status shared) in
    v ← serialize {| sq_status := status; sq_result_key := sq_result_key shared;
                     sq_batch_count := sq_batch_count shared;
                     sq_fencing_token := fencing_token lease |};
    ttl ← gets result_ttl_of;
    _ ← in_store (put_resource (rewritten resource v (chrono_deadline ttl utc))
                    (Some (resource_version resource)));
    _ ← ignore (in_store (release_query lease));
    mret status.

(** [objects.get(key)] and [FileReader::try_new]. *)
Definition open_shared (key : string) (missing : ServiceError) : Clustered ReaderSource :=
  o ← in_objects (objects_get key);
  bytes ← of_result (ok_or o missing);
  batches ← of_result (map_err storage_service_error (reader_try_new bytes));
  mret (ReadShared batches).

Definition result_reader_clustered (principal : AuthenticatedPrincipal) (query_id : string)
    (now utc : Z) : Clustered ResultBatchReader :=
  known ← attempt (locally (result_reader principal query_id now));
  match known with
  | Ok reader => mret reader
  | Err _ =>
      shared ← shared_query principal query_id utc;
      _ ← reject_if (negb (String.eqb (qs_state (sq_status shared)) "completed"))
            results_after_completion;
      key ← of_result (ok_or (sq_result_key shared) shared_result_missing);
      source ← open_shared key shared_result_missing;
      mret {| rd_source := source; rd_skip := 0; rd_remaining := None |}
  end.

Definition result_page_clustered (principal : AuthenticatedPrincipal) (query_id : string)
    (offset limit now utc : Z) : Clustered ResultPage :=
  known ← attempt (locally (result_page principal query_id offset limit now));
  match known with
  | Ok page => mret page
  | Err _ =>
      status ← query_clustered principal query_id now utc;
      reader ← result_reader_clustered principal query_id now utc;
      batches ← of_result (read_to_end reader).1;
      let rows := qs_rows status in
      mret (page_of (slice_batches batches (page_start rows offset) (page_end rows offset limit))
              rows offset limit)
  end.

Definition result_partition_reader_clustered (principal : AuthenticatedPrincipal)
    (query_id : string) (partition partitions now utc : Z) : Clustered ResultBatchReader :=
  known ← attempt (locally (result_partition_reader principal query_id partition partitions
                              now));
  match known with
  | Ok reader => mret reader
  | Err _ =>
      _ ← reject_if ((partitions =? 0) || (partitions <=? partition)) invalid_partition;
      shared ← shared_query principal query_id utc;
      key ← of_result (ok_or (sq_result_key shared) results_after_completion);
      source ← open_shared key query_not_found;
      let batches := sq_batch_count shared in
      let start := partition_start batches partition partitions in
      let stop := partition_start batches (usize_add partition 1) partitions in
      mret {| rd_source := source; rd_skip := start; rd_remaining := Some (stop - start) |}
  end.

(** ** Several nodes over the shared stores *)

Record Local := {
  lo_service : ServiceState;
  lo_cluster : option ClusterContext;
  lo_publishers : list Publisher;
}.

Record World := {
  w_local : string → Local;
  w_store : St;
  w_objects : Ob;
}.

Definition node_of (w : World) (id : string) : Node :=
  {| nd_service := lo_service (w_local w id); nd_cluster := lo_cluster (w_local w id);
     nd_store := w_store w; nd_objects := w_objects w;
     nd_publishers := lo_publishers (w_local w id) |}.

Definition local_of (n : Node) : Local :=
  {| lo_service := nd_service n; lo_cluster := nd_cluster n;
     lo_publishers := nd_publishers n |}.

(** An operation on a node of the cluster. *)
Definition at_node {A} (id : string) (m : Clustered A) : M World ServiceError A :=
  λ w, let '(r, n) := m (node_of w id) in
       (r, {| w_local := λ i, if String.eqb i id then local_of n else w_local w i;
              w_store := nd_store n; w_objects := nd_objects n |}).
End Clustered.
