(* ===== verification/NodeSteps.v ===== *)
(** * What expiry does to query records

    [cleanup_expired] runs before most operations.  It keeps configuration and
    limits, drops exactly the records whose retention time is over, changes
    nothing of the others but their cancellation signal, and running it again
    at the same time changes neither records nor files. *)
From S2P Require Import Prelude Text Arrow DriverApi Auth Config Core Cluster Metadata.
From S2P Require Import ServiceData Results Service ServiceSpec ServiceCluster.
Import Core.Sessions Core.Queries.

Section Expiry.
Context `{ipc : ArrowIpc}.

(** A record up to its cancellation signal. *)
Definition record_view (r : QueryRecord) : QueryStatus * string * QueryData :=
  (query_status r, qr_owner r, qr_data r).

Lemma record_view_eq r r' :
  record_view r = record_view r' →
  query_status r = query_status r' ∧ qr_owner r = qr_owner r' ∧ qr_data r = qr_data r'.
Proof.
  intros Hv. split_and!; [exact (f_equal (λ v, v.1.1) Hv)|exact (f_equal (λ v, v.1.2) Hv)|].
  exact (f_equal snd Hv).
Qed.

Lemma record_view_data r r' : record_view r = record_view r' → qr_data r = qr_data r'.
Proof. intros Hv. by apply record_view_eq. Qed.

Definition same_records (s s' : ServiceState) : Prop :=
  record_view <$> records s' = record_view <$> records s ∧ disk s' = disk s ∧
  st_limits s' = st_limits s ∧ st_config s' = st_config s.

#[local] Instance same_records_trans : Transitive same_records.
Proof. intros s1 s2 s3 (?&?&?&?) (?&?&?&?). split_and!; congruence. Qed.

Lemma record_view_cancel_if p r : record_view (cancel_if p r) = record_view r.
Proof. unfold cancel_if. by destruct (p r). Qed.

Lemma expire_session_same out e s : same_records s (expire_session out e s).2.
Proof.
  destruct e as [id q]. rewrite expire_session_state. split_and!; try done. simpl.
  rewrite <- map_fmap_compose. apply map_fmap_ext. intros i r _. apply record_view_cancel_if.
Qed.

Lemma expire_sessions_same out entries : ∀ s, same_records s (expire_sessions out entries s).2.
Proof.
  intros s. rewrite (proj2 (expire_sessions_state out entries s)). revert s.
  induction entries as [|e entries IH]; intros s; [done|]. cbn [foldl].
  etrans; [apply (expire_session_same out e)|apply IH].
Qed.

(** The three phases of a clean-up. *)
Lemma cleanup_phases now s :
  ∃ s1, same_records s s1 ∧
    same_records (drop_expired_records now s1).2 (cleanup_expired now s).2.
Proof.
  unfold cleanup_expired. unfold mbind, M_bind, get_state, gets, modify.
  set (s0 := with_prepared _ s). set (l := expired_owned _ _ _).
  pose proof (expire_sessions_state "prepared_handle_expired" l s0) as [Hok _].
  pose proof (expire_sessions_same "prepared_handle_expired" l s0) as Hs.
  destruct (expire_sessions _ l s0) as [r s1]. simpl in Hok, Hs. subst r.
  exists s1. split; [etrans; [|exact Hs]; by split_and!|].
  unfold drop_expired_records, modify. apply expire_sessions_same.
Qed.

Lemma cleanup_static now s :
  st_limits (cleanup_expired now s).2 = st_limits s ∧
  st_config (cleanup_expired now s).2 = st_config s.
Proof.
  destruct (cleanup_phases now s) as (s1 & (_&_&Hl1&Hc1) & (_&_&Hl2&Hc2)).
  simpl in *. split; congruence.
Qed.

Lemma record_view_lookup s s' id :
  same_records s s' → record_view <$> records s' !! id = record_view <$> records s !! id.
Proof. intros (Hv&_). by rewrite <- !lookup_fmap, Hv. Qed.

Lemma cleanup_live now s id r :
  records (cleanup_expired now s).2 !! id = Some r →
  record_live (result_ttl (st_limits s)) now r = true.
Proof.
  destruct (cleanup_phases now s) as (s1 & (_&_&Hl&_) & Hd). intros Hr.
  pose proof (record_view_lookup _ _ id Hd) as Hv. rewrite Hr in Hv. simpl in Hv.
  destruct (retain _ (records s1) !! id) as [r1|] eqn:E; [|done]. simpl in Hv.
  apply retain_Some in E as [_ E]. rewrite Hl in E. unfold record_live in *.
  apply (inj Some), record_view_data in Hv. by rewrite Hv.
Qed.

(** A record that is not there before is not there after. *)
Lemma cleanup_absent now s id :
  records s !! id = None → records (cleanup_expired now s).2 !! id = None.
Proof.
  destruct (cleanup_phases now s) as (s1 & H1 & Hd). intros Hn.
  pose proof (record_view_lookup _ _ id H1) as Hv1. rewrite Hn in Hv1.
  pose proof (record_view_lookup _ _ id Hd) as Hv. simpl in Hv.
  rewrite retain_lookup in Hv. destruct (records s1 !! id); [done|].
  by destruct (records (cleanup_expired now s).2 !! id).
Qed.

(** When nothing has expired, records and files stay. *)
Lemma cleanup_nothing now s :
  (∀ id r, records s !! id = Some r → record_live (result_ttl (st_limits s)) now r = true) →
  same_records s (cleanup_expired now s).2.
Proof.
  intros Hall. destruct (cleanup_phases now s) as (s1 & H1 & Hd).
  etrans; [exact H1|]. etrans; [|exact Hd]. destruct H1 as (Hv & _ & Hl & _).
  assert (∀ id r, records s1 !! id = Some r →
    record_live (result_ttl (st_limits s1)) now r = true) as Hlive.
  { intros id r Hr. assert (record_view <$> records s !! id = Some (record_view r)) as Hr'.
    { rewrite <- lookup_fmap, <- Hv, lookup_fmap, Hr. done. }
    destruct (records s !! id) as [r0|] eqn:E0; [|done].
    apply (inj Some), record_view_data in Hr' as Hdata.
    rewrite Hl. specialize (Hall id r0 E0). unfold record_live in *. by rewrite <- Hdata. }
  split_and!; [| |done..]; simpl.
  - f_equal. apply map_eq. intros id. rewrite retain_lookup.
    destruct (records s1 !! id) as [r|] eqn:E; [|done]. by rewrite (Hlive id r E).
  - assert (retain (λ r, negb (record_live (result_ttl (st_limits s1)) now r)) (records s1) = ∅)
      as ->; [|done].
    apply map_eq. intros id. rewrite retain_lookup, lookup_empty.
    destruct (records s1 !! id) as [r|] eqn:E; [|done]. by rewrite (Hlive id r E).
Qed.

(** A second clean-up at the same time finds nothing to do. *)
Lemma cleanup_twice now s :
  let s1 := (cleanup_expired now s).2 in same_records s1 (cleanup_expired now s1).2.
Proof.
  intros s1. apply cleanup_nothing. intros id r Hr.
  unfold s1. rewrite (proj1 (cleanup_static now s)). by eapply cleanup_live.
Qed.
(** The record of one's own query, when nothing expires. *)
Lemma owned_record_idle p id now s r :
  records s !! id = Some r → qr_owner r = principal_id p → cleanup_expired now s = (Ok tt, s) →
  owned_record p id now s = (Ok r, s).
Proof.
  intros Hr Ho Hidle. unfold owned_record. unfold_M. rewrite Hidle. cbn. rewrite Hr. cbn.
  by rewrite Ho, String.eqb_refl.
Qed.
End Expiry.

(** ** The clustered operations on a standalone node

    Without a cluster every clustered operation leaves the shared stores alone
    and takes the local service through changes its principal is entitled to.
    Both gateways build on these facts. *)

Section NodeSteps.
Context `{ipc : ArrowIpc}.
Context {St : Type} `{!ClusterStateStore St}.
Context {Ob : Type} `{!ResultObjectStore Bytes Ob}.
Context `{!Serde SharedSession} `{!Serde SharedQuery} `{!Serde SharedPrepared}.

Abbreviation Node := (Node (St:=St) (Ob:=Ob)).

(** A local operation that changes nothing. *)
Lemma locally_run {A} (m : M ServiceState ServiceError A) r (nd : Node) :
  m (nd_service nd) = (r, nd_service nd) → locally m nd = (r, nd).
Proof. intros Hm. unfold locally, on. rewrite Hm. by destruct r, nd. Qed.

(** ** The service of a standalone node *)

Section Alone.
Context (p : AuthenticatedPrincipal) (am : Ambient) (doomed : gset string).

(** A computation that leaves the stores alone and takes the local service
    through [R], which composes. *)
Definition alone {E A} (R : ServiceState → ServiceState → Prop) (m : M Node E A) : Prop :=
  ∀ n, nd_cluster n = None → pending am doomed (nd_service n) →
    nd_cluster (m n).2 = None ∧ nd_store (m n).2 = nd_store n ∧
    nd_objects (m n).2 = nd_objects n ∧ R (nd_service n) (nd_service (m n).2).

Abbreviation stepwise := (alone (rtc (step p am doomed))).
Abbreviation evolving := (alone (evolution p am doomed)).

Lemma stepwise_evolving {E A} (m : M Node E A) : stepwise m → evolving m.
Proof.
  intros Hm n Hc Hp. destruct (Hm n Hc Hp) as (? & ? & ? & ?).
  split_and!; [done..|]. by apply steps_evolution.
Qed.

Lemma stepwise_quiet {E A} (m : M Node E A) : (∀ n, (m n).2 = n) → stepwise m.
Proof. intros Hm n Hc Hp. by rewrite Hm. Qed.

Lemma stepwise_bind {E A B} (m : M Node E A) (f : A → M Node E B) :
  stepwise m → (∀ a, stepwise (f a)) → stepwise (mbind f m).
Proof.
  intros Hm Hf n Hc Hp. unfold mbind, M_bind. destruct (Hm n Hc Hp) as (H1 & H2 & H3 & H4).
  destruct (m n) as [[a|e] n1]; simpl in *; [|done].
  destruct (Hf a n1 H1 (steps_pending _ _ _ _ _ H4 Hp)) as (K1 & K2 & K3 & K4).
  split_and!; [done|congruence..|by etrans].
Qed.

Lemma evolving_bind {E A B} (m : M Node E A) (f : A → M Node E B) :
  stepwise m → (∀ a, evolving (f a)) → evolving (mbind f m).
Proof.
  intros Hm Hf n Hc Hp. unfold mbind, M_bind. destruct (Hm n Hc Hp) as (H1 & H2 & H3 & H4).
  destruct (m n) as [[a|e] n1]; simpl in *; [|split_and!; [done..|by apply steps_evolution]].
  destruct (Hf a n1 H1 (steps_pending _ _ _ _ _ H4 Hp)) as (K1 & K2 & K3 & K4).
  split_and!; [done|congruence..|by eapply steps_then_evolution].
Qed.

(** Steps after the registration. *)
Lemma evolving_steps {E A B} (m : M Node E A) (f : A → M Node E B) :
  evolving m → (∀ a, stepwise (f a)) → evolving (mbind f m).
Proof.
  intros Hm Hf n Hc Hp. unfold mbind, M_bind. destruct (Hm n Hc Hp) as (H1 & H2 & H3 & H4).
  destruct (m n) as [[a|e] n1]; simpl in *; [|done].
  assert (pending am doomed (nd_service n1)) as Hp1.
  { eapply evolution_invariant; [| |exact H4|done].
    - intros s s' Hs. by eapply step_pending.
    - by intros s s' []. }
  destruct (Hf a n1 H1 Hp1) as (K1 & K2 & K3 & K4).
  split_and!; [done|congruence..|by eapply evolution_then_steps].
Qed.

(** Followed by something that changes nothing. *)
Lemma evolving_then {E A B} (m : M Node E A) (f : A → M Node E B) :
  evolving m → (∀ a n, nd_cluster n = None → (f a n).2 = n) → evolving (mbind f m).
Proof.
  intros Hm Hf n Hc Hp. unfold mbind, M_bind. destruct (Hm n Hc Hp) as (H1 & H2 & H3 & H4).
  destruct (m n) as [[a|e] n1]; simpl in *; [|done]. rewrite Hf by done. done.
Qed.

Lemma alone_locally {A} R (m : M ServiceState ServiceError A) :
  (∀ s, pending am doomed s → R s (m s).2) → alone R (locally m).
Proof.
  intros Hm n Hc Hp. unfold locally, on. specialize (Hm _ Hp).
  destruct (m (nd_service n)) as [r s]. done.
Qed.

Lemma alone_attempt {E A} R (m : M Node E A) : alone R m → alone R (attempt m).
Proof.
  intros Hm n Hc Hp. specialize (Hm n Hc Hp). unfold attempt. by destruct (m n) as [r n'].
Qed.

(** An operation of the service under another type of errors. *)
Lemma alone_on {E F A} R (f : F → E) (m : M Node F A) :
  alone R m → alone R (on (λ n, n) (λ n _, n) f m).
Proof.
  intros Hm n Hc Hp. specialize (Hm n Hc Hp). unfold on. by destruct (m n) as [r n'].
Qed.

(** Without a cluster there is nothing to restore. *)
Lemma stepwise_no_cluster {A} missing (f : ClusterContext → M Node ServiceError A) :
  stepwise (mbind f (require_cluster missing)).
Proof.
  intros n Hc Hp. unfold mbind, M_bind, require_cluster. unfold_M. by rewrite Hc.
Qed.
End Alone.

(** ** The operations *)

Section Operations.
Context (p : AuthenticatedPrincipal) (ca : ClusterCall) (doomed : gset string).
Abbreviation am := (ca_ambient ca).
Abbreviation stepwise := (alone am doomed (rtc (step p am doomed))).
Abbreviation evolving := (alone am doomed (evolution p am doomed)).

Lemma stepwise_ret {E A} (a : A) : stepwise (mret (M:=M Node E) a).
Proof. by apply stepwise_quiet. Qed.
Lemma stepwise_result {E A} (r : result A E) : stepwise (of_result r).
Proof. by apply stepwise_quiet. Qed.
Lemma stepwise_local {A} (m : M ServiceState ServiceError A) :
  evolves p am doomed m → stepwise (locally m).
Proof. intros Hm. by apply alone_locally. Qed.
Lemma stepwise_try {A} (m : M ServiceState ServiceError A) (f : _ → M Node ServiceError A) :
  evolves p am doomed m → (∀ r, stepwise (f r)) → stepwise (mbind f (attempt (locally m))).
Proof.
  intros Hm Hf. apply stepwise_bind; [|done]. by apply alone_attempt, stepwise_local.
Qed.

Lemma stepwise_session id : stepwise (session_clustered p id ca).
Proof.
  apply stepwise_try; [apply evolves_session|]. intros [snap|e]; [apply stepwise_ret|].
  apply stepwise_no_cluster.
Qed.

(** A local operation after [f]'s look at the cluster. *)
Lemma stepwise_cluster {A} (f : option ClusterContext → M Node ServiceError A) :
  stepwise (f None) → stepwise (mbind f (gets nd_cluster)).
Proof. intros Hf n Hc Hp. unfold mbind, M_bind, gets. rewrite Hc. by apply Hf. Qed.

Lemma stepwise_create target ov : stepwise (create_session_clustered p target ov ca).
Proof. apply stepwise_cluster, stepwise_local, evolves_create. Qed.

Lemma stepwise_mutate id v t ov : stepwise (mutate_session_clustered p id v t ov ca).
Proof.
  apply stepwise_bind; [apply stepwise_session|intros _].
  apply stepwise_bind; [apply stepwise_local, evolves_mutate|intros snap].
  apply stepwise_cluster, stepwise_ret.
Qed.

Lemma stepwise_close id : stepwise (close_session_clustered p id ca).
Proof.
  apply stepwise_bind; [apply stepwise_session|intros _].
  apply stepwise_cluster, stepwise_local, evolves_close.
Qed.

Lemma publish_quiet st (n : Node) :
  nd_cluster n = None → (publish_cluster_query p st ca n).2 = n.
Proof. intros Hc. unfold publish_cluster_query. unfold_M. by rewrite Hc. Qed.

Lemma evolving_submit snap sql params close :
  evolving (status ← locally (submit_query p snap sql params close am);
            _ ← publish_cluster_query p status ca; mret (M:=M Node ServiceError) status).
Proof.
  apply evolving_then.
  - apply alone_locally. intros s Hs. by apply submits_submit.
  - intros status n Hc. unfold mbind, M_bind. pose proof (publish_quiet status n Hc) as Hq.
    by destruct (publish_cluster_query p status ca n) as [[?|?] ?].
Qed.

Lemma evolving_submit_session id sql : evolving (submit_session_query_clustered p id sql ca).
Proof. apply evolving_bind; [apply stepwise_session|]. intros. apply evolving_submit. Qed.

Lemma evolving_submit_stateless t ov sql :
  evolving (submit_stateless_query_clustered p t ov sql ca).
Proof. apply evolving_bind; [apply stepwise_create|]. intros. apply evolving_submit. Qed.

Lemma stepwise_no_shared {A} id (f : SharedQuery → M Node ServiceError A) :
  stepwise (mbind f (shared_query p id (ca_utc ca))).
Proof.
  intros n Hc Hp. unfold shared_query, require_cluster. unfold_M. by rewrite Hc.
Qed.

Lemma stepwise_query id : stepwise (query_clustered p id (ca_now ca) (ca_utc ca)).
Proof.
  apply stepwise_try; [apply evolves_query|]. intros [st|e]; [apply stepwise_ret|].
  apply stepwise_no_shared.
Qed.

Lemma stepwise_reader id : stepwise (result_reader_clustered p id (ca_now ca) (ca_utc ca)).
Proof.
  apply stepwise_try; [apply (evolves_read p am doomed id (λ r fs, _))|].
  intros [rd|e]; [apply stepwise_ret|apply stepwise_no_shared].
Qed.

Lemma stepwise_page id offset limit :
  stepwise (result_page_clustered p id offset limit (ca_now ca) (ca_utc ca)).
Proof.
  apply stepwise_try; [apply (evolves_read p am doomed id (λ r fs, _))|].
  intros [page|e]; [apply stepwise_ret|].
  apply stepwise_bind; [apply stepwise_query|intros status].
  apply stepwise_bind; [apply stepwise_reader|intros rd].
  apply stepwise_bind; [apply stepwise_result|intros; apply stepwise_ret].
Qed.


Lemma stepwise_partition id i n :
  stepwise (result_partition_reader_clustered p id i n (ca_now ca) (ca_utc ca)).
Proof.
  apply stepwise_try; [apply evolves_partition|]. intros [rd|e]; [apply stepwise_ret|].
  apply stepwise_bind; [|intros _; apply stepwise_no_shared].
  apply stepwise_quiet. intros nd. by unfold reject_if; destruct (_ || _).
Qed.

Lemma stepwise_prepared h : stepwise (prepared_statement_clustered p h ca).
Proof.
  apply stepwise_try; [apply evolves_prepared|]. intros [st|e]; [apply stepwise_ret|].
  apply stepwise_no_cluster.
Qed.

Lemma stepwise_create_prepared id sql : stepwise (create_prepared_statement_clustered p id sql ca).
Proof.
  apply stepwise_bind; [apply stepwise_session|intros _].
  apply stepwise_bind; [apply stepwise_local, evolves_create_prepared|intros st].
  apply stepwise_cluster, stepwise_ret.
Qed.

Lemma stepwise_bind_prepared (hash_hex : string → string) h ps :
  stepwise (bind_prepared_statement_clustered hash_hex p h ps ca).
Proof.
  apply stepwise_bind; [apply stepwise_prepared|intros _].
  apply stepwise_bind; [apply stepwise_local, evolves_bind_prepared|intros st].
  apply stepwise_cluster, stepwise_ret.
Qed.

Lemma stepwise_prepared_update h : stepwise (execute_prepared_update_clustered p h ca).
Proof.
  apply stepwise_bind; [apply stepwise_prepared|intros _].
  apply stepwise_local, evolves_prepared_update.
Qed.

Lemma stepwise_close_prepared h : stepwise (close_prepared_statement_clustered p h ca).
Proof.
  apply stepwise_bind; [apply stepwise_prepared|intros _].
  apply stepwise_bind; [apply stepwise_local, evolves_close_prepared|intros _].
  apply stepwise_cluster, stepwise_ret.
Qed.

Lemma evolving_execute_prepared h : evolving (execute_prepared_statement_clustered p h ca).
Proof.
  apply evolving_bind; [apply stepwise_prepared|intros st].
  apply evolving_bind; [apply stepwise_session|intros snap]. apply evolving_submit.
Qed.
End Operations.
End NodeSteps.
