(* ===== verification/SharedSessions.v ===== *)
(** * Sessions of a cluster

    What the clustered session operations do, over any cluster store that meets
    its contract and answers: a session created on one node is restored on any
    other; a node that holds a copy of a session mutates that copy and
    overwrites the shared one, whatever the other nodes have written there. *)
From S2P Require Import Prelude Text Arrow DriverApi Auth Config Core Cluster Metadata.
From S2P Require Import ClusterFacts ClusterStores ServiceData Results Service ServiceSpec.
From S2P Require Import NodeSteps ServiceCluster.
Import Core.Sessions Core.Queries.

Section SharedSessions.
Context `{ipc : ArrowIpc}.
Context {St : Type} `{!ClusterStateStore St} `{!Observable St}.
Context `{!ClusterContract St} `{!ClusterAvailable St}.
Context {Ob : Type} `{!ResultObjectStore Bytes Ob}.
Context `{!Serde SharedSession} `{!SerdeLaws SharedSession}.

Abbreviation Node := (Node (St:=St) (Ob:=Ob)).
Abbreviation World := (World (St:=St) (Ob:=Ob)).

(** A resource filed under its own key, at a version that can still grow. *)
Definition filed (st : St) (kind id : string) (principal : AuthenticatedPrincipal)
    (v : Value) (expires : Z) : Prop :=
  ∃ r, resource_of st (kind, id) = Some r ∧ resource_kind r = kind ∧ resource_id r = id ∧
    resource_principal r = principal_id principal ∧ payload r = v ∧
    resource_expires_at r = expires.

(** The shared record of a session. *)
Definition shares (st : St) (principal : AuthenticatedPrincipal) (id : string)
    (shared : SharedSession) (expires : Z) : Prop :=
  ∃ v, filed st "session" id principal v expires ∧ from_value v = Ok shared.

(** The node has its own copy [s] of a session of the principal. *)
Definition serves (n : Node) (principal : AuthenticatedPrincipal) (id : string)
    (s : Session) : Prop :=
  sessions (st_sessions (nd_service n)) !! id = Some s ∧
  ∃ t, session_owners (nd_service n) !! id
       = Some {| so_principal := principal_id principal; so_last_access := t |}.

Definition clustered (n : Node) : Prop :=
  is_Some (nd_cluster n) ∧ available (nd_store n).

(** *** Store calls *)

Lemma get_filed st kind id p v expires utc :
  available st → filed st kind id p v expires → utc < expires →
  ∃ r, get_resource kind id (principal_id p) utc st = (Ok (Some r), st) ∧
    resource_of st (kind, id) = Some r ∧ resource_kind r = kind ∧ resource_id r = id ∧
    resource_principal r = principal_id p ∧ payload r = v.
Proof.
  intros Ha (r & Hr & Hk & Hi & Hp & Hv & Hx) Hlt. exists r.
  rewrite (get_owned _ _ _ _ _ r) by done. rewrite Hx, (proj2 (Z.ltb_lt _ _) Hlt).
  split_and!; done.
Qed.

(** A write the store grants files the resource. *)
Lemma put_files st r expected p :
  available st → resource_principal r = principal_id p →
  match resource_of st (resource_kind r, resource_id r) with
  | None => expected = Some 0
  | Some old => resource_principal old = principal_id p ∧
                expected = Some (resource_version old)
  end →
  ∃ r' st', put_resource r expected st = (Ok r', st') ∧ available st' ∧
    filed st' (resource_kind r) (resource_id r) p (payload r) (resource_expires_at r).
Proof.
  intros Ha Hp He. rewrite <- Hp in He.
  destruct (put_granted r expected st Ha He) as (r' & st' & E). exists r', st'. split; [done|].
  pose proof (put_spec r expected st) as Hs. rewrite E in Hs.
  destruct Hs as (Hr' & Hv & Hp' & Hx & Hkey & _).
  pose proof (available_op (OpPut r expected) st Ha) as Ha'. simpl in Ha'. rewrite E in Ha'.
  split; [done|]. injection Hkey as Hk Hi. exists r'. split_and!; congruence.
Qed.

(** Rewriting a resource that was just read. *)
Lemma rewrite_filed st kind id p r v expires :
  available st → resource_of st (kind, id) = Some r → resource_kind r = kind →
  resource_id r = id → resource_principal r = principal_id p →
  ∃ r' st', put_resource (rewritten r v expires) (Some (resource_version r)) st = (Ok r', st') ∧
    available st' ∧ filed st' kind id p v expires.
Proof.
  intros Ha Hr <- <- Hp. apply (put_files st (rewritten r v expires)); [done..|]. simpl.
  by rewrite Hr.
Qed.

(** *** A node that holds a copy *)

Definition touched_owner (principal : AuthenticatedPrincipal) (id : string) (now : Z)
    (s : ServiceState) : ServiceState :=
  with_session_owners (<[id :=
    {| so_principal := principal_id principal; so_last_access := now |}]>) s.

Lemma session_known n p id s now :
  serves n p id s →
  session p id now (nd_service n)
  = (Ok (snapshot_of s), touched_owner p id now (nd_service n)).
Proof.
  intros [Hs [t Ho]]. unfold session, require_session_owner, in_sessions, snapshot. unfold_M.
  rewrite Ho. simpl. rewrite String.eqb_refl. simpl. rewrite Hs. done.
Qed.

Lemma session_clustered_known n p id s ca :
  serves n p id s →
  session_clustered p id ca n
  = (Ok (snapshot_of s), with_service (touched_owner p id (ca_now ca) (nd_service n)) n).
Proof.
  intros Hs. unfold session_clustered, locally. unfold_M. by rewrite (session_known n p id s).
Qed.

(** The local half of a mutation: it looks at nothing but the node's copy. *)
Definition mutated_copy (s : Session) (overrides : gmap string (option string)) : Session :=
  bump s (session_target s) (apply_mutations (session_overrides s) overrides).

Lemma mutate_session_known st p id s t overrides now :
  sessions (st_sessions st) !! id = Some s →
  session_owners st !! id = Some {| so_principal := principal_id p; so_last_access := t |} →
  shutting_down st = false →
  mutate_session p id (session_version s) None overrides now st
  = (Ok (snapshot_of (mutated_copy s overrides)),
     with_sessions (set_sessions (<[id := mutated_copy s overrides]>))
       (touched_owner p id now st)).
Proof.
  intros Hs Ho Hd. unfold mutate_session, ensure_available, require_session_owner, in_sessions,
    mutate. unfold_M. rewrite Hd, Ho. simpl. rewrite String.eqb_refl. simpl. rewrite Hs. simpl.
  rewrite Z.eqb_refl. done.
Qed.

Lemma mutate_clustered_known n p id s shared expires overrides ca :
  serves n p id s → shutting_down (nd_service n) = false → clustered n →
  shares (nd_store n) p id shared expires → ca_utc ca < expires →
  let s' := mutated_copy s overrides in
  ∃ n', mutate_session_clustered p id (session_version s) None overrides ca n
        = (Ok (snapshot_of s'), n') ∧
    serves n' p id s' ∧ available (nd_store n') ∧
    shares (nd_store n') p id
      {| ss_snapshot := snapshot_of s'; ss_quota_permit := ss_quota_permit shared |}
      (ca_utc ca + session_ttl_of n).
Proof.
  intros Hs Hd [[cc Hc] Ha] (v & Hf & Hv) Hlt s'. unfold mutate_session_clustered.
  unfold mbind at 1, M_bind at 1. rewrite (session_clustered_known _ _ _ s) by done.
  destruct Hs as [Hs [t Ho]]. unfold mbind at 1, M_bind at 1, locally at 1, on at 1. simpl.
  rewrite (mutate_session_known _ p id s (ca_now ca));
    [|done|simpl; by rewrite lookup_insert_eq|done].
  fold s'. simpl. unfold mbind at 1, M_bind at 1, gets. simpl. rewrite Hc.
  destruct (get_filed _ _ _ _ _ _ _ Ha Hf Hlt) as (r & Hg & Hr & Hk & Hi & Hp & Hpay).
  unfold shared_resource, in_store, deserialize, serialize, session_ttl_of. unfold_M. simpl.
  rewrite Hg. simpl. rewrite Hpay, Hv. simpl.
  destruct (serde_total {| ss_snapshot := snapshot_of s';
    ss_quota_permit := ss_quota_permit shared |}) as [v' Hv']. rewrite Hv'. simpl.
  destruct (rewrite_filed _ _ _ _ r v' (chrono_deadline
    (session_ttl (st_limits (nd_service n))) (ca_utc ca)) Ha Hr Hk Hi Hp)
    as (r' & st' & Hput & Ha' & Hf'). rewrite Hput. simpl.
  eexists. split; [done|]. split_and!; simpl; [|done|].
  - split; simpl; [by rewrite lookup_insert_eq|]. exists (ca_now ca). by rewrite lookup_insert_eq.
  - exists v'. split; [done|]. by apply serde_roundtrip.
Qed.

(** *** Creating and restoring *)

#[local] Opaque next_session_id.

(** What a successful [create_session] returns. *)
Lemma create_session_snapshot p name ov am s snap s' :
  create_session p name ov am s = (Ok snap, s') →
  ∃ t, config_target (st_config s) name = Some t ∧
    snap = snapshot_of {| session_id := snap_id snap; session_version := 1;
                          session_target := t; session_overrides := ov |}.
Proof.
  unfold create_session, ensure_available. unfold_M.
  destruct (shutting_down s); [done|]. simpl.
  destruct (cleanup_ok (am_now am) s) as [Hok _].
  destruct (cleanup_static (am_now am) s) as [_ Hcfg].
  destruct (cleanup_expired (am_now am) s) as [r s1]. simpl in *. subst r.
  unfold enforce_session_quota. unfold_M. simpl. destruct (_ <=? _); [done|]. simpl.
  unfold authorized_target, audit. unfold_M. destruct (negb _); [done|]. simpl.
  rewrite Hcfg. destruct (config_target (st_config s) name) as [t|]; [|done]. simpl.
  unfold in_sessions, create_with_overrides. unfold_M.
  destruct (next_session_id _ _ _) as [id ids']. simpl. intros [= <- _]. by exists t.
Qed.

Lemma create_clustered_shares (n : Node) p name ov ca snap n' :
  is_Some (nd_cluster n) →
  create_session_clustered p name ov ca n = (Ok snap, n') →
  ∃ t permit, config_target (st_config (nd_service n)) name = Some t ∧
    snap = snapshot_of {| session_id := snap_id snap; session_version := 1;
                          session_target := t; session_overrides := ov |} ∧
    shares (nd_store n') p (snap_id snap)
      {| ss_snapshot := snap; ss_quota_permit := permit |} (ca_utc ca + session_ttl_of n).
Proof.
  intros [cc Hc]. unfold create_session_clustered, locally, in_store, serialize, session_ttl_of.
  unfold_M. rewrite Hc. unfold ensure_available. unfold_M.
  destruct (shutting_down (nd_service n)); [done|]. simpl.
  destruct (acquire_quota _ _ _ _ _ _ (nd_store n)) as [[permit|e] st1]; [|done]. simpl.
  destruct (create_session p name ov (ca_ambient ca) (nd_service n)) as [[sn|e] s1] eqn:Ec;
    simpl; [|by destruct (release_quota permit st1)].
  destruct (serde_total {| ss_snapshot := sn; ss_quota_permit := permit |}) as [v Hv].
  rewrite Hv. simpl.
  match goal with |- context [put_resource ?r ?e ?st] =>
    pose proof (put_spec r e st) as Hput; destruct (put_resource r e st) as [[r'|er] st2] end;
    simpl in *.
  2:{ destruct (close_session p (snap_id sn) (ca_now ca) s1). simpl.
      by destruct (release_quota permit st2). }
  intros [= <- <-]. apply create_session_snapshot in Ec as (t & Ht & Hsn). exists t, permit.
  split; [done|]. split; [done|]. exists v. split; [|by apply serde_roundtrip].
  destruct Hput as (Hr' & Hp & Ho & Hx & Hk & _). simpl in *. exists r'. by simplify_eq.
Qed.

(** The state of a node that has restored a session. *)
Lemma restore_session_spec (m : Node) p id t snap permit expires cb :
  clustered m → session_owners (nd_service m) !! id = None →
  shares (nd_store m) p id {| ss_snapshot := snap; ss_quota_permit := permit |} expires →
  ca_utc cb < expires → snap_id snap = id →
  config_target (st_config (nd_service m)) (snap_target snap) = Some t →
  target_name t = snap_target snap → target_engine t = snap_engine snap →
  ∃ m', session_clustered p id cb m = (Ok snap, m') ∧
    serves m' p id {| session_id := id; session_version := snap_version snap;
                      session_target := t; session_overrides := snap_overrides snap |}.
Proof.
  intros [[cc Hc] Ha] Hn (v & Hf & Hv) Hlt Hid Ht Htn Hte.
  unfold session_clustered, locally. unfold_M.
  unfold session at 1, require_session_owner. unfold_M. rewrite Hn.
  simpl. unfold restore_session, require_cluster, shared_resource, deserialize, in_store. unfold_M.
  simpl. rewrite Hc. simpl.
  destruct (get_filed _ _ _ _ _ _ _ Ha Hf Hlt) as (r & Hg & _ & _ & _ & _ & Hpay).
  rewrite Hg. simpl. rewrite Hpay, Hv. simpl. rewrite Ht. simpl.
  unfold locally, in_sessions, restore. unfold_M. simpl.
  rewrite Htn, Hte, !String.eqb_refl. simpl. eexists. split; [done|]. rewrite Hid.
  split; simpl; [by rewrite lookup_insert_eq|]. eexists. by rewrite lookup_insert_eq.
Qed.

(** A principal who does not own the shared record learns nothing. *)
Lemma restore_session_foreign (m : Node) p q id shared expires cb :
  clustered m → session_owners (nd_service m) !! id = None →
  shares (nd_store m) p id shared expires → ca_utc cb < expires →
  principal_id q ≠ principal_id p →
  ∃ e, session_clustered q id cb m = (Err e, m) ∧ se_kind e = NotFound.
Proof.
  intros [[cc Hc] Ha] Hn (v & (r & Hr & _ & _ & Hp & _ & Hx) & _) Hlt Hne.
  unfold session_clustered, locally. unfold_M.
  unfold session at 1, require_session_owner. unfold_M. rewrite Hn.
  simpl. unfold restore_session, require_cluster, shared_resource, in_store. unfold_M.
  simpl. rewrite Hc. simpl. rewrite (get_foreign _ _ _ _ _ r) by (try done; congruence).
  simpl. eexists. by destruct m.
Qed.

(** C36: Sessions move between nodes.  A session created on one node is found on
    every other node of the cluster that shares its configuration and does not
    know the session yet: the node restores it and answers with the same
    snapshot, from then on from its own copy.  For any other principal the
    session does not exist there, and nothing changes. *)
Theorem sessions_move_between_nodes (n m n' : Node) p q name ov ca cb snap :
  is_Some (nd_cluster n) → clustered m →
  create_session_clustered p name ov ca n = (Ok snap, n') →
  nd_store m = nd_store n' → st_config (nd_service m) = st_config (nd_service n) →
  (∀ k t, config_target (st_config (nd_service n)) k = Some t → target_name t = k) →
  session_owners (nd_service m) !! snap_id snap = None →
  ca_utc cb < ca_utc ca + session_ttl_of n → principal_id q ≠ principal_id p →
  (∃ m' s, session_clustered p (snap_id snap) cb m = (Ok snap, m') ∧
     serves m' p (snap_id snap) s ∧ snapshot_of s = snap) ∧
  (∃ e, session_clustered q (snap_id snap) cb m = (Err e, m) ∧ se_kind e = NotFound).
Proof.
  intros Hn Hm E Hst Hcfg Hnamed Ho Hlt Hne.
  destruct (create_clustered_shares _ _ _ _ _ _ _ Hn E) as (t & permit & Ht & Hsnap & Hsh).
  rewrite <- Hst in Hsh. split; [|by eapply restore_session_foreign].
  assert (target_name t = name) as Htn by eauto.
  destruct (restore_session_spec m p (snap_id snap) t snap permit
    (ca_utc ca + session_ttl_of n) cb) as (m' & E' & Hs); try done.
  - rewrite Hsnap. simpl. by rewrite Hcfg, Htn.
  - by rewrite Hsnap.
  - by rewrite Hsnap.
  - exists m'. eexists. split; [done|]. split; [exact Hs|]. rewrite Hsnap at 3. by rewrite Hsnap.
Qed.

(** *** Two nodes *)

Lemma node_of_other (w : World) i j (n : Node) :
  i ≠ j →
  node_of {| w_local := λ k, if String.eqb k j then local_of n else w_local w k;
             w_store := nd_store n; w_objects := nd_objects n |} i
  = {| nd_service := nd_service (node_of w i); nd_cluster := nd_cluster (node_of w i);
       nd_store := nd_store n; nd_objects := nd_objects n;
       nd_publishers := nd_publishers (node_of w i) |}.
Proof. intros Hn%String.eqb_neq. unfold node_of. simpl. by rewrite Hn. Qed.

(** Closing a session on one node leaves the copies of the other nodes in
    use. *)
Lemma closing_leaves_copies (w w1 : World) a b p id s ca cb :
  a ≠ b → serves (node_of w b) p id s →
  at_node a (close_session_clustered p id ca) w = (Ok tt, w1) →
  (at_node b (session_clustered p id cb) w1).1 = Ok (snapshot_of s).
Proof.
  intros Hab Hb E. unfold at_node in *.
  destruct (close_session_clustered p id ca (node_of w a)) as [r n1]. simplify_eq.
  rewrite (node_of_other w b a n1) by done. by rewrite (session_clustered_known _ p id s).
Qed.

(** Updates of two nodes overwrite each other.  Two nodes of a cluster hold
    a copy of the same session at the same version.  Mutations on both that
    expect that version both succeed: the second looks at its own copy only,
    reads the current version of the shared record just before writing, and so
    replaces the first node's update. *)
Theorem stale_nodes_overwrite_updates (w : World) a b p id sa sb shared expires oa ob ca cb :
  a ≠ b →
  serves (node_of w a) p id sa → serves (node_of w b) p id sb →
  session_version sb = session_version sa →
  shutting_down (nd_service (node_of w a)) = false →
  shutting_down (nd_service (node_of w b)) = false →
  clustered (node_of w a) → clustered (node_of w b) →
  shares (w_store w) p id shared expires → ca_utc ca < expires →
  ca_utc cb < ca_utc ca + session_ttl_of (node_of w a) →
  let v := session_version sa in
  ∃ w1 w2 until,
    at_node a (mutate_session_clustered p id v None oa ca) w
      = (Ok (snapshot_of (mutated_copy sa oa)), w1) ∧
    at_node b (mutate_session_clustered p id v None ob cb) w1
      = (Ok (snapshot_of (mutated_copy sb ob)), w2) ∧
    serves (node_of w2 a) p id (mutated_copy sa oa) ∧
    shares (w_store w2) p id
      {| ss_snapshot := snapshot_of (mutated_copy sb ob);
         ss_quota_permit := ss_quota_permit shared |} until.
Proof.
  intros Hab Ha Hb Hver Hda Hdb Hca Hcb Hsh Hlt Hlt2 v. unfold at_node.
  destruct (mutate_clustered_known _ p id sa shared expires oa ca Ha Hda Hca Hsh Hlt)
    as (n1 & E1 & Hs1 & Hav1 & Hsh1). fold v in E1.
  destruct (mutate_clustered_known
    {| nd_service := nd_service (node_of w b); nd_cluster := nd_cluster (node_of w b);
       nd_store := nd_store n1; nd_objects := nd_objects n1;
       nd_publishers := nd_publishers (node_of w b) |} p id sb
    {| ss_snapshot := snapshot_of (mutated_copy sa oa);
       ss_quota_permit := ss_quota_permit shared |}
    (ca_utc ca + session_ttl_of (node_of w a)) ob cb)
    as (n2 & E2 & Hs2 & Hav2 & Hsh2); try done.
  { split; [by apply Hcb|done]. }
  rewrite Hver in E2. fold v in E2. rewrite E1. eexists _, _, _. split; [done|].
  rewrite (node_of_other w b a n1) by done. rewrite E2. split; [done|]. split; [|exact Hsh2].
  rewrite (node_of_other _ a b) by done. unfold node_of. simpl. by rewrite String.eqb_refl.
Qed.
End SharedSessions.
