(* ===== verification/SharedResults.v ===== *)
(** * Results of a cluster

    Once the publisher of a completed query has run, every node of the cluster
    answers pages, readers and partitions of the result exactly as the node
    that ran the query does. *)
From S2P Require Import Prelude Text Arrow DriverApi Auth Config Core Cluster ClusterFacts.
From S2P Require Import ClusterStores Metadata ServiceData Results ResultsFacts Service.
From S2P Require Import ServiceSpec ServiceCluster NodeSteps SharedSessions.
Import Core.Sessions Core.Queries.

(** An object store that accepts a key keeps what was put there. *)
Class ObjectStoreLaws (Bytes Ob : Type) `{ResultObjectStore Bytes Ob} := {
  accepts : Ob → string → Prop;
  put_then_get ob key bytes :
    accepts ob key →
    ∃ ob', objects_put key bytes ob = (Ok tt, ob') ∧
           objects_get key ob' = (Ok (Some bytes), ob');
}.

Section SharedResults.
Context `{ipc : ArrowIpc}.
Context {St : Type} `{!ClusterStateStore St} `{!Observable St}.
Context `{!ClusterContract St} `{!ClusterAvailable St}.
Context {Ob : Type} `{!ResultObjectStore Bytes Ob} `{!ObjectStoreLaws Bytes Ob}.
Context `{!Serde SharedQuery} `{!SerdeLaws SharedQuery}.
Variable hash_hex : string → string.

Abbreviation Node := (Node (St:=St) (Ob:=Ob)).

(** *** A finished result on the node that has it *)

(** The data of a completed query that keeps [bs]. *)
Definition finished_data (d : QueryData) (fs : FileSystem) (bs : list RecordBatch) : Prop :=
  qd_error d = None ∧ qd_state d = "completed" ∧
  match qd_storage d with
  | InMemory l => l = bs
  | Spill path None => open_reader path fs = Ok (Ok <$> bs)
  | Spill _ (Some _) => False
  end.

(** The node has, after expiry, the completed query of the principal. *)
Definition holds_result (s : ServiceState) (p : AuthenticatedPrincipal) (q : string)
    (now : Z) (status : QueryStatus) (bs : list RecordBatch) : Prop :=
  let s1 := (cleanup_expired now s).2 in
  ∃ r, records s1 !! q = Some r ∧ qr_owner r = principal_id p ∧ query_status r = status ∧
    finished_data (qr_data r) (disk s1) bs.

(** What a reader yields when it is read to the end. *)
Definition read_all (r : result ResultBatchReader ServiceError) :
    result (list RecordBatch) ServiceError :=
  let? r := r in (read_to_end r).1.

(** The page of a result of these batches and this number of rows. *)
Definition result_page_of (bs : list RecordBatch) (rows offset limit : Z) : ResultPage :=
  page_of (slice_batches bs (page_start rows offset) (page_end rows offset limit))
    rows offset limit.

(** The batches of a partition. *)
Definition partition_of (bs : list RecordBatch) (i k : Z) : list RecordBatch :=
  let n := Z.of_nat (length bs) in
  take (Z.to_nat (partition_start n (usize_add i 1) k - partition_start n i k))
    (drop (Z.to_nat (partition_start n i k)) bs).

Lemma finished_page d fs bs offset limit :
  finished_data d fs bs →
  page_of_data d fs offset limit = Ok (result_page_of bs (qd_rows d) offset limit).
Proof.
  intros (He & Hs & Hst). unfold page_of_data. rewrite He, Hs.
  destruct (qd_storage d) as [l|path [w|]]; simpl; [by subst|done|].
  rewrite Hst. simpl. by rewrite slice_reader_ok.
Qed.

Lemma finished_reader d fs bs skip remaining :
  finished_data d fs bs → 0 ≤ skip →
  match remaining with None => True | Some k => 0 ≤ k end →
  ∃ r, reader_of_data d fs skip remaining = Ok r ∧
    will_read r match remaining with
                | None => drop (Z.to_nat skip) bs
                | Some k => take (Z.to_nat k) (drop (Z.to_nat skip) bs)
                end.
Proof.
  intros (He & Hs & Hst) H0 Hrem. unfold reader_of_data. rewrite He, Hs.
  destruct (qd_storage d) as [l|path [w|]]; simpl in *; [|done|].
  - eexists. split; [done|]. by exists bs.
  - rewrite Hst. simpl. eexists. split; [done|]. by exists bs.
Qed.

Lemma finished_count d fs bs :
  finished_data d fs bs → count_of_data d fs = Ok (Z.of_nat (length bs)).
Proof.
  intros (He & Hs & Hst). unfold count_of_data. rewrite Hs.
  destruct (qd_storage d) as [l|path [w|]]; simpl in *; [by subst|done|].
  rewrite Hst. simpl. by rewrite length_fmap.
Qed.

(** Looking a held result up once more at the same time finds it again. *)
Lemma holds_result_again s p q now status bs :
  holds_result s p q now status bs →
  holds_result (cleanup_expired now s).2 p q now status bs.
Proof.
  intros (r & Hr & Ho & Hs & Hd). pose proof (cleanup_twice now s) as Ht.
  set (s1 := (cleanup_expired now s).2) in *.
  pose proof (record_view_lookup _ _ q Ht) as Hv. rewrite Hr in Hv. simpl in Hv.
  unfold holds_result. destruct (records (cleanup_expired now s1).2 !! q) as [r'|]; [|done].
  exists r'. destruct Ht as (_ & -> & _).
  apply (inj Some), record_view_eq in Hv as (-> & -> & ->). by split_and!.
Qed.

(** *** Local answers *)

Lemma owned_held s p q now status bs :
  holds_result s p q now status bs →
  ∃ r, owned_record p q now s = (Ok r, (cleanup_expired now s).2) ∧
    query_status r = status ∧ finished_data (qr_data r) (disk (cleanup_expired now s).2) bs.
Proof.
  intros (r & Hr & Ho & Hs & Hd). exists r. split; [|done].
  unfold owned_record. unfold mbind, M_bind. destruct (cleanup_ok now s) as [Hok _].
  rewrite (surjective_pairing (cleanup_expired now s)), Hok. unfold gets.
  by rewrite Hr, Ho, String.eqb_refl.
Qed.

Lemma query_held s p q now status bs :
  holds_result s p q now status bs →
  query p q now s = (Ok status, (cleanup_expired now s).2).
Proof.
  intros (r & E & <- & _)%owned_held. unfold query. unfold mbind, M_bind. by rewrite E.
Qed.

Lemma result_page_held s p q now status bs offset limit :
  holds_result s p q now status bs →
  (result_page p q offset limit now s).1 = Ok (result_page_of bs (qs_rows status) offset limit).
Proof.
  intros (r & E & <- & Hd)%owned_held. unfold result_page. unfold_M. rewrite E. simpl.
  by rewrite (finished_page _ _ bs).
Qed.

Lemma result_reader_range_held s p q now status bs skip remaining :
  holds_result s p q now status bs → 0 ≤ skip →
  match remaining with None => True | Some k => 0 ≤ k end →
  ∃ r s', result_reader_range p q skip remaining now s = (Ok r, s') ∧
    (read_to_end r).1 = Ok match remaining with
                           | None => drop (Z.to_nat skip) bs
                           | Some k => take (Z.to_nat k) (drop (Z.to_nat skip) bs)
                           end.
Proof.
  intros (r & E & <- & Hd)%owned_held H0 Hrem. unfold result_reader_range. unfold_M. rewrite E.
  destruct (finished_reader _ _ bs skip remaining Hd H0 Hrem) as (rd & -> & Hw). simpl.
  eexists _, _. split; [done|]. by apply read_to_end_spec.
Qed.

Lemma partition_bounds n i k :
  0 ≤ n → 0 ≤ i < k → k ≤ usize_max →
  0 ≤ partition_start n i k ≤ partition_start n (usize_add i 1) k.
Proof.
  intros Hn Hi Hk. rewrite usize_add_small by lia. unfold partition_start, usize_saturating_mul.
  split; [apply Z.div_pos; unfold usize_max in *; nia|apply Z.div_le_mono; nia].
Qed.

Lemma result_partition_held s p q now status bs i k :
  holds_result s p q now status bs → 0 ≤ i < k → k ≤ usize_max →
  read_all (result_partition_reader p q i k now s).1 = Ok (partition_of bs i k).
Proof.
  intros Hh Hi Hk. unfold result_partition_reader, result_batch_count. unfold_M.
  rewrite (proj2 (Z.eqb_neq k 0)), (proj2 (Z.leb_gt k i)) by lia. simpl.
  destruct (owned_held _ _ _ _ _ _ Hh) as (r & E & _ & Hd). rewrite E.
  rewrite (finished_count _ _ bs) by done. simpl.
  pose proof (partition_bounds (Z.of_nat (length bs)) i k ltac:(lia) Hi Hk).
  destruct (result_reader_range_held (cleanup_expired now s).2 p q now status bs
    (partition_start (Z.of_nat (length bs)) i k)
    (Some (partition_start (Z.of_nat (length bs)) (usize_add i 1) k
           - partition_start (Z.of_nat (length bs)) i k)))
    as (rd & s' & -> & Hread); [by apply holds_result_again|lia|lia|]. done.
Qed.

(** *** Publishing *)

(** The store takes the record of the query: there is none, or it is the
    principal's and has not expired. *)
Definition publishable (st : St) (p : AuthenticatedPrincipal) (q : string) (utc : Z) : Prop :=
  resource_of st ("query", q) = None ∨
  ∃ v expires, filed st "query" q p v expires ∧ utc < expires.

(** The shared record of a query. *)
Definition publishes (st : St) (p : AuthenticatedPrincipal) (q : string)
    (shared : SharedQuery) (expires : Z) : Prop :=
  ∃ v, filed st "query" q p v expires ∧ from_value v = Ok shared.

Definition shared_query_ttl : Z := from_secs (15 * 60).

Lemma put_shared_query_spec (n : Node) p status key batches lease utc :
  available (nd_store n) → publishable (nd_store n) p (qs_id status) utc →
  ∃ st', put_shared_query p status key batches lease utc n = (Ok tt, with_store st' n) ∧
    available st' ∧
    publishes st' p (qs_id status)
      {| sq_status := status; sq_result_key := key; sq_batch_count := batches;
         sq_fencing_token := fencing_token lease |} (utc + shared_query_ttl).
Proof.
  intros Ha Hpub. unfold put_shared_query, serialize, in_store. unfold_M.
  set (sq := {| sq_status := status |}). destruct (serde_total sq) as [v Hv]. rewrite Hv. simpl.
  destruct Hpub as [Hn|(v0 & x0 & Hf & Hlt)].
  - rewrite get_absent by done. simpl.
    destruct (put_files (nd_store n) {| resource_id := qs_id status;
      resource_principal := principal_id p; resource_kind := "query"; resource_version := 0;
      payload := v; resource_expires_at := chrono_deadline shared_query_ttl utc |} (Some 0) p)
      as (r' & st' & E & Ha' & Hf); [done..|simpl; by rewrite Hn|].
    fold shared_query_ttl. rewrite E. simpl. exists st'. split_and!; [done..|].
    exists v. split; [done|]. by apply serde_roundtrip.
  - destruct (get_filed _ _ _ _ _ _ _ Ha Hf Hlt) as (r & Hg & Hr & Hk & Hi & Hp & Hpay).
    rewrite Hg. simpl.
    destruct (put_files (nd_store n) {| resource_id := qs_id status;
      resource_principal := principal_id p; resource_kind := "query"; resource_version := 0;
      payload := v; resource_expires_at := chrono_deadline shared_query_ttl utc |}
      (Some (resource_version r)) p)
      as (r' & st' & E & Ha' & Hf'); [done..|simpl; by rewrite Hr|].
    fold shared_query_ttl. rewrite E. simpl. exists st'. split_and!; [done..|].
    exists v. split; [done|]. by apply serde_roundtrip.
Qed.

Lemma encode_reader_spec r bs bytes :
  (read_to_end r).1 = Ok bs → encode_batches bs = Ok bytes →
  (encode_reader r).1 = Ok (bytes, Z.of_nat (length bs)).
Proof.
  intros Hr He. unfold encode_reader. unfold_M. destruct (read_to_end r) as [x r'].
  simpl in Hr. subst x. by rewrite He.
Qed.

(** What the publisher of a completed query leaves in the two stores. *)
Lemma publish_completed (n : Node) pb now utc status bs bytes :
  let p := pb_principal pb in let q := pb_query pb in
  let key := result_object_key hash_hex (principal_id p) q in
  holds_result (nd_service n) p q now status bs → qs_id status = q →
  encode_batches bs = Ok bytes → clustered n → publishable (nd_store n) p q utc →
  accepts (nd_objects n) key →
  ∃ n', publish_turn hash_hex pb now utc n = (Ok None, n') ∧ available (nd_store n') ∧
  publishes (nd_store n') p q
    {| sq_status := status; sq_result_key := Some key;
       sq_batch_count := Z.of_nat (length bs);
       sq_fencing_token := fencing_token (pb_lease pb) |} (utc + shared_query_ttl) ∧
  objects_get key (nd_objects n') = (Ok (Some bytes), nd_objects n').
Proof.
  intros p q key Hh Hid He [[cc Hc] Ha] Hpub Hacc. unfold publish_turn.
  unfold mbind at 1, M_bind at 1, gets at 1. rewrite Hc.
  unfold mbind at 1, M_bind at 1, attempt at 1, locally at 1, on at 1.
  fold p q. rewrite (query_held _ _ _ _ _ _ Hh). simpl.
  assert (qs_state status = "completed") as Hst.
  { destruct Hh as (r & _ & _ & <- & _ & Hst & _). done. }
  rewrite Hst. simpl. unfold mbind at 1, M_bind at 1, retained_result. rewrite Hst. simpl.
  unfold mbind at 1, M_bind at 1, attempt at 1, locally at 1, on at 1. simpl.
  destruct (result_reader_range_held (cleanup_expired now (nd_service n)).2 p q now status bs
    0 None) as (rd & s2 & E & Hread); [by apply holds_result_again|done|done|].
  unfold result_reader. rewrite E. simpl.
  rewrite (encode_reader_spec rd bs bytes Hread He). simpl.
  unfold mbind at 1, M_bind at 1, share_result. fold key.
  unfold mbind at 1, M_bind at 1, attempt, in_objects, on at 1. simpl.
  destruct (put_then_get (nd_objects n) key bytes Hacc) as (ob' & Hput & Hget).
  rewrite Hput. simpl.
  unfold mbind at 1, M_bind at 1, ignore at 1.
  match goal with |- context [put_shared_query p status ?k ?b ?l ?u ?nd] =>
    destruct (put_shared_query_spec nd p status k b l u) as (st' & E' & Ha' & Hp') end;
    [done|by rewrite Hid|]. rewrite E'. unfold in_store. unfold_M. simpl.
  pose proof (available_op (OpRelease (pb_lease pb)) st' Ha') as Ha2.
  pose proof (other_ops_keep_resources (OpRelease (pb_lease pb)) st' eq_refl) as Hkeep.
  simpl in Ha2, Hkeep. destruct (release_query (pb_lease pb) st') as [rr st2]. simpl in *.
  eexists. split; [done|]. split; [done|]. split; [|done]. rewrite Hid in Hp'. destruct Hp' as (v & (r & Hr & Hf) & Hv).
  exists v. split; [|done]. exists r. by rewrite Hkeep.
Qed.

(** *** Reading on another node *)

Lemma query_absent s p q now :
  records s !! q = None →
  owned_record p q now s = (Err query_not_found, (cleanup_expired now s).2).
Proof.
  intros Hn. unfold owned_record. unfold mbind, M_bind. destruct (cleanup_ok now s) as [Hok _].
  rewrite (surjective_pairing (cleanup_expired now s)), Hok. unfold gets.
  by rewrite (cleanup_absent now s q Hn).
Qed.

Section Remote.
Context (m : Node) (p : AuthenticatedPrincipal) (q : string) (now utc : Z).
Context (shared : SharedQuery) (expires : Z) (key : string).
Context (bs : list RecordBatch) (bytes : Bytes).
Hypothesis Hm : clustered m.
Hypothesis Habsent : records (nd_service m) !! q = None.
Hypothesis Hshared : publishes (nd_store m) p q shared expires.
Hypothesis Hlive : utc < expires.
Hypothesis Hkey : sq_result_key shared = Some key.
Hypothesis Hobject : objects_get key (nd_objects m) = (Ok (Some bytes), nd_objects m).
Hypothesis Hlaws : ArrowIpcLaws.
Hypothesis Hencoded : encode_batches bs = Ok bytes.

Lemma shared_query_found (n : Node) :
  nd_cluster n = nd_cluster m → nd_store n = nd_store m →
  shared_query p q utc n = (Ok shared, n).
Proof.
  intros Hc Hs. destruct Hm as [[cc Hcc] Ha]. destruct Hshared as (v & Hf & Hv).
  unfold shared_query, require_cluster, shared_resource, deserialize, in_store. unfold_M.
  rewrite Hc, Hcc. simpl. destruct (get_filed _ _ _ _ _ _ _ Ha Hf Hlive) as (r & Hg & _ & _ & _ & _ & Hpay).
  rewrite Hs, Hg. simpl. rewrite Hpay, Hv. simpl. rewrite <- Hs. by destruct n.
Qed.

Lemma open_shared_found (n : Node) missing :
  nd_objects n = nd_objects m →
  open_shared key missing n = (Ok (ReadShared (Ok <$> bs)), n).
Proof.
  intros Ho. unfold open_shared, in_objects. unfold_M. rewrite Ho, Hobject. simpl.
  assert (reader_try_new bytes = Ok (Ok <$> bs)) as ->.
  { revert Hencoded. unfold encode_batches.
    destruct (writer_try_new _) as [w0|e] eqn:E0; simpl; [|done].
    destruct (write_all bs w0) as [[[]|e] w] eqn:Ew; [|done].
    destruct (writer_finish w) as [bytes'|e] eqn:Ef; simpl; [|done]. intros [= ->].
    by eapply ipc_roundtrip. }
  simpl. rewrite <- Ho. by destruct n.
Qed.

(** A look-up that misses locally leaves the node cleaned up. *)
Lemma query_clustered_remote (n : Node) :
  records (nd_service n) !! q = None → nd_cluster n = nd_cluster m →
  nd_store n = nd_store m →
  query_clustered p q now utc n
  = (Ok (sq_status shared), with_service (cleanup_expired now (nd_service n)).2 n).
Proof.
  intros Hn Hc Hs. unfold query_clustered, locally. unfold_M. unfold query. unfold_M.
  rewrite (query_absent _ p q now Hn). simpl. by rewrite shared_query_found.
Qed.

Lemma result_reader_remote (n : Node) :
  records (nd_service n) !! q = None → nd_cluster n = nd_cluster m →
  nd_store n = nd_store m → nd_objects n = nd_objects m →
  qs_state (sq_status shared) = "completed" →
  (result_reader_clustered p q now utc n).1
  = Ok {| rd_source := ReadShared (Ok <$> bs); rd_skip := 0; rd_remaining := None |}.
Proof.
  intros Hn Hc Hs Ho Hst. unfold result_reader_clustered, locally. unfold_M.
  unfold result_reader, result_reader_range. unfold_M. rewrite (query_absent _ p q now Hn). simpl.
  rewrite shared_query_found by done. rewrite Hst. simpl. rewrite Hkey. simpl.
  by rewrite open_shared_found.
Qed.

Lemma result_page_remote offset limit :
  qs_state (sq_status shared) = "completed" →
  (result_page_clustered p q offset limit now utc m).1
  = Ok (result_page_of bs (qs_rows (sq_status shared)) offset limit).
Proof.
  intros Hst. unfold result_page_clustered, locally. unfold_M.
  unfold result_page. unfold_M. rewrite (query_absent _ p q now Habsent). simpl.
  pose proof (cleanup_absent now _ q Habsent) as Hn1.
  rewrite query_clustered_remote by done. simpl.
  match goal with |- context [result_reader_clustered p q now utc ?nd] =>
    pose proof (result_reader_remote nd (cleanup_absent now _ q Hn1) eq_refl eq_refl eq_refl Hst)
      as Hr; destruct (result_reader_clustered p q now utc nd) as [x n1] end.
  simpl in Hr. subst x. rewrite (read_to_end_spec _ bs); [done|]. by exists bs.
Qed.

Lemma result_partition_remote i k :
  0 ≤ i < k → k ≤ usize_max → sq_batch_count shared = Z.of_nat (length bs) →
  read_all (result_partition_reader_clustered p q i k now utc m).1 = Ok (partition_of bs i k).
Proof.
  intros Hi Hk Hcount. unfold result_partition_reader_clustered, locally. unfold_M.
  unfold result_partition_reader, result_batch_count. unfold_M.
  rewrite (proj2 (Z.eqb_neq k 0)), (proj2 (Z.leb_gt k i)) by lia. simpl.
  rewrite (query_absent _ p q now Habsent). simpl.
  rewrite shared_query_found by done. simpl. rewrite Hkey. simpl.
  rewrite open_shared_found by done. simpl. rewrite Hcount.
  pose proof (partition_bounds (Z.of_nat (length bs)) i k ltac:(lia) Hi Hk).
  rewrite (read_to_end_spec _ (partition_of bs i k)); [done|].
  exists bs. simpl. split_and!; [done|lia|done|lia].
Qed.
End Remote.

(** C35: Published results are served by every node.  Once the publisher of a
    completed query has taken its turn, a node that did not run the query
    answers its principal's pages exactly as the node that did, its readers
    yield the same batches, and so does each partition of any partitioning. *)
Theorem published_results_are_served_by_every_node (n m : Node) pb now utc status bs bytes
    now' utc' offset limit i k :
  let p := pb_principal pb in let q := pb_query pb in
  let n' := (publish_turn hash_hex pb now utc n).2 in
  ArrowIpcLaws → holds_result (nd_service n) p q now status bs → qs_id status = q →
  encode_batches bs = Ok bytes → clustered n → publishable (nd_store n) p q utc →
  accepts (nd_objects n) (result_object_key hash_hex (principal_id p) q) →
  is_Some (nd_cluster m) → nd_store m = nd_store n' → nd_objects m = nd_objects n' →
  records (nd_service m) !! q = None → utc' < utc + shared_query_ttl →
  0 ≤ i < k → k ≤ usize_max →
  (∃ page, (result_page_clustered p q offset limit now' utc' m).1 = Ok page ∧
           (result_page p q offset limit now (nd_service n)).1 = Ok page) ∧
  read_all (result_reader_clustered p q now' utc' m).1 = Ok bs ∧
  read_all (result_reader p q now (nd_service n)).1 = Ok bs ∧
  (∃ part, read_all (result_partition_reader_clustered p q i k now' utc' m).1 = Ok part ∧
           read_all (result_partition_reader p q i k now (nd_service n)).1 = Ok part).
Proof.
  intros p q n' Hlaws Hh Hid He Hn Hpub Hacc Hm Hst Hob Habs Hlt Hi Hk.
  destruct (publish_completed n pb now utc status bs bytes Hh Hid He Hn Hpub Hacc)
    as (n1 & E & Ha & Hp & Hget). subst n'. rewrite E in Hst, Hob. simpl in Hst, Hob.
  rewrite <- Hst in Ha, Hp. rewrite <- Hob in Hget. fold p q in Hp, Hget.
  assert (qs_state status = "completed") as Hdone
    by by destruct Hh as (r & _ & _ & <- & _ & ? & _).
  split; [|split; [|split]].
  - eexists. split; [eapply result_page_remote; eauto; done|].
    by rewrite (result_page_held _ _ _ _ status bs).
  - erewrite (result_reader_remote m); eauto; try done. simpl.
    apply read_to_end_spec. by exists bs.
  - destruct (result_reader_range_held (nd_service n) p q now status bs 0 None)
      as (rd & s2 & E2 & Hread); [done..|]. unfold result_reader. by rewrite E2.
  - eexists. split; [eapply result_partition_remote; eauto; done|].
    by eapply result_partition_held.
Qed.
End SharedResults.

(** ** Ownership of queries in a cluster

    Recovering a query whose node was lost, against a store that meets its
    contract: it is refused while the owner's lease is live, marks the query
    failed under a higher token once the lease has run out, and leaves queries
    that have ended alone.  The owner's publisher, however, writes the shared
    record without comparing tokens. *)

Section SharedOwnership.
Context `{ipc : ArrowIpc}.
Context {St : Type} `{!ClusterStateStore St} `{!Observable St}.
Context `{!ClusterContract St} `{!ClusterAvailable St}.
Context {Ob : Type} `{!ResultObjectStore Bytes Ob}.
Context `{!Serde SharedSession} `{!SerdeLaws SharedSession}.
Context `{!Serde SharedQuery} `{!SerdeLaws SharedQuery}.
Variable hash_hex : string → string.

Abbreviation Node := (Node (St:=St) (Ob:=Ob)).
Abbreviation World := (World (St:=St) (Ob:=Ob)).

(** The node can claim the query: no lease, its own, or one that ran out. *)
Definition claimable (st : St) (p : AuthenticatedPrincipal) (q node : string) (utc : Z) : Prop :=
  match lease_of st q with
  | None => True
  | Some held => lease_principal held = principal_id p ∧
                 (owner_node_id held = node ∨ lease_expires_at held ≤ utc)
  end.

(** The record of a query that recovery has given up. *)
Definition given_up (shared : SharedQuery) (token : Z) : SharedQuery :=
  {| sq_status := failed_status orphaned_query (sq_status shared);
     sq_result_key := sq_result_key shared; sq_batch_count := sq_batch_count shared;
     sq_fencing_token := token |}.

Section Recover.
Context (n : Node) (cc : ClusterContext) (p : AuthenticatedPrincipal) (q : string) (utc : Z).
Context (shared : SharedQuery) (expires : Z).
Hypothesis Hcluster : nd_cluster n = Some cc.
Hypothesis Havailable : available (nd_store n).
Hypothesis Hshared : publishes (nd_store n) p q shared expires.
Hypothesis Hlive : utc < expires.
Hypothesis Httl : sane_ttl (cc_lease_ttl cc).

Lemma recover_ended :
  terminal_name (qs_state (sq_status shared)) = true →
  recover_query_clustered p q utc n = (Ok (sq_status shared), n).
Proof.
  intros Ht. destruct Hshared as (v & Hf & Hv).
  destruct (get_filed _ _ _ _ _ _ _ Havailable Hf Hlive) as (r & Hg & _ & _ & _ & _ & Hpay).
  unfold recover_query_clustered, require_cluster, shared_resource, deserialize, in_store.
  unfold_M. rewrite Hcluster. simpl. rewrite Hg. simpl. rewrite Hpay, Hv. simpl. rewrite Ht.
  by destruct n.
Qed.

Lemma recover_refused held :
  terminal_name (qs_state (sq_status shared)) = false →
  lease_of (nd_store n) q = Some held → lease_principal held = principal_id p →
  owner_node_id held ≠ cc_node_id cc → utc < lease_expires_at held →
  ∃ st', recover_query_clustered p q utc n
         = (Err (cluster_service_error lease_held), with_store st' n) ∧
    same_resources (nd_store n) st'.
Proof.
  intros Ht Hl Hp Hn He. destruct Hshared as (v & Hf & Hv).
  destruct (get_filed _ _ _ _ _ _ _ Havailable Hf Hlive) as (r & Hg & _ & _ & _ & _ & Hpay).
  destruct (claim_refused q (principal_id p) (cc_node_id cc) (cc_lease_ttl cc) utc _ held
    Havailable Httl Hl Hp Hn He) as (st' & Hc & Hsame).
  exists st'. split; [|done].
  unfold recover_query_clustered, require_cluster, shared_resource, deserialize, in_store.
  unfold_M. rewrite Hcluster. simpl. rewrite Hg. simpl. rewrite Hpay, Hv. simpl. rewrite Ht.
  simpl. by rewrite Hc.
Qed.

Lemma recover_granted :
  terminal_name (qs_state (sq_status shared)) = false →
  claimable (nd_store n) p q (cc_node_id cc) utc → fence_room (nd_store n) →
  ∃ n' token, recover_query_clustered p q utc n
      = (Ok (failed_status orphaned_query (sq_status shared)), n') ∧
    issued (nd_store n) < token ∧ available (nd_store n') ∧
    nd_service n' = nd_service n ∧
    publishes (nd_store n') p q (given_up shared token) (utc + result_ttl_of n).
Proof.
  intros Ht Hc Hroom. destruct Hshared as (v & Hf & Hv).
  destruct (get_filed _ _ _ _ _ _ _ Havailable Hf Hlive) as (r & Hg & Hr & Hk & Hi & Hp & Hpay).
  destruct (claim_granted q (principal_id p) (cc_node_id cc) (cc_lease_ttl cc) utc _
    Havailable Httl Hc) as (l & st1 & Hcl).
  pose proof (claim_spec q (principal_id p) (cc_node_id cc) (cc_lease_ttl cc) utc _ Hroom) as Hl.
  rewrite Hcl in Hl. destruct Hl as (_ & _ & _ & Htok & _).
  pose proof (available_op (OpClaim q (principal_id p) (cc_node_id cc) (cc_lease_ttl cc) utc)
    _ Havailable) as Ha1. simpl in Ha1. rewrite Hcl in Ha1. simpl in Ha1.
  pose proof (other_ops_keep_resources
    (OpClaim q (principal_id p) (cc_node_id cc) (cc_lease_ttl cc) utc) (nd_store n) eq_refl) as Hs1.
  simpl in Hs1. rewrite Hcl in Hs1. simpl in Hs1.
  destruct (serde_total (given_up shared (fencing_token l))) as [v' Hv'].
  destruct (rewrite_filed st1 "query" q p r v' (utc + result_ttl_of n))
    as (r' & st2 & Hput & Ha2 & Hf2); [done|by rewrite Hs1|done..|].
  pose proof (available_op (OpRelease l) st2 Ha2) as Ha3.
  pose proof (other_ops_keep_resources (OpRelease l) st2 eq_refl) as Hs3. simpl in Ha3, Hs3.
  unfold recover_query_clustered, require_cluster, shared_resource, deserialize, serialize,
    in_store, result_ttl_of in *.
  unfold_M. rewrite Hcluster. simpl. rewrite Hg. simpl. rewrite Hpay, Hv. simpl. rewrite Ht.
  simpl. rewrite Hcl. simpl. unfold given_up in Hv'. rewrite Hv'. simpl.
  unfold chrono_deadline. rewrite Hput. simpl.
  destruct (release_query l st2) as [rr st3]. simpl in *.
  eexists _, (fencing_token l). split; [done|]. split_and!; [done..|].
  exists v'. split; [|by apply serde_roundtrip].
  destruct Hf2 as (r2 & Hr2 & Hrest). exists r2. by rewrite Hs3.
Qed.
End Recover.

(** C37: Recovering a lost query.  Recovery leaves a query that has ended as it
    is; it is refused with a conflict, and the shared record kept, while
    another node holds a live lease; and once the node can claim the query it
    answers and publishes the query as failed, under a higher token than any
    issued before. *)
Theorem recovery_respects_leases (n : Node) cc p q utc shared expires :
  nd_cluster n = Some cc → available (nd_store n) →
  publishes (nd_store n) p q shared expires → utc < expires → sane_ttl (cc_lease_ttl cc) →
  let ended := terminal_name (qs_state (sq_status shared)) in
  let out := recover_query_clustered p q utc n in
  (ended = true → out = (Ok (sq_status shared), n)) ∧
  (∀ held, ended = false → lease_of (nd_store n) q = Some held →
     lease_principal held = principal_id p → owner_node_id held ≠ cc_node_id cc →
     utc < lease_expires_at held →
     (∃ e, out.1 = Err e ∧ se_kind e = Conflict) ∧
     same_resources (nd_store n) (nd_store out.2)) ∧
  (ended = false → claimable (nd_store n) p q (cc_node_id cc) utc → fence_room (nd_store n) →
     ∃ token, out.1 = Ok (failed_status orphaned_query (sq_status shared)) ∧
       issued (nd_store n) < token ∧
       publishes (nd_store out.2) p q (given_up shared token) (utc + result_ttl_of n)).
Proof.
  intros Hc Ha Hs Hl Httl ended out. split_and!.
  - intros He. by eapply recover_ended.
  - intros held He Hh Hp Hn Hx. unfold out.
    destruct (recover_refused n cc p q utc shared expires Hc Ha Hs Hl Httl held He Hh Hp Hn Hx)
      as (st' & -> & Hsame). by split; [eexists|].
  - intros He Hcl Hroom. unfold out.
    destruct (recover_granted n cc p q utc shared expires Hc Ha Hs Hl Httl He Hcl Hroom)
      as (n' & token & -> & Htok & _ & _ & Hp). by exists token.
Qed.

(** *** The publisher of a lost lease *)

(** A turn of a publisher whose query is still running writes its status,
    whether or not the lease is still held. *)
Lemma publish_running (n : Node) pb cc now utc status s1 :
  let p := pb_principal pb in let q := pb_query pb in
  nd_cluster n = Some cc → query p q now (nd_service n) = (Ok status, s1) →
  terminal_name (qs_state status) = false → qs_id status = q →
  available (nd_store n) → publishable (nd_store n) p q utc →
  publishes (nd_store (publish_turn hash_hex pb now utc n).2) p q
    {| sq_status := status; sq_result_key := None; sq_batch_count := 0;
       sq_fencing_token := fencing_token (pb_lease pb) |} (utc + shared_query_ttl).
Proof.
  intros p q Hc Hq Ht Hid Ha Hpub.
  unfold publish_turn. unfold mbind at 1, M_bind at 1, gets at 1. rewrite Hc.
  unfold mbind at 1, M_bind at 1, attempt at 1, locally at 1, on at 1. fold p q.
  rewrite Hq. simpl. rewrite Ht. unfold mbind at 1, M_bind at 1, ignore at 1.
  match goal with |- context [put_shared_query p status ?k ?b ?l ?u ?nd] =>
    destruct (put_shared_query_spec nd p status k b l u) as (st' & E' & Ha' & Hp') end;
    [done|by rewrite Hid|]. rewrite E'. unfold in_store. unfold_M. simpl.
  pose proof (other_ops_keep_resources
    (OpRenew (pb_lease pb) (cc_lease_ttl cc) utc) st' eq_refl) as Hkeep. simpl in Hkeep.
  destruct (renew_query _ _ _ st') as [rr st2]. simpl in *. rewrite Hid in Hp'.
  destruct Hp' as (v & (r & Hr & Hf) & Hv). exists v. split; [|done]. exists r. by rewrite Hkeep.
Qed.

(** A stale owner overwrites a recovery.  Node [a] runs a query, its lease
    runs out and node [b] recovers the query: the shared record says failed,
    under a higher token.  The next turn of [a]'s publisher replaces that
    record by its own status and its own, lower token. *)
Theorem stale_owner_overwrites_recovery (w : World) a b cca ccb pb now utc utc' status s1
    shared expires :
  let p := pb_principal pb in let q := pb_query pb in
  a ≠ b → lo_cluster (w_local w a) = Some cca → lo_cluster (w_local w b) = Some ccb →
  query p q now (lo_service (w_local w a)) = (Ok status, s1) →
  terminal_name (qs_state status) = false → qs_id status = q →
  available (w_store w) → publishes (w_store w) p q shared expires → utc < expires →
  terminal_name (qs_state (sq_status shared)) = false → sane_ttl (cc_lease_ttl ccb) →
  claimable (w_store w) p q (cc_node_id ccb) utc → fence_room (w_store w) →
  fencing_token (pb_lease pb) ≤ issued (w_store w) →
  utc' < utc + result_ttl (st_limits (lo_service (w_local w b))) →
  ∃ w1 token,
    at_node b (recover_query_clustered p q utc) w
      = (Ok (failed_status orphaned_query (sq_status shared)), w1) ∧
    publishes (w_store w1) p q (given_up shared token)
      (utc + result_ttl (st_limits (lo_service (w_local w b)))) ∧
    fencing_token (pb_lease pb) < token ∧
    publishes (w_store (at_node a (publish_turn hash_hex pb now utc') w1).2) p q
      {| sq_status := status; sq_result_key := None; sq_batch_count := 0;
         sq_fencing_token := fencing_token (pb_lease pb) |} (utc' + shared_query_ttl).
Proof.
  intros p q Hab Hca Hcb Hq Ht Hid Ha Hs Hlt Ht2 Httl Hcl Hroom Htok Hlt2.
  destruct (recover_granted (node_of w b) ccb p q utc shared expires Hcb Ha Hs Hlt Httl Ht2
    Hcl Hroom) as (n1 & token & E & Hi & Ha1 & _ & Hp1). simpl in Hi.
  unfold at_node at 1. rewrite E. eexists _, token. split; [done|]. split; [exact Hp1|].
  split; [lia|]. unfold at_node. rewrite (node_of_other w a b n1) by done.
  match goal with |- context [publish_turn hash_hex pb now utc' ?nd] =>
    pose proof (publish_running nd pb cca now utc' status s1 Hca Hq Ht Hid Ha1) as Hpub;
    destruct (publish_turn hash_hex pb now utc' nd) as [rr n2] end.
  simpl in *. apply Hpub. right. destruct Hp1 as (v & Hf & _). eauto.
Qed.

(** *** Stateless queries *)

(** A rejected stateless query keeps its session.  When a statement is
    refused for its size, the clustered submission returns the error and
    leaves everything as it was right after the session was created: the
    session, its shared record and its quota permit. *)
Lemma rejected_stateless_query_keeps_session (n n1 : Node) p target ov sql ca snap :
  create_session_clustered p target ov ca n = (Ok snap, n1) →
  shutting_down (nd_service n1) = false →
  sql_too_large (st_limits (nd_service n1)) sql = true →
  ∃ e, submit_stateless_query_clustered p target ov sql ca n = (Err e, n1) ∧
       se_kind e = InvalidArgument.
Proof.
  intros E Hd Hsql. unfold submit_stateless_query_clustered. unfold mbind at 1, M_bind at 1.
  rewrite E. unfold locally, submit_query, ensure_available. unfold_M. rewrite Hd, Hsql.
  eexists. split; [by destruct n1|done].
Qed.
End SharedOwnership.
