(* ===== verification/Collect.v ===== *)
(** * Collecting a query's results (crates/qcli-service/src/lib.rs, [collect_query])

    The task [submit_query] spawns: it takes the items of its query one at a
    time, logs events and stores batches, and when the stream ends records how
    the query ended.  [Gateway] is the service with its running collectors;
    [gateway_step] interleaves their progress with the operations of clients at
    the granularity of items and calls. *)
From S2P Require Import Prelude Text Arrow DriverApi Auth Config Core Cluster Metadata.
From S2P Require Import ServiceData Results Service ServiceSpec.
Import Core.Sessions Core.Queries.

Section Collect.
Context `{ipc : ArrowIpc}.

(** A collector: its task, the items it has still to receive and its local
    variables. *)
Record Collector := {
  co_task : Task;
  co_rest : list QueryItem;
  co_overflow : bool;
  co_session_updates : gmap string string;
  co_terminal_event : option QueryEvent;
}.

Definition collector_of (t : Task) (received : list QueryItem) : Collector :=
  {| co_task := t; co_rest := received; co_overflow := false; co_session_updates := ∅;
     co_terminal_event := None |}.

Definition co_query (c : Collector) : string := tk_query (co_task c).

(** Run a storage operation on the record's data and the disk. *)
Definition on_cell (id : string) (m : M Cell QueryError unit) (s : ServiceState) :
    result unit QueryError * ServiceState :=
  match records s !! id with
  | None => (Ok tt, s)
  | Some r =>
      let '(res, (d, fs)) := m (qr_data r, disk s) in
      (res, with_disk (λ _, fs) (with_records (<[id := set_data (λ _, d) r]>) s))
  end.

Definition on_data_of (id : string) (f : QueryData → QueryData) (s : ServiceState) :
    ServiceState :=
  with_records (alter (set_data f) id) s.

Definition is_terminal (e : QueryEvent) : bool :=
  match e with
  | State Completed | State Cancelled | State Failed => true
  | _ => false
  end.

(** [session_updates.extend(properties)] of a session event. *)
Definition gather (e : QueryEvent) (updates : gmap string string) : gmap string string :=
  match e with
  | SessionProperties properties => extend updates properties
  | _ => updates
  end.

(** One turn of the loop; [path] is where this batch would spill. *)
Definition collect_item (path : string) (now : Z) (item : QueryItem) (rest : list QueryItem)
    (c : Collector) (s : ServiceState) : Collector * ServiceState :=
  let id := co_query c in
  match item with
  | Event e =>
      let updates := gather e (co_session_updates c) in
      if is_terminal e
      then ({| co_task := co_task c; co_rest := rest; co_overflow := co_overflow c;
               co_session_updates := updates; co_terminal_event := Some e |}, s)
      else ({| co_task := co_task c; co_rest := rest; co_overflow := co_overflow c;
               co_session_updates := updates; co_terminal_event := co_terminal_event c |},
            on_data_of id (record_event e now) s)
  | Batch b =>
      let '(res, s') := on_cell id (store_batch (st_limits s) path b) s in
      match res with
      | Ok _ =>
          ({| co_task := co_task c; co_rest := rest; co_overflow := co_overflow c;
              co_session_updates := co_session_updates c;
              co_terminal_event := co_terminal_event c |}, s')
      | Err e =>
          ({| co_task := co_task c; co_rest := rest; co_overflow := true;
              co_session_updates := co_session_updates c;
              co_terminal_event := co_terminal_event c |},
           with_records (alter cancel_record id) (on_data_of id (set_error e) s'))
      end
  end.

(** [close_stateless_session]. *)
Definition close_stateless_session (session_id : string) (close_session : bool)
    (s : ServiceState) : ServiceState :=
  if close_session
  then with_session_owners (delete session_id)
         (with_sessions (λ m, (close session_id m).2) s)
  else s.

Definition driver_cancelled (e : CoreError) : bool :=
  match e with Driver d => String.eqb (de_code d) "cancelled" | _ => false end.

Definition fail_with (e : CoreError) (d : QueryData) : QueryData :=
  match qd_error d with
  | Some _ => d
  | None => set_error {| qe_code := "query_failed"; qe_message := CoreError_display e |} d
  end.

(** The new properties of a successful query of a session. *)
Definition apply_session_updates (c : Collector) (s : ServiceState) : ServiceState :=
  match records s !! co_query c with
  | None => s
  | Some r =>
      if is_ok (finish (tk_handle (co_task c))) && negb (tk_close_session (co_task c))
         && negb (bool_decide (co_session_updates c = ∅))
      then with_sessions (λ m, (set_options (qr_session_id r) (qr_session_version r)
                                  (co_session_updates c) m).2) s
      else s
  end.

(** The end of the record's results, and whether they are incomplete. *)
Definition finish_record (c : Collector) (s : ServiceState) : bool * ServiceState :=
  let '(res, s') := on_cell (co_query c) finish_results s in
  match res with
  | Ok _ => (co_overflow c, s')
  | Err e => (true, on_data_of (co_query c) (set_error e) s')
  end.

(** How the query's data end. *)
Definition conclude (outcome : result unit CoreError) (overflow : bool)
    (terminal : option QueryEvent) (now : Z) (d : QueryData) : QueryData :=
  match outcome with
  | Err error =>
      if driver_cancelled error
      then record_event (default (State Cancelled) terminal) now d
      else push_event "state" (state_json "failed") true now (fail_with error d)
  | Ok _ =>
      if overflow then push_event "state" (state_json "failed") true now d
      else record_event (default (State Completed) terminal) now d
  end.

(** What follows the loop. *)
Definition collect_finish (c : Collector) (now : Z) (s : ServiceState) : ServiceState :=
  let outcome := finish (tk_handle (co_task c)) in
  let s1 := apply_session_updates c s in
  let '(overflow, s2) := finish_record c s1 in
  let s3 := on_data_of (co_query c) (conclude outcome overflow (co_terminal_event c) now) s2 in
  match records s3 !! co_query c with
  | None => s3
  | Some r => close_stateless_session (qr_session_id r) (tk_close_session (co_task c)) s3
  end.

(** ** The gateway with its collectors *)

Record Gateway := {
  gw_state : ServiceState;
  gw_collectors : list Collector;
}.

(** Identifiers of queries that are registered or still being collected. *)
Definition query_ids_in_use (g : Gateway) : list string :=
  (map_to_list (records (gw_state g))).*1 ++ (tk_query <$> spawned (gw_state g))
  ++ (co_query <$> gw_collectors g).

(** A step of a collector: it starts with some order in which the channels may
    deliver its items, takes one, or ends after the last. *)
Inductive collector_step : Gateway → Gateway → Prop :=
| gw_start t before after received g :
    spawned (gw_state g) = before ++ t :: after →
    delivery (qh_items (tk_handle t)) received →
    collector_step g
      {| gw_state := with_spawned (λ _, before ++ after) (gw_state g);
         gw_collectors := gw_collectors g ++ [collector_of t received] |}
| gw_item before c after item rest path now g :
    gw_collectors g = before ++ c :: after → co_rest c = item :: rest →
    collector_step g
      {| gw_state := (collect_item path now item rest c (gw_state g)).2;
         gw_collectors :=
           before ++ (collect_item path now item rest c (gw_state g)).1 :: after |}
| gw_finish before c after now g :
    gw_collectors g = before ++ c :: after → co_rest c = [] →
    collector_step g
      {| gw_state := collect_finish c now (gw_state g);
         gw_collectors := before ++ after |}.

(** A step of the gateway: a client's call, with a fresh identifier for the
    query it may submit, or a step of a collector. *)
Inductive gateway_step (policy : string → AuthenticatedPrincipal) :
    Gateway → Gateway → Prop :=
| gw_call o p am g :
    policy (principal_id p) = p →
    "qcli_" +:+ am_uuid am ∉ query_ids_in_use g →
    gateway_step policy g
      {| gw_state := run_op o p am (gw_state g); gw_collectors := gw_collectors g |}
| gw_collect g g' : collector_step g g' → gateway_step policy g g'.

(** Reachable from a service that has just started. *)
Definition gateway_start (config : Config) (as_ : list EngineAdapter) (limits : ServiceLimits)
    (i : SessionIdState) (fs : FileSystem) : Gateway :=
  {| gw_state := GatewayService_new config as_ limits i fs; gw_collectors := [] |}.

Definition reachable policy config as_ limits i fs (g : Gateway) : Prop :=
  rtc (gateway_step policy) (gateway_start config as_ limits i fs) g.
End Collect.
