(* ===== verification/GatewayFacts.v ===== *)
(** * Invariants of the running gateway

    By induction on [gateway_step]: every unfinished query has exactly one
    collector, and the collectors bring every query to an end. *)
From S2P Require Import Prelude Text Arrow DriverApi Auth Config Core CoreFacts Cluster.
From S2P Require Import Metadata ServiceData Results ResultsFacts Service ServiceSpec Collect.
Import Core.Sessions Core.Queries.

Section GatewayFacts.
Context `{ipc : ArrowIpc}.
Implicit Types (s : ServiceState) (r : QueryRecord) (d : QueryData).

(** ** What a client's step does to the registered queries *)

(** The same query: everything but its data and its cancellation flag. *)
Definition same_query r r' : Prop :=
  qr_id r' = qr_id r ∧ qr_owner r' = qr_owner r ∧ qr_session_id r' = qr_session_id r ∧
  qr_session_version r' = qr_session_version r ∧ qr_target r' = qr_target r ∧
  qr_engine r' = qr_engine r.

Definition cancelling (now : Z) : QueryData → QueryData :=
  push_event "state" (state_json "cancelling") false now.

(** The data are as before, or a cancellation by the owner was logged. *)
Definition data_after (p : AuthenticatedPrincipal) (am : Ambient) r r' : Prop :=
  qr_data r' = qr_data r ∨
  (qr_owner r = principal_id p ∧ qr_data r' = cancelling (am_now am) (qr_data r)).

Lemma same_query_refl r : same_query r r.
Proof. by split_and!. Qed.

Lemma cancel_if_records p am f (m : gmap string QueryRecord) id (Q : QueryRecord → Prop) :
  match (cancel_if f <$> m) !! id with
  | Some r' => ∃ r, m !! id = Some r ∧ same_query r r' ∧ data_after p am r r'
  | None => ∀ r, m !! id = Some r → Q r
  end.
Proof.
  rewrite lookup_fmap. destruct (m !! id) as [r|]; simpl; [|done].
  exists r. split; [done|]. unfold cancel_if. destruct (f r); split; try done; by left.
Qed.

Lemma step_records p am doomed s s' id :
  step p am doomed s s' →
  match records s' !! id with
  | Some r' => ∃ r, records s !! id = Some r ∧ same_query r r' ∧ data_after p am r r'
  | None => ∀ r, records s !! id = Some r →
      record_live (result_ttl (st_limits s)) (am_now am) r = false
  end.
Proof.
  assert (∀ o : option QueryRecord, match o with
    | Some r' => ∃ r, o = Some r ∧ same_query r r' ∧ data_after p am r r'
    | None => ∀ r, o = Some r → record_live (result_ttl (st_limits s)) (am_now am) r = false
    end) as Hsame.
  { intros [r|]; [|done]. exists r. split; [done|]. split; [apply same_query_refl|by left]. }
  destruct 1; simpl; try apply Hsame.
  - by apply cancel_if_records.
  - by apply cancel_if_records.
  - rewrite retain_lookup. destruct (records s !! id) as [r|]; [|done].
    destruct (record_live _ _ r) eqn:E.
    + exists r. split; [done|]. split; [apply same_query_refl|by left].
    + by intros r' [= <-].
  - destruct (decide (id = id0)) as [->|Hn].
    + rewrite lookup_alter_eq. destruct (records s !! id0) as [r1|]; [|done]. simplify_eq.
      simpl. eexists. split; [done|]. split; [by split_and!|]. by right.
    + rewrite lookup_alter_ne by done. apply Hsame.
  - destruct (decide (id = id0)) as [->|Hn].
    + rewrite lookup_alter_eq. destruct (records s !! id0) as [r1|]; [|done].
      simpl. exists r1. split; [done|]. split; [by split_and!|]. by left.
    + rewrite lookup_alter_ne by done. apply Hsame.
Qed.

Lemma step_spawned p am doomed s s' : step p am doomed s s' → spawned s' = spawned s.
Proof. by destruct 1. Qed.

Lemma cancelling_completed now d : qd_completed_at (cancelling now d) = qd_completed_at d.
Proof. done. Qed.

Lemma data_after_completed p am r r' :
  data_after p am r r' → qd_completed_at (qr_data r') = qd_completed_at (qr_data r).
Proof. by intros [-> | [_ ->]]. Qed.

Lemma data_after_active p am r r' : data_after p am r r' → is_active r' = is_active r.
Proof. unfold is_active. by intros ->%data_after_completed. Qed.

(** ** Every unfinished query has exactly one collector *)

Record tracked (cs : list string) s : Prop := {
  tracked_once : NoDup ((tk_query <$> spawned s) ++ cs);
  tracked_active id :
    id ∈ (tk_query <$> spawned s) ++ cs ↔ ∃ r, records s !! id = Some r ∧ is_active r = true;
  tracked_id id r : records s !! id = Some r → qr_id r = id;
}.

Lemma step_tracked p am doomed cs s s' :
  step p am doomed s s' → tracked cs s → tracked cs s'.
Proof.
  intros Hs [Hnd Hact Hid]. pose proof (λ id, step_records p am doomed s s' id Hs) as Hr.
  split; rewrite ?(step_spawned _ _ _ _ _ Hs); [done| |].
  - intros id. rewrite Hact. specialize (Hr id). split.
    + intros (r & Er & Ha). destruct (records s' !! id) as [r'|].
      * destruct Hr as (r0 & Er0 & _ & Hd). exists r'. simplify_eq. split; [done|].
        by rewrite (data_after_active _ _ _ _ Hd).
      * specialize (Hr r Er). unfold record_live, is_active in *. by destruct (qd_completed_at _).
    + intros (r' & Er' & Ha). rewrite Er' in Hr. destruct Hr as (r & Er & _ & Hd).
      exists r. split; [done|]. by rewrite <- (data_after_active _ _ _ _ Hd).
  - intros id r' Er'. specialize (Hr id). rewrite Er' in Hr.
    destruct Hr as (r & Er & Hsame & _). destruct Hsame as [-> _]. eauto.
Qed.

Lemma steps_absent p am doomed s s' id :
  rtc (step p am doomed) s s' → records s !! id = None → records s' !! id = None.
Proof.
  induction 1 as [|s1 s2 s3 Hs _ IH]; [done|]. intros Hn. apply IH.
  pose proof (step_records p am doomed s1 s2 id Hs) as Hr.
  destruct (records s2 !! id); [|done]. destruct Hr as (r & Er & _). congruence.
Qed.

Lemma steps_spawned p am doomed s s' :
  rtc (step p am doomed) s s' → spawned s' = spawned s.
Proof. induction 1; [done|]. etrans; [done|]. by eapply step_spawned. Qed.

Lemma steps_tracked p am doomed cs s s' :
  rtc (step p am doomed) s s' → tracked cs s → tracked cs s'.
Proof. induction 1; eauto using step_tracked. Qed.

Lemma register_tracked p am cs s s' :
  register p am s s' → records s !! ("qcli_" +:+ am_uuid am) = None →
  tracked cs s → tracked cs s'.
Proof.
  intros Hr Hnone [Hnd Hact Hid]. destruct Hr as [r h cl s _ Hqid _ Hdata _ _].
  assert (is_active r = true) as Ha by (unfold is_active; by rewrite Hdata).
  rewrite <- Hqid in Hnone.
  assert (qr_id r ∉ (tk_query <$> spawned s) ++ cs) as Hfresh.
  { rewrite Hact. intros (r' & Er' & _). congruence. }
  split; simpl.
  - rewrite fmap_app. simpl. rewrite <- app_assoc. apply NoDup_app in Hnd as (H1 & H2 & H3).
    apply not_elem_of_app in Hfresh as [Hf1 Hf2].
    apply NoDup_app. split_and!; [done| |].
    + intros x Hx [->|Hx']%elem_of_cons; [done|]. by apply (H2 x).
    + by apply NoDup_cons.
  - intros id. rewrite fmap_app, <- app_assoc. simpl.
    destruct (decide (id = qr_id r)) as [->|Hn].
    + rewrite lookup_insert_eq. split; [by exists r|]. intros _. set_solver.
    + rewrite lookup_insert_ne by done. rewrite <- Hact. set_solver.
  - intros id r' [[<- <-]|[_ Hr']]%lookup_insert_Some; [done|]. eauto.
Qed.

Lemma run_op_tracked o p am cs s :
  0 < prepared_statement_ttl (st_limits s) →
  records s !! ("qcli_" +:+ am_uuid am) = None →
  tracked cs s → tracked cs (run_op o p am s).
Proof.
  intros Httl Hnone Ht.
  destruct (run_op_evolution p am _ o s (pending_start am s Httl)) as (s1 & H1 & Hrest).
  assert (tracked cs s1) as Ht1 by by eapply steps_tracked.
  destruct Hrest as [->|(s2 & Hr & H2)]; [done|].
  eapply steps_tracked; [exact H2|]. eapply register_tracked; [exact Hr| |done].
  by eapply steps_absent.
Qed.

(** ** What a collector does to its record *)

(** The part of a query's data the event log and its readers see. *)
Definition log_part d : string * option string * list ServiceEvent * Z * option Z :=
  (qd_state d, qd_engine_query_id d, qd_events d, qd_next_event_id d, qd_completed_at d).

Lemma on_data_keeps_log x (f : QueryData → QueryData) :
  (∀ d, log_part (f d) = log_part d) → preserves (λ c : Cell, log_part c.1 = x) (on_data f).
Proof. intros Hf c Hc. simpl. by rewrite Hf. Qed.

Lemma store_batch_log limits path b c :
  log_part (store_batch limits path b c).2.1 = log_part c.1.
Proof.
  enough (preserves (λ c', log_part c'.1 = log_part c.1) (store_batch limits path b)) as Hp
    by by apply Hp.
  unfold store_batch, spill_if, spill, append_batch.
  preserve; try (apply on_data_keeps_log; intros ?; by repeat case_match).
  - intros c1 Hc1. unfold create_new. by repeat case_match.
  - case_match; case_match; preserve; by apply on_data_keeps_log.
  - repeat case_match; preserve; by apply on_data_keeps_log.
Qed.

Lemma finish_results_log c : log_part (finish_results c).2.1 = log_part c.1.
Proof.
  enough (preserves (λ c', log_part c'.1 = log_part c.1) finish_results) as Hp by by apply Hp.
  unfold finish_results. preserve.
  repeat case_match; preserve; try by apply on_data_keeps_log. by intros c1 Hc1.
Qed.

Lemma log_part_completed d d' :
  log_part d' = log_part d → qd_completed_at d' = qd_completed_at d.
Proof. unfold log_part. congruence. Qed.

(** A storage operation on the record's cell. *)
Lemma on_cell_records id m s id' :
  records (on_cell id m s).2 !! id'
  = if decide (id' = id)
    then (λ r, set_data (λ _, (m (qr_data r, disk s)).2.1) r) <$> records s !! id'
    else records s !! id'.
Proof.
  unfold on_cell. destruct (records s !! id) as [r|] eqn:Er; simpl.
  - destruct (m (qr_data r, disk s)) as [res [d fs]] eqn:Em. simpl.
    case_decide as Hd; [|by rewrite lookup_insert_ne].
    subst. rewrite lookup_insert_eq, Er. simpl. by rewrite Em.
  - case_decide as Hd; [subst; by rewrite Er|done].
Qed.

Lemma on_data_records id f s id' :
  records (on_data_of id f s) !! id'
  = if decide (id' = id) then set_data f <$> records s !! id' else records s !! id'.
Proof.
  simpl. case_decide as Hd; [subst; by rewrite lookup_alter_eq|by rewrite lookup_alter_ne].
Qed.

Lemma on_cell_frame id m s :
  let s' := (on_cell id m s).2 in
  spawned s' = spawned s ∧ st_limits s' = st_limits s ∧ st_config s' = st_config s ∧
  session_owners s' = session_owners s ∧ st_sessions s' = st_sessions s ∧
  prepared s' = prepared s ∧ shutting_down s' = shutting_down s.
Proof.
  unfold on_cell. destruct (records s !! id) as [r|]; simpl; [|by split_and!].
  destruct (m (qr_data r, disk s)) as [res [d fs]]. by split_and!.
Qed.

(** Events that do not end the query leave its completion time alone. *)
Lemma record_event_completed e now d :
  qd_completed_at (record_event e now d)
  = if is_terminal e then Some now else qd_completed_at d.
Proof. by destruct e as [[]| | | |]. Qed.

(** Only the collector's own record changes, and an item never ends the query. *)
Lemma collect_item_records path now item rest c s :
  let '(c', s') := collect_item path now item rest c s in
  co_task c' = co_task c ∧ co_rest c' = rest ∧ spawned s' = spawned s ∧
  ∀ id, if decide (id = co_query c)
        then match records s !! id with
             | None => records s' !! id = None
             | Some r => ∃ r', records s' !! id = Some r' ∧ same_query r r' ∧
                 qd_completed_at (qr_data r') = qd_completed_at (qr_data r)
             end
        else records s' !! id = records s !! id.
Proof.
  unfold collect_item. destruct item as [e|b].
  - destruct (is_terminal e) eqn:Et; simpl; split_and!; try done; intros id; case_decide; try done.
    + destruct (records s !! id) as [r|]; [|done]. exists r. by split_and!.
    + subst. rewrite lookup_alter_eq. destruct (records s !! co_query c) as [r|]; [|done].
      eexists. split; [done|]. split; [by split_and!|]. simpl.
      by rewrite record_event_completed, Et.
    + by rewrite lookup_alter_ne.
  - pose proof (on_cell_records (co_query c) (store_batch (st_limits s) path b) s) as Hr.
    pose proof (on_cell_frame (co_query c) (store_batch (st_limits s) path b) s) as [Hsp _].
    destruct (on_cell _ _ s) as [[[]|e] s']; simpl in *; split_and!; try done; intros id;
      specialize (Hr id); case_decide as Hd; try done.
    + rewrite Hr. destruct (records s !! id) as [r|]; [|done]. simpl.
      eexists. split; [done|]. split; [by split_and!|]. simpl.
      apply log_part_completed, store_batch_log.
    + subst id. rewrite !lookup_alter_eq, Hr.
      destruct (records s !! co_query c) as [r|]; [|done]. simpl.
      eexists. split; [done|]. split; [by split_and!|]. simpl.
      apply log_part_completed, store_batch_log.
    + by rewrite !lookup_alter_ne.
Qed.

(** A collector's pending terminal event is a terminal one. *)
Definition collector_ok (c : Collector) : Prop :=
  match co_terminal_event c with None => True | Some e => is_terminal e = true end.

Lemma collect_item_ok path now item rest c s :
  collector_ok c → collector_ok (collect_item path now item rest c s).1.
Proof.
  unfold collect_item, collector_ok. intros Hc. destruct item as [e|b].
  - by destruct (is_terminal e) eqn:Et.
  - by destruct (on_cell _ _ s) as [[[]|e] s'].
Qed.

(** Concluding always ends the query. *)
Lemma conclude_completed outcome overflow terminal now d :
  match terminal with None => True | Some e => is_terminal e = true end →
  qd_completed_at (conclude outcome overflow terminal now d) = Some now.
Proof.
  intros Ht. unfold conclude. destruct outcome as [[]|e].
  - destruct overflow; [done|]. rewrite record_event_completed.
    destruct terminal; simpl in *; [by rewrite Ht|done].
  - destruct (driver_cancelled e); [|done]. rewrite record_event_completed.
    destruct terminal; simpl in *; [by rewrite Ht|done].
Qed.

Lemma apply_session_updates_records c s :
  records (apply_session_updates c s) = records s ∧
  spawned (apply_session_updates c s) = spawned s ∧
  disk (apply_session_updates c s) = disk s.
Proof. unfold apply_session_updates. by repeat case_match. Qed.

Lemma finish_record_records c s id :
  records (finish_record c s).2 !! id
  = if decide (id = co_query c)
    then (λ r, set_data (λ _, match finish_results (qr_data r, disk s) with
                              | (Ok _, (d, _)) => d
                              | (Err e, (d, _)) => set_error e d
                              end) r) <$> records s !! id
    else records s !! id.
Proof.
  unfold finish_record. pose proof (on_cell_records (co_query c) finish_results s id) as Hr.
  destruct (on_cell (co_query c) finish_results s) as [res s'] eqn:E. simpl in Hr.
  case_decide as Hd.
  - subst id. unfold on_cell in E.
    destruct (records s !! co_query c) as [r|] eqn:Er.
    + destruct (finish_results (qr_data r, disk s)) as [res0 [d fs]] eqn:Ef. simplify_eq.
      simpl in *. rewrite Ef. destruct res; simpl; by rewrite ?lookup_alter_eq, lookup_insert_eq.
    + simplify_eq. simpl. by rewrite Er.
  - destruct res; simpl; rewrite ?lookup_alter_ne by done; done.
Qed.

Lemma finish_record_spawned c s : spawned (finish_record c s).2 = spawned s.
Proof.
  unfold finish_record. pose proof (on_cell_frame (co_query c) finish_results s) as [Hf _].
  by destruct (on_cell _ _ s) as [[[]|e] s'].
Qed.

(** The collector's end completes its record and touches no other. *)
Lemma collect_finish_records c now s :
  collector_ok c →
  spawned (collect_finish c now s) = spawned s ∧
  ∀ id, if decide (id = co_query c)
        then match records s !! id with
             | None => records (collect_finish c now s) !! id = None
             | Some r => ∃ r', records (collect_finish c now s) !! id = Some r' ∧
                 same_query r r' ∧ qd_completed_at (qr_data r') = Some now
             end
        else records (collect_finish c now s) !! id = records s !! id.
Proof.
  intros Hok. unfold collect_finish.
  destruct (apply_session_updates_records c s) as (Hr1 & Hs1 & _).
  set (s1 := apply_session_updates c s) in *.
  pose proof (finish_record_records c s1) as Hr2. pose proof (finish_record_spawned c s1) as Hs2.
  destruct (finish_record c s1) as [ov s2]. simpl in Hr2, Hs2.
  set (f := conclude _ ov _ now). set (s3 := on_data_of (co_query c) f s2).
  assert (∀ id, records s3 !! id = if decide (id = co_query c)
    then set_data f <$> records s2 !! id else records s2 !! id) as Hr3
    by apply on_data_records.
  assert (spawned s3 = spawned s) as Hs3 by (simpl; congruence).
  assert (∀ sid b, records (close_stateless_session sid b s3) = records s3 ∧
                   spawned (close_stateless_session sid b s3) = spawned s3) as Hcl.
  { intros sid []; done. }
  set (s4 := match records s3 !! co_query c with None => s3
             | Some r => close_stateless_session (qr_session_id r)
                           (tk_close_session (co_task c)) s3 end).
  assert (records s4 = records s3 ∧ spawned s4 = spawned s3) as [Hr4 Hs4].
  { unfold s4. destruct (records s3 !! co_query c); [apply Hcl|done]. }
  split; [congruence|]. intros id. rewrite Hr4, Hr3, Hr2, Hr1.
  case_decide as Hd; [|done]. destruct (records s !! id) as [r|]; [|done]. simpl.
  eexists. split; [done|]. split; [by split_and!|]. simpl. by apply conclude_completed.
Qed.

(** ** The invariant *)

Record gateway_inv (g : Gateway) : Prop := {
  inv_ttl : 0 < prepared_statement_ttl (st_limits (gw_state g));
  inv_tracked : tracked (co_query <$> gw_collectors g) (gw_state g);
  inv_collectors : Forall collector_ok (gw_collectors g);
}.

Lemma evolution_limits p am doomed s s' :
  evolution p am doomed s s' → st_limits s' = st_limits s ∧ st_config s' = st_config s.
Proof.
  intros (s1 & H1 & Hrest). destruct (steps_static _ _ _ _ _ H1) as [El Ec].
  destruct Hrest as [->|(s2 & Hr & H2)]; [done|].
  destruct (steps_static _ _ _ _ _ H2) as [El2 Ec2]. rewrite El2, Ec2.
  by destruct Hr.
Qed.

Lemma run_op_limits o p am s :
  0 < prepared_statement_ttl (st_limits s) →
  st_limits (run_op o p am s) = st_limits s ∧ st_config (run_op o p am s) = st_config s.
Proof. intros Httl. by eapply evolution_limits, run_op_evolution, pending_start. Qed.

Lemma collect_item_limits path now item rest c s :
  st_limits (collect_item path now item rest c s).2 = st_limits s ∧
  st_config (collect_item path now item rest c s).2 = st_config s.
Proof.
  unfold collect_item. destruct item as [e|b]; [by destruct (is_terminal e)|].
  destruct (on_cell_frame (co_query c) (store_batch (st_limits s) path b) s) as (_&Hl&Hc&_).
  by destruct (on_cell _ _ s) as [[[]|e] s'].
Qed.

Lemma apply_session_updates_limits c s :
  st_limits (apply_session_updates c s) = st_limits s ∧
  st_config (apply_session_updates c s) = st_config s ∧
  session_owners (apply_session_updates c s) = session_owners s ∧
  prepared (apply_session_updates c s) = prepared s.
Proof. unfold apply_session_updates. by repeat case_match. Qed.

Lemma finish_record_limits c s :
  st_limits (finish_record c s).2 = st_limits s ∧
  st_config (finish_record c s).2 = st_config s ∧
  session_owners (finish_record c s).2 = session_owners s ∧
  st_sessions (finish_record c s).2 = st_sessions s ∧
  prepared (finish_record c s).2 = prepared s.
Proof.
  unfold finish_record.
  destruct (on_cell_frame (co_query c) finish_results s) as (_&Hl&Hc&Ho&Hs&Hp&_).
  by destruct (on_cell _ _ s) as [[[]|e] s'].
Qed.

Lemma collect_finish_limits c now s :
  st_limits (collect_finish c now s) = st_limits s ∧
  st_config (collect_finish c now s) = st_config s.
Proof.
  unfold collect_finish. destruct (apply_session_updates_limits c s) as (Hl & Hc & _).
  destruct (finish_record_limits c (apply_session_updates c s)) as (Hl2 & Hc2 & _).
  destruct (finish_record c _) as [ov s2]. simpl in *.
  destruct (alter _ _ _ !! _); simpl; [|by split; congruence].
  unfold close_stateless_session. case_match; simpl; split; congruence.
Qed.

Lemma tracked_permutation cs cs' s : cs ≡ₚ cs' → tracked cs s → tracked cs' s.
Proof.
  intros Hp [Hnd Hact Hid]. split; [by rewrite <- Hp| |done]. intros id. by rewrite <- Hp.
Qed.

Lemma collect_item_tracked path now item rest c before after s :
  tracked (before ++ co_query c :: after) s →
  tracked (before ++ co_query c :: after) (collect_item path now item rest c s).2.
Proof.
  pose proof (collect_item_records path now item rest c s) as Hc.
  destruct (collect_item path now item rest c s) as [c' s']. simpl.
  destruct Hc as (_ & _ & Hsp & Hr). intros [Hnd Hact Hid].
  split; rewrite ?Hsp; [done| |].
  - intros id. rewrite Hact. specialize (Hr id). case_decide; [|by rewrite Hr].
    destruct (records s !! id) as [r|] eqn:Er; [|rewrite Hr; naive_solver].
    destruct Hr as (r' & Er' & _ & Hcomp). rewrite Er'. unfold is_active.
    split; intros (r0 & ? & Ha); simplify_eq; eexists; (split; [done|]).
    + by rewrite Hcomp.
    + by rewrite <- Hcomp.
  - intros id r' Er'. specialize (Hr id). case_decide; [|rewrite Hr in Er'; eauto].
    destruct (records s !! id) as [r|] eqn:Er; [|congruence].
    destruct Hr as (r'' & ? & [Hsame _] & _). simplify_eq. rewrite Hsame. eauto.
Qed.

Lemma collect_finish_tracked c now before after s :
  collector_ok c → tracked (before ++ co_query c :: after) s →
  tracked (before ++ after) (collect_finish c now s).
Proof.
  intros Hok. destruct (collect_finish_records c now s Hok) as [Hsp Hr].
  intros Ht. apply (tracked_permutation _ (co_query c :: before ++ after)) in Ht;
    [|by rewrite Permutation_middle]. destruct Ht as [Hnd Hact Hid].
  rewrite <- Permutation_middle in Hnd. apply NoDup_cons in Hnd as [Hnew Hnd].
  split; rewrite ?Hsp; [done| |].
  - intros id. specialize (Hr id). specialize (Hact id).
    rewrite <- Permutation_middle, elem_of_cons in Hact. case_decide as Hd.
    + subst id. split; [done|]. intros (r' & Er' & Ha).
      destruct (records s !! co_query c) as [r|]; [|congruence].
      destruct Hr as (r'' & ? & _ & Hcomp). simplify_eq. unfold is_active in Ha.
      by rewrite Hcomp in Ha.
    + rewrite Hr, <- Hact. naive_solver.
  - intros id r' Er'. specialize (Hr id). case_decide; [|rewrite Hr in Er'; eauto].
    destruct (records s !! id) as [r|] eqn:Er; [|congruence].
    destruct Hr as (r'' & ? & [Hsame _] & _). simplify_eq. rewrite Hsame. eauto.
Qed.

Lemma collector_step_inv g g' : collector_step g g' → gateway_inv g → gateway_inv g'.
Proof.
  intros Hs [Httl Ht Hok]. destruct Hs as [t before after received g Hsp Hdel
    |before c after item rest path now g Hc Hrest|before c after now g Hc Hrest].
  - split; simpl; [done| |by apply Forall_app_2, Forall_singleton].
    destruct Ht as [Hnd Hact Hid]. rewrite Hsp in Hnd, Hact.
    assert ((tk_query <$> before ++ after) ++ ((co_query <$> gw_collectors g ++ [collector_of t received]))
      ≡ₚ (tk_query <$> before ++ t :: after) ++ (co_query <$> gw_collectors g)) as Hp.
    { rewrite !fmap_app, fmap_cons. simpl. solve_Permutation. }
    split; simpl; [by rewrite Hp| |done]. intros id. by rewrite Hp.
  - destruct (collect_item_limits path now item rest c (gw_state g)) as [Hl _].
    pose proof (collect_item_records path now item rest c (gw_state g)) as Hrec.
    rewrite Hc in Ht, Hok. rewrite fmap_app, fmap_cons in Ht.
    apply Forall_app in Hok as [Hb [Hcok Ha]%Forall_cons].
    split; simpl; [by rewrite Hl| |].
    + destruct (collect_item path now item rest c (gw_state g)) as [c' s'] eqn:E.
      destruct Hrec as [Htask _]. simpl. rewrite fmap_app, fmap_cons.
      unfold co_query at 2. rewrite Htask.
      pose proof (collect_item_tracked path now item rest c (co_query <$> before)
        (co_query <$> after) (gw_state g) Ht) as Ht'. by rewrite E in Ht'.
    + apply Forall_app_2; [done|]. apply Forall_cons_2; [|done]. by apply collect_item_ok.
  - destruct (collect_finish_limits c now (gw_state g)) as [Hl _].
    rewrite Hc in Ht, Hok. rewrite fmap_app, fmap_cons in Ht.
    apply Forall_app in Hok as [Hb [Hcok Ha]%Forall_cons].
    split; simpl; [by rewrite Hl| |by apply Forall_app_2].
    rewrite fmap_app. by apply collect_finish_tracked.
Qed.

Lemma gateway_step_inv policy g g' : gateway_step policy g g' → gateway_inv g → gateway_inv g'.
Proof.
  intros [o p am g0 _ Hfresh|g0 g1 Hs]; [|by eapply collector_step_inv].
  intros [Httl Ht Hok]. destruct (run_op_limits o p am (gw_state g0) Httl) as [Hl _].
  split; simpl; [by rewrite Hl| |done]. apply run_op_tracked; [done| |done].
  apply not_elem_of_app in Hfresh as [Hfresh _].
  destruct (records (gw_state g0) !! _) as [r|] eqn:Er; [|done].
  exfalso. apply Hfresh. apply list_elem_of_fmap. eexists (_, r). split; [done|].
  by apply elem_of_map_to_list.
Qed.

Lemma reachable_inv policy config as_ limits i fs g :
  0 < prepared_statement_ttl limits → reachable policy config as_ limits i fs g →
  gateway_inv g.
Proof.
  intros Httl Hr. assert (gateway_inv (gateway_start config as_ limits i fs)) as H0.
  { split; simpl; [done| |done]. split; simpl; [constructor| |done].
    intros id. split; [by intros ?%elem_of_nil|]. intros (r & Hr' & _).
    by rewrite lookup_empty in Hr'. }
  induction Hr; [done|]. eauto using gateway_step_inv.
Qed.

(** Collection.  In every reachable state of the gateway, the unfinished
    queries are exactly those some collector is working on or about to start
    on, and each of them has exactly one. *)
Theorem unfinished_queries_are_collected policy config as_ limits i fs g :
  0 < prepared_statement_ttl limits → reachable policy config as_ limits i fs g →
  let collected := (tk_query <$> spawned (gw_state g)) ++ (co_query <$> gw_collectors g) in
  NoDup collected ∧
  ∀ id, id ∈ collected ↔
    ∃ r, records (gw_state g) !! id = Some r ∧ qd_completed_at (qr_data r) = None.
Proof.
  intros Httl Hr. destruct (reachable_inv _ _ _ _ _ _ _ Httl Hr) as [_ [Hnd Hact _] _].
  split; [done|]. intros id. rewrite Hact. unfold is_active.
  split; intros (r & Er & Ha); exists r; (split; [done|]); by destruct (qd_completed_at _).
Qed.

(** ** Every query comes to an end *)

Lemma length_items items :
  length items = (length (events_of items) + length (batches_of items))%nat.
Proof.
  induction items as [|[e|b] items IH]; [done|..]; cbn [length]; rewrite IH.
  - change (events_of (Event e :: items)) with (e :: events_of items). simpl.
    by change (batches_of (Event e :: items)) with (batches_of items).
  - change (events_of (Batch b :: items)) with (events_of items).
    change (batches_of (Batch b :: items)) with (b :: batches_of items). simpl. lia.
Qed.

Lemma delivery_length sent received : delivery sent received → length received = length sent.
Proof. intros [He Hb]. rewrite (length_items received), (length_items sent), He, Hb. done. Qed.

(** Steps the collectors have still to take. *)
Definition work (g : Gateway) : nat :=
  sum_list_with (λ t, 2 + length (qh_items (tk_handle t)))%nat (spawned (gw_state g))
  + sum_list_with (λ c, 1 + length (co_rest c))%nat (gw_collectors g).

Lemma collector_step_work g g' : collector_step g g' → (work g' < work g)%nat.
Proof.
  destruct 1 as [t before after received g Hsp Hdel
    |before c after item rest path now g Hc Hrest|before c after now g Hc Hrest];
    unfold work; simpl.
  - rewrite Hsp, !sum_list_with_app. simpl. rewrite (delivery_length _ _ Hdel). lia.
  - pose proof (collect_item_records path now item rest c (gw_state g)) as Hr.
    destruct (collect_item path now item rest c (gw_state g)) as [c' s'].
    destruct Hr as (_ & Hr & Hsp & _). simpl.
    rewrite Hsp, Hc, !sum_list_with_app. simpl. rewrite Hr, Hrest. simpl. lia.
  - assert (spawned (collect_finish c now (gw_state g)) = spawned (gw_state g)) as Hsp.
    { unfold collect_finish. destruct (apply_session_updates_records c (gw_state g)) as (_&Hs1&_).
      pose proof (finish_record_spawned c (apply_session_updates c (gw_state g))) as Hs2.
      destruct (finish_record c _) as [ov s2]. simpl in *.
      destruct (alter _ _ _ !! _); simpl; [|congruence].
      unfold close_stateless_session. case_match; simpl; congruence. }
    rewrite Hsp, Hc, !sum_list_with_app. simpl. lia.
Qed.

Lemma collector_progress g : (0 < work g)%nat → ∃ g', collector_step g g'.
Proof.
  unfold work. intros Hw. destruct (spawned (gw_state g)) as [|t ts] eqn:Es.
  - destruct (gw_collectors g) as [|c cs] eqn:Ec; [simpl in Hw; lia|].
    destruct (co_rest c) as [|item rest] eqn:Er.
    + eexists. by apply (gw_finish [] c cs 0).
    + eexists. by apply (gw_item [] c cs item rest "" 0).
  - eexists. by apply (gw_start t [] ts (qh_items (tk_handle t))).
Qed.

Lemma work_done g : gateway_inv g → work g = 0%nat → active_query_count (gw_state g) = 0%nat.
Proof.
  intros Hinv Hzero. unfold work in Hzero. unfold active_query_count, count_values.
  apply map_size_empty_iff, map_empty. intros id. apply map_lookup_filter_None. right.
  intros r Er Ha. simpl in Ha. destruct (inv_tracked _ Hinv) as [_ Hact _].
  assert (id ∈ (tk_query <$> spawned (gw_state g)) ++ (co_query <$> gw_collectors g)) as Hin
    by (apply Hact; eauto).
  destruct (spawned (gw_state g)), (gw_collectors g); simpl in *; try lia.
  by apply elem_of_nil in Hin.
Qed.

End GatewayFacts.

(** ** The event log of a query

    A query's log is numbered without gaps, its state is that of the last
    state event, and exactly one event ends it; the only thing that follows
    the end is a cancellation that came too late. *)

Section EventLog.
Context `{ipc : ArrowIpc}.
Implicit Types (s : ServiceState) (d : QueryData) (e : ServiceEvent).

(** The state an event moves the query to. *)
Definition state_of (e : ServiceEvent) : option string :=
  if String.eqb (ev_event e) "state" then value_get "state" (ev_data e) ≫= as_str else None.

Definition logged_state (events : list ServiceEvent) : string :=
  default "submitted" (last (omap state_of events)).

Definition cancel_notice (e : ServiceEvent) : Prop :=
  ev_terminal e = false ∧ state_of e = Some "cancelling".

Definition ends_query (e : ServiceEvent) : Prop :=
  ev_terminal e = true ∧ ∃ st, state_of e = Some st ∧ terminal_name st = true.

(** No event has ended the query yet, or one has and only notices follow it. *)
Definition ended (events : list ServiceEvent) (completed : option Z) : Prop :=
  match completed with
  | None => Forall (λ e, ev_terminal e = false) events
  | Some _ => ∃ pre e post, events = pre ++ e :: post ∧
      Forall (λ e, ev_terminal e = false) pre ∧ ends_query e ∧ Forall cancel_notice post
  end.

Record log_ok d : Prop := {
  lo_ids k e : qd_events d !! k = Some e → ev_id e = Z.of_nat (S k) mod 2 ^ 64;
  lo_next : qd_next_event_id d = Z.of_nat (S (length (qd_events d))) mod 2 ^ 64;
  lo_state : qd_state d = logged_state (qd_events d);
  lo_ended : ended (qd_events d) (qd_completed_at d);
}.

Lemma log_ok_part d d' : log_part d' = log_part d → log_ok d → log_ok d'.
Proof.
  unfold log_part. intros [= E1 _ E2 E3 E4] [H1 H2 H3 H4].
  split; rewrite ?E1, ?E2, ?E3, ?E4; auto.
Qed.

Lemma logged_state_snoc events e :
  logged_state (events ++ [e]) = default (logged_state events) (state_of e).
Proof.
  unfold logged_state. rewrite omap_app. simpl. destruct (state_of e) as [st|]; simpl.
  - by rewrite last_snoc.
  - by rewrite app_nil_r.
Qed.

(** One more event in the log. *)
Lemma push_event_ok event value terminal now d :
  let d' := push_event event value terminal now d in
  log_ok d → ended (qd_events d') (qd_completed_at d') → log_ok d'.
Proof.
  intros d' [Hids Hnext Hstate _] Hend.
  set (e := {| ev_id := qd_next_event_id d; ev_event := event; ev_data := value;
               ev_terminal := terminal |}).
  assert (qd_events d' = qd_events d ++ [e] ∧
          qd_next_event_id d' = u64_add (qd_next_event_id d) 1 ∧
          qd_state d' = default (qd_state d) (state_of e)) as (Ee & En & Es).
  { unfold d', push_event, state_of. simpl. destruct (String.eqb event "state"); [|done].
    destruct (_ ≫= as_str); [|done]. by destruct terminal. }
  split; [..|done].
  - rewrite Ee. intros k e0 [Hk|[Hk He0]]%lookup_app_Some; [auto|].
    apply list_lookup_singleton_Some in He0 as [Hk0 <-]. simpl. rewrite Hnext.
    do 2 f_equal. lia.
  - rewrite En, Ee, length_app, Hnext. unfold u64_add. simpl length.
    rewrite Zplus_mod_idemp_l. f_equal. lia.
  - by rewrite Es, Ee, logged_state_snoc, Hstate.
Qed.

Lemma cancelling_ok now d : log_ok d → log_ok (cancelling now d).
Proof.
  intros Hok. apply push_event_ok; [done|]. pose proof (lo_ended d Hok) as He. simpl.
  destruct (qd_completed_at d) as [t|]; simpl in *.
  - destruct He as (pre & e & post & -> & Hpre & Hend & Hpost).
    eexists pre, e, (post ++ [_]). rewrite <- app_assoc. split_and!; try done.
    apply Forall_app_2; [done|]. by apply Forall_singleton.
  - apply Forall_app_2; [done|]. by apply Forall_singleton.
Qed.

(** An event of a query that has not ended. *)
Lemma record_event_ok ev now d :
  qd_completed_at d = None → log_ok d → log_ok (record_event ev now d).
Proof.
  intros Hn Hok. pose proof (lo_ended d Hok) as He. rewrite Hn in He. simpl in He.
  assert (∀ id, log_ok (set_engine_query_id id d)) as Hid by (intros; by destruct Hok).
  destruct ev as [st|id|rows|pr|ps]; (apply push_event_ok; [auto|]); simpl; rewrite ?Hn;
    try (apply Forall_app_2; [done|]; by apply Forall_singleton).
  destruct st; simpl; rewrite ?Hn;
    try (apply Forall_app_2; [done|]; by apply Forall_singleton);
    eexists (qd_events d), _, []; split_and!; try done; (split; [done|by eexists]).
Qed.

Lemma failed_ok now d :
  qd_completed_at d = None → log_ok d →
  log_ok (push_event "state" (state_json "failed") true now d).
Proof. apply (record_event_ok (State Failed)). Qed.

Lemma conclude_ok outcome overflow terminal now d :
  qd_completed_at d = None → log_ok d → log_ok (conclude outcome overflow terminal now d).
Proof.
  intros Hn Hok. unfold conclude. destruct outcome as [[]|err].
  - destruct overflow; [by apply failed_ok|by apply record_event_ok].
  - destruct (driver_cancelled err); [by apply record_event_ok|].
    apply failed_ok; unfold fail_with; destruct (qd_error d); try done; by destruct Hok.
Qed.

(** ** In the running gateway *)

Definition logs_ok s : Prop := ∀ id r, records s !! id = Some r → log_ok (qr_data r).

Lemma step_logs p am doomed s s' : step p am doomed s s' → logs_ok s → logs_ok s'.
Proof.
  intros Hs Hok id r' Er'. pose proof (step_records p am doomed s s' id Hs) as Hr.
  rewrite Er' in Hr. destruct Hr as (r & Er & _ & [->|[_ ->]]); [eauto|].
  apply cancelling_ok. eauto.
Qed.

Lemma submitted_ok : log_ok QueryData_submitted.
Proof. split; simpl; try done; by constructor. Qed.

Lemma register_logs p am s s' : register p am s s' → logs_ok s → logs_ok s'.
Proof.
  intros Hr Hok. destruct Hr. intros id r'. simpl.
  intros [[_ <-]|[_ Er']]%lookup_insert_Some; [|eauto]. rewrite Hdata. apply submitted_ok.
Qed.

Definition open_record (id : string) s : Prop :=
  ∀ r, records s !! id = Some r → qd_completed_at (qr_data r) = None.

Lemma collect_item_logs path now item rest c s :
  open_record (co_query c) s → logs_ok s → logs_ok (collect_item path now item rest c s).2.
Proof.
  intros Hopen Hok. unfold collect_item. destruct item as [e|b].
  - destruct (is_terminal e); [done|]. intros id r'. simpl.
    pose proof (on_data_records (co_query c) (record_event e now) s id) as Hr. simpl in Hr.
    rewrite Hr. case_decide; [subst|eauto].
    destruct (records s !! co_query c) as [r|] eqn:Er; [|done]. intros [= <-]. simpl.
    apply record_event_ok; eauto.
  - pose proof (on_cell_records (co_query c) (store_batch (st_limits s) path b) s) as Hr.
    assert (logs_ok (on_cell (co_query c) (store_batch (st_limits s) path b) s).2) as Hok1.
    { intros id r'. rewrite Hr. case_decide; [subst|eauto].
      destruct (records s !! co_query c) as [r|] eqn:Er; [|done]. intros [= <-]. simpl.
      eapply log_ok_part; [apply store_batch_log|]. simpl. eauto. }
    destruct (on_cell _ _ s) as [[[]|err] s']; simpl in *; [done|]. intros id r'. simpl.
    destruct (decide (id = co_query c)) as [->|Hn].
    + rewrite !lookup_alter_eq. destruct (records s' !! co_query c) as [r|] eqn:Er; [|done].
      intros [= <-]. simpl. eapply log_ok_part; [|by eapply Hok1]. done.
    + rewrite !lookup_alter_ne by done. eauto.
Qed.

Lemma collect_finish_logs c now s :
  open_record (co_query c) s → logs_ok s → logs_ok (collect_finish c now s).
Proof.
  intros Hopen Hok. unfold collect_finish.
  destruct (apply_session_updates_records c s) as (Hr1 & _ & _).
  set (s1 := apply_session_updates c s) in *. pose proof (finish_record_records c s1) as Hr2.
  destruct (finish_record c s1) as [ov s2]. simpl in Hr2.
  set (f := conclude _ ov _ now).
  assert (logs_ok (on_data_of (co_query c) f s2)) as Hok3.
  { intros id r'. rewrite on_data_records, Hr2, Hr1. case_decide; [subst|eauto].
    destruct (records s !! co_query c) as [r|] eqn:Er; [|done]. intros [= <-]. simpl.
    pose proof (finish_results_log (qr_data r, disk s1)) as Hlog.
    destruct (finish_results (qr_data r, disk s1)) as [[[]|e] [d fs]]; simpl in *;
      (apply conclude_ok; [etrans; [by apply log_part_completed|eauto]
                          |eapply log_ok_part; [exact Hlog|eauto]]). }
  destruct (records _ !! _) as [r|]; [|done]. unfold close_stateless_session. by case_match.
Qed.

Lemma collector_open g before c after :
  gateway_inv g → gw_collectors g = before ++ c :: after → open_record (co_query c) (gw_state g).
Proof.
  intros Hg Hc r Er. destruct (inv_tracked _ Hg) as [_ Hact _].
  destruct (Hact (co_query c)) as [Hin _]. destruct Hin as (r' & Er' & Ha).
  - rewrite Hc, fmap_app, fmap_cons. set_solver.
  - simplify_eq. unfold is_active in Ha. by destruct (qd_completed_at _).
Qed.

Lemma gateway_step_logs policy g g' :
  gateway_step policy g g' → gateway_inv g → logs_ok (gw_state g) → logs_ok (gw_state g').
Proof.
  intros [o p am g0 _ _|g0 g1 Hs] Hg Hok.
  - simpl. eapply (evolution_invariant p am (doomed_sessions (am_now am) (gw_state g0))).
    + intros s s'. apply step_logs.
    + intros s s'. apply register_logs.
    + apply run_op_evolution, pending_start, (inv_ttl _ Hg).
    + done.
  - destruct Hs as [|before c after item rest path now g2 Hc Hrest|before c after now g2 Hc Hrest];
      simpl; [done|apply collect_item_logs|apply collect_finish_logs];
      eauto using collector_open.
Qed.

(** C7: Event logs.  In every reachable state of the gateway, the log of every
    query numbers its events consecutively from 1 (modulo 2^64), its status
    shows the state of the last state event, a query that has not ended has no
    terminal event, and one that has ended has exactly one, with a terminal
    state, followed by nothing but late cancellation notices. *)
Theorem event_logs_are_well_formed policy config as_ limits i fs g id r :
  0 < prepared_statement_ttl limits → reachable policy config as_ limits i fs g →
  records (gw_state g) !! id = Some r → log_ok (qr_data r).
Proof.
  intros Httl Hr. revert id r. change (logs_ok (gw_state g)). unfold reachable in Hr.
  assert (gateway_inv (gateway_start config as_ limits i fs)) as Hg
    by (eapply (reachable_inv policy); [exact Httl|apply rtc_refl]).
  assert (logs_ok (gw_state (gateway_start config as_ limits i fs))) as Hok
    by (intros id r; simpl; by rewrite lookup_empty).
  induction Hr as [|g0 g1 g Hs _ IH]; [done|].
  apply IH; [by eapply gateway_step_inv|by eapply gateway_step_logs].
Qed.

(** Running the same expiry twice does not matter to a record that stayed. *)
Lemma cancel_spec p am s id r :
  records (cleanup_expired (am_now am) s).2 !! id = Some r → qr_owner r = principal_id p →
  ∃ s', cancel p id (am_now am) s
        = (Ok (query_status (set_data (cancelling (am_now am)) r)), s') ∧
    records s' !! id = Some (set_data (cancelling (am_now am)) (cancel_record r)).
Proof.
  intros Er Hown. unfold cancel. unfold mbind at 1, M_bind at 1.
  destruct (owned_record_spec p am id s) as [(r' & Er' & _ & ->)|E].
  - simplify_eq. unfold audit, on_record. unfold_M. eexists. split; [done|]. simpl.
    by rewrite !lookup_alter_eq, Er.
  - exfalso. unfold owned_record in E. unfold mbind, M_bind in E.
    destruct (cleanup_ok (am_now am) s) as [Hok _].
    rewrite (surjective_pairing (cleanup_expired (am_now am) s)), Hok in E. unfold gets in E.
    rewrite Er, Hown, String.eqb_refl in E. done.
Qed.

(** A late cancellation hides results.  Cancelling one's own query, also
    one that has completed and whose results are retained, moves its state to
    "cancelling" for good: it keeps its completion time, so it is not active,
    but its data no longer give pages, batches, partitions or a batch count. *)
Theorem late_cancel_hides_results p am s id r :
  records (cleanup_expired (am_now am) s).2 !! id = Some r → qr_owner r = principal_id p →
  ∃ s' r', (cancel p id (am_now am) s).2 = s' ∧ records s' !! id = Some r' ∧
    qd_completed_at (qr_data r') = qd_completed_at (qr_data r) ∧
    qd_storage (qr_data r') = qd_storage (qr_data r) ∧
    ∀ fs offset limit skip remaining,
      is_ok (page_of_data (qr_data r') fs offset limit) = false ∧
      is_ok (reader_of_data (qr_data r') fs skip remaining) = false ∧
      is_ok (count_of_data (qr_data r') fs) = false.
Proof.
  intros Er Hown. destruct (cancel_spec p am s id r Er Hown) as (s' & E & Er').
  exists s'. eexists. rewrite E. split; [done|]. split; [exact Er'|]. split; [done|].
  split; [done|]. intros fs offset limit skip remaining.
  unfold page_of_data, reader_of_data, count_of_data. simpl.
  split_and!; [|by destruct (qd_error (qr_data r))|done].
  destruct (qd_storage (qr_data r)) as [bs|path [w|]]; simpl; by destruct (qd_error (qr_data r)).
Qed.
End EventLog.
