(* ===== verification/GatewaySessions.v ===== *)
(** * Sessions, quotas and tenants of the running gateway

    Every session has one owner and a target its owner may use, quotas and
    limits hold in every reachable state of the sequential service, and an
    operation of one principal leaves the sessions, queries and prepared
    statements of the others alone. *)
From S2P Require Import Prelude Text Arrow DriverApi Auth Config Core CoreFacts Cluster.
From S2P Require Import Metadata ServiceData Results Service ServiceSpec Collect GatewayFacts.
Import Core.Sessions Core.Queries.

Section GatewaySessions.
Context `{ipc : ArrowIpc}.
Context (policy : string → AuthenticatedPrincipal).
Implicit Types (s : ServiceState).

Definition owned_by (q : string) (o : SessionOwner) : bool := String.eqb (so_principal o) q.
Definition active_of (q : string) (r : QueryRecord) : bool :=
  String.eqb (qr_owner r) q && is_active r.

(** The limits in force: the policy of each principal and the service's own. *)
Definition sane_limits (limits : ServiceLimits) : Prop :=
  0 < prepared_statement_ttl limits ∧ 0 ≤ max_queries limits ∧
  0 ≤ max_prepared_statements limits ∧
  ∀ q, 0 ≤ max_sessions (policy q) ∧ 0 ≤ max_concurrent_queries (policy q).

Record service_inv s : Prop := {
  (** Sessions and owners go together. *)
  si_owned id : is_Some (session_owners s !! id) ↔ is_Some (sessions (st_sessions s) !! id);
  (** A session's target is one its owner may use. *)
  si_authorized id o se :
    session_owners s !! id = Some o → sessions (st_sessions s) !! id = Some se →
    session_id se = id ∧
    ∃ name, can_use_target (policy (so_principal o)) name = true ∧
            config_target (st_config s) name = Some (session_target se);
  si_sessions q :
    Z.of_nat (count_values (owned_by q) (session_owners s)) ≤ max_sessions (policy q);
  si_active q :
    Z.of_nat (count_values (active_of q) (records s)) ≤ max_concurrent_queries (policy q);
  si_records : Z.of_nat (size (records s)) ≤ max_queries (st_limits s);
  si_prepared : Z.of_nat (size (prepared s)) ≤ max_prepared_statements (st_limits s);
}.

Section Steps.
Context (p : AuthenticatedPrincipal) (am : Ambient) (doomed : gset string).
Hypothesis Hpolicy : policy (principal_id p) = p.

Lemma step_owned s s' id :
  step p am doomed s s' →
  (∀ id, is_Some (session_owners s !! id) ↔ is_Some (sessions (st_sessions s) !! id)) →
  is_Some (session_owners s' !! id) ↔ is_Some (sessions (st_sessions s') !! id).
Proof.
  intros Hs Ho. destruct Hs; simpl; try apply Ho.
  - rewrite !lookup_delete_is_Some. by rewrite Ho.
  - destruct Hown as (o & Hown & _). rewrite lookup_insert_is_Some, <- Ho.
    destruct (decide (id0 = id)) as [<-|]; [rewrite Hown|]; naive_solver.
  - rewrite !lookup_insert_is_Some. by rewrite Ho.
  - destruct Hown as (o & Hown & _). rewrite lookup_insert_is_Some, <- Ho.
    destruct (decide (id0 = id)) as [<-|]; [rewrite Hown|]; naive_solver.
Qed.

Lemma usable_by_policy t s :
  usable_target p t s →
  ∃ name, can_use_target (policy (principal_id p)) name = true ∧
          config_target (st_config s) name = Some t.
Proof. rewrite Hpolicy. by intros (name & ? & ?); exists name. Qed.

Lemma step_authorized s s' id o se :
  step p am doomed s s' → service_inv s →
  session_owners s' !! id = Some o → sessions (st_sessions s') !! id = Some se →
  session_id se = id ∧
  ∃ name, can_use_target (policy (so_principal o)) name = true ∧
          config_target (st_config s') name = Some (session_target se).
Proof.
  intros Hs Hi Ho Hse. destruct Hs; simpl in *; try by eapply si_authorized.
  - apply lookup_delete_Some in Ho as [_ Ho]. apply lookup_delete_Some in Hse as [_ Hse].
    by eapply si_authorized.
  - apply lookup_insert_Some in Ho as [[<- <-]|[_ Ho]]; [|by eapply si_authorized].
    destruct Hown as (o' & Ho' & Hp). simpl. rewrite <- Hp. by eapply si_authorized.
  - apply lookup_insert_Some in Ho as [[<- <-]|[Hn Ho]].
    + rewrite lookup_insert_eq in Hse. simplify_eq. simpl. eauto using usable_by_policy.
    + rewrite lookup_insert_ne in Hse by done. by eapply si_authorized.
  - apply lookup_insert_Some in Hse as [[<- <-]|[_ Hse]]; [|by eapply si_authorized].
    destruct (si_authorized s Hi id0 o old Ho Hold) as [Hid Hname].
    split; [congruence|]. destruct Htarget as [->|Ht]; [done|].
    destruct Hown as (o' & Ho' & Hp). simplify_eq. rewrite Hp. eauto using usable_by_policy.
Qed.

Lemma count_touched q id s :
  owns_session p id s →
  (count_values (owned_by q) (<[id := owner_now p am]> (session_owners s))
   ≤ count_values (owned_by q) (session_owners s))%nat.
Proof.
  intros (o & Ho & Hp). apply count_values_le.
  intros k v [[<- <-]|[_ Hv]]%lookup_insert_Some Hq; [|eauto].
  exists o. split; [done|]. unfold owned_by in *. simpl in Hq. by rewrite Hp.
Qed.

Lemma count_created q id s :
  Z.of_nat (count_values (owned_by (principal_id p)) (session_owners s)) < max_sessions p →
  Z.of_nat (count_values (owned_by q) (session_owners s)) ≤ max_sessions (policy q) →
  Z.of_nat (count_values (owned_by q) (<[id := owner_now p am]> (session_owners s)))
    ≤ max_sessions (policy q).
Proof.
  intros Hroom Hq. destruct (decide (q = principal_id p)) as [->|Hn].
  - rewrite Hpolicy. pose proof (count_values_insert_le (owned_by (principal_id p))
      (session_owners s) id (owner_now p am)). lia.
  - etrans; [|exact Hq]. apply Nat2Z.inj_le, count_values_le.
    intros k v [[<- <-]|[_ Hv]]%lookup_insert_Some Hv'; [|eauto].
    unfold owned_by in Hv'. simpl in Hv'. apply String.eqb_eq in Hv'. congruence.
Qed.

Lemma step_sessions q s s' :
  step p am doomed s s' → service_inv s →
  Z.of_nat (count_values (owned_by q) (session_owners s')) ≤ max_sessions (policy q).
Proof.
  intros Hs Hi. pose proof (si_sessions s Hi q) as Hq. destruct Hs; simpl; try exact Hq.
  - etrans; [|exact Hq]. apply Nat2Z.inj_le, count_values_mono, delete_subseteq.
  - etrans; [|exact Hq]. by apply Nat2Z.inj_le, count_touched.
  - by apply count_created.
Qed.

Lemma step_active q s s' :
  step p am doomed s s' →
  (count_values (active_of q) (records s') ≤ count_values (active_of q) (records s))%nat.
Proof.
  intros Hs. apply count_values_le. intros id r' Er' Ha.
  pose proof (step_records p am doomed s s' id Hs) as Hr. rewrite Er' in Hr.
  destruct Hr as (r & Er & Hsame & Hd). exists r. split; [done|]. unfold active_of in *.
  destruct Hsame as (_ & Ho & _). rewrite <- Ho. by rewrite <- (data_after_active _ _ _ _ Hd).
Qed.

Lemma size_le_dom {A B} (m : gmap string A) (m' : gmap string B) :
  (∀ id, is_Some (m' !! id) → is_Some (m !! id)) → (size m' ≤ size m)%nat.
Proof.
  intros Hsub. rewrite <- !(size_dom (D:=gset string)). apply subseteq_size. intros id.
  rewrite !elem_of_dom. auto.
Qed.

Lemma size_insert_le {A} (m : gmap string A) k v : (size (<[k := v]> m) ≤ S (size m))%nat.
Proof. rewrite map_size_insert. destruct (m !! k); unfold id; lia. Qed.

Lemma step_record_count s s' :
  step p am doomed s s' → (size (records s') ≤ size (records s))%nat.
Proof.
  intros Hs. apply size_le_dom. intros id [r' Er'].
  pose proof (step_records p am doomed s s' id Hs) as Hr. rewrite Er' in Hr.
  destruct Hr as (r & -> & _). eauto.
Qed.

Lemma step_prepared_count s s' :
  step p am doomed s s' →
  Z.of_nat (size (prepared s)) ≤ max_prepared_statements (st_limits s) →
  Z.of_nat (size (prepared s')) ≤ max_prepared_statements (st_limits s).
Proof.
  intros Hs Hp. destruct Hs; simpl; try exact Hp.
  - etrans; [|exact Hp]. by apply Nat2Z.inj_le, map_subseteq_size.
  - pose proof (size_insert_le (prepared s) (am_uuid am) r). lia.
  - rewrite map_size_insert, Hold. done.
Qed.

Lemma step_service_inv s s' : step p am doomed s s' → service_inv s → service_inv s'.
Proof.
  intros Hs Hi. destruct (step_static _ _ _ _ _ Hs) as [Hl _]. split.
  - intros id. eapply step_owned; [exact Hs|]. apply (si_owned s Hi).
  - intros id o se. by eapply step_authorized.
  - intros q. by eapply step_sessions.
  - intros q. pose proof (step_active q s s' Hs). pose proof (si_active s Hi q). lia.
  - rewrite Hl. pose proof (step_record_count s s' Hs). pose proof (si_records s Hi). lia.
  - rewrite Hl. eapply step_prepared_count; [exact Hs|apply si_prepared, Hi].
Qed.

Lemma register_service_inv s s' : register p am s s' → service_inv s → service_inv s'.
Proof.
  intros Hr [Ho Ha Hs Hact Hrec Hp]. destruct Hr. split; simpl; auto.
  - intros q. destruct (decide (q = principal_id p)) as [->|Hn].
    + rewrite Hpolicy. pose proof (count_values_insert_le (active_of (principal_id p))
        (records s) (qr_id r) r) as Hle. unfold active_of in *. lia.
    + etrans; [|apply (Hact q)]. apply Nat2Z.inj_le, count_values_le.
      intros k v [[<- <-]|[_ Hv]]%lookup_insert_Some Hq; [|eauto].
      unfold active_of in Hq. rewrite Hown in Hq.
      apply andb_true_iff in Hq as [Hq%String.eqb_eq _]. congruence.
  - pose proof (size_insert_le (records s) (qr_id r) r). lia.
Qed.
End Steps.

Lemma run_op_service_inv o p am s :
  policy (principal_id p) = p → 0 < prepared_statement_ttl (st_limits s) →
  service_inv s → service_inv (run_op o p am s).
Proof.
  intros Hp Httl. apply (evolution_invariant p am (doomed_sessions (am_now am) s)).
  - intros s1 s2. by apply step_service_inv.
  - intros s1 s2. by apply register_service_inv.
  - by apply run_op_evolution, pending_start.
Qed.

(** ** Collectors *)

(** Changes of the records only: no query appears, none becomes active again. *)
Lemma records_service_inv s s' :
  session_owners s' = session_owners s → st_sessions s' = st_sessions s →
  st_config s' = st_config s → st_limits s' = st_limits s → prepared s' = prepared s →
  (∀ id r', records s' !! id = Some r' →
     ∃ r, records s !! id = Some r ∧ qr_owner r' = qr_owner r ∧
          (is_active r' = true → is_active r = true)) →
  service_inv s → service_inv s'.
Proof.
  intros Eo Es Ec El Ep Hr [Ho Ha Hs Hact Hrec Hp].
  split; rewrite ?Eo, ?Es, ?Ec, ?El, ?Ep; auto.
  - intros q. etrans; [|apply (Hact q)]. apply Nat2Z.inj_le, count_values_le.
    intros id r' Er' Hq. destruct (Hr id r' Er') as (r & Er & How & Hac). exists r.
    split; [done|]. unfold active_of in *. rewrite <- How.
    apply andb_true_iff in Hq as [-> ?]. simpl. auto.
  - etrans; [|exact Hrec]. apply Nat2Z.inj_le, size_le_dom. intros id [r' Er'].
    destruct (Hr id r' Er') as (r & -> & _). eauto.
Qed.

Lemma collect_item_frame path now item rest c s :
  let s' := (collect_item path now item rest c s).2 in
  session_owners s' = session_owners s ∧ st_sessions s' = st_sessions s ∧
  prepared s' = prepared s.
Proof.
  unfold collect_item. destruct item as [e|b]; [by destruct (is_terminal e)|].
  destruct (on_cell_frame (co_query c) (store_batch (st_limits s) path b) s)
    as (_&_&_&Ho&Hs&Hp&_).
  by destruct (on_cell _ _ s) as [[[]|e] s'].
Qed.

Lemma collect_item_service_inv path now item rest c s :
  service_inv s → service_inv (collect_item path now item rest c s).2.
Proof.
  destruct (collect_item_frame path now item rest c s) as (Ho & Hs & Hp).
  destruct (collect_item_limits path now item rest c s) as [Hl Hc].
  pose proof (collect_item_records path now item rest c s) as Hr.
  destruct (collect_item path now item rest c s) as [c' s']. simpl in *.
  destruct Hr as (_ & _ & _ & Hr). apply records_service_inv; try done.
  intros id r' Er'. specialize (Hr id). case_decide; [|rewrite Hr in Er'; eauto].
  destruct (records s !! id) as [r|]; [|congruence].
  destruct Hr as (r'' & ? & (_ & How & _) & Hcomp). simplify_eq. exists r.
  unfold is_active. by rewrite Hcomp.
Qed.

(** The overrides of the query's session change, or nothing does. *)
Lemma apply_updates_cases c s :
  apply_session_updates c s = s ∨
  ∃ sid old, sessions (st_sessions s) !! sid = Some old ∧
    apply_session_updates c s
    = with_sessions (set_sessions (<[sid := mutated (SetOptions (co_session_updates c)) old]>)) s.
Proof.
  unfold apply_session_updates. destruct (records s !! co_query c) as [r|]; [|by left].
  destruct (_ && _); [|by left].
  pose proof (run_mutation_cas (qr_session_id r) (qr_session_version r)
    (SetOptions (co_session_updates c)) (st_sessions s)) as Hcas. simpl in Hcas.
  unfold with_sessions. rewrite Hcas. unfold compare_and_swap.
  destruct (sessions (st_sessions s) !! qr_session_id r) as [old|] eqn:Hold; [|left; by destruct s].
  destruct (_ =? _); [|left; by destruct s]. right. by exists (qr_session_id r), old.
Qed.

Lemma apply_updates_service_inv c s : service_inv s → service_inv (apply_session_updates c s).
Proof.
  intros Hi. destruct (apply_updates_cases c s) as [->|(sid & old & Hold & ->)]; [done|].
  destruct Hi as [Ho Ha Hs Hact Hrec Hp]. split; simpl; try done.
  - intros id. rewrite lookup_insert_is_Some, <- Ho.
    destruct (decide (sid = id)) as [<-|]; [|naive_solver].
    rewrite Ho, Hold. naive_solver.
  - intros id o se Hown [[<- <-]|[_ Hse]]%lookup_insert_Some; [|eauto].
    destruct (Ha _ o old Hown Hold) as [Hid Hname]. by split.
Qed.

Lemma close_stateless_service_inv sid b s :
  service_inv s → service_inv (close_stateless_session sid b s).
Proof.
  intros [Ho Ha Hs Hact Hrec Hp]. destruct b; [|done]. simpl.
  unfold close_stateless_session.
  assert (with_sessions (λ m, (close sid m).2) s
          = with_sessions (set_sessions (delete sid)) s) as ->.
  { unfold with_sessions. by rewrite close_state. }
  split; simpl; try done.
  - intros id. rewrite !lookup_delete_is_Some. by rewrite Ho.
  - intros id o se [_ Hown]%lookup_delete_Some [_ Hse]%lookup_delete_Some. eauto.
  - intros q. etrans; [|apply (Hs q)]. apply Nat2Z.inj_le, count_values_mono, delete_subseteq.
Qed.

Lemma collect_finish_service_inv c now s :
  collector_ok c → service_inv s → service_inv (collect_finish c now s).
Proof.
  intros Hok Hi. unfold collect_finish.
  assert (service_inv (apply_session_updates c s)) as Hi1 by by apply apply_updates_service_inv.
  set (s1 := apply_session_updates c s) in *.
  destruct (finish_record_limits c s1) as (Hl & Hc & Ho & Hs & Hp).
  pose proof (finish_record_records c s1) as Hr.
  destruct (finish_record c s1) as [ov s2]. simpl in *.
  set (f := conclude _ ov _ now).
  assert (service_inv (on_data_of (co_query c) f s2)) as Hi3.
  { revert Hi1. apply records_service_inv; try done. intros id r' Er'.
    rewrite on_data_records, Hr in Er'. case_decide; [|eauto].
    destruct (records s1 !! id) as [r|]; [|done]. simpl in Er'. simplify_eq. exists r.
    split; [done|]. split; [done|]. unfold is_active. simpl.
    unfold f. by rewrite conclude_completed. }
  destruct (alter _ _ _ !! _) as [r|]; [|done]. by apply close_stateless_service_inv.
Qed.

Lemma gateway_step_service_inv g g' :
  gateway_step policy g g' → gateway_inv g →
  service_inv (gw_state g) → service_inv (gw_state g').
Proof.
  intros [o p am g0 Hp _|g0 g1 Hs] Hg Hi.
  - simpl. apply run_op_service_inv; [done|apply (inv_ttl _ Hg)|done].
  - pose proof (inv_collectors _ Hg) as Hok.
    destruct Hs as [t before after received g2 Hsp Hdel
      |before c after item rest path now g2 Hc Hrest|before c after now g2 Hc Hrest]; simpl.
    + by destruct Hi.
    + by apply collect_item_service_inv.
    + apply collect_finish_service_inv; [|done]. rewrite Hc in Hok.
      by apply Forall_app in Hok as [_ [? _]%Forall_cons].
Qed.

Lemma gateway_step_static g g' :
  gateway_step policy g g' → gateway_inv g →
  st_limits (gw_state g') = st_limits (gw_state g) ∧
  st_config (gw_state g') = st_config (gw_state g).
Proof.
  intros [o p am g0 _ _|g0 g1 Hs] Hg.
  - apply run_op_limits, (inv_ttl _ Hg).
  - destruct Hs; simpl; [done|apply collect_item_limits|apply collect_finish_limits].
Qed.

Lemma service_inv_start config as_ limits i fs :
  sane_limits limits → service_inv (GatewayService_new config as_ limits i fs).
Proof.
  intros (_ & Hq & Hpr & Hpol). split; simpl; try done.
  - intros id. by rewrite !lookup_empty, !is_Some_alt.
  - intros q. unfold count_values. rewrite map_filter_empty, map_size_empty. apply Hpol.
  - intros q. unfold count_values. rewrite map_filter_empty, map_size_empty. apply Hpol.
Qed.

Lemma reachable_service_inv config as_ limits i fs g :
  sane_limits limits → reachable policy config as_ limits i fs g →
  service_inv (gw_state g) ∧ st_config (gw_state g) = config ∧ st_limits (gw_state g) = limits.
Proof.
  intros Hsane Hr. unfold reachable in Hr.
  assert (gateway_inv (gateway_start config as_ limits i fs)) as Hg
    by (eapply (reachable_inv policy); [apply Hsane|apply rtc_refl]).
  pose proof (service_inv_start config as_ limits i fs Hsane) as Hi.
  change (GatewayService_new config as_ limits i fs)
    with (gw_state (gateway_start config as_ limits i fs)) in Hi.
  enough (∀ g0, rtc (gateway_step policy) g0 g → gateway_inv g0 → service_inv (gw_state g0) →
    service_inv (gw_state g) ∧ st_config (gw_state g) = st_config (gw_state g0) ∧
    st_limits (gw_state g) = st_limits (gw_state g0)) as Hall by by apply (Hall _ Hr).
  clear. intros g0. induction 1 as [g|g0 g1 g Hs _ IH]; [done|]. intros Hg Hi.
  destruct (gateway_step_static _ _ Hs Hg) as [<- <-].
  apply IH; [by eapply gateway_step_inv|by eapply gateway_step_service_inv].
Qed.

(** C3: Authorization of sessions.  In every reachable state of the gateway,
    every session has exactly one owner and runs against a configured target
    that its owner's policy allows, whatever was created, switched, expired or
    changed by query results before. *)
Theorem sessions_are_authorized config as_ limits i fs g id :
  sane_limits limits → reachable policy config as_ limits i fs g →
  match session_owners (gw_state g) !! id, sessions (st_sessions (gw_state g)) !! id with
  | Some o, Some se =>
      session_id se = id ∧
      ∃ name, can_use_target (policy (so_principal o)) name = true ∧
              config_target config name = Some (session_target se)
  | None, None => True
  | _, _ => False
  end.
Proof.
  intros Hsane Hr. destruct (reachable_service_inv _ _ _ _ _ _ Hsane Hr) as (Hi & Hc & _).
  pose proof (si_owned _ Hi id) as Ho. pose proof (si_authorized _ Hi id) as Ha.
  rewrite Hc in Ha. destruct (session_owners _ !! id) as [o|], (sessions _ !! id) as [se|].
  - by apply Ha.
  - destruct Ho as [[? ?] _]; [eauto|done].
  - destruct Ho as [_ [? ?]]; [eauto|done].
  - done.
Qed.

End GatewaySessions.
