(* ===== verification/Tenants.v ===== *)
(** * Tenants and shutdown

    What one principal does leaves the live sessions of the others, and the
    queries and prepared statements in them, as they were; identifiers of
    others are answered as unknown ones; and a service that shuts down only
    winds down. *)
From S2P Require Import Prelude Text Arrow DriverApi Auth Config Core CoreFacts Cluster.
From S2P Require Import Metadata ServiceData Results Service ServiceSpec Collect GatewayFacts.
From S2P Require Import GatewaySessions.
Import Core.Sessions Core.Queries.

Section Tenants.
Context `{ipc : ArrowIpc}.
Implicit Types (s : ServiceState).

(** ** Isolation *)

(** A live session of somebody else, issued in another minute. *)
Record protected (p : AuthenticatedPrincipal) (am : Ambient) (doomed : gset string)
    (id : string) (o : SessionOwner) (se : Session) s : Prop := {
  pt_owner : session_owners s !! id = Some o;
  pt_session : sessions (st_sessions s) !! id = Some se;
  pt_foreign : so_principal o ≠ principal_id p;
  pt_live : session_expired (session_ttl (st_limits s)) (am_now am) o = false;
  pt_kept : id ∉ doomed;
  pt_issued user st : (next_session_id user (am_minute am) st).1 ≠ id;
}.

(** The query is the one it was; only a shutdown may have cancelled it. *)
Definition query_kept (qid : string) (r : QueryRecord) s : Prop :=
  ∃ r', records s !! qid = Some r' ∧ same_query r r' ∧ qr_data r' = qr_data r ∧
        (qr_cancel r' = qr_cancel r ∨ shutting_down s = true).

Section Step.
Context (p : AuthenticatedPrincipal) (am : Ambient) (doomed : gset string).
Context (id : string) (o : SessionOwner) (se : Session).
Abbreviation Protected := (protected p am doomed id o se).

Lemma protected_not_owned s : Protected s → ¬ owns_session p id s.
Proof. intros [Ho _ Hf _ _ _] (o' & Ho' & Hp). congruence. Qed.

Lemma protected_not_ended s id' : Protected s → may_end p am doomed id' s → id' ≠ id.
Proof.
  intros [Ho _ Hf Hl Hk _] [Hd|Hend] ->; [done|].
  destruct (Hend o Ho) as [?|?]; congruence.
Qed.

Lemma step_protected s s' : step p am doomed s s' → Protected s → Protected s'.
Proof.
  intros Hs HP. pose proof (protected_not_owned s HP) as Hno.
  pose proof (λ id', protected_not_ended s id' HP) as Hne.
  destruct HP as [Ho Hse Hf Hl Hk Hi]. destruct Hs; split; simpl; try done.
  - rewrite lookup_delete_ne; auto.
  - rewrite lookup_delete_ne; auto.
  - rewrite lookup_insert_ne; [done|]. by intros ->.
  - rewrite lookup_insert_ne; [done|]. intros ->. by apply (Hi (session_username (am_env am) t)
      (ids (st_sessions s))); rewrite Hid.
  - rewrite lookup_insert_ne; [done|]. intros ->. by apply (Hi (session_username (am_env am) t)
      (ids (st_sessions s))); rewrite Hid.
  - rewrite lookup_insert_ne; [done|]. by intros ->.
Qed.

Lemma register_protected s s' : register p am s s' → Protected s → Protected s'.
Proof. intros [] []. by split. Qed.

(** ** Queries in a protected session *)

Section Query.
Context (qid : string) (r : QueryRecord).
Hypothesis Hsession : qr_session_id r = id.
Hypothesis Howner : qr_owner r ≠ principal_id p.
Hypothesis Hnew : qid ≠ "qcli_" +:+ am_uuid am.

Definition kept_live s : Prop :=
  Protected s ∧ record_live (result_ttl (st_limits s)) (am_now am) r = true ∧
  query_kept qid r s.

Lemma record_live_data ttl now r1 r2 :
  qr_data r1 = qr_data r2 → record_live ttl now r1 = record_live ttl now r2.
Proof. unfold record_live. by intros ->. Qed.

(** What a step does to the flag of the query. *)
Lemma step_flag s s' r1 r2 :
  step p am doomed s s' → Protected s → qr_session_id r1 = id → qr_owner r1 ≠ principal_id p →
  records s !! qid = Some r1 → records s' !! qid = Some r2 →
  qr_cancel r2 = qr_cancel r1 ∨ shutting_down s' = true.
Proof.
  intros Hs HP Hsid Hown E1 E2. destruct Hs; simpl in *; try (left; congruence); try by right.
  - left. rewrite lookup_fmap, E1 in E2. injection E2 as <-. unfold cancel_if.
    destruct (String.eqb_spec (qr_session_id r1) id0) as [He|]; [|done].
    exfalso. by apply (protected_not_ended _ _ HP Hend); congruence.
  - left. rewrite retain_lookup, E1 in E2. destruct (record_live _ _ r1); congruence.
  - left. destruct (decide (qid = id0)) as [->|Hn].
    + rewrite lookup_alter_eq, E1 in E2. by injection E2 as <-.
    + rewrite lookup_alter_ne in E2 by done. congruence.
  - left. destruct Hown0 as (r0 & Hr0 & Ho0). rewrite lookup_alter_ne in E2; [congruence|].
    intros ->. congruence.
Qed.

Lemma shutting_down_step s s' :
  step p am doomed s s' → shutting_down s = true → shutting_down s' = true.
Proof. by destruct 1. Qed.

Lemma step_kept s s' : step p am doomed s s' → kept_live s → kept_live s'.
Proof.
  intros Hs (HP & Hlive & r1 & E1 & Hsame & Hdata & Hflag).
  pose proof (step_records p am doomed s s' qid Hs) as Hr.
  destruct (step_static _ _ _ _ _ Hs) as [Hl _].
  split; [by eapply step_protected|]. split; [by rewrite Hl|].
  destruct Hsame as (Hi1 & Ho1 & Hs1 & Hrest).
  destruct (records s' !! qid) as [r2|] eqn:E2.
  - destruct Hr as (r1' & E1' & Hsame' & Hafter).
    assert (r1' = r1) as -> by congruence. exists r2. split; [done|].
    destruct Hsame' as (Hi2 & Ho2 & Hs2 & Hrest2).
    split; [by split_and!; destruct_and?; congruence|]. split.
    + destruct Hafter as [->|[Hown _]]; [done|]. congruence.
    + destruct Hflag as [Hf|Hsh]; [|right; by eapply shutting_down_step].
      destruct (step_flag s s' r1 r2 Hs HP) as [?|?]; try congruence; [left|right]; congruence.
  - specialize (Hr r1 E1). rewrite (record_live_data _ _ r1 r Hdata) in Hr. congruence.
Qed.

Lemma register_kept s s' : register p am s s' → kept_live s → kept_live s'.
Proof.
  intros Hr (HP & Hlive & r1 & E1 & Hrest). split; [by eapply register_protected|].
  destruct Hr. split; [done|]. exists r1. simpl. by rewrite lookup_insert_ne by congruence.
Qed.
End Query.

(** ** Prepared statements in a protected session *)

Definition statement_kept (h : string) (r : PreparedStatementRecord) s : Prop :=
  Protected s ∧
  prepared_live (prepared_statement_ttl (st_limits s)) (am_now am) r = true ∧
  prepared s !! h = Some r.

Lemma step_statement h r s s' :
  pr_session_id r = id → pr_owner r ≠ principal_id p → h ≠ am_uuid am →
  step p am doomed s s' → statement_kept h r s → statement_kept h r s'.
Proof.
  intros Hid Hown Hh Hs (HP & Hlive & Hr). destruct (step_static _ _ _ _ _ Hs) as [Hl _].
  split; [by eapply step_protected|]. split; [by rewrite Hl|].
  destruct Hs; simpl; try done.
  - destruct (m !! h) as [r'|] eqn:E.
    + apply (lookup_weaken _ (prepared s)) in E; [|done]. congruence.
    + exfalso. destruct (Hforget h r Hr E) as [?|[?|Ho]]; [congruence..|].
      rewrite Hid in Ho. by apply (protected_not_owned s HP).
  - by rewrite lookup_insert_ne.
  - rewrite lookup_insert_ne; [done|]. intros ->. congruence.
Qed.

Lemma register_statement h r s s' :
  register p am s s' → statement_kept h r s → statement_kept h r s'.
Proof.
  intros Hr (HP & Hrest). split; [by eapply register_protected|]. by destruct Hr.
Qed.
End Step.


(** ** Identifiers of others *)

Section Foreign.
Context (p : AuthenticatedPrincipal) (am : Ambient).

Lemma foreign_session {A} id s (k : unit → M ServiceState ServiceError A) :
  ¬ owns_session p id s →
  mbind k (require_session_owner p id (am_now am)) s = (Err session_not_found, s).
Proof.
  intros Hn. unfold mbind, M_bind.
  by destruct (require_session_owner_spec p am id s) as [[? _]| ->].
Qed.

Lemma foreign_query {A} id s (k : QueryRecord → M ServiceState ServiceError A) :
  let s1 := (cleanup_expired (am_now am) s).2 in
  (∀ r, records s1 !! id = Some r → qr_owner r ≠ principal_id p) →
  mbind k (owned_record p id (am_now am)) s = (Err query_not_found, s1).
Proof.
  intros s1 Hn. unfold mbind, M_bind.
  destruct (owned_record_spec p am id s) as [(r & Hr & Hp & _)| ->]; [|done].
  by apply Hn in Hr.
Qed.

Lemma foreign_prepared {A} h s (k : PreparedStatementRecord → M ServiceState ServiceError A) :
  let s1 := (cleanup_expired (am_now am) s).2 in
  (∀ r, prepared s1 !! h = Some r → pr_owner r ≠ principal_id p) →
  (_ ← cleanup_expired (am_now am); mbind k (owned_prepared p h)) s
  = (Err prepared_not_found, s1).
Proof.
  intros s1 Hn. unfold mbind, M_bind. destruct (cleanup_ok (am_now am) s) as [Hok _].
  assert (cleanup_expired (am_now am) s = (Ok tt, s1)) as ->.
  { rewrite <- Hok. apply surjective_pairing. }
  destruct (owned_prepared_spec p h s1) as [(r & Hr & Hp & _)| ->]; [|done].
  by apply Hn in Hr.
Qed.

Lemma bind_err {A B} (m : M ServiceState ServiceError A) (f : A → M ServiceState ServiceError B)
    s s' e : m s = (Err e, s') → mbind f m s = (Err e, s').
Proof. unfold mbind, M_bind. by intros ->. Qed.

Lemma available {A} s (m : M ServiceState ServiceError A) :
  shutting_down s = false → (_ ← ensure_available; m) s = m s.
Proof. intros Hs. unfold ensure_available. unfold_M. by rewrite Hs. Qed.
End Foreign.

(** C9: Unlinkability.  An identifier that belongs to somebody else is answered
    exactly as one that does not exist, whatever operation it is given to: a
    fixed error, and no effect beyond the expiry the operation runs anyway. *)
Theorem foreign_ids_look_unknown p am s id :
  let now := am_now am in
  let s1 := (cleanup_expired now s).2 in
  (¬ owns_session p id s →
     session p id now s = (Err session_not_found, s) ∧
     close_session p id now s = (Err session_not_found, s) ∧
     (∀ c sc pt, session_metadata_request p id c sc pt now s = (Err session_not_found, s)) ∧
     (∀ sql, submit_session_query p id sql am s = (Err session_not_found, s)) ∧
     (∀ sql, execute_session_update p id sql am s = (Err session_not_found, s)) ∧
     (shutting_down s = false → ∀ v t ot ov oov,
        update_session p id v ov now s = (Err session_not_found, s) ∧
        service_switch_target p id v t now s = (Err session_not_found, s) ∧
        mutate_session p id v ot oov now s = (Err session_not_found, s))) ∧
  ((∀ r, records s1 !! id = Some r → qr_owner r ≠ principal_id p) →
     query p id now s = (Err query_not_found, s1) ∧
     cancel p id now s = (Err query_not_found, s1) ∧
     (∀ off lim, result_page p id off lim now s = (Err query_not_found, s1)) ∧
     result_batch_count p id now s = (Err query_not_found, s1) ∧
     result_reader p id now s = (Err query_not_found, s1) ∧
     query_schema p id now s = (Err query_not_found, s1) ∧
     (∀ after, event_history p id after now s = (Err query_not_found, s1))) ∧
  ((∀ r, prepared s1 !! id = Some r → pr_owner r ≠ principal_id p) →
     prepared_statement p id now s = (Err prepared_not_found, s1) ∧
     (∀ ps, bind_prepared_statement p id ps now s = (Err prepared_not_found, s1)) ∧
     execute_prepared_statement p id am s = (Err prepared_not_found, s1) ∧
     service_execute_prepared_update p id am s = (Err prepared_not_found, s1)).
Proof.
  intros now s1. split_and!.
  - intros Hn. assert (session p id now s = (Err session_not_found, s)) as Hse
      by by apply foreign_session.
    split_and!; try done; try (intros; by apply bind_err); [by apply foreign_session|].
    intros Ho v t ot ov oov. split_and!; (etrans; [by apply available|]);
      by apply foreign_session.
  - intros Hn. split_and!; try intros; by apply foreign_query.
  - intros Hn. assert (prepared_statement p id now s = (Err prepared_not_found, s1)) as Hpr
      by by apply foreign_prepared.
    split_and!; try done; try (by apply bind_err). intros ps. by apply foreign_prepared.
Qed.

(** ** Shutdown *)

(** Nothing appears: no session, query or statement, no change of a session
    that is still there, and no work for the collectors. *)
Record winding_down s s' : Prop := {
  wd_shut : shutting_down s' = true;
  wd_sessions id se : sessions (st_sessions s') !! id = Some se →
    ∃ se0, sessions (st_sessions s) !! id = Some se0;
  wd_queries id : is_Some (records s' !! id) → is_Some (records s !! id);
  wd_prepared h : is_Some (prepared s' !! h) → is_Some (prepared s !! h);
}.

Lemma winding_down_refl s : shutting_down s = true → winding_down s s.
Proof. intros Hs. split; eauto. Qed.

Lemma winding_down_trans s1 s2 s3 :
  winding_down s1 s2 → winding_down s2 s3 → winding_down s1 s3.
Proof.
  intros [H1 Hs1 Hq1 Hp1] [H2 Hs2 Hq2 Hp2]. split; [done| |auto|auto].
  intros id se Hse. destruct (Hs2 id se Hse) as [se' Hse']. eauto.
Qed.

Lemma step_winding_down p am doomed s s' :
  step p am doomed s s' → shutting_down s = true → winding_down s s' ∧ spawned s' = spawned s.
Proof.
  intros Hs Hsh. split; [|by eapply step_spawned]. split.
  - by eapply shutting_down_step.
  - intros id se Hse. destruct Hs; simpl in *; eauto; try congruence.
    apply lookup_delete_Some in Hse as [_ Hse]. eauto.
  - intros id [r' Er']. pose proof (step_records p am doomed s s' id Hs) as Hr.
    rewrite Er' in Hr. destruct Hr as (r & -> & _). eauto.
  - intros h [r Hr]. destruct Hs; simpl in *; eauto; try congruence.
    + eapply lookup_weaken in Hr; [|done]. eauto.
    + apply lookup_insert_Some in Hr as [[<- _]|[_ Hr]]; eauto.
Qed.

Lemma run_op_winding_down o p am s :
  0 < prepared_statement_ttl (st_limits s) → shutting_down s = true →
  winding_down s (run_op o p am s) ∧ spawned (run_op o p am s) = spawned s.
Proof.
  intros Httl Hsh.
  apply (evolution_invariant p am (doomed_sessions (am_now am) s)
    (λ s', winding_down s s' ∧ spawned s' = spawned s) s).
  - intros s1 s2 Hs [Hw Hsp]. destruct (step_winding_down _ _ _ _ _ Hs (wd_shut _ _ Hw)).
    split; [by eapply winding_down_trans|congruence].
  - intros s1 s2 [] [Hw _]. by rewrite (wd_shut _ _ Hw) in Hopen.
  - by apply run_op_evolution, pending_start.
  - split; [by apply winding_down_refl|done].
Qed.

(** The collectors wind down too. *)
Lemma collect_item_winding_down path now item rest c s :
  shutting_down s = true → winding_down s (collect_item path now item rest c s).2.
Proof.
  intros Hsh. destruct (collect_item_frame path now item rest c s) as (_ & Hs & Hp).
  pose proof (collect_item_records path now item rest c s) as Hr.
  assert (shutting_down (collect_item path now item rest c s).2 = shutting_down s) as Hsd.
  { unfold collect_item. destruct item as [e|b]; [by destruct (is_terminal e)|].
    destruct (on_cell_frame (co_query c) (store_batch (st_limits s) path b) s)
      as (_&_&_&_&_&_&Hsd). by destruct (on_cell _ _ s) as [[[]|e] s']. }
  destruct (collect_item path now item rest c s) as [c' s']. simpl in *.
  destruct Hr as (_ & _ & _ & Hr). split; rewrite ?Hs, ?Hp; try congruence; eauto.
  intros id [r' Er']. specialize (Hr id). case_decide; [|rewrite <- Hr; eauto].
  destruct (records s !! id); [eauto|congruence].
Qed.

Lemma apply_updates_winding_down c s :
  shutting_down s = true → winding_down s (apply_session_updates c s).
Proof.
  intros Hsh. destruct (apply_updates_cases c s) as [->|(sid & old & Hold & ->)];
    [by apply winding_down_refl|]. split; simpl; eauto.
  intros id se [[<- _]|[_ Hse]]%lookup_insert_Some; eauto.
Qed.

Lemma close_stateless_winding_down sid b s :
  shutting_down s = true → winding_down s (close_stateless_session sid b s).
Proof.
  intros Hsh. destruct b; [|by apply winding_down_refl]. split; simpl; eauto.
  intros id se. rewrite close_state. simpl. intros [_ Hse]%lookup_delete_Some. eauto.
Qed.

Lemma finish_record_winding_down c f s :
  shutting_down s = true →
  winding_down s (on_data_of (co_query c) f (finish_record c s).2).
Proof.
  intros Hsh. destruct (finish_record_limits c s) as (_ & _ & _ & Hs & Hp).
  assert (shutting_down (finish_record c s).2 = shutting_down s) as Hsd.
  { unfold finish_record. destruct (on_cell_frame (co_query c) finish_results s)
      as (_&_&_&_&_&_&Hsd). by destruct (on_cell _ _ s) as [[[]|e] s']. }
  pose proof (on_data_records (co_query c) f (finish_record c s).2) as Hr.
  split; simpl in *; rewrite ?Hs, ?Hp; try congruence; eauto.
  intros id. rewrite Hr, finish_record_records. case_decide; [|done].
  by rewrite !fmap_is_Some.
Qed.

Lemma collect_finish_winding_down c now s :
  shutting_down s = true → winding_down s (collect_finish c now s).
Proof.
  intros Hsh. pose proof (apply_updates_winding_down c s Hsh) as H1. unfold collect_finish.
  pose proof (λ f, finish_record_winding_down c f _ (wd_shut _ _ H1)) as H2.
  destruct (finish_record c (apply_session_updates c s)) as [ov s2]. cbv beta iota.
  specialize (H2 (conclude (finish (tk_handle (co_task c))) ov (co_terminal_event c) now)).
  pose proof (winding_down_trans _ _ _ H1 H2) as H3.
  destruct (records _ !! _); [|done]. eapply winding_down_trans; [exact H3|].
  by apply close_stateless_winding_down, (wd_shut _ _ H3).
Qed.

Lemma gateway_step_winding_down policy g g' :
  gateway_step policy g g' → gateway_inv g → shutting_down (gw_state g) = true →
  winding_down (gw_state g) (gw_state g') ∧ (work g' ≤ work g)%nat.
Proof.
  intros [o p am g0 _ _|g0 g1 Hs] Hg Hsh.
  - destruct (run_op_winding_down o p am (gw_state g0) (inv_ttl _ Hg) Hsh) as [Hw Hsp].
    split; [done|]. unfold work. simpl. by rewrite Hsp.
  - split; [|by apply Nat.lt_le_incl, collector_step_work]. destruct Hs; simpl.
    + split; simpl; eauto.
    + by apply collect_item_winding_down.
    + by apply collect_finish_winding_down.
Qed.

Lemma shutdown_tracked cs s : tracked cs s → tracked cs (begin_shutdown s).2.
Proof.
  assert (∀ r, is_active (cancel_if is_active r) = is_active r) as Hac.
  { intros r. unfold cancel_if. destruct (is_active r) eqn:E; exact E. }
  intros [Hnd Hact Hid]. split; simpl; [done| |].
  - intros id. rewrite Hact, lookup_fmap. split; intros (r & Er & Ha).
    + rewrite Er. eexists. split; [done|]. by rewrite Hac.
    + destruct (records s !! id) as [r0|]; [|done]. simpl in Er. injection Er as <-. exists r0.
      by rewrite Hac in Ha.
  - intros id r. rewrite lookup_fmap. destruct (records s !! id) as [r0|] eqn:Er; [|done].
    simpl. intros [= <-]. unfold cancel_if. destruct (is_active r0); simpl; eauto.
Qed.

Lemma shutdown_cancels s id r :
  records (begin_shutdown s).2 !! id = Some r → is_active r = true → qr_cancel r = true.
Proof.
  simpl. rewrite lookup_fmap. destruct (records s !! id) as [r0|]; [|done]. simpl.
  intros [= <-]. unfold cancel_if. destruct (is_active r0) eqn:E; [done|]. congruence.
Qed.

(** Shutdown.  [begin_shutdown] cancels every unfinished query; from then
    on, whatever clients call and however collectors run, no session, query or
    prepared statement appears and the collectors' work only shrinks, and once
    it is done no query is unfinished. *)
Theorem shutdown_drains policy config as_ limits i fs g0 g :
  0 < prepared_statement_ttl limits → reachable policy config as_ limits i fs g0 →
  let s0 := (begin_shutdown (gw_state g0)).2 in
  rtc (gateway_step policy) {| gw_state := s0; gw_collectors := gw_collectors g0 |} g →
  (∀ id r, records s0 !! id = Some r → is_active r = true → qr_cancel r = true) ∧
  winding_down (gw_state g0) (gw_state g) ∧ (work g ≤ work g0)%nat ∧
  (work g = 0%nat → active_query_count (gw_state g) = 0%nat).
Proof.
  intros Httl Hr s0 Hsteps. split; [by apply shutdown_cancels|].
  pose proof (reachable_inv _ _ _ _ _ _ _ Httl Hr) as Hinv.
  set (g1 := {| gw_state := s0; gw_collectors := gw_collectors g0 |}) in *.
  assert (winding_down (gw_state g0) s0) as H0.
  { split; simpl; eauto. intros id. by rewrite lookup_fmap, fmap_is_Some. }
  assert (gateway_inv g1) as Hinv1.
  { destruct Hinv as [H1 H2 H3]. split; [done| |done].
    by apply shutdown_tracked. }
  enough (winding_down s0 (gw_state g) ∧ (work g ≤ work g1)%nat ∧ gateway_inv g) as (Hw & Hk & Hi).
  { split_and!; [by eapply winding_down_trans|done|by apply work_done]. }
  assert (shutting_down (gw_state g1) = true) as Hsh by done. change s0 with (gw_state g1).
  clearbody g1. clear -Hsteps Hinv1 Hsh. induction Hsteps as [g|g1 g2 g Hs _ IH].
  - split_and!; [by apply winding_down_refl|done|done].
  - destruct (gateway_step_winding_down _ _ _ Hs Hinv1 Hsh) as [Hw Hk].
    destruct IH as (Hw' & Hk' & Hi); [by eapply gateway_step_inv|by apply (wd_shut _ _ Hw)|].
    split_and!; [by eapply winding_down_trans|lia|done].
Qed.
End Tenants.
