(* ===== verification/EndToEnd.v ===== *)
(** * From the adapter to the client

    A query whose collector has come to an end without an error holds exactly
    the batches its adapter produced, in order, and keeps holding them for as
    long as it is retained, whatever other queries and clients do meanwhile:
    spill files are never shared. *)
From S2P Require Import Prelude Text Arrow DriverApi Auth Config Core CoreFacts Cluster.
From S2P Require Import Metadata ServiceData Results ResultsFacts Service ServiceSpec Collect.
From S2P Require Import GatewayFacts GatewaySessions.
Import Core.Sessions Core.Queries.

Section EndToEnd.
Context `{ipc : ArrowIpc}.
Implicit Types (s : ServiceState) (r : QueryRecord) (d : QueryData) (fs : FileSystem).

(** ** What storage is about *)

Definition result_part d :
    Z * Z * option Schema * ResultStorage * option QueryError :=
  (qd_rows d, qd_retained_bytes d, qd_schema d, qd_storage d, qd_error d).

Definition spill_of d : option string :=
  match qd_storage d with Spill path _ => Some path | InMemory _ => None end.

Lemma push_event_result event value terminal now d :
  result_part (push_event event value terminal now d) = result_part d.
Proof.
  unfold push_event. destruct (if String.eqb event "state" then _ else _); [|done].
  by destruct terminal.
Qed.

Lemma record_event_result e now d : result_part (record_event e now d) = result_part d.
Proof. destruct e; simpl; by rewrite push_event_result. Qed.

Lemma result_part_spill d d' : result_part d' = result_part d → spill_of d' = spill_of d.
Proof. unfold result_part, spill_of. by intros [= _ _ _ -> _]. Qed.

Lemma result_part_storage d d' : result_part d' = result_part d → qd_storage d' = qd_storage d.
Proof. unfold result_part. congruence. Qed.

Lemma result_part_error d d' : result_part d' = result_part d → qd_error d' = qd_error d.
Proof. unfold result_part. congruence. Qed.

(** The results read the same when the data's result part and the spill file
    are the same. *)
Lemma retains_transfer limits d d' fs fs' bs :
  result_part d' = result_part d →
  (∀ p, spill_of d = Some p → files fs' !! p = files fs !! p) →
  disk_fault fs' = disk_fault fs →
  retains limits (d, fs) bs → retains limits (d', fs') bs.
Proof.
  unfold result_part, spill_of. intros [= E1 E2 E3 E4 E5] Hfile Hfault [Hk H1 H2 H3 H4 H5 H6].
  split; simpl in *; try congruence. rewrite E4.
  destruct (qd_storage d) as [l|p [w|]]; simpl in *; [done..|].
  destruct Hk as (bytes & Hb & Hread). exists bytes. by rewrite Hfile.
Qed.

(** ** The disk *)

(** What an operation on one cell does to the files of the others: nothing; and
    it takes a new file only where there is none. *)
Record cell_frame (c c' : Cell) : Prop := {
  cf_fault : disk_fault c'.2 = disk_fault c.2;
  cf_files q : is_Some (files c.2 !! q) → spill_of c.1 ≠ Some q →
    files c'.2 !! q = files c.2 !! q;
  cf_exists q : is_Some (files c.2 !! q) → is_Some (files c'.2 !! q);
  cf_spill q : spill_of c'.1 = Some q →
    spill_of c.1 = Some q ∨ (files c.2 !! q = None ∧ is_Some (files c'.2 !! q));
}.

Lemma cell_frame_refl d d' fs : spill_of d' = spill_of d → cell_frame (d, fs) (d', fs).
Proof. intros E. split; simpl; try done. intros q. rewrite E. by left. Qed.

Lemma cell_frame_trans c1 c2 c3 :
  (∀ q, spill_of c2.1 = Some q → spill_of c1.1 = Some q ∨ files c1.2 !! q = None) →
  cell_frame c1 c2 → cell_frame c2 c3 → cell_frame c1 c3.
Proof.
  intros Hq [A1 A2 A3 A4] [B1 B2 B3 B4]. split; [congruence|..].
  - intros q Hs Hn. rewrite B2; [by apply A2|by apply A3|].
    intros [?|He]%Hq; [done|]. rewrite He in Hs. by destruct Hs.
  - auto.
  - intros q [Hs|[Hn Hs]]%B4.
    + destruct (A4 q Hs) as [?|[? ?]]; [by left|right]. auto.
    + right. split; [|done]. destruct (files c1.2 !! q) eqn:E; [|done].
      destruct (A3 q) as [b' Hb]; [eauto|]. congruence.
Qed.

Lemma spill_frame path schema c : cell_frame c (spill path schema c).2.
Proof.
  destruct c as [d fs]. unfold spill, create_new. unfold_M. simpl.
  destruct (disk_fault fs) as [e|] eqn:Ef; [by apply cell_frame_refl|].
  destruct (files fs !! path) as [b|] eqn:Ep; [by apply cell_frame_refl|]. simpl.
  assert (∀ d', (spill_of d' = spill_of d ∨ spill_of d' = None ∨ spill_of d' = Some path) →
    cell_frame (d, fs) (d', set_files (<[path := bytes_empty]>) fs)) as Hnew.
  { intros d' Hd'. split; simpl; [done|..].
    - intros q [b Hb] _. rewrite lookup_insert_ne; [done|]. intros ->. congruence.
    - intros q Hs. rewrite lookup_insert_is_Some. destruct (decide (path = q)); auto.
    - intros q Hq. destruct Hd' as [E|[E|E]]; rewrite E in Hq; [by left|done|].
      simplify_eq. right. split; [done|]. rewrite lookup_insert_eq. eauto. }
  destruct (writer_try_new schema) as [w0|e]; simpl; [|apply Hnew; by left].
  destruct (write_all _ w0) as [[[]|e] w]; simpl; apply Hnew; auto.
Qed.

Lemma append_frame b c : cell_frame c (append_batch b c).2.
Proof.
  destruct c as [d fs]. unfold append_batch. unfold_M. simpl.
  destruct (qd_storage d) as [l|p [w|]] eqn:E; simpl.
  - apply cell_frame_refl. unfold spill_of. by rewrite E.
  - destruct (writer_write b w) as [[[]|e] w']; apply cell_frame_refl; unfold spill_of;
      by rewrite E.
  - by apply cell_frame_refl.
Qed.

Lemma append_spill b c : spill_of (append_batch b c).2.1 = spill_of c.1.
Proof.
  destruct c as [d fs]. unfold append_batch, spill_of. unfold_M. simpl.
  destruct (qd_storage d) as [l|p [w|]] eqn:E; simpl; [done| |by rewrite E].
  by destruct (writer_write b w) as [[[]|e] w'].
Qed.

Lemma store_batch_frame limits path b c : cell_frame c (store_batch limits path b c).2.
Proof.
  destruct c as [d fs]. unfold store_batch, on_data. unfold_M. cbn [fst snd].
  set (d1 := match qd_schema d with None => _ | Some _ => d end).
  assert (spill_of d1 = spill_of d) as E1 by (unfold d1; by destruct (qd_schema d)).
  pose proof (cell_frame_refl d d1 fs E1) as F1.
  destruct (_ <? _); [done|]. cbv beta iota.
  assert (cell_frame (d1, fs) (spill_if (is_memory (qd_storage d1) &&
    (memory_result_bytes_per_query limits <?
     usize_saturating_add (qd_retained_bytes d1) (batch_bytes b))) path (batch_schema b)
      (d1, fs)).2) as F2.
  { unfold spill_if. destruct (_ && _); [apply spill_frame|by apply cell_frame_refl]. }
  destruct (spill_if _ _ _ (d1, fs)) as [[[]|e] c2]; simpl in F2.
  2: { eapply cell_frame_trans; [|exact F1|exact F2]. simpl. rewrite E1. by left. }
  assert (cell_frame (d, fs) c2) as F3.
  { eapply cell_frame_trans; [|exact F1|exact F2]. simpl. rewrite E1. by left. }
  pose proof (append_frame b c2) as F4. pose proof (append_spill b c2) as E4.
  assert (cell_frame (d, fs) (append_batch b c2).2) as F5.
  { eapply cell_frame_trans; [|exact F3|exact F4]. intros q Hq.
    destruct (cf_spill _ _ F3 q Hq) as [?|[? _]]; auto. }
  destruct (append_batch b c2) as [[[]|e] [d3 fs3]]; simpl in *; [|done].
  destruct F5 as [A1 A2 A3 A4]. by split.
Qed.

Lemma finish_frame c : cell_frame c (finish_results c).2.
Proof.
  destruct c as [d fs]. unfold finish_results, on_data. unfold_M. simpl.
  destruct (qd_storage d) as [l|p [w|]] eqn:E; simpl; [by apply cell_frame_refl| |by apply cell_frame_refl].
  assert (spill_of d = Some p) as Ed by (unfold spill_of; by rewrite E).
  destruct (writer_finish w) as [bytes|e]; simpl.
  - split; simpl; [done|..].
    + intros q _ Hn. rewrite lookup_insert_ne; [done|]. congruence.
    + intros q Hs. rewrite lookup_insert_is_Some. destruct (decide (p = q)); auto.
    + intros q [= <-]. by left.
  - apply cell_frame_refl. by rewrite Ed.
Qed.

(** Every spilled result has its own file. *)
Record disk_ok s : Prop := {
  do_fault : disk_fault (disk s) = None;
  do_exists id r q : records s !! id = Some r → spill_of (qr_data r) = Some q →
    is_Some (files (disk s) !! q);
  do_own id1 id2 r1 r2 q :
    records s !! id1 = Some r1 → records s !! id2 = Some r2 →
    spill_of (qr_data r1) = Some q → spill_of (qr_data r2) = Some q → id1 = id2;
}.

(** The query's results are as they were. *)
Definition carried (id : string) s s' : Prop :=
  ∀ r', records s' !! id = Some r' →
    ∃ r, records s !! id = Some r ∧ result_part (qr_data r') = result_part (qr_data r) ∧
      qd_completed_at (qr_data r') = qd_completed_at (qr_data r) ∧
      ∀ q, spill_of (qr_data r) = Some q → files (disk s') !! q = files (disk s) !! q.

Lemma carried_refl id s : carried id s s.
Proof. intros r Hr. by exists r. Qed.

Lemma carried_trans id s1 s2 s3 : carried id s1 s2 → carried id s2 s3 → carried id s1 s3.
Proof.
  intros H1 H2 r3 E3. destruct (H2 r3 E3) as (r2 & E2 & P2 & C2 & F2).
  destruct (H1 r2 E2) as (r1 & E1 & P1 & C1 & F1). exists r1.
  split_and!; [done|congruence|congruence|]. intros q Hq. rewrite F2, F1; [done..|].
  by rewrite (result_part_spill _ _ P1).
Qed.

(** ** Steps of clients *)

Lemma drop_record_files r fs q :
  disk_fault fs = None → spill_of (qr_data r) ≠ Some q →
  disk_fault (drop_record r fs) = None ∧ files (drop_record r fs) !! q = files fs !! q.
Proof.
  unfold drop_record, remove_file, spill_of. intros Hf Hq.
  destruct (qd_storage (qr_data r)) as [l|p w]; [done|]. rewrite Hf. simpl. split; [done|].
  rewrite lookup_delete_ne; congruence.
Qed.

Lemma drop_records_files (l : list (string * QueryRecord)) fs q :
  disk_fault fs = None → (∀ k r, (k, r) ∈ l → spill_of (qr_data r) ≠ Some q) →
  disk_fault (foldr (λ kr fs, drop_record kr.2 fs) fs l) = None ∧
  files (foldr (λ kr fs, drop_record kr.2 fs) fs l) !! q = files fs !! q.
Proof.
  intros Hf. induction l as [|[k r] l IH]; intros Hq; [done|]. simpl.
  destruct IH as [IHf IHq]; [intros k0 r0 ?; apply (Hq k0); set_solver|].
  rewrite <- IHq. apply drop_record_files; [done|]. apply (Hq k). set_solver.
Qed.

Lemma drop_records_fault (l : list (string * QueryRecord)) fs :
  disk_fault (foldr (λ kr fs, drop_record kr.2 fs) fs l) = disk_fault fs.
Proof.
  induction l as [|[k r] l IH]; [done|]. simpl. unfold drop_record, remove_file.
  destruct (qd_storage (qr_data r)); [done|]. by case_match.
Qed.

Lemma step_disk p am doomed s s' :
  step p am doomed s s' → disk s' = disk s ∨ s' = (drop_expired_records (am_now am) s).2.
Proof. destruct 1; auto. Qed.

Lemma data_after_result p am r r' :
  data_after p am r r' → result_part (qr_data r') = result_part (qr_data r).
Proof. intros [->|[_ ->]]; [done|]. apply push_event_result. Qed.

(** A dropped file belongs to no record that stays. *)
Lemma drop_expired_files now s id r q :
  disk_ok s → records (drop_expired_records now s).2 !! id = Some r →
  spill_of (qr_data r) = Some q →
  files (disk (drop_expired_records now s).2) !! q = files (disk s) !! q.
Proof.
  intros Hd Hr Hq. simpl in *. apply retain_Some in Hr as [Hr Hlive].
  apply drop_records_files; [apply (do_fault _ Hd)|].
  intros k r' Hin%elem_of_map_to_list Hq'. apply retain_Some in Hin as [Hr' Hdead].
  assert (k = id) as -> by by eapply (do_own _ Hd k id r' r q). simplify_eq.
  by rewrite Hlive in Hdead.
Qed.

Lemma step_carried p am doomed s s' id : step p am doomed s s' → disk_ok s → carried id s s'.
Proof.
  intros Hs Hd r' Er'. pose proof (step_records p am doomed s s' id Hs) as Hr.
  rewrite Er' in Hr. destruct Hr as (r & Er & _ & Ha). exists r.
  pose proof (data_after_result _ _ _ _ Ha) as Hpart.
  split_and!; [done|done|by eapply data_after_completed|]. intros q Hq.
  destruct (step_disk _ _ _ _ _ Hs) as [->|E]; [done|]. rewrite E in Er' |- *.
  eapply drop_expired_files; [done|done|]. by rewrite (result_part_spill _ _ Hpart).
Qed.

(** Records that keep their spill files keep them apart. *)
Lemma spills_disk_ok s s' :
  disk_fault (disk s') = disk_fault (disk s) →
  (∀ id r', records s' !! id = Some r' →
     ∃ r, records s !! id = Some r ∧ spill_of (qr_data r') = spill_of (qr_data r) ∧
       ∀ q, spill_of (qr_data r) = Some q → files (disk s') !! q = files (disk s) !! q) →
  disk_ok s → disk_ok s'.
Proof.
  intros Hf Hc [H1 H2 H3]. split; [congruence|..].
  - intros id r' q Er' Hq. destruct (Hc id r' Er') as (r & Er & Hp & Hfile).
    rewrite Hp in Hq. rewrite Hfile by done. eauto.
  - intros id1 id2 r1' r2' q E1 E2 Hq1 Hq2.
    destruct (Hc id1 r1' E1) as (r1 & Er1 & Hp1 & _), (Hc id2 r2' E2) as (r2 & Er2 & Hp2 & _).
    rewrite Hp1 in Hq1. rewrite Hp2 in Hq2. eauto.
Qed.

Lemma carried_disk_ok s s' :
  disk_fault (disk s') = disk_fault (disk s) → (∀ id, carried id s s') → disk_ok s → disk_ok s'.
Proof.
  intros Hf Hc. apply spills_disk_ok; [done|]. intros id r' Er'.
  destruct (Hc id r' Er') as (r & Er & Hp & _ & Hfile). exists r.
  split_and!; [done|by apply result_part_spill|done].
Qed.

Lemma step_disk_ok p am doomed s s' : step p am doomed s s' → disk_ok s → disk_ok s'.
Proof.
  intros Hs Hd. apply (carried_disk_ok s); [|intros id; by eapply step_carried|done].
  destruct (step_disk _ _ _ _ _ Hs) as [->| ->]; [done|]. simpl. apply drop_records_fault.
Qed.

Lemma register_carried p am s s' id :
  register p am s s' → id ≠ "qcli_" +:+ am_uuid am → carried id s s'.
Proof.
  intros Hr Hn r' Er'. destruct Hr. simpl in *. rewrite lookup_insert_ne in Er' by congruence.
  by exists r'.
Qed.

Lemma register_disk_ok p am s s' : register p am s s' → disk_ok s → disk_ok s'.
Proof.
  intros Hr [H1 H2 H3]. destruct Hr.
  assert (spill_of (qr_data r) = None) as Hnone by by rewrite Hdata.
  split; simpl; [done|..].
  - intros id r' q [[_ <-]|[_ Er']]%lookup_insert_Some Hq; [congruence|eauto].
  - intros id1 id2 r1 r2 q [[_ <-]|[_ E1]]%lookup_insert_Some
      [[_ <-]|[_ E2]]%lookup_insert_Some Hq1 Hq2; try congruence; eauto.
Qed.

(** An operation carries every query but the one it submits. *)
Lemma run_op_carried o p am s :
  0 < prepared_statement_ttl (st_limits s) → disk_ok s →
  disk_ok (run_op o p am s) ∧
  ∀ id, id ≠ "qcli_" +:+ am_uuid am → carried id s (run_op o p am s).
Proof.
  intros Httl Hd. pose proof (run_op_evolution p am _ o s (pending_start am s Httl)) as He.
  split.
  - revert Hd. eapply evolution_invariant; [| |exact He];
      eauto using step_disk_ok, register_disk_ok.
  - intros id Hn. enough (disk_ok (run_op o p am s) ∧ carried id s (run_op o p am s)) as [_ ?]
      by done.
    eapply (evolution_invariant p am _ (λ s', disk_ok s' ∧ carried id s s')); [| |exact He|].
    + intros s1 s2 Hs [Hd1 Hc1]. split; [by eapply step_disk_ok|].
      eapply carried_trans; [done|by eapply step_carried].
    + intros s1 s2 Hs [Hd1 Hc1]. split; [by eapply register_disk_ok|].
      eapply carried_trans; [done|by eapply register_carried].
    + split; [done|apply carried_refl].
Qed.

(** ** Steps of collectors *)

Lemma on_cell_disk id m s :
  disk (on_cell id m s).2
  = match records s !! id with
    | None => disk s
    | Some r => (m (qr_data r, disk s)).2.2
    end.
Proof.
  unfold on_cell. destruct (records s !! id) as [r|]; [|done].
  by destruct (m _) as [res [d fs]].
Qed.

(** An operation on the cell of one query carries the others. *)
Lemma on_cell_carried id m s id' :
  (∀ c, cell_frame c (m c).2) → disk_ok s → id' ≠ id → carried id' s (on_cell id m s).2.
Proof.
  intros Hm Hd Hn r' Er'. rewrite on_cell_records, decide_False in Er' by done.
  exists r'. split_and!; [done..|]. intros q Hq. rewrite on_cell_disk.
  destruct (records s !! id) as [r|] eqn:Er; [|done].
  apply (cf_files _ _ (Hm (qr_data r, disk s))); [simpl; exact (do_exists s Hd id' r' q Er' Hq)|]. intros Hq'.
  apply Hn. exact (do_own s Hd id' id r' r q Er' Er Hq Hq').
Qed.

Lemma on_cell_disk_ok id m s :
  (∀ c, cell_frame c (m c).2) → disk_ok s → disk_ok (on_cell id m s).2.
Proof.
  intros Hm Hd. destruct (records s !! id) as [r|] eqn:Er.
  2: { unfold on_cell. by rewrite Er. }
  pose proof (Hm (qr_data r, disk s)) as Hf.
  assert (disk (on_cell id m s).2 = (m (qr_data r, disk s)).2.2) as Ed
    by by rewrite on_cell_disk, Er.
  assert (∀ id1 r1 q, records (on_cell id m s).2 !! id1 = Some r1 →
    spill_of (qr_data r1) = Some q →
    (∃ r0, records s !! id1 = Some r0 ∧ spill_of (qr_data r0) = Some q) ∨
    (id1 = id ∧ files (disk s) !! q = None ∧ is_Some (files (disk (on_cell id m s).2) !! q)))
    as Hcases.
  { intros id1 r1 q. rewrite on_cell_records. case_decide as Hd1; [|by eauto].
    subst id1. rewrite Er. simpl. intros [= <-]. simpl. intros Hq.
    rewrite Ed. destruct (cf_spill _ _ Hf q Hq) as [?|[? ?]]; [by eauto|by right]. }
  split.
  - rewrite Ed, (cf_fault _ _ Hf). apply (do_fault _ Hd).
  - intros id1 r1 q E1 Hq. destruct (Hcases id1 r1 q E1 Hq) as [(r0 & E0 & Hq0)|(_ & _ & ?)];
      [|done]. rewrite Ed. apply (cf_exists _ _ Hf). exact (do_exists s Hd id1 r0 q E0 Hq0).
  - intros id1 id2 r1 r2 q E1 E2 Hq1 Hq2.
    destruct (Hcases id1 r1 q E1 Hq1) as [(r1' & E1' & Hq1')|(-> & Hn1 & _)],
      (Hcases id2 r2 q E2 Hq2) as [(r2' & E2' & Hq2')|(-> & Hn2 & _)]; [exact (do_own s Hd id1 id2 r1' r2' q E1' E2' Hq1' Hq2')|..|done].
    + destruct (do_exists _ Hd _ _ _ E1' Hq1') as [b Hb]. congruence.
    + destruct (do_exists _ Hd _ _ _ E2' Hq2') as [b Hb]. congruence.
Qed.

Lemma alter_disk_ok id (f : QueryRecord → QueryRecord) s :
  (∀ r, spill_of (qr_data (f r)) = spill_of (qr_data r)) →
  disk_ok s → disk_ok (with_records (alter f id) s).
Proof.
  intros Hf. apply spills_disk_ok; [done|]. intros id' r'. simpl.
  destruct (decide (id' = id)) as [->|Hn].
  - rewrite lookup_alter_eq. destruct (records s !! id) as [r|]; [|done]. intros [= <-].
    exists r. by rewrite Hf.
  - rewrite lookup_alter_ne by done. by eauto.
Qed.

Lemma record_event_spill e now d : spill_of (record_event e now d) = spill_of d.
Proof. apply result_part_spill, record_event_result. Qed.

Lemma conclude_spill o ov t now d : spill_of (conclude o ov t now d) = spill_of d.
Proof.
  unfold conclude, fail_with. destruct o as [[]|e]; [destruct ov|destruct (driver_cancelled e)];
    try apply record_event_spill; (etrans; [apply result_part_spill, push_event_result|]);
    by repeat case_match.
Qed.

Lemma collect_item_disk path now item rest c s :
  disk_ok s →
  disk_ok (collect_item path now item rest c s).2 ∧
  ∀ id, id ≠ co_query c → carried id s (collect_item path now item rest c s).2.
Proof.
  intros Hd. unfold collect_item. destruct item as [e|b].
  - destruct (is_terminal e); simpl; [split; [done|intros; apply carried_refl]|]. split.
    + apply (alter_disk_ok (co_query c) (set_data (record_event e now))); [|done].
      intros r. apply record_event_spill.
    + intros id Hn r' Er'. simpl in Er'. rewrite lookup_alter_ne in Er' by done. by exists r'.
  - pose proof (on_cell_disk_ok (co_query c) _ s (store_batch_frame (st_limits s) path b) Hd)
      as Hd1.
    pose proof (λ id, on_cell_carried (co_query c) _ s id
      (store_batch_frame (st_limits s) path b) Hd) as Hc1.
    destruct (on_cell _ _ s) as [[[]|e] s']; simpl in *; [done|]. split.
    + apply (alter_disk_ok (co_query c) cancel_record); [done|].
      by apply (alter_disk_ok (co_query c) (set_data (set_error e))).
    + intros id Hn r' Er'. simpl in Er'. rewrite !lookup_alter_ne in Er' by done.
      by apply (Hc1 id Hn).
Qed.

Lemma close_stateless_frame sid b s :
  records (close_stateless_session sid b s) = records s ∧
  disk (close_stateless_session sid b s) = disk s ∧
  st_limits (close_stateless_session sid b s) = st_limits s.
Proof. by destruct b. Qed.

(** The end of a collector: its record's data and the disk after it. *)
Lemma collect_finish_state c now s :
  records (collect_finish c now s)
  = records (on_data_of (co_query c)
      (conclude (finish (tk_handle (co_task c)))
         (finish_record c (apply_session_updates c s)).1 (co_terminal_event c) now)
      (finish_record c (apply_session_updates c s)).2) ∧
  disk (collect_finish c now s) = disk (finish_record c (apply_session_updates c s)).2.
Proof.
  unfold collect_finish. destruct (finish_record c _) as [ov s2].
  destruct (records _ !! _); [|done].
  destruct (close_stateless_frame (qr_session_id q) (tk_close_session (co_task c))
    (on_data_of (co_query c) (conclude (finish (tk_handle (co_task c))) ov
      (co_terminal_event c) now) s2)) as (-> & -> & _). done.
Qed.

Lemma finish_record_disk c s :
  disk_ok s →
  disk_ok (finish_record c s).2 ∧
  ∀ id, id ≠ co_query c → carried id s (finish_record c s).2.
Proof.
  intros Hd. pose proof (on_cell_disk_ok (co_query c) _ s finish_frame Hd) as Hd1.
  pose proof (λ id, on_cell_carried (co_query c) _ s id finish_frame Hd) as Hc1.
  unfold finish_record. destruct (on_cell _ _ s) as [[[]|e] s']; simpl in *; [done|]. split.
  - by apply (alter_disk_ok (co_query c) (set_data (set_error e))).
  - intros id Hn r' Er'. simpl in Er'. rewrite lookup_alter_ne in Er' by done.
    by apply (Hc1 id Hn).
Qed.

Lemma collect_finish_disk c now s :
  disk_ok s →
  disk_ok (collect_finish c now s) ∧
  ∀ id, id ≠ co_query c → carried id s (collect_finish c now s).
Proof.
  intros Hd. destruct (collect_finish_state c now s) as [Er Ed].
  destruct (apply_session_updates_records c s) as (Er1 & _ & Ed1).
  set (s1 := apply_session_updates c s) in *.
  assert (disk_ok s1) as Hd1.
  { destruct Hd as [H1 H2 H3]. split; rewrite ?Er1, ?Ed1; done. }
  destruct (finish_record_disk c s1 Hd1) as [Hd2 Hc2]. set (s2 := (finish_record c s1).2) in *.
  set (f := conclude _ _ _ _) in *.
  assert (disk_ok (on_data_of (co_query c) f s2)) as Hd3.
  { apply (alter_disk_ok (co_query c) (set_data f)); [|done]. intros r. apply conclude_spill. }
  split.
  - destruct Hd3 as [H1 H2 H3]. split; rewrite ?Er, ?Ed; done.
  - intros id Hn r' Er'. rewrite Er, on_data_records, decide_False in Er' by done.
    destruct (Hc2 id Hn r' Er') as (r & E1 & Hp & Hco & Hf). rewrite Er1 in E1. exists r.
    split_and!; [done..|]. intros q Hq. by rewrite Ed, Hf, Ed1.
Qed.

(** ** The collector's own query *)

Lemma store_batch_error limits path b c :
  qd_error (store_batch limits path b c).2.1 = qd_error c.1.
Proof.
  enough (preserves (λ c', qd_error c'.1 = qd_error c.1) (store_batch limits path b)) as Hp
    by by apply Hp.
  unfold store_batch, spill_if, spill, append_batch.
  preserve; intros c1 Hc1; unfold create_new; unfold_M; simpl; by repeat case_match.
Qed.

Lemma finish_results_error c : qd_error (finish_results c).2.1 = qd_error c.1.
Proof.
  enough (preserves (λ c', qd_error c'.1 = qd_error c.1) finish_results) as Hp by by apply Hp.
  unfold finish_results. preserve. repeat case_match; preserve; by intros c1 Hc1.
Qed.

(** An error, once recorded, stays; without one the results are untouched. *)
Lemma conclude_result o ov t now d :
  qd_error (conclude o ov t now d) = None →
  qd_error d = None ∧ result_part (conclude o ov t now d) = result_part d.
Proof.
  assert (∀ d', result_part d' = result_part d → qd_error d' = None →
    qd_error d = None ∧ result_part d' = result_part d) as Hsame.
  { intros d' Hp He. split; [|done]. unfold result_part in Hp. congruence. }
  unfold conclude. destruct o as [[]|e]; [destruct ov|destruct (driver_cancelled e)];
    try (apply Hsame; first [apply record_event_result|apply push_event_result]).
  unfold fail_with. destruct (qd_error d) eqn:E.
  - intros He. pose proof (push_event_result "state" (state_json "failed") true now d) as Hp.
    unfold result_part in Hp. congruence.
  - done.
Qed.

(** Results of a query that is being collected, and of one that has ended. *)
Definition gathering s (r : QueryRecord) (bs : list RecordBatch) : Prop :=
  retains (st_limits s) (qr_data r, disk s) bs ∧ collecting (qd_storage (qr_data r)).

Definition closed_storage (st : ResultStorage) : Prop :=
  match st with Spill _ (Some _) => False | _ => True end.

Definition waiting_ok (t : Task) s : Prop :=
  ∀ r, records s !! tk_query t = Some r → gathering s r [].

Definition running_ok (c : Collector) s : Prop :=
  ∃ stored, batches_of (qh_items (tk_handle (co_task c))) = stored ++ batches_of (co_rest c) ∧
    ∀ r, records s !! co_query c = Some r →
      if co_overflow c then qd_error (qr_data r) ≠ None else gathering s r stored.

Definition done_ok (id : string) (bs : list RecordBatch) s : Prop :=
  ∀ r, records s !! id = Some r →
    qd_completed_at (qr_data r) ≠ None ∧
    (qd_error (qr_data r) = None →
       retains (st_limits s) (qr_data r, disk s) bs ∧ closed_storage (qd_storage (qr_data r))).

Section Carried.
Context s s' (Hlimits : st_limits s' = st_limits s).
Hypothesis Hfault : disk_fault (disk s') = disk_fault (disk s).

Lemma carried_gathering id r r' bs :
  carried id s s' → records s' !! id = Some r' → records s !! id = Some r →
  gathering s r bs → gathering s' r' bs.
Proof.
  intros Hc Er' Er [Hr Hco]. destruct (Hc r' Er') as (r0 & E0 & Hp & _ & Hf).
  assert (r0 = r) as -> by congruence. split; [rewrite Hlimits; exact (retains_transfer _ _ _ _ _ _ Hp Hf Hfault Hr)|].
  by rewrite (result_part_storage _ _ Hp).
Qed.

Lemma carried_waiting t : carried (tk_query t) s s' → waiting_ok t s → waiting_ok t s'.
Proof.
  intros Hc Hw r' Er'. destruct (Hc r' Er') as (r & Er & _).
  eapply carried_gathering; eauto.
Qed.

Lemma carried_running c : carried (co_query c) s s' → running_ok c s → running_ok c s'.
Proof.
  intros Hc (stored & Hb & Hr). exists stored. split; [done|]. intros r' Er'.
  pose proof (Hc r' Er') as (r & Er & Hp & _). specialize (Hr r Er).
  destruct (co_overflow c); [by rewrite (result_part_error _ _ Hp)|].
  exact (carried_gathering _ r r' stored Hc Er' Er Hr).
Qed.

Lemma carried_done id bs : carried id s s' → done_ok id bs s → done_ok id bs s'.
Proof.
  intros Hc Hd r' Er'. destruct (Hc r' Er') as (r & Er & Hp & Hco & Hf).
  destruct (Hd r Er) as [Hcomp Hres]. split; [congruence|]. intros He.
  destruct Hres as [Hr Hcl]; [by rewrite <- (result_part_error _ _ Hp)|].
  split; [rewrite Hlimits; exact (retains_transfer _ _ _ _ _ _ Hp Hf Hfault Hr)|].
  by rewrite (result_part_storage _ _ Hp).
Qed.
End Carried.

(** One turn of the collector. *)
Lemma collect_item_running path now item rest c s :
  max_result_bytes_per_query (st_limits s) < usize_max → co_rest c = item :: rest →
  running_ok c s →
  running_ok (collect_item path now item rest c s).1 (collect_item path now item rest c s).2.
Proof.
  intros Hmax Hrest (stored & Hb & Hr). rewrite Hrest in Hb. unfold collect_item.
  destruct item as [e|b].
  - change (batches_of (Event e :: rest)) with (batches_of rest) in Hb.
    destruct (is_terminal e); exists stored; (split; [done|]); [done|].
    intros r'. simpl. unfold co_query at 1 2. simpl. fold (co_query c). rewrite lookup_alter_eq.
    destruct (records s !! co_query c) as [r|] eqn:Er; [|done]. intros [= <-].
    specialize (Hr r eq_refl). simpl.
    pose proof (record_event_result e now (qr_data r)) as Hp. destruct (co_overflow c).
    + by rewrite (result_part_error _ _ Hp).
    + destruct Hr as [Hret Hco]. split; simpl; [|by rewrite (result_part_storage _ _ Hp)].
      by eapply (retains_transfer _ _ _ _ _ _ Hp).
  - change (batches_of (Batch b :: rest)) with (b :: batches_of rest) in Hb.
    unfold on_cell. destruct (records s !! co_query c) as [r|] eqn:Er.
    2: { exists (stored ++ [b]). rewrite <- app_assoc. split; [done|].
         intros r. simpl. unfold co_query at 1. simpl. fold (co_query c). congruence. }
    specialize (Hr r eq_refl).
    destruct (store_batch (st_limits s) path b (qr_data r, disk s)) as [res [d fs]] eqn:Est.
    pose proof (store_batch_error (st_limits s) path b (qr_data r, disk s)) as Herr.
    rewrite Est in Herr. simpl in Herr. exists (stored ++ [b]).
    destruct res as [[]|err]; simpl; (split; [by rewrite <- app_assoc|]); intros r';
      unfold co_query at 1; simpl; fold (co_query c).
    + rewrite lookup_insert_eq. intros [= <-]. simpl. destruct (co_overflow c); [congruence|].
      destruct Hr as [Hret Hco].
      by apply (store_batch_retains _ _ _ _ _ _ Hmax Hret) in Est.
    + unfold co_query. rewrite !lookup_alter_eq, lookup_insert_eq. by intros [= <-].
Qed.

(** The end of the collector. *)
Lemma collect_finish_done c now s :
  ArrowIpcLaws → collector_ok c → co_rest c = [] → running_ok c s →
  done_ok (co_query c) (batches_of (qh_items (tk_handle (co_task c)))) (collect_finish c now s).
Proof.
  intros Hlaws Hok Hrest (stored & Hb & Hr). rewrite Hrest in Hb.
  change (batches_of []) with (@nil RecordBatch) in Hb. rewrite app_nil_r in Hb. rewrite Hb.
  destruct (collect_finish_state c now s) as [Er Ed].
  destruct (apply_session_updates_records c s) as (Er1 & _ & Ed1).
  destruct (collect_finish_limits c now s) as [El _].
  set (s1 := apply_session_updates c s) in *. set (ov := (finish_record c s1).1) in *.
  intros r'. rewrite Er, on_data_records, decide_True, finish_record_records, decide_True by done.
  rewrite Er1, Ed, El. destruct (records s !! co_query c) as [r|] eqn:E; [|done].
  intros [= <-]. simpl. specialize (Hr r eq_refl).
  split; [by rewrite conclude_completed|]. intros He.
  apply conclude_result in He as [He Hp].
  assert (disk (finish_record c s1).2 = (finish_results (qr_data r, disk s1)).2.2) as Ed2.
  { unfold finish_record. pose proof (on_cell_disk (co_query c) finish_results s1) as Hd.
    rewrite Er1, E in Hd. by destruct (on_cell _ _ s1) as [[[]|err] s2]. }
  rewrite Ed2. pose proof (finish_results_error (qr_data r, disk s1)) as Herr.
  destruct (finish_results (qr_data r, disk s1)) as [[[]|err] [d fs]] eqn:Ef; simpl in *; [|done].
  destruct (co_overflow c); [congruence|]. destruct Hr as [Hret Hco]. rewrite <- Ed1 in Hret.
  apply (finish_retains _ _ _ _ Hlaws Hret Hco) in Ef as [Hret' Hcl].
  split; [by eapply (retains_transfer _ _ _ _ _ _ Hp)|].
  unfold closed_storage. by rewrite (result_part_storage _ _ Hp).
Qed.

(** ** The running gateway *)

Record storage_inv (g : Gateway) : Prop := {
  sv_disk : disk_ok (gw_state g);
  sv_waiting : Forall (λ t, waiting_ok t (gw_state g)) (spawned (gw_state g));
  sv_running : Forall (λ c, running_ok c (gw_state g)) (gw_collectors g);
}.

Definition sane_results (limits : ServiceLimits) : Prop :=
  0 ≤ max_result_bytes_per_query limits < usize_max.

Lemma disk_faults s s' :
  disk_ok s → disk_ok s' → disk_fault (disk s') = disk_fault (disk s).
Proof. intros [H1 _ _] [H2 _ _]. congruence. Qed.

Lemma step_waiting p am doomed s s' t :
  step p am doomed s s' → disk_ok s → waiting_ok t s → waiting_ok t s'.
Proof.
  intros Hs Hd. apply carried_waiting.
  - by apply (step_static _ _ _ _ _ Hs).
  - apply disk_faults; [done|by eapply step_disk_ok].
  - by eapply step_carried.
Qed.

(** A new query starts with no results; the others wait as before. *)
Lemma register_waiting p am s s' t :
  register p am s s' → disk_ok s → sane_results (st_limits s) →
  (waiting_ok t s ∨ tk_query t = "qcli_" +:+ am_uuid am) → waiting_ok t s'.
Proof.
  intros Hr Hd [H0 _] Hw. destruct (decide (tk_query t = "qcli_" +:+ am_uuid am)) as [Hid|Hn].
  - destruct Hr. intros r'. simpl. rewrite Hid, <- Hid0, lookup_insert_eq. intros [= <-].
    unfold gathering. rewrite Hdata. split; [|done].
    apply retains_start; [done|apply (do_fault _ Hd)].
  - destruct Hw as [Hw|]; [|done]. revert Hw. apply carried_waiting.
    + by destruct Hr.
    + by destruct Hr.
    + by eapply register_carried.
Qed.

Lemma run_op_waiting o p am s :
  0 < prepared_statement_ttl (st_limits s) → sane_results (st_limits s) → disk_ok s →
  Forall (λ t, waiting_ok t s) (spawned s) →
  Forall (λ t, waiting_ok t (run_op o p am s)) (spawned (run_op o p am s)) ∧
  ∀ t, t ∈ spawned s → t ∈ spawned (run_op o p am s).
Proof.
  intros Httl Hsane Hd Hw.
  pose proof (run_op_evolution p am _ o s (pending_start am s Httl)) as He.
  apply (evolution_invariant p am (doomed_sessions (am_now am) s)
    (λ s', (disk_ok s' ∧ st_limits s' = st_limits s) ∧
       Forall (λ t, waiting_ok t s') (spawned s') ∧ ∀ t, t ∈ spawned s → t ∈ spawned s') s
    (run_op o p am s)); [| |done|done].
  - intros s1 s2 Hs [[Hd1 Hl] [Hw1 Hin]]. rewrite (step_spawned _ _ _ _ _ Hs).
    split_and!; [by eapply step_disk_ok| |  |done].
    + by rewrite (proj1 (step_static _ _ _ _ _ Hs)).
    + eapply Forall_impl; [exact Hw1|]. intros t. by apply (step_waiting _ _ _ _ _ _ Hs).
  - intros s1 s2 Hs [[Hd1 Hl] [Hw1 Hin]].
    assert (sane_results (st_limits s1)) as Hsane1 by by rewrite Hl.
    pose proof (λ t, register_waiting p am s1 s2 t Hs Hd1 Hsane1) as Hreg.
    split; [split; [by eapply register_disk_ok|by destruct Hs]|]. destruct Hs; simpl in *. split.
    + apply Forall_app_2; [eapply Forall_impl; [exact Hw1|]; auto|].
      apply Forall_singleton, Hreg. by right.
    + intros t Ht. apply elem_of_app. auto.
Qed.

(** Entries for other queries are carried through a collector's step. *)
Lemma others_ok s s' (id : string) (ts : list Task) (cs : list Collector) :
  st_limits s' = st_limits s → disk_ok s → disk_ok s' →
  (∀ id', id' ≠ id → carried id' s s') →
  id ∉ (tk_query <$> ts) → id ∉ (co_query <$> cs) →
  Forall (λ t, waiting_ok t s) ts → Forall (λ c, running_ok c s) cs →
  Forall (λ t, waiting_ok t s') ts ∧ Forall (λ c, running_ok c s') cs.
Proof.
  intros Hl Hd Hd' Hc Hts Hcs Hw Hr. pose proof (disk_faults s s' Hd Hd') as Hf. split.
  - apply Forall_forall. intros t Ht. rewrite Forall_forall in Hw.
    apply (carried_waiting s); auto. apply Hc. intros <-. apply Hts.
    by apply list_elem_of_fmap_2.
  - apply Forall_forall. intros c Hin. rewrite Forall_forall in Hr.
    apply (carried_running s); auto. apply Hc. intros <-. apply Hcs.
    by apply list_elem_of_fmap_2.
Qed.

(** The collector at work is the only one on its query. *)
Lemma collector_alone g before c after :
  gateway_inv g → gw_collectors g = before ++ c :: after →
  (co_query c ∉ (tk_query <$> spawned (gw_state g))) ∧
  (co_query c ∉ (co_query <$> (before ++ after))).
Proof.
  intros Hg Hc. destruct (inv_tracked _ Hg) as [Hnd _ _].
  rewrite Hc, !fmap_app, fmap_cons in Hnd. rewrite fmap_app.
  apply NoDup_app in Hnd as (_ & Hdisj & Hnd). split.
  - intros Hin. apply (Hdisj _ Hin). set_solver.
  - rewrite <- Permutation_middle in Hnd. by apply NoDup_cons in Hnd as [? _].
Qed.

Lemma collector_step_storage g g' :
  ArrowIpcLaws → collector_step g g' → gateway_inv g → sane_results (st_limits (gw_state g)) →
  storage_inv g → storage_inv g'.
Proof.
  intros Hlaws Hs Hg [_ Hmax] [Hd Hw Hr].
  destruct Hs as [t before after received g Hsp [_ Hdel]
    |before c after item rest path now g Hc Hrest|before c after now g Hc Hrest].
  - rewrite Hsp in Hw. apply Forall_app in Hw as [Hw1 [Ht Hw2]%Forall_cons].
    split; simpl; [by destruct Hd|by apply Forall_app_2|].
    apply Forall_app_2; [done|]. apply Forall_singleton. exists []. simpl. by rewrite Hdel.
  - destruct (collector_alone g before c after Hg Hc) as [Ha1 Ha2].
    destruct (collect_item_disk path now item rest c (gw_state g) Hd) as [Hd' Hcar].
    destruct (collect_item_limits path now item rest c (gw_state g)) as [Hl _].
    rewrite Hc in Hr. apply Forall_app in Hr as [Hr1 [Hrc Hr2]%Forall_cons].
    destruct (others_ok _ _ _ _ _ Hl Hd Hd' Hcar Ha1 Ha2 Hw (Forall_app_2 _ _ _ Hr1 Hr2))
      as [Hw' [Hr1' Hr2']%Forall_app].
    pose proof (collect_item_running path now item rest c (gw_state g) Hmax Hrest Hrc) as Hrun.
    pose proof (collect_item_records path now item rest c (gw_state g)) as Hrec.
    split; simpl; [done| |by apply Forall_app_2, Forall_cons_2].
    destruct (collect_item path now item rest c (gw_state g)) as [c' s'].
    destruct Hrec as (_ & _ & Hsp & _). simpl in *. by rewrite Hsp.
  - destruct (collector_alone g before c after Hg Hc) as [Ha1 Ha2].
    destruct (collect_finish_disk c now (gw_state g) Hd) as [Hd' Hcar].
    destruct (collect_finish_limits c now (gw_state g)) as [Hl _].
    pose proof (inv_collectors _ Hg) as Hok. rewrite Hc in Hr, Hok.
    apply Forall_app in Hr as [Hr1 [_ Hr2]%Forall_cons].
    apply Forall_app in Hok as [_ [Hcok _]%Forall_cons].
    destruct (others_ok _ _ _ _ _ Hl Hd Hd' Hcar Ha1 Ha2 Hw (Forall_app_2 _ _ _ Hr1 Hr2))
      as [Hw' Hr'].
    split; simpl; [done| |done].
    by rewrite (proj1 (collect_finish_records c now (gw_state g) Hcok)).
Qed.

Lemma gateway_step_storage policy g g' :
  ArrowIpcLaws → gateway_step policy g g' → gateway_inv g →
  sane_results (st_limits (gw_state g)) → storage_inv g → storage_inv g'.
Proof.
  intros Hlaws [o p am g0 _ Hfresh|g0 g1 Hs] Hg Hsane Hi;
    [|by eapply collector_step_storage].
  destruct Hi as [Hd Hw Hr]. pose proof (inv_ttl _ Hg) as Httl.
  destruct (run_op_carried o p am (gw_state g0) Httl Hd) as [Hd' Hc].
  destruct (run_op_waiting o p am (gw_state g0) Httl Hsane Hd Hw) as [Hw' _].
  split; simpl; [done..|]. apply Forall_forall. intros c Hin. rewrite Forall_forall in Hr.
  apply (carried_running (gw_state g0)); [by apply run_op_limits|by apply disk_faults| |auto].
  apply Hc. intros E. apply Hfresh. rewrite <- E. unfold query_ids_in_use.
  apply elem_of_app; right. apply elem_of_app; right. by apply list_elem_of_fmap_2.
Qed.

(** A step that does not give the identifier [id] to a new query. *)
Definition step_without policy (id : string) (g g' : Gateway) : Prop :=
  gateway_step policy g g' ∧
  (records (gw_state g) !! id = None → records (gw_state g') !! id = None).

(** Where a submitted query is: waiting, being collected, or done. *)
Definition fate (t : Task) (g : Gateway) : Prop :=
  t ∈ spawned (gw_state g) ∨ (∃ c, c ∈ gw_collectors g ∧ co_task c = t) ∨
  done_ok (tk_query t) (batches_of (qh_items (tk_handle t))) (gw_state g).

Lemma done_elsewhere g before c after id bs :
  gateway_inv g → gw_collectors g = before ++ c :: after → done_ok id bs (gw_state g) →
  id ≠ co_query c.
Proof.
  intros Hg Hc Hd ->. pose proof (collector_open g before c after Hg Hc) as Hopen.
  destruct (inv_tracked _ Hg) as [_ Hact _]. destruct (Hact (co_query c)) as [Hin _].
  destruct Hin as (r & Er & _); [rewrite Hc, fmap_app, fmap_cons; set_solver|].
  destruct (Hd r Er) as [Hcomp _]. by rewrite (Hopen r Er) in Hcomp.
Qed.

Lemma call_fate policy t o p am g :
  "qcli_" +:+ am_uuid am ∉ query_ids_in_use g → gateway_inv g →
  sane_results (st_limits (gw_state g)) → storage_inv g →
  step_without policy (tk_query t) g
    {| gw_state := run_op o p am (gw_state g); gw_collectors := gw_collectors g |} →
  fate t g →
  fate t {| gw_state := run_op o p am (gw_state g); gw_collectors := gw_collectors g |}.
Proof.
  intros Hfresh Hg Hsane [Hd Hw Hr] [_ Hnew] [Hin|[Hin|Hdone]]; pose proof (inv_ttl _ Hg) as Httl.
  - left. simpl. by apply run_op_waiting.
  - right. left. done.
  - right. right. cbn [gw_state] in *. destruct (run_op_carried o p am (gw_state g) Httl Hd) as [Hd' Hc].
    destruct (decide (tk_query t = "qcli_" +:+ am_uuid am)) as [E|Hn].
    + intros r Er. rewrite Hnew in Er; [done|]. rewrite E.
      destruct (records (gw_state g) !! ("qcli_" +:+ am_uuid am)) as [r0|] eqn:Er0; [|done]. exfalso. apply Hfresh.
      apply elem_of_app. left. apply list_elem_of_fmap.
      exists ("qcli_" +:+ am_uuid am, r0). split; [done|]. by apply elem_of_map_to_list.
    + revert Hdone. apply carried_done; [by apply run_op_limits|by apply disk_faults|auto].
Qed.

Lemma collector_fate t g g' :
  ArrowIpcLaws → collector_step g g' → gateway_inv g → storage_inv g → fate t g → fate t g'.
Proof.
  intros Hlaws Hs Hg [Hd Hw Hr] Hfate.
  destruct Hs as [t0 before after received g Hsp Hdel
    |before c after item rest path now g Hc Hrest|before c after now g Hc Hrest].
  - destruct Hfate as [Hin|[(c & Hin & Ht)|Hdone]].
    + rewrite Hsp, elem_of_app, elem_of_cons in Hin. destruct Hin as [?|[->|?]].
      * left. simpl. set_solver.
      * right. left. exists (collector_of t0 received). simpl. split; [set_solver|done].
      * left. simpl. set_solver.
    + right. left. exists c. simpl. split; [set_solver|done].
    + right. right. done.
  - destruct (collect_item_limits path now item rest c (gw_state g)) as [Hl _].
    destruct (collect_item_disk path now item rest c (gw_state g) Hd) as [Hd' Hcar].
    pose proof (collect_item_records path now item rest c (gw_state g)) as Hrec.
    destruct (collect_item path now item rest c (gw_state g)) as [c' s'] eqn:E.
    destruct Hrec as (Htask & _ & Hsp & _). simpl in *.
    destruct Hfate as [Hin|[(c0 & Hin & Ht)|Hdone]].
    + left. simpl. by rewrite Hsp.
    + right. left. simpl. rewrite Hc in Hin. apply elem_of_app in Hin.
      rewrite elem_of_cons in Hin. destruct Hin as [?|[->|?]].
      * exists c0. set_solver.
      * exists c'. split; [set_solver|congruence].
      * exists c0. set_solver.
    + right. right. simpl. apply (carried_done (gw_state g)); [done|by apply disk_faults| |done].
      apply Hcar. by eapply done_elsewhere.
  - destruct (collect_finish_limits c now (gw_state g)) as [Hl _].
    destruct (collect_finish_disk c now (gw_state g) Hd) as [Hd' Hcar].
    pose proof (inv_collectors _ Hg) as Hok. rewrite Hc in Hr, Hok.
    apply Forall_app in Hr as [_ [Hrc _]%Forall_cons].
    apply Forall_app in Hok as [_ [Hcok _]%Forall_cons].
    pose proof (collect_finish_done c now (gw_state g) Hlaws Hcok Hrest Hrc) as Hfin.
    destruct Hfate as [Hin|[(c0 & Hin & Ht)|Hdone]].
    + left. simpl. by rewrite (proj1 (collect_finish_records c now (gw_state g) Hcok)).
    + rewrite Hc in Hin. apply elem_of_app in Hin. rewrite elem_of_cons in Hin.
      destruct Hin as [?|[->|?]].
      * right. left. exists c0. simpl. set_solver.
      * right. right. simpl. by rewrite <- Ht.
      * right. left. exists c0. simpl. set_solver.
    + right. right. simpl. apply (carried_done (gw_state g)); [done|by apply disk_faults| |done].
      apply Hcar. by eapply done_elsewhere.
Qed.

Lemma storage_start config as_ limits i fs :
  disk_fault fs = None → storage_inv (gateway_start config as_ limits i fs).
Proof.
  intros Hf. split; simpl; [|done..]. split; simpl; [done|..].
  - intros id r q. by rewrite lookup_empty.
  - intros id1 id2 r1 r2 q. by rewrite lookup_empty.
Qed.

Lemma reachable_storage policy config as_ limits i fs g :
  ArrowIpcLaws → 0 < prepared_statement_ttl limits → sane_results limits →
  disk_fault fs = None → reachable policy config as_ limits i fs g →
  storage_inv g ∧ st_limits (gw_state g) = limits.
Proof.
  intros Hlaws Httl Hsane Hf Hr. unfold reachable in Hr.
  assert (gateway_inv (gateway_start config as_ limits i fs)) as Hg
    by (eapply (reachable_inv policy); [exact Httl|apply rtc_refl]).
  pose proof (storage_start config as_ limits i fs Hf) as Hi.
  assert (st_limits (gw_state (gateway_start config as_ limits i fs)) = limits) as Hl by done.
  induction Hr as [|g0 g1 g Hs _ IH]; [done|].
  apply IH; [by eapply gateway_step_inv|eapply gateway_step_storage; eauto; by rewrite Hl
    |by rewrite (proj1 (gateway_step_static _ _ _ Hs Hg))].
Qed.

Lemma fate_steps policy t g g' :
  ArrowIpcLaws → rtc (step_without policy (tk_query t)) g g' → gateway_inv g →
  sane_results (st_limits (gw_state g)) → storage_inv g → fate t g →
  gateway_inv g' ∧ st_limits (gw_state g') = st_limits (gw_state g) ∧ fate t g'.
Proof.
  intros Hlaws. induction 1 as [g|g g1 g' Hs _ IH]; [done|]. intros Hg Hsane Hi Hfate.
  destruct Hs as [Hs Hnew]. pose proof (proj1 (gateway_step_static _ _ _ Hs Hg)) as Hl.
  rewrite <- Hl. apply IH.
  - by eapply gateway_step_inv.
  - by rewrite Hl.
  - by eapply gateway_step_storage.
  - destruct Hs as [o p am g0 Hpol Hfresh|g0 g1 Hs]; [|by eapply collector_fate].
    eapply (call_fate policy); try done. split; [by apply gw_call|done].
Qed.

(** C1: End to end.  Take any query the gateway has accepted, in any reachable
    state.  However its collector, the other collectors and the clients proceed
    from there, and whatever is spilled, expired or cancelled meanwhile: while
    the query is retained, once it has ended without a recorded error and until
    a late cancellation, each page of it is that range of the rows its adapter
    produced, in order and complete. *)
Theorem finished_queries_hold_their_results policy config as_ limits i fs g t g' r offset limit :
  ArrowIpcLaws → 0 < prepared_statement_ttl limits → sane_results limits →
  disk_fault fs = None → reachable policy config as_ limits i fs g →
  t ∈ spawned (gw_state g) → rtc (step_without policy (tk_query t)) g g' →
  records (gw_state g') !! tk_query t = Some r →
  qd_completed_at (qr_data r) ≠ None → qd_error (qr_data r) = None →
  terminal_name (qd_state (qr_data r)) = true →
  let produced := batches_of (qh_items (tk_handle t)) in
  sum_rows produced ≤ usize_max → 0 ≤ offset → 0 ≤ limit ≤ usize_max →
  ∃ page, page_of_data (qr_data r) (disk (gw_state g')) offset limit = Ok page ∧
          page_spec produced offset limit page.
Proof.
  intros Hlaws Httl Hsane Hf Hr Hin Hsteps Er Hcomp Herr Hterm produced Hsum Hoff Hlim.
  pose proof (reachable_inv _ _ _ _ _ _ _ Httl Hr) as Hg.
  destruct (reachable_storage _ _ _ _ _ _ _ Hlaws Httl Hsane Hf Hr) as [Hi Hl].
  rewrite <- Hl in Hsane.
  destruct (fate_steps policy t g g' Hlaws Hsteps Hg Hsane Hi (or_introl Hin))
    as (Hg' & _ & Hfate).
  destruct (inv_tracked _ Hg') as [_ Hact _].
  assert (tk_query t ∉ (tk_query <$> spawned (gw_state g')) ++ (co_query <$> gw_collectors g'))
    as Hidle.
  { rewrite Hact. intros (r0 & Er0 & Ha). simplify_eq. unfold is_active in Ha.
    by destruct (qd_completed_at _). }
  apply not_elem_of_app in Hidle as [Hn1 Hn2].
  destruct Hfate as [Hin'|[(c & Hin' & Ht)|Hdone]].
  - exfalso. apply Hn1. by apply list_elem_of_fmap_2.
  - exfalso. apply Hn2. rewrite <- Ht. by apply (list_elem_of_fmap_2 co_query).
  - destruct (Hdone r Er) as [_ Hres]. destruct (Hres Herr) as [Hret Hcl].
    assert (qr_data r = set_state_name (qd_state (qr_data r)) (qr_data r)) as ->
      by by destruct (qr_data r).
    by eapply retains_page_rows.
Qed.
End EndToEnd.
