(* ===== verification/GatewayExamples.v ===== *)
(** * The gateway's theorems on concrete runs

    [performs] runs a script of client calls and collector steps; a run it
    accepts is a run of the gateway. *)
From S2P Require Import Prelude Text Arrow DriverApi Auth Config Core CoreFacts Cluster.
From S2P Require Import Metadata ServiceData Results ResultsFacts Service ServiceSpec Collect.
From S2P Require Import GatewayFacts GatewaySessions Tenants EndToEnd.
Import Core.Sessions Core.Queries Arrow.Concrete.

(** ** Scripts *)

Inductive Action :=
| Call (o : ServiceOp) (p : AuthenticatedPrincipal) (am : Ambient)
| Collect (path : string) (now : Z).

Section Scripts.
Context (policy : string → AuthenticatedPrincipal).

(** The first collector moves: a waiting task starts, an item is taken, or the
    collector ends. *)
Definition collect_once (path : string) (now : Z) (g : Gateway) : option Gateway :=
  match spawned (gw_state g), gw_collectors g with
  | t :: ts, cs =>
      Some {| gw_state := with_spawned (λ _, ts) (gw_state g);
              gw_collectors := cs ++ [collector_of t (qh_items (tk_handle t))] |}
  | [], c :: cs =>
      match co_rest c with
      | item :: rest =>
          let '(c', s') := collect_item path now item rest c (gw_state g) in
          Some {| gw_state := s'; gw_collectors := c' :: cs |}
      | [] => Some {| gw_state := collect_finish c now (gw_state g); gw_collectors := cs |}
      end
  | [], [] => None
  end.

Definition principal_eqb (p q : AuthenticatedPrincipal) : bool :=
  String.eqb (principal_id p) (principal_id q)
  && bool_decide (allowed_targets p = allowed_targets q)
  && (max_sessions p =? max_sessions q)
  && (max_concurrent_queries p =? max_concurrent_queries q).

Definition perform (a : Action) (g : Gateway) : option Gateway :=
  match a with
  | Call o p am =>
      if principal_eqb (policy (principal_id p)) p
         && bool_decide ("qcli_" +:+ am_uuid am ∉ query_ids_in_use g)
      then Some {| gw_state := run_op o p am (gw_state g); gw_collectors := gw_collectors g |}
      else None
  | Collect path now => collect_once path now g
  end.

Fixpoint performs (actions : list Action) (g : Gateway) : option Gateway :=
  match actions with
  | [] => Some g
  | a :: actions => g' ← perform a g; performs actions g'
  end.

Lemma principal_eqb_spec p q : principal_eqb p q = true → p = q.
Proof.
  destruct p, q. unfold principal_eqb. simpl. rewrite !andb_true_iff.
  intros [[[?%String.eqb_eq ?%bool_decide_eq_true] ?%Z.eqb_eq] ?%Z.eqb_eq]. by subst.
Qed.

Lemma perform_step a g g' : perform a g = Some g' → gateway_step policy g g'.
Proof.
  destruct a as [o p am|path now]; simpl.
  - destruct (principal_eqb _ p) eqn:Ep; [|done]. destruct (bool_decide _) eqn:Ef; [|done].
    intros [= <-]. apply gw_call; [by apply principal_eqb_spec|by apply bool_decide_eq_true in Ef].
  - intros Hc. apply gw_collect. unfold collect_once in Hc.
    destruct (spawned (gw_state g)) as [|t ts] eqn:Es.
    + destruct (gw_collectors g) as [|c cs] eqn:Ec; [done|].
      destruct (co_rest c) as [|item rest] eqn:Er.
      * simplify_eq. by apply (gw_finish [] c cs).
      * pose proof (gw_item [] c cs item rest path now g Ec Er) as Hs. simpl in Hs.
        by destruct (collect_item path now item rest c (gw_state g)); simplify_eq.
    + simplify_eq. by apply (gw_start t [] ts).
Qed.

Lemma performs_steps actions : ∀ g g',
  performs actions g = Some g' → rtc (gateway_step policy) g g'.
Proof.
  induction actions as [|a actions IH]; intros g g' Hp; simpl in Hp; [by simplify_eq|].
  apply bind_Some in Hp as (g1 & Ha & Hp). eapply rtc_l; [by eapply perform_step|eauto].
Qed.

(** Scripts that never give [id] to a new query. *)
Fixpoint keeps_id (id : string) (actions : list Action) (g : Gateway) : bool :=
  match actions with
  | [] => true
  | a :: actions =>
      match perform a g with
      | None => true
      | Some g' =>
          (bool_decide (is_Some (records (gw_state g) !! id))
           || bool_decide (¬ is_Some (records (gw_state g') !! id)))
          && keeps_id id actions g'
      end
  end.

Lemma performs_without id actions : ∀ g g',
  performs actions g = Some g' → keeps_id id actions g = true →
  rtc (step_without policy id) g g'.
Proof.
  induction actions as [|a actions IH]; intros g g' Hp Hk; simpl in *; [by simplify_eq|].
  apply bind_Some in Hp as (g1 & Ha & Hp). rewrite Ha in Hk.
  apply andb_true_iff in Hk as [Hk1 Hk2]. eapply rtc_l; [|eauto].
  split; [by eapply perform_step|]. intros Hn. apply orb_true_iff in Hk1 as [Hk1|Hk1];
    apply bool_decide_eq_true in Hk1.
  - rewrite Hn in Hk1. by destruct Hk1.
  - by apply eq_None_not_Some.
Qed.
End Scripts.

(** ** A deployment *)

(** Everybody may use every target, two sessions and two queries at a time. *)
Definition policy (q : string) : AuthenticatedPrincipal :=
  {| principal_id := q; allowed_targets := {["*"]}; max_sessions := 2;
     max_concurrent_queries := 2 |}.
Definition ada : AuthenticatedPrincipal := policy "ada".
Definition bob : AuthenticatedPrincipal := policy "bob".

Definition warehouse : ResolvedTarget :=
  {| target_name := "warehouse"; target_engine := "trino"; target_properties := ∅ |}.
Definition config : Config :=
  {| config_path := "qcli.ini"; config_defaults := ∅;
     config_targets := {["warehouse" := warehouse]} |}.

Definition batch (l : list Z) : RecordBatch :=
  {| schema := ["n"]; rows := (λ n, [n]) <$> l |}.
Definition produced_items : list QueryItem :=
  [Batch (batch [1; 2]); Event (SessionProperties {["catalog" := "tpch"]});
   Batch (batch [3; 4; 5])].

Definition refuse {A} : result A DriverError := Err (DriverError_new "unsupported" "").
Definition adapter : EngineAdapter :=
  {| engine := "trino"; capabilities := from_supported [PreparedStatements];
     identifier_capabilities := IdentifierCapabilities_default;
     execute := λ _ _, {| ex_items := produced_items; ex_result := Ok tt |};
     prepare := default_prepare;
     execute_prepared := λ _ _ _, {| ex_items := produced_items; ex_result := Ok tt |};
     execute_update := default_execute_update;
     execute_prepared_update := default_execute_prepared_update default_execute_update;
     ingest := default_ingest; list_catalogs := λ _ _, Ok [{| cat_name := "tpch" |}];
     list_schemas := default_list_schemas; list_objects := default_list_objects;
     describe_object := default_describe_object |}.

(** Results beyond 20 bytes spill. *)
Definition limits : ServiceLimits :=
  {| max_queries := 4; memory_result_bytes_per_query := 20;
     max_result_bytes_per_query := 1000; result_ttl := 100; max_sql_bytes := 100;
     session_ttl := 100; shutdown_grace := 10; max_prepared_statements := 2;
     prepared_statement_ttl := 50 |}.

Definition disk0 : FileSystem := {| files := ∅; disk_fault := None |}.
Definition start : Gateway := gateway_start config [adapter] limits SessionIdState_default disk0.

Definition at_time (t : Z) (minute uuid : string) : Ambient :=
  {| am_now := t; am_minute := minute; am_env := λ _, None; am_uuid := uuid;
     am_invocation := {| invoked_at := t; poll := λ _, false |} |}.

Definition ada_session : string := "qcli_202401010000_01".
Definition bob_session : string := "qcli_202401010001_01".

(** Ada and Bob open sessions; each submits a query. *)
Definition opening : list Action :=
  [Call (OCreateSession "warehouse" ∅) ada (at_time 1 "202401010000" "u1");
   Call (OSubmitSession ada_session "select 1") ada (at_time 2 "202401010000" "a");
   Call (OCreateSession "warehouse" ∅) bob (at_time 3 "202401010001" "u2");
   Call (OSubmitSession bob_session "select 2") bob (at_time 4 "202401010001" "b")].

(** The collectors start, and finish their queries one after the other. *)
Definition collection : list Action :=
  (λ n, Collect (if (n <? 8)%nat then "/tmp/a" else "/tmp/b") (10 + Z.of_nat n)) <$> seq 0 14.

Definition opened : Gateway := default start (performs policy opening start).
Definition finished : Gateway := default start (performs policy collection opened).

Definition state_of_query (id : string) (g : Gateway) : option (string * bool) :=
  (λ r, (qd_state (qr_data r), is_memory (qd_storage (qr_data r)))) <$> records (gw_state g) !! id.

Example both_finish :
  (state_of_query "qcli_a" finished, state_of_query "qcli_b" finished,
   active_query_count (gw_state finished))
  = (Some ("completed", false), Some ("completed", false), 0%nat).
Proof. vm_compute. reflexivity. Qed.

(** ** The runs are runs *)

Lemma opened_run : performs policy opening start = Some opened.
Proof. vm_compute. reflexivity. Qed.

Lemma finished_run : performs policy collection opened = Some finished.
Proof. vm_compute. reflexivity. Qed.

Lemma opened_reachable :
  reachable policy config [adapter] limits SessionIdState_default disk0 opened.
Proof. exact (performs_steps policy opening start opened opened_run). Qed.

Lemma finished_reachable :
  reachable policy config [adapter] limits SessionIdState_default disk0 finished.
Proof.
  unfold reachable. etrans; [exact opened_reachable|].
  exact (performs_steps policy collection opened finished finished_run).
Qed.

Lemma ttl_positive : 0 < prepared_statement_ttl limits.
Proof. reflexivity. Qed.

Lemma limits_sane : sane_limits policy limits.
Proof. by split_and!. Qed.

(** ** Authorization *)

Lemma refinement_witness :
  evolution bob (at_time 30 "202401010002" "c") (doomed_sessions 30 (gw_state finished))
    (gw_state finished)
    (run_op (OCloseSession bob_session) bob (at_time 30 "202401010002" "c") (gw_state finished)).
Proof.
  apply (operations_refine_authorized_steps (OCloseSession bob_session) bob
    (at_time 30 "202401010002" "c") (gw_state finished)). vm_compute. reflexivity.
Defined.

Lemma authorized_witness :
  match session_owners (gw_state finished) !! ada_session,
        sessions (st_sessions (gw_state finished)) !! ada_session with
  | Some o, Some se =>
      session_id se = ada_session ∧
      ∃ name, can_use_target (policy (so_principal o)) name = true ∧
              config_target config name = Some (session_target se)
  | None, None => True
  | _, _ => False
  end.
Proof.
  exact (sessions_are_authorized policy config [adapter] limits SessionIdState_default disk0
    finished ada_session limits_sane finished_reachable).
Defined.


(** ** Tenants *)

(** A character of the minute occurs in every identifier issued in it. *)
Fixpoint has (c : Ascii.ascii) (s : string) : bool :=
  match s with
  | EmptyString => false
  | String d s => Ascii.eqb c d || has c s
  end.

Lemma has_app c a b : has c (a +:+ b) = has c a || has c b.
Proof. induction a as [|d a IH]; simpl; [done|]. rewrite IH. by rewrite orb_assoc. Qed.

Lemma other_minute c minute_ id user st :
  has c minute_ = true → has c id = false → (next_session_id user minute_ st).1 ≠ id.
Proof.
  intros Hm Hid <-. simpl in Hid. rewrite has_app in Hid.
  apply orb_false_iff in Hid as [_ Hid]. simpl in Hid. apply orb_false_iff in Hid as [_ Hid].
  rewrite has_app in Hid. apply orb_false_iff in Hid as [Hid _]. congruence.
Qed.

Definition bobs_call : Ambient := at_time 30 "202401010003" "c".

Lemma ada_protected :
  protected bob bobs_call (doomed_sessions 30 (gw_state finished)) ada_session
    {| so_principal := "ada"; so_last_access := 2 |}
    {| session_id := ada_session; session_version := 2; session_target := warehouse;
       session_overrides := {["catalog" := "tpch"]} |} (gw_state finished).
Proof.
  split; try (vm_compute; reflexivity).
  - vm_compute. congruence.
  - intros H. vm_compute in H. inversion H.
  - intros user st. by apply (other_minute (Ascii.ascii_of_N 51)).
Qed.


Lemma unlinkability_witness :
  session bob ada_session 30 (gw_state finished)
  = (Err session_not_found, gw_state finished).
Proof.
  destruct (foreign_ids_look_unknown bob bobs_call (gw_state finished) ada_session)
    as [Hsession _].
  destruct Hsession as [Hs _]; [|exact Hs].
  intros (o & Ho & Hp). vm_compute in Ho. injection Ho as <-. vm_compute in Hp. congruence.
Defined.

(** ** Shutdown *)

Definition shut : Gateway :=
  {| gw_state := (begin_shutdown (gw_state opened)).2; gw_collectors := gw_collectors opened |}.

Lemma shutdown_witness :
  winding_down (gw_state opened) (gw_state (default shut (performs policy collection shut))).
Proof.
  destruct (shutdown_drains policy config [adapter] limits SessionIdState_default disk0 opened
    (default shut (performs policy collection shut)) ttl_positive opened_reachable)
    as (_ & Hw & _); [|exact Hw].
  apply (performs_steps policy collection shut). vm_compute. reflexivity.
Defined.

(** ** Collection *)

Lemma collected_witness :
  let collected := (tk_query <$> spawned (gw_state opened))
                   ++ (co_query <$> gw_collectors opened) in
  NoDup collected ∧
  ∀ id, id ∈ collected ↔
    ∃ r, records (gw_state opened) !! id = Some r ∧ qd_completed_at (qr_data r) = None.
Proof.
  exact (unfinished_queries_are_collected policy config [adapter] limits
    SessionIdState_default disk0 opened ttl_positive opened_reachable).
Defined.

(** One collector step from [opened]. *)
Definition started : Gateway := default opened (perform policy (Collect "" 0) opened).


(** ** Event logs *)

Definition ada_record : QueryRecord :=
  default {| qr_id := ""; qr_owner := ""; qr_session_id := ""; qr_session_version := 0;
             qr_target := ""; qr_engine := ""; qr_cancel := false;
             qr_data := QueryData_submitted |}
    (records (gw_state finished) !! "qcli_a").

Lemma event_log_witness : log_ok (qr_data ada_record).
Proof.
  apply (event_logs_are_well_formed policy config [adapter] limits SessionIdState_default disk0
    finished "qcli_a" ada_record ttl_positive finished_reachable). vm_compute. reflexivity.
Defined.

Lemma late_cancel_witness :
  ∃ s' r', (cancel ada "qcli_a" 30 (gw_state finished)).2 = s' ∧
    records s' !! "qcli_a" = Some r' ∧ qd_completed_at (qr_data r') = Some 17 ∧
    is_ok (page_of_data (qr_data ada_record) (disk (gw_state finished)) 0 10) = true ∧
    is_ok (page_of_data (qr_data r') (disk s') 0 10) = false.
Proof.
  destruct (late_cancel_hides_results ada (at_time 30 "202401010002" "c") (gw_state finished)
    "qcli_a" ada_record) as (s' & r' & Hs & Hr & Hc & _ & Hall);
    [vm_compute; reflexivity..|].
  exists s', r'. split; [exact Hs|]. split; [exact Hr|].
  split; [rewrite Hc; vm_compute; reflexivity|]. split; [vm_compute; reflexivity|].
  exact (proj1 (Hall (disk s') 0 10 0 None)).
Defined.

(** ** End to end *)

Definition ada_task : Task :=
  {| tk_query := "qcli_a"; tk_close_session := false;
     tk_handle := {| qh_id := "qcli_0000000000000001"; qh_session_id := ada_session;
       qh_session_version := 1; qh_capacity := 8; qh_cancellation := false;
       qh_task := Ok (Ok tt);
       qh_items := task_items {| ex_items := produced_items; ex_result := Ok tt |} |} |}.

(** Rows 3 and 4, read back from the spill file. *)
Lemma end_to_end_witness :
  ∃ page, page_of_data (qr_data ada_record) (disk (gw_state finished)) 2 2 = Ok page ∧
          all_rows (page_batches page) = [[3]; [4]] ∧ page_next_offset page = Some 4.
Proof.
  destruct (finished_queries_hold_their_results policy config [adapter] limits
    SessionIdState_default disk0 opened ada_task finished ada_record 2 2 ipc_laws ttl_positive)
    as (page & Hpage & Hrows & _ & Hnext).
  - vm_compute. split; congruence.
  - reflexivity.
  - exact opened_reachable.
  - vm_compute. apply list_elem_of_here.
  - apply (performs_without policy "qcli_a" collection opened); vm_compute; reflexivity.
  - vm_compute. reflexivity.
  - vm_compute. congruence.
  - vm_compute. reflexivity.
  - vm_compute. reflexivity.
  - vm_compute. congruence.
  - lia.
  - vm_compute. split; congruence.
  - exists page. split; [exact Hpage|]. rewrite Hrows, Hnext. split; vm_compute; reflexivity.
Defined.

(** What the query keeps: its two batches, in the spill file. *)
Definition fetched : QueryRecord := default ada_record (records (gw_state finished) !! "qcli_a").
Definition fetched_batches : list RecordBatch := [batch [1; 2]; batch [3; 4; 5]].

Lemma fetched_kept : retains limits (qr_data fetched, disk (gw_state finished)) fetched_batches.
Proof.
  split; cycle 3; [vm_compute; discriminate|vm_compute; reflexivity..| |
                   vm_compute; reflexivity|vm_compute; reflexivity].
  cbn [fst snd]. replace (qd_storage (qr_data fetched)) with (Spill "/tmp/a" None)
    by (vm_compute; reflexivity).
  eexists. split; vm_compute; reflexivity.
Qed.
