(* ===== verification/Lifecycle.v ===== *)
(** * Nodes and servers over time

    What runs beside the requests: the task that renews the lease of a node
    and the one that waits for the signal ([serve_gateway] of
    crates/qcli-cli/src/main.rs), and the end of a server
    ([HttpService::serve_with_shutdown] of crates/qcli-http/src/lib.rs and
    [GatewayService::wait_for_queries] of crates/qcli-service/src/lib.rs). *)
From S2P Require Import Prelude Text Arrow DriverApi Auth Config Core CoreFacts Cluster.
From S2P Require Import ClusterFacts ClusterStores Metadata ServiceData Results Service.
From S2P Require Import ServiceSpec ServiceCluster Collect GatewayFacts GatewaySessions Tenants.
Import Core.Sessions Core.Queries.

(** ** The registry of nodes

    What a store promises about registrations. *)
Class NodeRegistry (St : Type) `{ClusterStateStore St} := {
  registration_of : St → string → option NodeRegistration;
  renew_node_spec node ttl now s :
    match renew_node node ttl now s with
    | (Ok r, s') =>
        (∃ r0, registration_of s node = Some r0 ∧ r = with_node_expiry r0 (node_expires_at r)) ∧
        registration_of s' node = Some r ∧
        (ttl `mod` Postgres.nanos_per_milli = 0 → ttl ≤ 365 * nanos_per_day →
           now + ttl ≤ node_expires_at r)
    | (Err _, s') => s' = s
    end;
  set_draining_spec node b s :
    match set_draining node b s with
    | (Ok _, s') =>
        ∃ r, registration_of s node = Some r ∧ registration_of s' node = Some (with_draining r b)
    | (Err _, s') => s' = s
    end;
  live_nodes_spec now s l s' :
    live_nodes now s = (Ok l, s') →
    ∀ r, r ∈ l ↔ ∃ node, registration_of s node = Some r ∧ now < node_expires_at r;
}.

Section Memory.
Context `{Chrono}.

Lemma memory_renew_node node ttl now (s : Memory.MemoryState) :
  match Memory.mem_renew_node node ttl now s with
  | (Ok r, s') =>
      (∃ r0, Memory.nodes s !! node = Some r0 ∧ r = with_node_expiry r0 (node_expires_at r)) ∧
      Memory.nodes s' !! node = Some r ∧
      (ttl `mod` Postgres.nanos_per_milli = 0 → ttl ≤ 365 * nanos_per_day →
         now + ttl ≤ node_expires_at r)
  | (Err _, s') => s' = s
  end.
Proof.
  unfold Memory.mem_renew_node, ok_or. unfold_M.
  destruct (Memory.nodes s !! node) as [r0|]; [|done]. simpl. split_and!; [by eexists|..].
  - by rewrite lookup_insert_eq.
  - intros _ Hd. unfold deadline. destruct (from_std ttl) as [d|] eqn:Ed; simpl; [|lia].
    apply from_std_same in Ed. lia.
Qed.

Lemma memory_draining node b (s : Memory.MemoryState) :
  match Memory.mem_set_draining node b s with
  | (Ok _, s') => ∃ r, Memory.nodes s !! node = Some r ∧
                       Memory.nodes s' !! node = Some (with_draining r b)
  | (Err _, s') => s' = s
  end.
Proof.
  unfold Memory.mem_set_draining, ok_or. unfold_M.
  destruct (Memory.nodes s !! node) as [r|]; [|done]. simpl. exists r. by rewrite lookup_insert_eq.
Qed.

Lemma memory_live_nodes now (s : Memory.MemoryState) l s' :
  Memory.mem_live_nodes now s = (Ok l, s') →
  ∀ r, r ∈ l ↔ ∃ node, Memory.nodes s !! node = Some r ∧ now < node_expires_at r.
Proof.
  intros [= <- _] r. rewrite list_elem_of_filter, list_elem_of_fmap. split.
  - intros (Hr & [n r'] & -> & Hn%elem_of_map_to_list). eauto.
  - intros (n & Hn & Hr). split; [done|]. exists (n, r). by rewrite elem_of_map_to_list.
Qed.

#[export] Instance memory_registry : NodeRegistry Memory.MemoryState := {|
  registration_of s n := Memory.nodes s !! n;
  renew_node_spec := memory_renew_node;
  set_draining_spec := memory_draining;
  live_nodes_spec := memory_live_nodes;
|}.
End Memory.

Lemma postgres_renew_node node ttl now (s : Postgres.Tables) :
  match Postgres.pg_renew_node node ttl now s with
  | (Ok r, s') =>
      (∃ r0, Postgres.nodes s !! node = Some r0 ∧ r = with_node_expiry r0 (node_expires_at r)) ∧
      Postgres.nodes s' !! node = Some r ∧
      (ttl `mod` Postgres.nanos_per_milli = 0 → ttl ≤ 365 * nanos_per_day →
         now + ttl ≤ node_expires_at r)
  | (Err _, s') => s' = s
  end.
Proof.
  unfold Postgres.pg_renew_node, Postgres.millis, Postgres.statement, ok_or. unfold_M.
  destruct (ttl / Postgres.nanos_per_milli <=? 2 ^ 63 - 1); [|done].
  destruct (Postgres.link_error s); [done|].
  destruct (Postgres.nodes s !! node) as [r0|]; [|done]. simpl.
  split_and!; [by eexists|by rewrite lookup_insert_eq|].
  intros Hm _. unfold Postgres.after_millis.
  pose proof (Z.div_mod ttl Postgres.nanos_per_milli). unfold Postgres.nanos_per_milli in *. lia.
Qed.

Lemma postgres_draining node b (s : Postgres.Tables) :
  match Postgres.pg_set_draining node b s with
  | (Ok _, s') => ∃ r, Postgres.nodes s !! node = Some r ∧
                       Postgres.nodes s' !! node = Some (with_draining r b)
  | (Err _, s') => s' = s
  end.
Proof.
  unfold Postgres.pg_set_draining, Postgres.statement, ok_or. unfold_M.
  destruct (Postgres.link_error s); [done|].
  destruct (Postgres.nodes s !! node) as [r|]; [|done]. simpl. exists r. by rewrite lookup_insert_eq.
Qed.

Lemma postgres_live_nodes now (s : Postgres.Tables) l s' :
  Postgres.pg_live_nodes now s = (Ok l, s') →
  ∀ r, r ∈ l ↔ ∃ node, Postgres.nodes s !! node = Some r ∧ now < node_expires_at r.
Proof.
  unfold Postgres.pg_live_nodes, Postgres.statement. unfold_M.
  destruct (Postgres.link_error s); [done|]. intros [= <- _] r.
  rewrite list_elem_of_filter, list_elem_of_fmap. split.
  - intros (Hr & [n r'] & -> & Hn%elem_of_sorted_entries). eauto.
  - intros (n & Hn & Hr). split; [done|]. exists (n, r). by rewrite elem_of_sorted_entries.
Qed.

#[export] Instance postgres_registry : NodeRegistry Postgres.Tables := {|
  registration_of s n := Postgres.nodes s !! n;
  renew_node_spec := postgres_renew_node;
  set_draining_spec := postgres_draining;
  live_nodes_spec := postgres_live_nodes;
|}.

(** ** Renewing the lease of a node *)

(** A tick of the interval: what happened to the store since the tick before,
    and the time. *)
Record Tick (St : Type) := { tick_others : St → St; tick_now : Z }.
Arguments tick_others {_}. Arguments tick_now {_}.

Section Renewal.
Context {St : Type} `{!ClusterStateStore St}.
Implicit Types (s : St) (ticks : list (Tick St)).

Definition node_ttl : Z := from_secs 30.
Definition renewal_interval : Z := from_secs 10.

(** The task [serve_gateway] spawns: [loop { tick; if renew.is_err() break }].
    The flag says whether it still runs. *)
Fixpoint renew_loop (node : string) ticks s : bool * St :=
  match ticks with
  | [] => (true, s)
  | t :: ticks =>
      match renew_node node node_ttl (tick_now t) (tick_others t s) with
      | (Ok _, s') => renew_loop node ticks s'
      | (Err _, s') => (false, foldl (λ s t, tick_others t s) s' ticks)
      end
  end.

Context `{!NodeRegistry St}.
(** Others leave the registration alone. *)
Definition leaves_alone (node : string) (t : Tick St) : Prop :=
  ∀ s, registration_of (tick_others t s) node = registration_of s node.

Lemma others_keep node ticks s :
  Forall (leaves_alone node) ticks →
  registration_of (foldl (λ s t, tick_others t s) s ticks) node = registration_of s node.
Proof.
  intros Ht. revert s. induction Ht as [|t ticks Hu _ IH]; intros s; [done|]. simpl.
  by rewrite IH, Hu.
Qed.

(** The ticks that renewed, and what they left. *)
Lemma renew_loop_split node ticks s running s' :
  Forall (leaves_alone node) ticks → renew_loop node ticks s = (running, s') →
  ∃ renewed rest s1, ticks = renewed ++ rest ∧ (running = true ↔ rest = []) ∧
    renew_loop node renewed s = (true, s1) ∧ registration_of s' node = registration_of s1 node.
Proof.
  intros Ht. revert s. induction Ht as [|t ticks Hu Ht IH]; intros s; simpl.
  { intros [= <- <-]. by exists [], [], s. }
  pose proof (renew_node_spec node node_ttl (tick_now t) (tick_others t s)) as Hr.
  destruct (renew_node node node_ttl (tick_now t) (tick_others t s)) as [[r|e] s0] eqn:E.
  - intros Hl. destruct (IH s0 Hl) as (renewed & rest & s1 & -> & Hb & Hl' & Hn).
    exists (t :: renewed), rest, s1. split_and!; [done|done| |done]. simpl. by rewrite E.
  - intros [= <- <-]. subst s0. exists [], (t :: ticks), s. split_and!; [done|done|done|].
    by rewrite others_keep, Hu.
Qed.

Lemma renewed_until node ticks s s1 t :
  Forall (leaves_alone node) ticks → renew_loop node ticks s = (true, s1) →
  last ticks = Some t →
  ∃ r0 r, registration_of s node = Some r0 ∧ registration_of s1 node = Some r ∧
    r = with_node_expiry r0 (node_expires_at r) ∧ tick_now t + node_ttl ≤ node_expires_at r.
Proof.
  intros Ht. revert s. induction Ht as [|t0 ticks Hu Ht IH]; intros s; [done|]. simpl.
  pose proof (renew_node_spec node node_ttl (tick_now t0) (tick_others t0 s)) as Hr.
  destruct (renew_node node node_ttl (tick_now t0) (tick_others t0 s)) as [[r|e] s0]; [|done].
  destruct Hr as ((r0 & Hr0 & Hr) & Hs0 & Hd). rewrite Hu in Hr0. intros Hl Hlast.
  destruct ticks as [|t1 ticks].
  - injection Hl as <-. injection Hlast as <-. exists r0, r. split_and!; [done..|].
    apply Hd; by vm_compute.
  - destruct (IH s0 Hl Hlast) as (r1 & r2 & Hr1 & Hr2 & Hr12 & Ht2). exists r0, r2.
    split_and!; [done|done| |done]. assert (r1 = r) as -> by congruence.
    rewrite Hr in Hr12. exact Hr12.
Qed.

End Renewal.

(** ** The signal *)
Section Signal.
Context `{ipc : ArrowIpc}.
Context {St : Type} `{!ClusterStateStore St} `{!NodeRegistry St} {Ob : Type}.
Abbreviation Node := (Node (St:=St) (Ob:=Ob)).

(** The task of [serve_gateway] that waits for the signal: the node is marked as
    draining, whether or not the store answers, and then refuses work. *)
Definition on_signal (n : Node) : Node :=
  let n1 := match nd_cluster n with
            | Some c => with_store (set_draining (cc_node_id c) true (nd_store n)).2 n
            | None => n
            end in
  with_service (begin_shutdown (nd_service n1)).2 n1.

(** A signalled node refuses new work in any case; in a cluster whose store
    answers it is listed as draining for the rest of its lease, and a store that
    does not answer is left as it was. *)
Theorem signalled_nodes_drain (n : Node) :
  shutting_down (nd_service (on_signal n)) = true ∧
  match nd_cluster n with
  | None => nd_store (on_signal n) = nd_store n
  | Some c =>
      match set_draining (cc_node_id c) true (nd_store n) with
      | (Ok _, _) =>
          ∃ r, registration_of (nd_store n) (cc_node_id c) = Some r ∧
            registration_of (nd_store (on_signal n)) (cc_node_id c) = Some (with_draining r true)
      | (Err _, _) => nd_store (on_signal n) = nd_store n
      end
  end.
Proof.
  split; [by unfold on_signal; destruct (nd_cluster n)|].
  unfold on_signal. destruct (nd_cluster n) as [c|]; [|done]. simpl.
  pose proof (set_draining_spec (cc_node_id c) true (nd_store n)) as Hd.
  by destruct (set_draining (cc_node_id c) true (nd_store n)) as [[]].
Qed.
End Signal.

(** ** The end of a server *)
Section Server.
Context `{ipc : ArrowIpc}.
Implicit Types (s : ServiceState) (g : Gateway).

(** One look of [wait_for_queries]. *)
Definition wait_over (until now : Z) s : bool :=
  (active_query_count s =? 0)%nat || (until <=? now).

(** [wait_for_queries], called at [start]: the service at each look, to the one
    at which it returns. *)
Fixpoint wait_until (until : Z) (looks : list (Z * ServiceState)) : option (Z * ServiceState) :=
  match looks with
  | [] => None
  | (now, s) :: looks => if wait_over until now s then Some (now, s) else wait_until until looks
  end.
Definition wait_for_queries (start : Z) (limits : ServiceLimits)
    (looks : list (Z * ServiceState)) : option (Z * ServiceState) :=
  wait_until (start + shutdown_grace limits) looks.

(** The sleep between two looks, 10 ms. *)
Definition look_interval : Z := 10 * 10 ^ 6.

(** The wait ends: at most one look more than the grace period has intervals. *)
Theorem waits_are_bounded start limits looks :
  0 ≤ shutdown_grace limits →
  (∀ k now s, looks !! k = Some (now, s) → start + Z.of_nat k * look_interval ≤ now) →
  shutdown_grace limits < Z.of_nat (length looks) * look_interval - look_interval →
  ∃ now s, wait_for_queries start limits looks = Some (now, s) ∧
    (active_query_count s = 0%nat ∨ start + shutdown_grace limits ≤ now).
Proof.
  intros Hgrace Htimes Hlen. unfold wait_for_queries.
  set (until := start + shutdown_grace limits) in *.
  destruct (last looks) as [[now s]|] eqn:El.
  2: { apply last_None in El as ->. unfold look_interval in *. simpl in *. lia. }
  assert (until ≤ now) as Hlast.
  { rewrite last_lookup in El. specialize (Htimes _ _ _ El).
    destruct looks; [done|]. unfold until, look_interval in *. simpl in *. lia. }
  clear -El Hlast. induction looks as [|[t s0] looks IH]; [done|]. simpl.
  unfold wait_over. destruct (Nat.eqb_spec (active_query_count s0) 0); simpl; [by eauto|].
  destruct (Z.leb_spec until t); [by eauto|]. apply IH.
  destruct looks; [|done]. simplify_eq/=. lia.
Qed.

(** [serve_with_shutdown]: requests are accepted until the signal, then the
    connections are drained, then unfinished queries are waited for. *)
Inductive Phase :=
| Accepting
| Draining
| Waiting (until : Z)
| Stopped (until : Z).

Record Server := { sr_phase : Phase; sr_clock : Z; sr_gateway : Gateway }.

Definition with_state s g : Gateway := {| gw_state := s; gw_collectors := gw_collectors g |}.

(** A step of the server.  Requests, collectors and the ticks of the cleanup task
    (the call [OCleanup]) are steps of its gateway; the gateway is shared, and
    another server may still call it while this one drains and waits. *)
Inductive server_step (policy : string → AuthenticatedPrincipal) : Server → Server → Prop :=
| sr_work phase clock g g' :
    (∀ until, phase ≠ Stopped until) → gateway_step policy g g' →
    server_step policy {| sr_phase := phase; sr_clock := clock; sr_gateway := g |}
      {| sr_phase := phase; sr_clock := clock; sr_gateway := g' |}
| sr_time phase clock clock' g :
    clock ≤ clock' →
    server_step policy {| sr_phase := phase; sr_clock := clock; sr_gateway := g |}
      {| sr_phase := phase; sr_clock := clock'; sr_gateway := g |}
| sr_signal clock g :
    server_step policy {| sr_phase := Accepting; sr_clock := clock; sr_gateway := g |}
      {| sr_phase := Draining; sr_clock := clock;
         sr_gateway := with_state (begin_shutdown (gw_state g)).2 g |}
| sr_closed clock g :
    server_step policy {| sr_phase := Draining; sr_clock := clock; sr_gateway := g |}
      {| sr_phase := Waiting (clock + shutdown_grace (st_limits (gw_state g)));
         sr_clock := clock; sr_gateway := g |}
| sr_look until clock g :
    server_step policy {| sr_phase := Waiting until; sr_clock := clock; sr_gateway := g |}
      {| sr_phase := if wait_over until clock (gw_state g) then Stopped until else Waiting until;
         sr_clock := clock; sr_gateway := g |}.

Lemma server_works policy phase clock g g' :
  (∀ until, phase ≠ Stopped until) → rtc (gateway_step policy) g g' →
  rtc (server_step policy) {| sr_phase := phase; sr_clock := clock; sr_gateway := g |}
    {| sr_phase := phase; sr_clock := clock; sr_gateway := g' |}.
Proof. intros Hp. induction 1; [done|]. eapply rtc_l; [|done]. by apply sr_work. Qed.

Definition server_start (clock : Z) g : Server :=
  {| sr_phase := Accepting; sr_clock := clock; sr_gateway := g |}.

Record server_inv (sr : Server) : Prop := {
  si_gateway : gateway_inv (sr_gateway sr);
  si_shut : sr_phase sr ≠ Accepting → shutting_down (gw_state (sr_gateway sr)) = true;
  si_stopped until : sr_phase sr = Stopped until →
    active_query_count (gw_state (sr_gateway sr)) = 0%nat ∨ until ≤ sr_clock sr;
}.

Lemma shutdown_inv g : gateway_inv g → gateway_inv (with_state (begin_shutdown (gw_state g)).2 g).
Proof. intros [H1 H2 H3]. split; [done|by apply shutdown_tracked|done]. Qed.

Lemma wait_over_spec until now s :
  wait_over until now s = true ↔ active_query_count s = 0%nat ∨ until ≤ now.
Proof. unfold wait_over. by rewrite orb_true_iff, Nat.eqb_eq, Z.leb_le. Qed.

(** A shutting-down server only winds down, and never accepts again. *)
Lemma server_step_winds_down policy sr sr' :
  server_step policy sr sr' → server_inv sr → sr_phase sr ≠ Accepting →
  sr_phase sr' ≠ Accepting ∧
  winding_down (gw_state (sr_gateway sr)) (gw_state (sr_gateway sr')) ∧
  (work (sr_gateway sr') ≤ work (sr_gateway sr))%nat.
Proof.
  intros Hs [Hg Hsh _] Hp. specialize (Hsh Hp).
  destruct Hs as [phase clock g g' Hn Hs| | | |until clock g]; simpl in *;
    [|by split_and!; [|apply winding_down_refl|]|done|by split_and!; [|apply winding_down_refl|]|].
  - destruct (gateway_step_winding_down _ _ _ Hs Hg Hsh). by split_and!.
  - split_and!; [by destruct (wait_over _ _ _)|by apply winding_down_refl|done].
Qed.

Lemma server_step_inv policy sr sr' : server_step policy sr sr' → server_inv sr → server_inv sr'.
Proof.
  intros Hs Hi. pose proof (server_step_winds_down _ _ _ Hs Hi) as Hw.
  destruct Hi as [Hg Hsh Hst]. split.
  - destruct Hs; [by eapply gateway_step_inv|done|by apply shutdown_inv|done|done].
  - intros Hp. destruct Hs; simpl in *; try (by apply Hsh); [|done].
    by destruct (Hw Hp) as (_ & [] & _).
  - intros u0. destruct Hs as [phase clock g g' Hn Hs|phase clock clock' g Hc| | |u clock g];
      simpl in *; [by intros Hp%Hn| |done..|].
    + intros Hp. destruct (Hst u0 Hp); [by left|right; lia].
    + destruct (wait_over u clock (gw_state g)) eqn:Ew; [|done]. intros [= <-].
      by apply wait_over_spec.
Qed.

Lemma server_reachable_inv policy config as_ limits i fs clock sr :
  0 < prepared_statement_ttl limits →
  rtc (server_step policy) (server_start clock (gateway_start config as_ limits i fs)) sr →
  server_inv sr.
Proof.
  intros Httl Hr.
  assert (server_inv (server_start clock (gateway_start config as_ limits i fs))) as H0.
  { split; [|done|done]. by apply (reachable_inv policy config as_ limits i fs); [|apply rtc_refl]. }
  induction Hr; eauto using server_step_inv.
Qed.

(** Waiting can always be ended by the collectors alone. *)
Lemma waiting_ends policy until clock g :
  gateway_inv g →
  ∃ g', rtc (server_step policy)
      {| sr_phase := Waiting until; sr_clock := clock; sr_gateway := g |}
      {| sr_phase := Stopped until; sr_clock := clock; sr_gateway := g' |} ∧
    active_query_count (gw_state g') = 0%nat.
Proof.
  remember (work g) as n eqn:En. revert g En.
  induction n as [n IH] using lt_wf_ind. intros g -> Hg.
  destruct (decide (0 < work g)%nat) as [Hpos|Hzero].
  - destruct (collector_progress _ Hpos) as [g1 Hs].
    destruct (IH (work g1) (collector_step_work _ _ Hs) g1 eq_refl) as (g' & Hr & Ha);
      [by eapply collector_step_inv|].
    exists g'. split; [|done]. eapply rtc_l; [|exact Hr]. by apply sr_work; [|apply gw_collect].
  - assert (active_query_count (gw_state g) = 0%nat) as Ha by (apply work_done; [done|lia]).
    exists g. split; [|done]. apply rtc_once.
    assert (wait_over until clock (gw_state g) = true) as Hw by (apply wait_over_spec; by left).
    pose proof (sr_look policy until clock g) as Hs. by rewrite Hw in Hs.
Qed.
End Server.
