(* ===== verification/ClusterNodeExamples.v ===== *)
(** * The theorems on clustered nodes, on concrete runs

    Two nodes over the in-memory store and an object store that is a map, with
    the JSON documents [serde] derives. *)
From S2P Require Import Prelude Text Arrow DriverApi Auth Config Core Cluster Metadata.
From S2P Require Import ClusterFacts ClusterStores ServiceData Results Service Collect.
From S2P Require Import ServiceCluster SharedSessions SharedResults GatewayExamples Lifecycle.
Import Core.Sessions Core.Queries Arrow.Concrete.

#[local] Instance clock : Chrono :=
  {| from_std := Some; from_std_same d r := λ e, eq_sym (f_equal (default 0) e) |}.

(** ** Documents *)

Definition text_of (v : option Value) : string := default "" (v ≫= as_str).
Definition number_of (v : option Value) : Z :=
  match v with Some (Number n) => n | _ => 0 end.
Definition text_opt (v : option Value) : option string := v ≫= as_str.

Definition map_value (m : gmap string string) : Value :=
  Object ((λ kv, (kv.1, VString kv.2)) <$> map_to_list m).
Definition map_of (v : option Value) : gmap string string :=
  match v with
  | Some (Object l) => list_to_map ((λ kv, (kv.1, text_of (Some kv.2))) <$> l)
  | _ => ∅
  end.

Lemma map_of_value m : map_of (Some (map_value m)) = m.
Proof.
  unfold map_of, map_value. rewrite <- list_fmap_compose. rewrite <- (list_to_map_to_list m) at 2.
  f_equal. rewrite <- (list_fmap_id (map_to_list m)) at 2. apply list_fmap_ext.
  by intros i [k v] _.
Qed.

#[local] Arguments map_of : simpl never.
#[local] Arguments map_value : simpl never.

Definition snapshot_value (s : SessionSnapshot) : Value :=
  Object [("id", VString (snap_id s)); ("version", Number (snap_version s));
          ("target", VString (snap_target s)); ("engine", VString (snap_engine s));
          ("properties", map_value (snap_properties s));
          ("overrides", map_value (snap_overrides s))].
Definition snapshot_from (v : Value) : SessionSnapshot :=
  {| snap_id := text_of (value_get "id" v); snap_version := number_of (value_get "version" v);
     snap_target := text_of (value_get "target" v);
     snap_engine := text_of (value_get "engine" v);
     snap_properties := map_of (value_get "properties" v);
     snap_overrides := map_of (value_get "overrides" v) |}.

#[local] Instance serde_session : Serde SharedSession := {
  to_value s := Ok (Object [("snapshot", snapshot_value (ss_snapshot s));
                            ("quota_permit", VString (ss_quota_permit s))]);
  from_value v := Ok {| ss_snapshot := snapshot_from (default Null (value_get "snapshot" v));
                        ss_quota_permit := text_of (value_get "quota_permit" v) |};
}.

#[local] Instance serde_session_laws : SerdeLaws SharedSession.
Proof.
  split; [by eexists|]. intros [[id ver tg en pr ov] permit] v [= <-]. simpl.
  unfold snapshot_from. simpl. by rewrite !map_of_value.
Qed.

Definition error_value (e : option QueryError) : Value :=
  opt_value (λ e, Object [("code", VString (qe_code e)); ("message", VString (qe_message e))]) e.
Definition error_from (v : option Value) : option QueryError :=
  match v with
  | Some (Object _ as o) => Some {| qe_code := text_of (value_get "code" o);
                                    qe_message := text_of (value_get "message" o) |}
  | _ => None
  end.

Definition status_value (s : QueryStatus) : Value :=
  Object [("id", VString (qs_id s)); ("session_id", VString (qs_session_id s));
          ("session_version", Number (qs_session_version s)); ("target", VString (qs_target s));
          ("engine", VString (qs_engine s));
          ("engine_query_id", opt_value VString (qs_engine_query_id s));
          ("state", VString (qs_state s)); ("rows", Number (qs_rows s));
          ("retained_bytes", Number (qs_retained_bytes s)); ("error", error_value (qs_error s))].
Definition status_from (v : Value) : QueryStatus :=
  {| qs_id := text_of (value_get "id" v); qs_session_id := text_of (value_get "session_id" v);
     qs_session_version := number_of (value_get "session_version" v);
     qs_target := text_of (value_get "target" v); qs_engine := text_of (value_get "engine" v);
     qs_engine_query_id := text_opt (value_get "engine_query_id" v);
     qs_state := text_of (value_get "state" v); qs_rows := number_of (value_get "rows" v);
     qs_retained_bytes := number_of (value_get "retained_bytes" v);
     qs_error := error_from (value_get "error" v) |}.

#[local] Instance serde_query : Serde SharedQuery := {
  to_value s := Ok (Object [("status", status_value (sq_status s));
                            ("result_key", opt_value VString (sq_result_key s));
                            ("batch_count", Number (sq_batch_count s));
                            ("fencing_token", Number (sq_fencing_token s))]);
  from_value v := Ok {| sq_status := status_from (default Null (value_get "status" v));
                        sq_result_key := text_opt (value_get "result_key" v);
                        sq_batch_count := number_of (value_get "batch_count" v);
                        sq_fencing_token := number_of (value_get "fencing_token" v) |};
}.

#[local] Instance serde_query_laws : SerdeLaws SharedQuery.
Proof.
  split; [by eexists|].
  intros [[id sid sv tg en eq st rw rb er] key bc tok] v [= <-].
  by destruct eq, er as [[]|], key.
Qed.

(** ** Objects *)

Definition object_path (key : string) : result string ClusterError :=
  Objects.path Ok (Objects.SharedObjectStore_new "results/") key.

#[local] Instance objects : ResultObjectStore Bytes (gmap string Bytes) := {
  objects_put key bytes ob :=
    match object_path key with Ok p => (Ok tt, <[p := bytes]> ob) | Err e => (Err e, ob) end;
  objects_get key ob :=
    match object_path key with Ok p => (Ok (ob !! p), ob) | Err e => (Err e, ob) end;
  objects_delete key ob :=
    match object_path key with Ok p => (Ok tt, delete p ob) | Err e => (Err e, ob) end;
}.

#[local] Instance objects_laws : ObjectStoreLaws Bytes (gmap string Bytes).
Proof.
  refine {| accepts _ key := is_ok (object_path key) = true |}.
  intros ob key bytes Ha. simpl in *. destruct (object_path key); [|done].
  eexists. split; [done|]. simpl. by rewrite lookup_insert_eq.
Defined.

(** ** Nodes *)

Definition digest (principal : string) : string := "00000000000000aa".

Abbreviation ExampleNode := (Node (St:=Memory.MemoryState) (Ob:=gmap string Bytes)).
Abbreviation ExampleWorld := (World (St:=Memory.MemoryState) (Ob:=gmap string Bytes)).

Definition fresh_service : ServiceState := gw_state start.
Definition context (id : string) : ClusterContext := {| cc_node_id := id; cc_lease_ttl := 30 |}.

Definition node (id : string) (s : ServiceState) (st : Memory.MemoryState)
    (ob : gmap string Bytes) : ExampleNode :=
  {| nd_service := s; nd_cluster := Some (context id); nd_store := st; nd_objects := ob;
     nd_publishers := [] |}.

Definition call (now : Z) (minute uuid : string) : ClusterCall :=
  {| ca_ambient := at_time now minute uuid; ca_utc := 1000 + now; ca_permit := "permit_" +:+ uuid |}.

Definition node_a : ExampleNode := node "a" fresh_service Memory.MemoryState_default ∅.
Definition opened_a : ExampleNode :=
  (create_session_clustered ada "warehouse" {["catalog" := "tpch"]} (call 1 "202401010000" "u1")
     node_a).2.
Definition opened_snapshot : SessionSnapshot :=
  {| snap_id := ada_session; snap_version := 1; snap_target := "warehouse";
     snap_engine := "trino"; snap_properties := {["catalog" := "tpch"]};
     snap_overrides := {["catalog" := "tpch"]} |}.
Definition node_b : ExampleNode := node "b" fresh_service (nd_store opened_a) ∅.

Example created_on_a :
  create_session_clustered ada "warehouse" {["catalog" := "tpch"]} (call 1 "202401010000" "u1")
    node_a = (Ok opened_snapshot, opened_a).
Proof. vm_compute. reflexivity. Qed.

Lemma named_targets k t : config_target config k = Some t → target_name t = k.
Proof. unfold config_target. simpl. rewrite lookup_singleton_Some. by intros [<- <-]. Qed.

Lemma sessions_move_witness :
  (∃ m' s, session_clustered ada ada_session (call 2 "202401010000" "u2") node_b
           = (Ok opened_snapshot, m') ∧
     serves m' ada ada_session s ∧ snapshot_of s = opened_snapshot) ∧
  (∃ e, session_clustered bob ada_session (call 2 "202401010000" "u2") node_b = (Err e, node_b) ∧
        se_kind e = NotFound).
Proof.
  apply (sessions_move_between_nodes node_a node_b opened_a ada bob "warehouse"
    {["catalog" := "tpch"]} (call 1 "202401010000" "u1") (call 2 "202401010000" "u2")
    opened_snapshot); try (vm_compute; done).
  - by eexists.
  - split; [by eexists|done].
  - exact named_targets.
Defined.

(** Node [b] restores the session; now both nodes hold version 1. *)
Definition restored_b : ExampleNode :=
  (session_clustered ada ada_session (call 2 "202401010000" "u2") node_b).2.
Definition both : ExampleWorld :=
  {| w_local := λ id, if String.eqb id "a" then local_of opened_a else local_of restored_b;
     w_store := nd_store restored_b; w_objects := ∅ |}.
Definition first_copy : Session :=
  {| session_id := ada_session; session_version := 1; session_target := warehouse;
     session_overrides := {["catalog" := "tpch"]} |}.
Definition shared_at (st : Memory.MemoryState) (id : string) : SharedSession :=
  match Memory.resources st !! ("session", id) with
  | Some r => match from_value (payload r) with Ok s => s | Err _ => {|
      ss_snapshot := opened_snapshot; ss_quota_permit := "" |} end
  | None => {| ss_snapshot := opened_snapshot; ss_quota_permit := "" |}
  end.

Lemma stale_nodes_witness :
  ∃ (w1 w2 : ExampleWorld) until,
    at_node "a" (mutate_session_clustered ada ada_session 1 None {["x" := Some "1"]}
                   (call 3 "202401010000" "u3")) both
      = (Ok (snapshot_of (mutated_copy first_copy {["x" := Some "1"]})), w1) ∧
    at_node "b" (mutate_session_clustered ada ada_session 1 None {["y" := Some "2"]}
                   (call 4 "202401010000" "u4")) w1
      = (Ok (snapshot_of (mutated_copy first_copy {["y" := Some "2"]})), w2) ∧
    serves (node_of w2 "a") ada ada_session (mutated_copy first_copy {["x" := Some "1"]}) ∧
    shares (w_store w2) ada ada_session
      {| ss_snapshot := snapshot_of (mutated_copy first_copy {["y" := Some "2"]});
         ss_quota_permit := ss_quota_permit (shared_at (w_store both) ada_session) |} until.
Proof.
  apply (stale_nodes_overwrite_updates both "a" "b" ada ada_session first_copy first_copy
    (shared_at (w_store both) ada_session) 1101
    {["x" := Some "1"]} {["y" := Some "2"]}
    (call 3 "202401010000" "u3") (call 4 "202401010000" "u4")); try (vm_compute; done).
  - split; [vm_compute; reflexivity|]. exists 1. vm_compute. reflexivity.
  - split; [vm_compute; reflexivity|]. exists 2. vm_compute. reflexivity.
  - split; [by eexists|done].
  - split; [by eexists|done].
  - eexists. split; [eexists; split; [vm_compute; reflexivity|by split_and!]|].
    vm_compute. reflexivity.
Defined.

(** ** Publication *)

(** Node [a] after the gateway run in which Ada's query has completed; its
    publisher takes a turn. *)
Definition finished_a : ExampleNode :=
  node "a" (gw_state finished) Memory.MemoryState_default ∅.
Definition publisher : Publisher :=
  {| pb_principal := ada; pb_query := "qcli_a";
     pb_lease := {| lease_query := "qcli_a"; lease_principal := "ada"; owner_node_id := "a";
                    fencing_token := 0; lease_expires_at := 0 |} |}.
Definition published_a : ExampleNode := (publish_turn digest publisher 30 1030 finished_a).2.
Definition reader_b : ExampleNode :=
  node "b" fresh_service (nd_store published_a) (nd_objects published_a).

Definition ada_status : QueryStatus :=
  match records (gw_state finished) !! "qcli_a" with
  | Some r => query_status r
  | None => status_from Null
  end.

Lemma ada_result_held :
  holds_result (nd_service finished_a) ada "qcli_a" 30 ada_status
    [GatewayExamples.batch [1; 2]; GatewayExamples.batch [3; 4; 5]].
Proof.
  unfold holds_result. eexists. split; [vm_compute; reflexivity|].
  split; [vm_compute; reflexivity|]. split; [vm_compute; reflexivity|].
  split; [vm_compute; reflexivity|]. split; vm_compute; reflexivity.
Qed.

Lemma published_results_witness :
  let bs := [GatewayExamples.batch [1; 2]; GatewayExamples.batch [3; 4; 5]] in
  (∃ page, (result_page_clustered ada "qcli_a" 1 3 40 1040 reader_b).1 = Ok page ∧
           (result_page ada "qcli_a" 1 3 30 (nd_service finished_a)).1 = Ok page) ∧
  read_all (result_reader_clustered ada "qcli_a" 40 1040 reader_b).1 = Ok bs ∧
  read_all (result_reader ada "qcli_a" 30 (nd_service finished_a)).1 = Ok bs ∧
  (∃ part, read_all (result_partition_reader_clustered ada "qcli_a" 1 2 40 1040 reader_b).1
           = Ok part ∧
           read_all (result_partition_reader ada "qcli_a" 1 2 30 (nd_service finished_a)).1 = Ok part).
Proof.
  intros bs.
  apply (published_results_are_served_by_every_node digest finished_a reader_b publisher
    30 1030 ada_status bs bs 40 1040 1 3 1 2).
  - exact ipc_laws.
  - exact ada_result_held.
  - vm_compute. reflexivity.
  - vm_compute. reflexivity.
  - split; [by eexists|done].
  - left. vm_compute. reflexivity.
  - vm_compute. reflexivity.
  - by eexists.
  - vm_compute. reflexivity.
  - vm_compute. reflexivity.
  - vm_compute. reflexivity.
  - vm_compute. reflexivity.
  - split; vm_compute; [congruence|reflexivity].
  - vm_compute. congruence.
Defined.

(** ** Recovery *)

(** A query that runs on node [a]. *)
Definition running_a : ServiceState := gw_state opened.
Definition running_status : QueryStatus :=
  match records running_a !! "qcli_a" with
  | Some r => query_status r
  | None => status_from Null
  end.

(** Its record is published and its lease runs until 1034. *)
Definition claimed : ExampleNode :=
  (publish_cluster_query ada running_status (call 4 "202401010000" "u5")
     (node "a" running_a Memory.MemoryState_default ∅)).2.
Definition claimed_shared : SharedQuery :=
  {| sq_status := running_status; sq_result_key := None; sq_batch_count := 0;
     sq_fencing_token := 1 |}.
Definition recovering (st : Memory.MemoryState) : ExampleNode := node "b" fresh_service st ∅.

Lemma claimed_publishes :
  publishes (nd_store claimed) ada "qcli_a" claimed_shared (1004 + shared_query_ttl).
Proof.
  eexists. split; [eexists; split; [vm_compute; reflexivity|by split_and!]|].
  vm_compute. reflexivity.
Qed.

Lemma recovery_witness :
  (∃ e, (recover_query_clustered ada "qcli_a" 1010 (recovering (nd_store claimed))).1 = Err e ∧
        se_kind e = Conflict) ∧
  ∃ token,
    (recover_query_clustered ada "qcli_a" 1034 (recovering (nd_store claimed))).1
      = Ok (failed_status orphaned_query running_status) ∧
    issued (nd_store claimed) < token ∧
    publishes (nd_store (recover_query_clustered ada "qcli_a" 1034
                           (recovering (nd_store claimed))).2)
      ada "qcli_a" (given_up claimed_shared token) (1034 + 100).
Proof.
  split.
  - destruct (recovery_respects_leases (recovering (nd_store claimed)) (context "b") ada "qcli_a"
      1010 claimed_shared (1004 + shared_query_ttl)) as (_ & Hrefused & _);
      [done|done|exact claimed_publishes|vm_compute; done|vm_compute; done|].
    destruct (Hrefused {| lease_query := "qcli_a"; lease_principal := "ada";
      owner_node_id := "a"; fencing_token := 1; lease_expires_at := 1034 |}) as [He _];
      [vm_compute; done..|exact He].
  - destruct (recovery_respects_leases (recovering (nd_store claimed)) (context "b") ada "qcli_a"
      1034 claimed_shared (1004 + shared_query_ttl)) as (_ & _ & Hgranted);
      [done|done|exact claimed_publishes|vm_compute; done|vm_compute; done|].
    apply Hgranted; [vm_compute; done| |split; vm_compute; done].
    unfold claimable. vm_compute. split; [done|right; done].
Defined.

Definition owner_publisher : Publisher :=
  {| pb_principal := ada; pb_query := "qcli_a";
     pb_lease := {| lease_query := "qcli_a"; lease_principal := "ada"; owner_node_id := "a";
                    fencing_token := 1; lease_expires_at := 1034 |} |}.
Definition partitioned : ExampleWorld :=
  {| w_local := λ id, if String.eqb id "a" then local_of claimed
                      else local_of (recovering (nd_store claimed));
     w_store := nd_store claimed; w_objects := ∅ |}.

Lemma stale_owner_witness :
  ∃ w1 token,
    at_node "b" (recover_query_clustered ada "qcli_a" 1034) partitioned
      = (Ok (failed_status orphaned_query running_status), w1) ∧
    publishes (w_store w1) ada "qcli_a" (given_up claimed_shared token) (1034 + 100) ∧
    1 < token ∧
    publishes (w_store (at_node "a" (publish_turn digest owner_publisher 40 1040) w1).2)
      ada "qcli_a" claimed_shared (1040 + shared_query_ttl).
Proof.
  apply (stale_owner_overwrites_recovery digest partitioned "a" "b" (context "a") (context "b")
    owner_publisher 40 1034 1040 running_status
    (query ada "qcli_a" 40 (nd_service claimed)).2 claimed_shared (1004 + shared_query_ttl));
    try (vm_compute; done).
  - exact claimed_publishes.
  - unfold claimable. vm_compute. split; [done|right; done].
Defined.

Lemma rejected_stateless_witness :
  ∃ e, submit_stateless_query_clustered ada "warehouse" {["catalog" := "tpch"]} ""
         (call 1 "202401010000" "u1") node_a = (Err e, opened_a) ∧ se_kind e = InvalidArgument.
Proof.
  apply (rejected_stateless_query_keeps_session node_a opened_a ada "warehouse"
    {["catalog" := "tpch"]} "" (call 1 "202401010000" "u1") opened_snapshot);
    vm_compute; reflexivity.
Defined.

(** ** A node's lease and the end of a server *)

Definition registry : Postgres.Tables :=
  (register_node "n1" "1.0" ["http"] node_ttl 0
     {| Postgres.link_error := None; Postgres.schema_row := Some 1; Postgres.nodes := ∅;
        Postgres.resources := ∅; Postgres.leases := ∅; Postgres.permits := ∅;
        Postgres.fence_sequence := 0 |}).2.

(** The connection to the store. *)
Definition link (e : option string) (s : Postgres.Tables) : Postgres.Tables :=
  {| Postgres.link_error := e; Postgres.schema_row := Postgres.schema_row s;
     Postgres.nodes := Postgres.nodes s; Postgres.resources := Postgres.resources s;
     Postgres.leases := Postgres.leases s; Postgres.permits := Postgres.permits s;
     Postgres.fence_sequence := Postgres.fence_sequence s |}.

Definition tick (e : option string) (seconds : Z) : Tick Postgres.Tables :=
  {| tick_others := link e; tick_now := from_secs seconds |}.

(** The third of six renewals meets a store that is down for a moment. *)
Definition renewals : list (Tick Postgres.Tables) :=
  [tick None 0; tick None 10; tick (Some "broken pipe") 20; tick None 30; tick None 40;
   tick None 50].

Lemma renewals_foreign : Forall (leaves_alone "n1") renewals.
Proof. repeat constructor. Qed.

Definition after_outage : Postgres.Tables := (renew_loop "n1" renewals registry).2.

Definition lost : NodeRegistration :=
  {| node_id := "n1"; instance_version := "1.0"; node_capabilities := ["http"];
     draining := false; lease_epoch := 1; node_expires_at := from_secs 40 |}.

Lemma lost_registered : registration_of after_outage "n1" = Some lost.
Proof. vm_compute. reflexivity. Qed.

Lemma nodes_at_50 : live_nodes (from_secs 50) after_outage = (Ok [], after_outage).
Proof. vm_compute. reflexivity. Qed.


(** The gateway with a query under way, signalled and drained. *)
Definition signalled : Gateway := with_state (begin_shutdown (gw_state opened)).2 opened.
Definition waiting : Server :=
  {| sr_phase := Waiting (5 + shutdown_grace (st_limits (gw_state signalled))); sr_clock := 5;
     sr_gateway := signalled |}.

Lemma waiting_reachable :
  rtc (server_step policy)
    (server_start 5 (gateway_start config [adapter] limits SessionIdState_default disk0)) waiting.
Proof.
  etrans; [apply server_works; [done|exact opened_reachable]|].
  eapply rtc_l; [exact (sr_signal policy 5 opened)|].
  exact (rtc_once _ _ (sr_closed policy 5 signalled)).
Qed.

