(* ===== verification/Chars.v ===== *)
(** * Characters of UTF-8 strings

    [str::chars] where the program counts, takes or pads characters: a
    character is its bytes, a leading byte and the continuation bytes after
    it. *)
From S2P Require Import Prelude Text Config.
From Stdlib Require Import Ascii.

(** [s.chars()], each character as its bytes. *)
Fixpoint chars (s : string) : list string :=
  match s with
  | EmptyString => []
  | String c rest =>
      match rest with
      | String d _ =>
          if is_continuation d then
            match chars rest with
            | ch :: l => String c ch :: l
            | [] => [String c rest]
            end
          else String c EmptyString :: chars rest
      | EmptyString => [String c EmptyString]
      end
  end.

(** [s.chars().count()]. *)
Definition char_count (s : string) : nat := length (chars s).

(** [.collect::<String>()]. *)
Definition unchars (l : list string) : string := foldr String.append EmptyString l.

(** [c.repeat(n)]. *)
Definition repeat_str (c : string) (n : nat) : string := unchars (repeat c n).

(** [parts.join(sep)]. *)
Fixpoint join (sep : string) (parts : list string) : string :=
  match parts with
  | [] => EmptyString
  | [p] => p
  | p :: rest => p +:+ sep +:+ join sep rest
  end.

(** The bytes of one character. *)
Definition is_char (ch : string) : Prop :=
  match ch with
  | String c rest => is_continuation c = false ∧ string_forallb is_continuation rest = true
  | EmptyString => False
  end.

(** A string that starts at a character boundary, as every Rust string does. *)
Definition at_boundary (s : string) : bool :=
  match s with String c _ => negb (is_continuation c) | EmptyString => true end.

Lemma chars_cons c d s :
  chars (String c (String d s))
  = if is_continuation d then
      match chars (String d s) with ch :: l => String c ch :: l | [] => [String c (String d s)] end
    else String c EmptyString :: chars (String d s).
Proof. done. Qed.

Lemma chars_nonempty c s : chars (String c s) ≠ [].
Proof. simpl. destruct s as [|d s]; [done|]. repeat case_match; done. Qed.

Lemma unchars_chars s : unchars (chars s) = s.
Proof.
  induction s as [|c s IH]; [done|]. simpl in *. destruct s as [|d s]; [done|].
  destruct (is_continuation d).
  - destruct (chars (String d s)) as [|ch l] eqn:E; [by apply chars_nonempty in E|].
    simpl in *. by rewrite <- IH.
  - simpl. simpl in IH. by rewrite IH.
Qed.

(** Every piece has its leading byte and nothing but continuation bytes after. *)
Lemma chars_pieces c s :
  ∃ ch l, chars (String c s) = String c ch :: l ∧
    string_forallb is_continuation ch = true ∧ Forall is_char l.
Proof.
  revert c. induction s as [|d s IH]; intros c; [by exists EmptyString, []|].
  destruct (IH d) as (ch & l & E & Hch & Hl).
  rewrite chars_cons, E.
  destruct (is_continuation d) eqn:Hd.
  - exists (String d ch), l. simpl. by rewrite Hd, Hch.
  - exists EmptyString, (String d ch :: l). split; [done|]. split; [done|]. by constructor.
Qed.

Lemma chars_is_char s : at_boundary s = true → Forall is_char (chars s).
Proof.
  destruct s as [|c s]; [by constructor|]. simpl at_boundary. intros Hc%negb_true_iff.
  destruct (chars_pieces c s) as (ch & l & -> & Hch & Hl). by constructor.
Qed.

(** A character in front of a boundary is split off. *)
Lemma chars_cons_char ch s :
  is_char ch → at_boundary s = true → chars (ch +:+ s) = ch :: chars s.
Proof.
  destruct ch as [|c ch]; [done|]. intros [_ Hch] Hs. revert c.
  induction ch as [|d ch IH]; intros c.
  - change (String c EmptyString +:+ s) with (String c s). destruct s as [|d s]; [done|].
    simpl in Hs. apply negb_true_iff in Hs. simpl. by rewrite Hs.
  - simpl in Hch. apply andb_true_iff in Hch as [Hd Hch]. specialize (IH Hch d).
    change (String c (String d ch) +:+ s) with (String c (String d ch +:+ s)).
    change (String d ch +:+ s) with (String d (ch +:+ s)) in *.
    by rewrite chars_cons, Hd, IH.
Qed.

Lemma at_boundary_unchars l : Forall is_char l → at_boundary (unchars l) = true.
Proof.
  destruct 1 as [|ch l Hch _]; [done|]. destruct ch as [|c ch]; [done|].
  simpl. destruct Hch as [-> _]. done.
Qed.

Lemma chars_unchars l : Forall is_char l → chars (unchars l) = l.
Proof.
  induction 1 as [|ch l Hch Hl IH]; [done|].
  change (unchars (ch :: l)) with (ch +:+ unchars l).
  rewrite chars_cons_char, IH; [done..|]. by apply at_boundary_unchars.
Qed.

Lemma unchars_app a b : unchars (a ++ b) = unchars a +:+ unchars b.
Proof.
  induction a as [|x a IH]; [done|]. simpl. fold (unchars (a ++ b)) (unchars a) in *.
  by rewrite IH, string_app_assoc.
Qed.

Lemma at_boundary_app a b :
  at_boundary a = true → at_boundary b = true → at_boundary (a +:+ b) = true.
Proof. by destruct a. Qed.

Lemma chars_append a b :
  at_boundary a = true → at_boundary b = true → chars (a +:+ b) = chars a ++ chars b.
Proof.
  intros Ha%chars_is_char Hb%chars_is_char.
  rewrite <- (unchars_chars a), <- (unchars_chars b) at 1.
  rewrite <- unchars_app. apply chars_unchars. by apply Forall_app.
Qed.

Lemma char_count_app a b :
  at_boundary a = true → at_boundary b = true →
  char_count (a +:+ b) = (char_count a + char_count b)%nat.
Proof. intros. unfold char_count. by rewrite chars_append, length_app. Qed.

Lemma repeat_chars c n : is_char c → Forall is_char (repeat c n).
Proof. intros Hc. induction n; simpl; by constructor. Qed.

Lemma char_count_repeat c n : is_char c → char_count (repeat_str c n) = n.
Proof.
  intros Hc. unfold char_count, repeat_str. rewrite chars_unchars by by apply repeat_chars.
  apply repeat_length.
Qed.

Lemma at_boundary_repeat c n : is_char c → at_boundary (repeat_str c n) = true.
Proof. intros Hc. by apply at_boundary_unchars, repeat_chars. Qed.

(** ** Words of a text

    What the standard library offers to take a text apart ([split],
    [split_whitespace], [trim_matches], [parse], [eq_ignore_ascii_case],
    [replace]), where more than one component uses it. *)

Definition one_of (names : list string) (s : string) : bool := existsb (String.eqb s) names.

(** [char::is_whitespace]. *)
Definition is_whitespace (ch : string) : bool := bool_decide (ch ∈ whitespace).

(** [str::split_whitespace]. *)
Fixpoint split_words (word : string) (cs : list string) : list string :=
  match cs with
  | [] => if is_empty word then [] else [word]
  | ch :: cs =>
      if is_whitespace ch then
        if is_empty word then split_words EmptyString cs
        else word :: split_words EmptyString cs
      else split_words (word +:+ ch) cs
  end.
Definition split_whitespace (s : string) : list string := split_words EmptyString (chars s).

(** [str::split(c)]: always at least one piece. *)
Fixpoint split_char (c : ascii) (s : string) : string * list string :=
  match s with
  | EmptyString => (EmptyString, [])
  | String d s =>
      let '(p, ps) := split_char c s in
      if Ascii.eqb d c then (EmptyString, p :: ps) else (String d p, ps)
  end.
Definition split (c : ascii) (s : string) : list string :=
  let '(p, ps) := split_char c s in p :: ps.

(** [trim_end_matches(c)]. *)
Fixpoint drop_leading (c : ascii) (s : string) : string :=
  match s with
  | String d s' => if Ascii.eqb d c then drop_leading c s' else s
  | EmptyString => EmptyString
  end.
Definition trim_end_matches (c : ascii) (s : string) : string :=
  string_rev (drop_leading c (string_rev s)).

(** [str::parse] at [u8] and [i8]. *)
Definition parse_u8 (s : string) : option Z :=
  n ← parse_u64 s; if n <=? 255 then Some n else None.
Definition parse_i8 (s : string) : option Z :=
  match strip_prefix "-" s with
  | Some digits =>
      if is_empty digits then None
      else n ← parse_digits 0 digits; if n <=? 128 then Some (- n) else None
  | None => n ← parse_u64 s; if n <=? 127 then Some n else None
  end.

Definition to_ascii_uppercase_char (c : ascii) : ascii :=
  if in_range 97 122 c then ascii_of_N (code c - 32) else c.
Definition to_ascii_uppercase : string → string := string_map to_ascii_uppercase_char.

Definition eq_ignore_ascii_case (a b : string) : bool :=
  String.eqb (to_ascii_lowercase a) (to_ascii_lowercase b).

(** [value.replace(c, by)]. *)
Fixpoint replace_char (c : ascii) (by_ s : string) : string :=
  match s with
  | EmptyString => EmptyString
  | String d s => if Ascii.eqb d c then by_ +:+ replace_char c by_ s else String d (replace_char c by_ s)
  end.

(** [trim_matches(cs)], for ASCII characters. *)
Fixpoint drop_any (cs : list ascii) (s : string) : string :=
  match s with
  | String d s' => if existsb (Ascii.eqb d) cs then drop_any cs s' else s
  | EmptyString => EmptyString
  end.
Definition trim_matches (cs : list ascii) (s : string) : string :=
  string_rev (drop_any cs (string_rev (drop_any cs s))).

(** [str::split_ascii_whitespace]. *)
Definition is_ascii_whitespace (ch : string) : bool :=
  existsb (λ n, String.eqb ch (String (ascii_of_N n) EmptyString)) [9; 10; 12; 13; 32]%N.
Fixpoint split_ascii_words (word : string) (cs : list string) : list string :=
  match cs with
  | [] => if is_empty word then [] else [word]
  | ch :: cs =>
      if is_ascii_whitespace ch then
        if is_empty word then split_ascii_words EmptyString cs
        else word :: split_ascii_words EmptyString cs
      else split_ascii_words (word +:+ ch) cs
  end.
Definition split_ascii_whitespace (s : string) : list string :=
  split_ascii_words EmptyString (chars s).

(** [s.chars().filter(|c| *c == ch).count()]. *)
Definition count_char (ch : string) (s : string) : nat :=
  length (filter (λ c, c = ch) (chars s)).
