(* ===== verification/Output.v ===== *)
(** * Result rendering (crates/qcli-output/src/lib.rs)

    [StreamOutput] over any [Write] sink, with the human formats (table,
    vertical) and the machine formats (CSV, TSV, JSON, JSON lines).  A
    [TextBatch] is what the renderer reads of a [RecordBatch]: its field names
    and its columns by type.  The CSV and JSON writers of arrow, the formatter
    of other column types and [serde_json] are parameters. *)
From S2P Require Import Prelude Text Chars.
From Stdlib Require Import Ascii.

Record DisplayOptions := {
  decimal_places : Z;
  string_truncate : Z;
}.

Inductive OutputFormat := Table | Vertical | Csv | Tsv | JsonFormat | JsonLines.
#[global] Instance OutputFormat_eq_dec : EqDecision OutputFormat.
Proof. solve_decision. Defined.

Inductive ErrorKind := BrokenPipe | OtherKind.
#[global] Instance ErrorKind_eq_dec : EqDecision ErrorKind.
Proof. solve_decision. Defined.

Record OutputError := { oe_message : string; oe_io_kind : option ErrorKind }.

(** [OutputError::message]: a broken pipe is recognized by its text. *)
Definition OutputError_message (message : string) : OutputError :=
  {| oe_message := message;
     oe_io_kind := if contains "broken pipe" (to_ascii_lowercase message)
                   then Some BrokenPipe else None |}.

Definition is_broken_pipe (e : OutputError) : bool := bool_decide (oe_io_kind e = Some BrokenPipe).

(** [io::Error], and [From<io::Error> for OutputError]. *)
Record IoError := { io_text : string; io_error_kind : ErrorKind }.
Definition OutputError_from (e : IoError) : OutputError :=
  {| oe_message := io_text e; oe_io_kind := Some (io_error_kind e) |}.

(** [OutputFormat::from_str]. *)
Definition OutputFormat_from_str (value : string) : result OutputFormat OutputError :=
  let v := to_ascii_lowercase value in
  if String.eqb v "table" then Ok Table
  else if String.eqb v "vertical" then Ok Vertical
  else if String.eqb v "csv" then Ok Csv
  else if String.eqb v "tsv" then Ok Tsv
  else if String.eqb v "json" then Ok JsonFormat
  else if String.eqb v "jsonl" || String.eqb v "ndjson" then Ok JsonLines
  else Err (OutputError_message ("unknown output format '" +:+ value
         +:+ "'; expected table, vertical, csv, tsv, json, or jsonl")).

(** ** Decimals *)

(** [format!("{:0>width$}", digits)]. *)
Definition pad_left (width : nat) (digits : string) : string :=
  repeat_str "0" (width - String.length digits) +:+ digits.

(** [s.split_at(n)]. *)
Fixpoint split_at (n : nat) (s : string) : string * string :=
  match n, s with
  | S n, String c s => let '(a, b) := split_at n s in (String c a, b)
  | _, _ => (EmptyString, s)
  end.

Definition exact_decimal (value scale : Z) : string :=
  let scale := Z.to_nat (Z.max scale 0) in
  let digits := pretty (Z.abs_N value) in
  let padded := pad_left (S scale) digits in
  let '(whole, fraction) := split_at (String.length padded - scale) padded in
  let sign := if value <? 0 then "-" else "" in
  if is_empty fraction then sign +:+ whole else sign +:+ whole +:+ "." +:+ fraction.

(** [10_u128.pow(n)], wrapping. *)
Definition u128_pow10 (n : Z) : Z := 10 ^ n mod 2 ^ 128.

(** [decimal]; [None] where an [expect] panics. *)
Definition decimal (value scale maximum_places : Z) : option string :=
  let scale := Z.max scale 0 in
  let shown_scale := Z.min scale maximum_places in
  let removed := scale - shown_scale in
  let factor := u128_pow10 removed in
  let absolute := Z.abs value in
  let rounded := absolute / factor in
  let remainder := absolute mod factor in
  let half := factor / 2 in
  let rounded :=
    if (0 <? removed) && ((half <? remainder) || ((remainder =? half) && (rounded mod 2 =? 1)))
    then rounded + 1 else rounded in
  if rounded <? 2 ^ 127 then
    let signed := if value <? 0 then - rounded else rounded in
    if shown_scale <? 128 then Some (exact_decimal signed shown_scale) else None
  else None.

Definition ellipsis : string :=
  String (ascii_of_N 226) (String (ascii_of_N 128) (String (ascii_of_N 166) EmptyString)).

Definition truncate (value : string) (maximum : Z) : string :=
  if Z.of_nat (char_count value) <=? maximum then value
  else if maximum =? 0 then EmptyString
  else unchars (take (Z.to_nat (maximum - 1)) (chars value) ++ [ellipsis]).

(** ** Batches as the renderer sees them *)

Section Output.
(** Values of other column types. *)
Context {Any : Type}.
(** [ArrayFormatter::try_new] and [value(row).to_string()]. *)
Variable format_any : Any → result string string.

Inductive Column :=
| Int64Column (values : list (option Z))
| StringColumn (values : list (option string))
| DecimalColumn (scale : Z) (values : list (option Z))
| AnyColumn (values : list (option Any)).

Record TextBatch := {
  tb_fields : list string;
  tb_columns : list Column;
  tb_rows : nat;
}.

Definition column_length (c : Column) : nat :=
  match c with
  | Int64Column l => length l
  | StringColumn l => length l
  | DecimalColumn _ l => length l
  | AnyColumn l => length l
  end.

(** A record batch: one column per field, each with a value per row. *)
Definition batch_ok (b : TextBatch) : Prop :=
  length (tb_fields b) = length (tb_columns b) ∧
  Forall (λ c, column_length c = tb_rows b) (tb_columns b).

(** [to_string] of an [i64]. *)
Definition int_text (z : Z) : string := pretty z.

(** A panic of [decimal] is an error here: Arrow's own values never cause it. *)
Definition decimal_panic : OutputError := OutputError_message "panic".

Definition render_value (c : Column) (row : nat) (options : DisplayOptions) :
    result string OutputError :=
  match c with
  | Int64Column l =>
      match l !! row with Some (Some v) => Ok (int_text v) | _ => Ok "NULL" end
  | StringColumn l =>
      match l !! row with
      | Some (Some v) => Ok (truncate v (string_truncate options))
      | _ => Ok "NULL"
      end
  | DecimalColumn scale l =>
      match l !! row with
      | Some (Some v) => ok_or (decimal v scale (decimal_places options)) decimal_panic
      | _ => Ok "NULL"
      end
  | AnyColumn l =>
      match l !! row with
      | Some (Some v) => map_err OutputError_message (format_any v)
      | _ => Ok "NULL"
      end
  end.

(** [iter().map(f).collect::<Result<_, _>>()] and the loops of that shape. *)
Fixpoint try_map {A B E} (f : A → result B E) (l : list A) : result (list B) E :=
  match l with
  | [] => Ok []
  | a :: l => let? b := f a in let? bs := try_map f l in Ok (b :: bs)
  end.

Definition render_row (b : TextBatch) (options : DisplayOptions) (row : nat) :
    result (list string) OutputError :=
  try_map (λ c, render_value c row options) (tb_columns b).

Definition render_rows (b : TextBatch) (options : DisplayOptions) :
    result (list (list string)) OutputError :=
  try_map (render_row b options) (seq 0 (tb_rows b)).

(** ** Tables *)

(** Box-drawing characters of the block U+2500..U+257F, as UTF-8. *)
Definition box (n : N) : string :=
  String (ascii_of_N 226) (String (ascii_of_N (148 + n / 64))
    (String (ascii_of_N (128 + n mod 64)) EmptyString)).
Definition horizontal : string := box 0.
Definition vertical_bar : string := box 2.
Definition newline : string := String (ascii_of_N 10) EmptyString.

Definition border (widths : list nat) (left middle right : string) : string :=
  left +:+ join middle ((λ w, repeat_str horizontal (w + 2)) <$> widths) +:+ right +:+ newline.

(** [format!(" {value:<width$} ")]: padded by characters. *)
Definition cell_text (value : string) (width : nat) : string :=
  " " +:+ value +:+ repeat_str " " (width - char_count value) +:+ " ".

Definition format_row (values : list string) (widths : list nat) : string :=
  vertical_bar +:+ join vertical_bar (zip_with cell_text values widths)
    +:+ vertical_bar +:+ newline.

(** The width of column [i]: the longest of its values and its header. *)
Definition column_width (headers : list string) (rows : list (list string)) (i : nat) : nat :=
  Nat.max (foldr (λ r m, Nat.max (char_count (default EmptyString (r !! i))) m) 0%nat rows)
    (char_count (default EmptyString (headers !! i))).

Definition column_widths (headers : list string) (rows : list (list string)) : list nat :=
  column_width headers rows <$> seq 0 (length headers).

(** The lines of [render_table]. *)
Definition table_lines (headers : list string) (rows : list (list string)) : list string :=
  let widths := column_widths headers rows in
  [border widths (box 12) (box 44) (box 16); format_row headers widths;
   border widths (box 28) (box 60) (box 36)]
  ++ ((λ row, format_row row widths) <$> rows)
  ++ [border widths (box 20) (box 52) (box 24)].

Definition render_table (b : TextBatch) (options : DisplayOptions) :
    result string OutputError :=
  let? rows := render_rows b options in
  Ok (unchars (table_lines (tb_fields b) rows)).

(** ** JSON *)

(** [object[name] = value] on an object. *)
Fixpoint set_field (name : string) (value : Value) (fields : list (string * Value)) :
    list (string * Value) :=
  match fields with
  | [] => [(name, value)]
  | (k, v) :: fields =>
      if String.eqb k name then (k, value) :: fields else (k, v) :: set_field name value fields
  end.
Definition value_set (name : string) (value v : Value) : Value :=
  match v with
  | Object fields => Object (set_field name value fields)
  | Null => Object [(name, value)]
  | v => v
  end.

(** The rows with one decimal column made exact strings. *)
Definition stringify_column (name : string) (scale : Z) (values : list (option Z))
    (rows : list Value) : list Value :=
  imap (λ i row, match values !! i with
                 | Some (Some v) => value_set name (VString (exact_decimal v scale)) row
                 | _ => row
                 end) rows.

Definition stringify_decimals (b : TextBatch) (rows : list Value) : list Value :=
  foldl (λ rows fc, match fc.2 with
                    | DecimalColumn scale values => stringify_column fc.1 scale values rows
                    | _ => rows
                    end) rows (zip (tb_fields b) (tb_columns b)).

(** ** The stream *)

(** [trait Write]. *)
Class Write (W : Type) := {
  write_all : string → M W IoError unit;
  flush : M W IoError unit;
}.

(** The parameters: [arrow_csv]'s writer, [arrow_json]'s writer,
    [serde_json::from_slice] and [serde_json::to_writer]. *)
Variable csv_text : bool → ascii → TextBatch → result string string.
Variable json_encode : TextBatch → result string string.
Variable json_parse : string → result (list Value) string.
Variable json_text : Value → string.

Context {W : Type} `{!Write W}.

Record StreamOutput := {
  so_writer : W;
  so_format : OutputFormat;
  so_options : DisplayOptions;
  so_wrote_batch : bool;
  so_wrote_json_row : bool;
  so_rows : Z;
}.

Definition set_writer (w : W) (o : StreamOutput) : StreamOutput :=
  {| so_writer := w; so_format := so_format o; so_options := so_options o;
     so_wrote_batch := so_wrote_batch o; so_wrote_json_row := so_wrote_json_row o;
     so_rows := so_rows o |}.
Definition set_wrote_json_row (o : StreamOutput) : StreamOutput :=
  {| so_writer := so_writer o; so_format := so_format o; so_options := so_options o;
     so_wrote_batch := so_wrote_batch o; so_wrote_json_row := true; so_rows := so_rows o |}.
Definition count_batch (n : nat) (o : StreamOutput) : StreamOutput :=
  {| so_writer := so_writer o; so_format := so_format o; so_options := so_options o;
     so_wrote_batch := true; so_wrote_json_row := so_wrote_json_row o;
     so_rows := usize_add (so_rows o) (Z.of_nat n) |}.

Abbreviation Stream A := (M StreamOutput OutputError A).

(** [self.writer.write_all(bytes)?]. *)
Definition emit (text : string) : Stream unit :=
  on so_writer set_writer OutputError_from (write_all text).
(** A write through a writer of another crate, whose error is a message. *)
Definition emit_through (text : string) : Stream unit :=
  on so_writer set_writer (λ e, OutputError_message (io_text e)) (write_all text).

Definition StreamOutput_start (w : W) (format : OutputFormat) (options : DisplayOptions) :
    StreamOutput :=
  {| so_writer := w; so_format := format; so_options := options; so_wrote_batch := false;
     so_wrote_json_row := false; so_rows := 0 |}.

Definition StreamOutput_new (w : W) (format : OutputFormat) (options : DisplayOptions) :
    result StreamOutput OutputError :=
  let start := StreamOutput_start w format options in
  if bool_decide (format = JsonFormat) then
    match emit "[" start with (Ok _, o) => Ok o | (Err e, _) => Err e end
  else Ok start.

Definition write_delimited (b : TextBatch) : Stream unit :=
  o ← get_state;
  let delimiter := if bool_decide (so_format o = Csv) then ","%char else ascii_of_N 9 in
  text ← of_result (map_err OutputError_message (csv_text (negb (so_wrote_batch o)) delimiter b));
  emit_through text.

(** The rows of a batch as JSON values, decimals exact. *)
Definition json_rows (b : TextBatch) : result (list Value) OutputError :=
  let? encoded := map_err OutputError_message (json_encode b) in
  let? rows := map_err OutputError_message (json_parse encoded) in
  Ok (stringify_decimals b rows).

Fixpoint write_json_rows (rows : list Value) : Stream unit :=
  match rows with
  | [] => mret tt
  | row :: rows =>
      o ← get_state;
      _ ← (if bool_decide (so_format o = JsonFormat) && so_wrote_json_row o
           then emit "," else mret tt);
      _ ← emit_through (json_text row);
      _ ← (if bool_decide (so_format o = JsonLines) then emit newline else mret tt);
      _ ← modify set_wrote_json_row;
      write_json_rows rows
  end.

Definition write_json (b : TextBatch) : Stream unit :=
  rows ← of_result (json_rows b);
  write_json_rows rows.

(** The record header of a row of the vertical format. *)
Definition vertical_header (n : Z) : string :=
  "*************************** " +:+ pretty n +:+ ". row ***************************" +:+ newline.

Fixpoint write_fields (fields : list (string * Column)) (row : nat) : Stream unit :=
  match fields with
  | [] => mret tt
  | (name, c) :: fields =>
      o ← get_state;
      value ← of_result (render_value c row (so_options o));
      _ ← emit (name +:+ ": " +:+ value +:+ newline);
      write_fields fields row
  end.

Fixpoint write_vertical_rows (b : TextBatch) (rows : list nat) : Stream unit :=
  match rows with
  | [] => mret tt
  | row :: rows =>
      o ← get_state;
      _ ← emit (vertical_header (usize_add (usize_add (so_rows o) (Z.of_nat row)) 1));
      _ ← write_fields (zip (tb_fields b) (tb_columns b)) row;
      write_vertical_rows b rows
  end.

Definition write_vertical (b : TextBatch) : Stream unit :=
  write_vertical_rows b (seq 0 (tb_rows b)).

Definition write_batch (b : TextBatch) : Stream unit :=
  o ← get_state;
  _ ← match so_format o with
      | Table => text ← of_result (render_table b (so_options o)); emit text
      | Vertical => write_vertical b
      | Csv | Tsv => write_delimited b
      | JsonFormat | JsonLines => write_json b
      end;
  modify (count_batch (tb_rows b)).

(** [finish], which consumes the stream: the row count, and the sink. *)
Definition finish_output : Stream Z :=
  o ← get_state;
  _ ← (if bool_decide (so_format o = JsonFormat) then emit ("]" +:+ newline) else mret tt);
  _ ← on so_writer set_writer OutputError_from flush;
  mret (so_rows o).

(** The use of the stream by its callers: every batch in turn, then the end. *)
Fixpoint write_batches (bs : list TextBatch) : Stream unit :=
  match bs with
  | [] => mret tt
  | b :: bs => _ ← write_batch b; write_batches bs
  end.

Definition render_stream (w : W) (format : OutputFormat) (options : DisplayOptions)
    (bs : list TextBatch) : result (Z * W) OutputError :=
  let? o := StreamOutput_new w format options in
  match (_ ← write_batches bs; finish_output) o with
  | (Ok rows, o') => Ok (rows, so_writer o')
  | (Err e, _) => Err e
  end.
End Output.

(** [Vec<u8>] as a sink. *)
#[global] Instance Write_vec : Write string := {
  write_all text w := (Ok tt, w +:+ text);
  flush w := (Ok tt, w);
}.
