(* ===== verification/OutputFacts.v ===== *)
(** * What the renderer writes

    Decimals are printed exactly and rounded half to even; truncation keeps
    within its limit; tables are aligned; and the stream of any format is a
    function of the rows alone, however they are split into batches. *)
From S2P Require Import Prelude Text Chars Output.
From Stdlib Require Import Ascii.

(** ** Decimals *)

(** The reading of a decimal numeral: its digits as an integer, and how many
    of them follow the point. *)
Definition digit_of (c : ascii) : option N :=
  if is_ascii_digit c then Some (code c - 48)%N else None.

Fixpoint parse_digits (acc : N) (s : string) : option N :=
  match s with
  | EmptyString => Some acc
  | String c s => d ← digit_of c; parse_digits (10 * acc + d) s
  end.

Definition parse_decimal (s : string) : option (Z * nat) :=
  let '(sign, body) := match strip_prefix "-" s with
                       | Some rest => (-1, rest)
                       | None => (1, s)
                       end in
  match split_once "." body with
  | Some (whole, fraction) =>
      if is_empty whole || is_empty fraction then None
      else n ← parse_digits 0 (whole +:+ fraction);
           Some (sign * Z.of_N n, String.length fraction)
  | None =>
      if is_empty body then None
      else n ← parse_digits 0 body; Some (sign * Z.of_N n, 0%nat)
  end.

Definition all_digits (s : string) : bool := string_forallb is_ascii_digit s.

Lemma string_forallb_app p a b :
  string_forallb p (a +:+ b) = string_forallb p a && string_forallb p b.
Proof. induction a as [|c a IH]; [done|]. simpl. by rewrite IH, andb_assoc. Qed.

Lemma parse_digits_app acc a b :
  parse_digits acc (a +:+ b) = parse_digits acc a ≫= λ n, parse_digits n b.
Proof.
  revert acc. induction a as [|c a IH]; intros acc; [done|]. simpl.
  destruct (digit_of c); simpl; [apply IH|done].
Qed.

Lemma parse_digits_shift s : ∀ acc,
  parse_digits acc s
  = (λ n, acc * 10 ^ N.of_nat (String.length s) + n)%N <$> parse_digits 0 s.
Proof.
  induction s as [|c s IH]; intros acc; [simpl; f_equal; lia|].
  cbn [String.length parse_digits]. rewrite Nat2N.inj_succ, N.pow_succ_r'.
  destruct (digit_of c) as [d|]; [|done]. cbn [mbind option_bind].
  rewrite (IH (10 * acc + d)%N), (IH (10 * 0 + d)%N).
  destruct (parse_digits 0 s); cbn; [|done]. f_equal. lia.
Qed.

Lemma digit_of_pretty d : (d < 10)%N → digit_of (pretty_N_char d) = Some d.
Proof.
  intros Hd. assert (d ∈ N.of_nat <$> seq 0 10) as Hin.
  { apply list_elem_of_fmap. exists (N.to_nat d). split; [lia|]. apply elem_of_seq. lia. }
  revert Hin. simpl. rewrite !elem_of_cons, elem_of_nil. by intuition subst.
Qed.

Lemma digit_of_Some c d : digit_of c = Some d → is_ascii_digit c = true.
Proof. unfold digit_of. by destruct (is_ascii_digit c). Qed.

Lemma pretty_go_spec x : ∀ s n,
  all_digits s = true → parse_digits 0 s = Some n →
  all_digits (pretty_N_go x s) = true ∧
  parse_digits 0 (pretty_N_go x s) = Some (x * 10 ^ N.of_nat (String.length s) + n)%N ∧
  (String.length s ≤ String.length (pretty_N_go x s))%nat.
Proof.
  induction (N.lt_wf_0 x) as [x _ IH]. intros s n Hd Hs.
  destruct (decide (x = 0%N)) as [->|Hx]; [rewrite pretty_N_go_0, Hs; by rewrite N.mul_0_l|].
  rewrite pretty_N_go_step by lia.
  pose proof (N.mod_lt x 10 ltac:(done)) as Hm. pose proof (digit_of_pretty _ Hm) as Hc.
  destruct (IH (x / 10)%N ltac:(apply N.div_lt; lia)
    (String (pretty_N_char (x mod 10)) s)
    ((x mod 10) * 10 ^ N.of_nat (String.length s) + n)%N) as (Ha & Hv & Hl).
  - unfold all_digits. cbn [string_forallb]. by rewrite (digit_of_Some _ _ Hc).
  - cbn [parse_digits]. rewrite Hc. cbn [mbind option_bind].
    rewrite parse_digits_shift, Hs. cbn. by f_equal.
  - split; [done|]. simpl String.length in *. split; [|lia]. rewrite Hv. f_equal.
    rewrite Nat2N.inj_succ, N.pow_succ_r'. pose proof (N.div_mod x 10 ltac:(done)). nia.
Qed.

(** The printed form of a number: digits, at least one, with its value. *)
Lemma pretty_N_digits (n : N) :
  all_digits (pretty n) = true ∧ parse_digits 0 (pretty n) = Some n ∧ pretty n ≠ EmptyString.
Proof.
  unfold pretty, pretty_N. case_decide as Hn; [by subst|].
  destruct (pretty_go_spec n EmptyString 0%N eq_refl eq_refl) as (Ha & Hv & _).
  split; [done|]. rewrite Hv. split; [f_equal; simpl; lia|]. intros E.
  rewrite E in Hv. simpl in Hv. injection Hv. lia.
Qed.

Lemma repeat_zeros_digits k : all_digits (repeat_str "0" k) = true.
Proof. induction k as [|k IH]; [done|]. exact IH. Qed.

Lemma parse_zeros k s : parse_digits 0 (repeat_str "0" k +:+ s) = parse_digits 0 s.
Proof. induction k as [|k IH]; [done|]. exact IH. Qed.

Lemma repeat_zeros_length k : String.length (repeat_str "0" k) = k.
Proof. induction k as [|k IH]; [done|]. simpl. f_equal. exact IH. Qed.

(** Padding changes neither the digits nor the value. *)
Lemma pad_left_spec w s :
  all_digits s = true →
  all_digits (pad_left w s) = true ∧ parse_digits 0 (pad_left w s) = parse_digits 0 s ∧
  String.length (pad_left w s) = Nat.max w (String.length s).
Proof.
  intros Hs. unfold pad_left. split_and!.
  - unfold all_digits. rewrite string_forallb_app. fold all_digits.
    by rewrite repeat_zeros_digits.
  - apply parse_zeros.
  - rewrite string_length_app, repeat_zeros_length. lia.
Qed.

Lemma split_at_spec n s :
  (split_at n s).1 +:+ (split_at n s).2 = s ∧
  ((n ≤ String.length s)%nat → String.length (split_at n s).1 = n).
Proof.
  revert n. induction s as [|c s IH]; intros [|n]; simpl; [split; [done|lia]..|].
  destruct (IH n) as [Ha Hl]. destruct (split_at n s) as [a b]. simpl in *.
  split; [by rewrite Ha|]. intros. rewrite Hl; lia.
Qed.

Lemma no_point s :
  all_digits s = true → string_forallb (λ d, negb (Ascii.eqb "."%char d)) s = true.
Proof.
  induction s as [|c s IH]; [done|]. cbn [string_forallb].
  intros [Hc Hs]%andb_true_iff. rewrite IH by done.
  destruct (Ascii.eqb_spec "."%char c) as [<-|]; [by vm_compute in Hc|done].
Qed.

Lemma no_point_split s : all_digits s = true → split_once "." s = None.
Proof.
  induction s as [|c s IH]; [done|]. intros [Hc Hs]%andb_true_iff.
  cbn [split_once strip_prefix].
  destruct (Ascii.eqb_spec "."%char c) as [<-|]; [by vm_compute in Hc|]. by rewrite IH.
Qed.

Lemma strip_sign sign_ s :
  match s with String c _ => is_ascii_digit c = true | EmptyString => False end →
  (match strip_prefix "-" ((if sign_ : bool then "-" else "") +:+ s) with
   | Some rest => (-1, rest)
   | None => (1, (if sign_ then "-" else "") +:+ s)
   end) = (if sign_ then -1 else 1, s).
Proof.
  destruct s as [|c s]; [done|]. intros Hc. destruct sign_; [done|].
  cbn [strip_prefix String.append].
  destruct (Ascii.eqb_spec "-"%char c) as [<-|]; [by vm_compute in Hc|done].
Qed.

(** Decimals are printed exactly.  The text of a decimal with a
    non-negative scale reads back as its unscaled value with [scale] digits
    after the point: nothing is rounded, no leading digit is missing and the
    sign is kept. *)
Lemma exact_decimal_reads_back value scale :
  0 ≤ scale → parse_decimal (exact_decimal value scale) = Some (value, Z.to_nat scale).
Proof.
  intros Hs. unfold exact_decimal. rewrite Z.max_l by done. set (k := Z.to_nat scale).
  destruct (pretty_N_digits (Z.abs_N value)) as (Hd & Hv & Hne).
  destruct (pad_left_spec (S k) _ Hd) as (Hpd & Hpv & Hpl). rewrite Hv in Hpv.
  set (padded := pad_left (S k) (pretty (Z.abs_N value))) in *.
  destruct (split_at_spec (String.length padded - k) padded) as [Happ Hlen].
  destruct (split_at _ padded) as [whole fraction] eqn:Esplit. simpl in *.
  specialize (Hlen ltac:(lia)).
  assert (String.length fraction = k) as Hfrac.
  { apply (f_equal String.length) in Happ. rewrite string_length_app in Happ. lia. }
  assert (all_digits whole = true ∧ all_digits fraction = true) as [Hwd Hfd].
  { rewrite <- Happ in Hpd. unfold all_digits in Hpd. rewrite string_forallb_app in Hpd.
    by apply andb_true_iff in Hpd. }
  assert (match whole with String c _ => is_ascii_digit c = true | EmptyString => False end)
    as Hw.
  { destruct whole as [|c w]; [simpl in Hlen; lia|]. simpl in Hwd.
    by apply andb_true_iff in Hwd as [? _]. }
  assert ((if value <? 0 then -1 else 1) * Z.of_N (Z.abs_N value) = value) as Hval
    by (destruct (Z.ltb_spec value 0); lia).
  assert (is_empty whole = false) as Hwe by by destruct whole.
  unfold parse_decimal. destruct fraction as [|c f] eqn:Ef; simpl is_empty; cbv iota.
  - rewrite strip_sign by done. rewrite string_app_nil_r in Happ.
    rewrite no_point_split, Hwe, Happ, Hpv by done. simpl.
    rewrite Hval. simpl in Hfrac. by rewrite <- Hfrac.
  - rewrite strip_sign by (by destruct whole).
    rewrite (split_once_char "."%char) by by apply no_point.
    rewrite Hwe. simpl orb. cbv iota. rewrite Happ, Hpv. simpl mbind. rewrite Hval. do 2 f_equal. exact Hfrac.
Qed.

(** A decimal with a negative scale stands for a multiple of a power of ten;
    its text is the unscaled value. *)
Theorem negative_scale_is_ignored value scale :
  scale < 0 → exact_decimal value scale = exact_decimal value 0.
Proof. intros Hs. unfold exact_decimal. by rewrite !Z.max_r by lia. Qed.

(** *** Rounding *)

Lemma pow10_small n : 0 ≤ n ≤ 38 → u128_pow10 n = 10 ^ n ∧ 0 < 10 ^ n.
Proof.
  intros Hn. assert (0 < 10 ^ n) by (apply Z.pow_pos_nonneg; lia).
  assert (10 ^ n ≤ 10 ^ 38) by (apply Z.pow_le_mono_r; lia).
  split; [|done]. unfold u128_pow10. apply Z.mod_small. split; [lia|].
  eapply Z.le_lt_trans; [eassumption|]. reflexivity.
Qed.

Lemma pow10_even n : 0 < n → 10 ^ n = 2 * (10 ^ n / 2).
Proof.
  intros Hn. apply Z_div_exact_full_2; [lia|]. replace n with (Z.succ (n - 1)) by lia.
  rewrite Z.pow_succ_r by lia. replace (10 * 10 ^ (n - 1)) with ((5 * 10 ^ (n - 1)) * 2) by ring.
  by apply Z.mod_mul.
Qed.

(** The integer nearest to [a / unit], ties to even. *)
Definition half_even (a unit : Z) : Z :=
  let q := a / unit in let r := a mod unit in
  if (unit / 2 <? r) || ((r =? unit / 2) && (q mod 2 =? 1)) then q + 1 else q.

Lemma half_even_spec a unit :
  0 ≤ a → 0 < unit → unit = 2 * (unit / 2) →
  let q := half_even a unit in
  0 ≤ q ∧ q ≤ a ∧ 2 * Z.abs (a - q * unit) ≤ unit ∧
  (2 * Z.abs (a - q * unit) = unit → Z.even q = true).
Proof.
  intros Ha Hu Hh q. unfold q, half_even.
  pose proof (Z.div_mod a unit ltac:(lia)) as Hdm.
  pose proof (Z.mod_pos_bound a unit Hu) as Hr.
  assert (0 ≤ a / unit) by (apply Z.div_pos; lia).
  set (d := a / unit) in *. set (r := a mod unit) in *. set (h := unit / 2) in *.
  pose proof (Z.mod_pos_bound d 2 ltac:(lia)). pose proof (Zeven_mod d) as He.
  assert (Z.even (d + 1) = negb (Z.even d)) as Hev
    by by rewrite Z.add_1_r, Z.even_succ, <- Z.negb_even.
  destruct (Z.ltb_spec h r); simpl.
  - split_and!; [lia|nia|nia|nia].
  - destruct (Z.eqb_spec r h); simpl.
    + destruct (Z.eqb_spec (d mod 2) 1) as [Ho|Ho].
      * split_and!; [lia|nia|nia|]. intros _. rewrite Hev, He. rewrite Ho. done.
      * split_and!; [lia|nia|nia|]. intros _. rewrite He. apply Z.eqb_eq. lia.
    + split_and!; [lia|nia|nia|nia].
Qed.

(** Displayed decimals are rounded half to even.  With fewer decimal places
    than the value has, the text shown is exactly that of the nearest value
    with those places, the even one when two are equally near. *)
Theorem decimal_rounds_half_even value scale places :
  0 ≤ scale ≤ 38 → 0 ≤ places → Z.abs value < 2 ^ 127 →
  let shown := Z.min scale places in
  let unit := 10 ^ (scale - shown) in
  ∃ r, decimal value scale places = Some (exact_decimal r shown) ∧
    2 * Z.abs (value - r * unit) ≤ unit ∧
    (2 * Z.abs (value - r * unit) = unit → Z.even r = true).
Proof.
  intros Hs Hp Hv shown unit. unfold decimal. rewrite (Z.max_l scale) by lia. fold shown.
  destruct (pow10_small (scale - shown)) as [Hf Hpos]; [unfold shown; lia|].
  rewrite Hf. fold unit. fold unit in Hpos.
  destruct (Z.ltb_spec 0 (scale - shown)) as [Hr|Hr].
  - change (if true && _ then _ else _) with (half_even (Z.abs value) unit).
    destruct (half_even_spec (Z.abs value) unit) as (H0 & Hle & Hnear & Heven);
      [lia|done|by apply pow10_even|].
    set (q := half_even (Z.abs value) unit) in *. rewrite (proj2 (Z.ltb_lt q _)) by lia.
    rewrite (proj2 (Z.ltb_lt shown 128)) by (unfold shown; lia).
    exists (if value <? 0 then - q else q). split; [done|].
    destruct (Z.ltb_spec value 0).
    + replace (value - - q * unit) with (- (Z.abs value - q * unit)) by lia.
      rewrite Z.abs_opp, Z.even_opp. done.
    + replace (value - q * unit) with (Z.abs value - q * unit) by lia. done.
  - assert (unit = 1) as Hu by (unfold unit; by replace (scale - shown) with 0 by (unfold shown in *; lia)).
    simpl. rewrite Hu, Z.div_1_r. rewrite (proj2 (Z.ltb_lt (Z.abs value) _)) by lia.
    rewrite (proj2 (Z.ltb_lt shown 128)) by (unfold shown; lia).
    exists value. split; [|split; [lia|lia]]. do 2 f_equal. destruct (Z.ltb_spec value 0); lia.
Qed.

(** ** Truncation *)

Lemma is_char_ellipsis : is_char ellipsis.
Proof. by vm_compute. Qed.

(** A string is cut to the limit, in characters, and unchanged when it fits. *)
Lemma truncate_spec value maximum :
  at_boundary value = true → 0 ≤ maximum →
  Z.of_nat (char_count (truncate value maximum)) ≤ maximum ∧
  (Z.of_nat (char_count value) ≤ maximum → truncate value maximum = value) ∧
  at_boundary (truncate value maximum) = true.
Proof.
  intros Hb H0. unfold truncate. destruct (Z.leb_spec (Z.of_nat (char_count value)) maximum).
  { done. }
  destruct (Z.eqb_spec maximum 0) as [->|Hne]; [split_and!; [done|intros; exfalso; lia|done]|].
  assert (Forall is_char (take (Z.to_nat (maximum - 1)) (chars value) ++ [ellipsis])) as Hc.
  { apply Forall_app. split; [by apply Forall_take, chars_is_char|].
    constructor; [apply is_char_ellipsis|constructor]. }
  split_and!; [|intros; exfalso; lia|by apply at_boundary_unchars].
  unfold char_count. rewrite chars_unchars by done. rewrite length_app, length_take. simpl. lia.
Qed.

(** ** Tables *)

(** Characters of a sequence of pieces with a separator between them. *)
Definition joined_width (widths : list nat) : nat := (sum_list widths + pred (length widths))%nat.

Lemma at_boundary_join sep l :
  at_boundary sep = true → Forall (λ p, at_boundary p = true) l → at_boundary (join sep l) = true.
Proof.
  intros Hs. induction 1 as [|p l Hp Hl IH]; [done|]. destruct l as [|q l]; [done|].
  change (join sep (p :: q :: l)) with (p +:+ sep +:+ join sep (q :: l)).
  by repeat apply at_boundary_app.
Qed.

Lemma char_count_join sep l :
  at_boundary sep = true → char_count sep = 1%nat → Forall (λ p, at_boundary p = true) l →
  char_count (join sep l) = joined_width (char_count <$> l).
Proof.
  intros Hs H1. unfold joined_width. induction 1 as [|p l Hp Hl IH]; [done|].
  destruct l as [|q l]; [simpl; lia|].
  change (join sep (p :: q :: l)) with (p +:+ sep +:+ join sep (q :: l)).
  assert (at_boundary (join sep (q :: l)) = true) by by apply at_boundary_join.
  rewrite !char_count_app, IH, H1 by (try done; by apply at_boundary_app). simpl. lia.
Qed.

Lemma box_char n : (n < 128)%N → at_boundary (box n) = true ∧ char_count (box n) = 1%nat.
Proof.
  intros Hn.
  assert (forallb (λ k, at_boundary (box (N.of_nat k))
    && Nat.eqb (char_count (box (N.of_nat k))) 1) (seq 0 128) = true) as Hall
    by (vm_compute; reflexivity).
  rewrite forallb_forall in Hall. specialize (Hall (N.to_nat n)). rewrite N2Nat.id in Hall.
  assert (In (N.to_nat n) (seq 0 128)) as Hin by (apply in_seq; lia).
  by apply Hall, andb_true_iff in Hin as [? ?%Nat.eqb_eq].
Qed.

Lemma is_char_horizontal : is_char horizontal.
Proof. by vm_compute. Qed.

(** The characters of a line over columns of these widths, its end included. *)
Definition line_width (widths : list nat) : nat :=
  (joined_width ((λ w, w + 2) <$> widths) + 3)%nat.

Lemma border_width widths a b c :
  (a < 128)%N → (b < 128)%N → (c < 128)%N →
  char_count (border widths (box a) (box b) (box c)) = line_width widths.
Proof.
  intros [Ha Ha1]%box_char [Hb Hb1]%box_char [Hc Hc1]%box_char. unfold border.
  assert (Forall (λ p, at_boundary p = true)
    ((λ w, repeat_str horizontal (w + 2)) <$> widths)) as Hall.
  { apply Forall_fmap, Forall_true. intros w. by apply at_boundary_repeat, is_char_horizontal. }
  rewrite !char_count_app by (repeat apply at_boundary_app; auto using at_boundary_join).
  rewrite char_count_join, Ha1, Hc1 by done. change (char_count newline) with 1%nat.
  unfold line_width. rewrite <- list_fmap_compose.
  assert ((char_count ∘ λ w, repeat_str horizontal (w + 2)) <$> widths
    = (λ w, (w + 2)%nat) <$> widths) as ->; [|lia].
  apply list_fmap_ext. intros i w _. apply char_count_repeat, is_char_horizontal.
Qed.

Lemma is_char_space : is_char " ".
Proof. by vm_compute. Qed.

Lemma cell_width value width :
  at_boundary value = true → (char_count value ≤ width)%nat →
  char_count (cell_text value width) = (width + 2)%nat ∧ at_boundary (cell_text value width) = true.
Proof.
  intros Hv Hw. unfold cell_text.
  assert (at_boundary (repeat_str " " (width - char_count value)) = true)
    by by apply at_boundary_repeat, is_char_space.
  split; [|done]. rewrite !char_count_app by (try done; repeat apply at_boundary_app; done).
  rewrite char_count_repeat by apply is_char_space. change (char_count " ") with 1%nat. lia.
Qed.

Lemma format_row_width values widths :
  Forall2 (λ v w, at_boundary v = true ∧ (char_count v ≤ w)%nat) values widths →
  char_count (format_row values widths) = line_width widths.
Proof.
  intros Hall. unfold format_row. destruct (box_char 2 ltac:(done)) as [Hb Hb1].
  fold vertical_bar in Hb, Hb1.
  assert (Forall (λ p, at_boundary p = true) (zip_with cell_text values widths) ∧
    char_count <$> zip_with cell_text values widths = (λ w, (w + 2)%nat) <$> widths) as [Hz Hc].
  { induction Hall as [|v w values widths [Hv Hw] _ [IH1 IH2]]; [by split|].
    destruct (cell_width v w Hv Hw) as [Hcw Hcb]. cbn [zip_with]. split; [by constructor|].
    rewrite !fmap_cons, IH2. by rewrite Hcw. }
  rewrite !char_count_app by (repeat apply at_boundary_app; auto using at_boundary_join).
  rewrite char_count_join, Hb1, Hc by done. change (char_count newline) with 1%nat.
  unfold line_width. lia.
Qed.

Lemma column_width_row headers rows row i v :
  row ∈ rows → row !! i = Some v → (char_count v ≤ column_width headers rows i)%nat.
Proof.
  intros Hin Hv. unfold column_width. apply Nat.max_le_iff. left.
  induction Hin as [r rows|r r' rows _ IH]; simpl.
  - rewrite Hv. simpl. lia.
  - etrans; [by apply IH|]. lia.
Qed.

Lemma column_width_header headers rows i v :
  headers !! i = Some v → (char_count v ≤ column_width headers rows i)%nat.
Proof. intros Hv. unfold column_width. rewrite Hv. simpl. lia. Qed.

(** Values that fit their columns. *)
Lemma fits_columns values headers rows :
  length values = length headers → Forall (λ v, at_boundary v = true) values →
  (∀ i v, values !! i = Some v → (char_count v ≤ column_width headers rows i)%nat) →
  Forall2 (λ v w, at_boundary v = true ∧ (char_count v ≤ w)%nat) values
    (column_widths headers rows).
Proof.
  intros Hl Hb Hw. apply Forall2_same_length_lookup_2.
  { unfold column_widths. by rewrite length_fmap, length_seq. }
  intros i v w Hv Hi. unfold column_widths in Hi.
  apply list_lookup_fmap_Some in Hi as (k & -> & Hk). apply lookup_seq in Hk as [-> Hlt].
  split; [exact (proj1 (Forall_lookup _ _) Hb _ _ Hv)|]. by apply Hw.
Qed.

(** Tables are aligned.  Every line of a rendered table, the borders, the
    header and each row, has the same number of characters. *)
Theorem table_lines_are_aligned headers rows :
  Forall (λ h, at_boundary h = true) headers →
  Forall (λ row, length row = length headers ∧ Forall (λ v, at_boundary v = true) row) rows →
  Forall (λ line, char_count line = line_width (column_widths headers rows))
    (table_lines headers rows).
Proof.
  intros Hh Hr. unfold table_lines. repeat (apply Forall_app; split).
  - constructor; [by apply border_width|].
    constructor; [|constructor; [by apply border_width|constructor]].
    apply format_row_width, fits_columns; [done..|]. intros i v. apply column_width_header.
  - apply Forall_fmap, Forall_forall. intros row Hin.
    destruct (proj1 (Forall_forall _ _) Hr row Hin) as [Hl Hb].
    apply format_row_width, fits_columns; [done..|]. intros i v Hv. by eapply column_width_row.
  - constructor; [by apply border_width|constructor].
Qed.

(** ** Streams *)

Section Streams.
Context {Any : Type} (format_any : Any → result string string).
Abbreviation TextBatch := (TextBatch (Any:=Any)).
Context (csv_text : bool → ascii → TextBatch → result string string).
Context (json_encode : TextBatch → result string string).
Context (json_parse : string → result (list Value) string).
Context (json_text : Value → string).

Abbreviation StreamOutput := (StreamOutput (W:=string)).
Abbreviation json_rows := (json_rows json_encode json_parse).
Abbreviation write_batch := (write_batch format_any csv_text json_encode json_parse json_text).
Abbreviation write_batches :=
  (write_batches format_any csv_text json_encode json_parse json_text).
Abbreviation render_stream :=
  (render_stream format_any csv_text json_encode json_parse json_text).

(** What a JSON document of these rows looks like up to its end. *)
Definition json_body (format : OutputFormat) (rows : list Value) : string :=
  match format with
  | JsonFormat => "[" +:+ join "," (json_text <$> rows)
  | _ => unchars ((λ row, json_text row +:+ newline) <$> rows)
  end.
Definition json_document (format : OutputFormat) (rows : list Value) : string :=
  match format with
  | JsonFormat => json_body format rows +:+ "]" +:+ newline
  | _ => json_body format rows
  end.

Lemma join_snoc sep l x :
  join sep (l ++ [x]) = if decide (l = []) then x else join sep l +:+ sep +:+ x.
Proof.
  induction l as [|a l IH]; [done|]. destruct l as [|b l]; [done|].
  change (join sep ((a :: b :: l) ++ [x])) with (a +:+ sep +:+ join sep ((b :: l) ++ [x])).
  rewrite IH, !decide_False by done.
  change (join sep (a :: b :: l)) with (a +:+ sep +:+ join sep (b :: l)).
  by rewrite !string_app_assoc.
Qed.

Definition wrote (rows : list Value) : bool := match rows with [] => false | _ => true end.

Lemma json_body_snoc format rows row :
  format = JsonFormat ∨ format = JsonLines →
  json_body format (rows ++ [row])
  = json_body format rows
    +:+ (if bool_decide (format = JsonFormat) && wrote rows then "," else "")
    +:+ json_text row +:+ (if bool_decide (format = JsonLines) then newline else "").
Proof.
  intros [-> | ->]; simpl.
  - rewrite fmap_app. simpl. rewrite join_snoc, string_app_nil_r.
    destruct rows as [|r rows]; [done|]. rewrite decide_False by done. simpl.
    by rewrite ?string_app_assoc.
  - rewrite fmap_app, unchars_app. simpl. by rewrite string_app_nil_r.
Qed.

(** A stream in which these JSON rows have been written after [w]. *)
Definition json_at (w : string) (rows : list Value) (o : StreamOutput) : Prop :=
  (so_format o = JsonFormat ∨ so_format o = JsonLines) ∧
  so_writer o = w +:+ json_body (so_format o) rows ∧ so_wrote_json_row o = wrote rows.

Lemma write_json_rows_spec w rows : ∀ done_ o,
  json_at w done_ o →
  ∃ o', write_json_rows json_text rows o = (Ok tt, o') ∧ json_at w (done_ ++ rows) o' ∧
    so_format o' = so_format o ∧ so_options o' = so_options o ∧ so_rows o' = so_rows o.
Proof.
  induction rows as [|row rows IH]; intros done_ o Ho; [exists o; by rewrite app_nil_r|].
  destruct Ho as (Hf & Hw & Hr). cbn [write_json_rows].
  set (o1 := set_wrote_json_row (set_writer (so_writer o
    +:+ (if bool_decide (so_format o = JsonFormat) && so_wrote_json_row o then "," else "")
    +:+ json_text row +:+ (if bool_decide (so_format o = JsonLines) then newline else "")) o)).
  assert (json_at w (done_ ++ [row]) o1) as H1.
  { split; [done|]. split; [|by destruct done_]. simpl.
    rewrite json_body_snoc, Hw, Hr, string_app_assoc by done. done. }
  destruct (IH _ o1 H1) as (o' & E & Hj & Hrest). exists o'. rewrite <- app_assoc in Hj.
  split; [|by split]. rewrite <- E. unfold emit, emit_through. unfold_M. simpl.
  destruct (bool_decide (so_format o = JsonFormat) && so_wrote_json_row o);
    destruct (bool_decide (so_format o = JsonLines)); simpl; unfold o1;
    by rewrite ?string_app_nil_r, ?string_app_assoc.
Qed.

(** The number of rows of some batches. *)
Definition total_rows (bs : list TextBatch) : Z :=
  foldr (λ b n, Z.of_nat (tb_rows b) + n) 0 bs.

Lemma total_rows_nonneg bs : 0 ≤ total_rows bs.
Proof. induction bs as [|b bs IH]; simpl; lia. Qed.

Lemma write_batches_cons b bs (o : StreamOutput) :
  write_batches (b :: bs) o
  = match write_batch b o with
    | (Ok _, o1) => write_batches bs o1
    | (Err e, o1) => (Err e, o1)
    end.
Proof. reflexivity. Qed.

Lemma write_batch_json b (o : StreamOutput) :
  so_format o = JsonFormat ∨ so_format o = JsonLines →
  write_batch b o
  = match json_rows b with
    | Ok rows =>
        match write_json_rows json_text rows o with
        | (Ok _, o1) => (Ok tt, count_batch (tb_rows b) o1)
        | (Err e, o1) => (Err e, o1)
        end
    | Err e => (Err e, o)
    end.
Proof.
  intros Hf. unfold Output.write_batch, write_json. unfold_M.
  destruct Hf as [-> | ->]; by destruct (json_rows b).
Qed.

Lemma write_batch_vertical b (o : StreamOutput) :
  so_format o = Vertical →
  write_batch b o
  = match write_vertical_rows format_any b (seq 0 (tb_rows b)) o with
    | (Ok _, o1) => (Ok tt, count_batch (tb_rows b) o1)
    | (Err e, o1) => (Err e, o1)
    end.
Proof. intros Hf. unfold Output.write_batch, write_vertical. unfold_M. by rewrite Hf. Qed.

Lemma write_json_batches w bs : ∀ done_ o,
  json_at w done_ o → 0 ≤ so_rows o → so_rows o + total_rows bs ≤ usize_max →
  match try_map json_rows bs with
  | Ok rowss => ∃ o', write_batches bs o = (Ok tt, o') ∧ json_at w (done_ ++ concat rowss) o' ∧
      so_format o' = so_format o ∧ so_rows o' = so_rows o + total_rows bs
  | Err e => (write_batches bs o).1 = Err e
  end.
Proof.
  induction bs as [|b bs IH]; intros done_ o Ho H0 Hmax.
  { exists o. simpl. rewrite app_nil_r. split_and!; [done..|lia]. }
  cbn [try_map total_rows foldr] in *. fold (total_rows bs) in *.
  pose proof (total_rows_nonneg bs). rewrite write_batches_cons.
  rewrite write_batch_json by apply Ho. destruct (json_rows b) as [rows|e]; simpl; [|done].
  destruct (write_json_rows_spec w rows done_ o Ho) as (o1 & -> & Hj & Hf & Hopt & Hr). simpl.
  specialize (IH (done_ ++ rows) (count_batch (tb_rows b) o1)).
  assert (so_rows (count_batch (tb_rows b) o1) = so_rows o + Z.of_nat (tb_rows b)) as Hcount.
  { simpl. rewrite Hr, usize_add_small; lia. }
  rewrite Hcount in IH. specialize (IH Hj ltac:(lia) ltac:(lia)).
  destruct (try_map json_rows bs) as [rowss|e]; simpl; [|done].
  destruct IH as (o' & E & Hj' & Hf' & Hr'). exists o'. simpl in Hf'.
  split_and!; [done| |congruence|lia]. by rewrite <- app_assoc in Hj'.
Qed.

(** *** Vertical records *)

(** The rendered fields of a row, and of all rows of a batch. *)
Definition row_entries (options : DisplayOptions) (b : TextBatch) (row : nat) :
    result (list (string * string)) OutputError :=
  try_map (λ fc, let? v := render_value format_any fc.2 row options in Ok (fc.1, v))
    (zip (tb_fields b) (tb_columns b)).
Definition batch_entries (options : DisplayOptions) (b : TextBatch) :
    result (list (list (string * string))) OutputError :=
  try_map (row_entries options b) (seq 0 (tb_rows b)).

#[local] Opaque vertical_header.
Definition record_text (n : Z) (entries : list (string * string)) : string :=
  vertical_header n +:+ unchars ((λ nv, nv.1 +:+ ": " +:+ nv.2 +:+ newline) <$> entries).
Fixpoint records_text (n : Z) (records : list (list (string * string))) : string :=
  match records with
  | [] => EmptyString
  | r :: records => record_text n r +:+ records_text (n + 1) records
  end.

Lemma records_text_app n a b :
  records_text n (a ++ b) = records_text n a +:+ records_text (n + Z.of_nat (length a)) b.
Proof.
  revert n. induction a as [|r a IH]; intros n.
  { simpl. by rewrite Z.add_0_r. }
  cbn [records_text app length]. rewrite IH, string_app_assoc. replace (n + 1 + Z.of_nat (length a)) with
    (n + Z.of_nat (S (length a))) by lia. reflexivity.
Qed.

(** Writing [t] and nothing else. *)
Definition printed (t : string) (o : StreamOutput) : StreamOutput :=
  set_writer (so_writer o +:+ t) o.

Lemma printed_twice t u o : printed u (printed t o) = printed (t +:+ u) o.
Proof. unfold printed. simpl. by rewrite string_app_assoc. Qed.

Lemma write_fields_spec fields row o :
  match try_map (λ fc, let? v := render_value format_any fc.2 row (so_options o) in
                       Ok (fc.1, v)) fields with
  | Ok es => write_fields format_any fields row o
             = (Ok tt, printed (unchars ((λ nv, nv.1 +:+ ": " +:+ nv.2 +:+ newline) <$> es)) o)
  | Err e => (write_fields format_any fields row o).1 = Err e
  end.
Proof.
  revert o. induction fields as [|[name c] fields IH]; intros o.
  { simpl. unfold_M. unfold printed. rewrite string_app_nil_r. by destruct o. }
  cbn [try_map write_fields fst snd]. unfold_M. unfold emit. unfold_M.
  destruct (render_value format_any c row (so_options o)) as [v|e]; simpl; [|done].
  specialize (IH (printed (name +:+ ": " +:+ v +:+ newline) o)). simpl in IH.
  destruct (try_map _ fields) as [es|e]; simpl; [|done].
  etrans; [exact IH|]. rewrite printed_twice. done.
Qed.

Lemma write_vertical_rows_cons b row rows (o : StreamOutput) :
  write_vertical_rows format_any b (row :: rows) o
  = match write_fields format_any (zip (tb_fields b) (tb_columns b)) row
      (printed (vertical_header (usize_add (usize_add (so_rows o) (Z.of_nat row)) 1)) o) with
    | (Ok _, o1) => write_vertical_rows format_any b rows o1
    | (Err e, o1) => (Err e, o1)
    end.
Proof. reflexivity. Qed.

Lemma write_vertical_rows_spec b rows o k :
  rows = seq k (length rows) → 0 ≤ so_rows o →
  so_rows o + Z.of_nat (k + length rows) ≤ usize_max - 1 →
  match try_map (row_entries (so_options o) b) rows with
  | Ok es => write_vertical_rows format_any b rows o
             = (Ok tt, printed (records_text (so_rows o + Z.of_nat k + 1) es) o)
  | Err e => (write_vertical_rows format_any b rows o).1 = Err e
  end.
Proof.
  revert o k. induction rows as [|row rows IH]; intros o k Hseq H0 Hmax.
  { simpl. unfold_M. unfold printed. rewrite string_app_nil_r. by destruct o. }
  simpl in Hseq. injection Hseq as -> Hrows. cbn [try_map length] in *.
  rewrite write_vertical_rows_cons.
  rewrite (usize_add_small (so_rows o)) by (unfold usize_max in *; lia).
  rewrite usize_add_small by (unfold usize_max in *; lia).
  set (o1 := printed (vertical_header (so_rows o + Z.of_nat k + 1)) o).
  pose proof (write_fields_spec (zip (tb_fields b) (tb_columns b)) k o1) as Hf.
  change (so_options o1) with (so_options o) in Hf. fold (row_entries (so_options o) b k) in Hf.
  destruct (row_entries (so_options o) b k) as [es|e]; simpl.
  2:{ destruct (write_fields _ _ _ o1) as [r o2]. simpl in Hf. by subst r. }
  rewrite Hf. specialize (IH (printed (unchars ((λ nv, nv.1 +:+ ": " +:+ nv.2 +:+ newline)
    <$> es)) o1) (S k) Hrows). simpl in IH. specialize (IH H0 ltac:(lia)).
  destruct (try_map (row_entries (so_options o) b) rows) as [ess|e]; simpl; [|done].
  rewrite IH. f_equal. unfold o1. rewrite !printed_twice. f_equal. unfold record_text.
  rewrite !string_app_assoc. do 3 f_equal. lia.
Qed.

Lemma try_map_length {A B E} (f : A → result B E) l l' :
  try_map f l = Ok l' → length l' = length l.
Proof.
  revert l'. induction l as [|a l IH]; intros l'; simpl; [by intros [= <-]|].
  destruct (f a); [|done]. simpl. destruct (try_map f l); [|done]. simpl. intros [= <-].
  simpl. f_equal. by apply IH.
Qed.

Lemma write_vertical_batches bs : ∀ o,
  so_format o = Vertical → 0 ≤ so_rows o → so_rows o + total_rows bs ≤ usize_max - 1 →
  match try_map (batch_entries (so_options o)) bs with
  | Ok ess => ∃ o', write_batches bs o = (Ok tt, o') ∧ so_format o' = Vertical ∧
      so_writer o' = so_writer o +:+ records_text (so_rows o + 1) (concat ess) ∧
      so_rows o' = so_rows o + total_rows bs
  | Err e => (write_batches bs o).1 = Err e
  end.
Proof.
  induction bs as [|b bs IH]; intros o Hf H0 Hmax.
  { exists o. simpl. rewrite string_app_nil_r. split_and!; [done..|lia]. }
  cbn [try_map total_rows foldr] in *. fold (total_rows bs) in *.
  pose proof (total_rows_nonneg bs). rewrite write_batches_cons, write_batch_vertical by done.
  pose proof (write_vertical_rows_spec b (seq 0 (tb_rows b)) o 0) as Hv.
  rewrite length_seq in Hv. specialize (Hv eq_refl H0 ltac:(lia)).
  fold (batch_entries (so_options o) b) in Hv. rewrite Z.add_0_r in Hv.
  destruct (batch_entries (so_options o) b) as [es|e] eqn:Ees; simpl.
  2:{ destruct (write_vertical_rows _ b _ o) as [r o1]. simpl in Hv. by subst r. }
  rewrite Hv. unfold modify. simpl.
  set (o1 := count_batch (tb_rows b) (printed (records_text (so_rows o + 1) es) o)).
  assert (so_rows o1 = so_rows o + Z.of_nat (tb_rows b)) as Hcount.
  { simpl. rewrite usize_add_small; lia. }
  specialize (IH o1 Hf). rewrite Hcount in IH. specialize (IH ltac:(lia) ltac:(lia)).
  change (so_options o1) with (so_options o) in IH.
  destruct (try_map (batch_entries (so_options o)) bs) as [ess|e]; simpl; [|done].
  destruct IH as (o' & E & Hf' & Hw & Hr). exists o'. split_and!; [done..| |lia].
  rewrite Hw. simpl. rewrite records_text_app, string_app_assoc. do 3 f_equal.
  apply try_map_length in Ees. rewrite length_seq in Ees. lia.
Qed.

(** The whole of a stream, as a function of its rows. *)
Definition stream_document (format : OutputFormat) (options : DisplayOptions)
    (bs : list TextBatch) : result string OutputError :=
  match format with
  | Vertical =>
      let? ess := try_map (batch_entries options) bs in Ok (records_text 1 (concat ess))
  | _ => let? rowss := try_map json_rows bs in Ok (json_document format (concat rowss))
  end.

(** Streams depend on the rows alone.  Written batch by batch, a result in
    the JSON, JSON-lines or vertical format is the document of the rows of all
    batches together: one array, one line or one numbered record per row,
    wherever the batches are cut, with the number of rows as the count, and the
    first error of the rows when one cannot be rendered. *)
Theorem streams_depend_on_rows_only format options bs :
  format = JsonFormat ∨ format = JsonLines ∨ format = Vertical →
  total_rows bs ≤ usize_max - 1 →
  render_stream EmptyString format options bs
  = let? text := stream_document format options bs in Ok (total_rows bs, text).
Proof.
  intros Hformat Hmax. unfold Output.render_stream, stream_document.
  assert (∀ start, json_at EmptyString [] start → so_format start = format → so_rows start = 0 →
    format = JsonFormat ∨ format = JsonLines →
    match (_ ← write_batches bs; finish_output) start with
    | (Ok rows, o') => Ok (rows, so_writer o')
    | (Err e, _) => Err e
    end = let? text := (let? rowss := try_map json_rows bs in
                        Ok (json_document format (concat rowss))) in
          Ok (total_rows bs, text)) as Hjson.
  { intros start Hj Hf H0 Hfmt. unfold mbind at 1, M_bind at 1.
    pose proof (write_json_batches EmptyString bs [] start Hj ltac:(lia)
      ltac:(unfold usize_max in *; lia)) as Hb.
    destruct (try_map json_rows bs) as [rowss|e]; simpl.
    2:{ destruct (write_batches bs start) as [r o1]. simpl in Hb. by subst r. }
    destruct Hb as (o1 & -> & (_ & Hw & _) & Hf1 & Hr1). rewrite H0 in Hr1. simpl in Hw, Hr1.
    unfold finish_output, emit. unfold_M. rewrite Hf1, Hf in *.
    destruct Hfmt as [-> | ->]; simpl in *; by rewrite Hr1, Hw. }
  destruct Hformat as [-> | [-> | ->]].
  - unfold StreamOutput_new, emit. unfold_M. simpl. apply Hjson; [|done..|by left].
    split; [by left|done].
  - unfold StreamOutput_new. simpl. apply Hjson; [|done..|by right]. split; [by right|done].
  - unfold StreamOutput_new. simpl. unfold mbind at 1, M_bind at 1.
    pose proof (write_vertical_batches bs (StreamOutput_start EmptyString Vertical options)
      eq_refl ltac:(done) Hmax) as Hv. simpl in Hv.
    destruct (try_map (batch_entries options) bs) as [ess|e]; simpl.
    2:{ destruct (write_batches bs _) as [r o1]. simpl in Hv. by subst r. }
    destruct Hv as (o1 & -> & Hf1 & Hw & Hr). unfold finish_output. unfold_M. rewrite Hf1. simpl.
    by rewrite Hr, Hw.
Qed.
End Streams.

(** ** Decimals in JSON *)

Section JsonDecimals.
Context {Any : Type}.

Lemma field_set_field name name' v fields :
  field name' (set_field name v fields)
  = if String.eqb name name' then Some v else field name' fields.
Proof.
  induction fields as [|[k w] fields IH]; simpl; [done|].
  destruct (String.eqb_spec k name) as [->|Hk]; simpl.
  - by destruct (String.eqb name name').
  - destruct (String.eqb_spec k name') as [->|]; [|exact IH].
    destruct (String.eqb_spec name name'); [congruence|done].
Qed.

(** What one column leaves of a row: the field of its name is the exact text
    of a decimal, and every other field is as it was. *)
Definition decimal_text (c : Column (Any:=Any)) (i : nat) : option Value :=
  match c with
  | DecimalColumn scale values =>
      match values !! i with
      | Some (Some v) => Some (VString (exact_decimal v scale))
      | _ => None
      end
  | _ => None
  end.
Definition row_field (columns : list (string * Column (Any:=Any))) (i : nat)
    (fields : list (string * Value)) (name : string) : option Value :=
  foldl (λ v fc, if String.eqb fc.1 name
                 then match decimal_text fc.2 i with Some t => Some t | None => v end
                 else v) (field name fields) columns.

Definition stringify_step (rows : list Value) (fc : string * Column (Any:=Any)) : list Value :=
  match fc.2 with
  | DecimalColumn scale values => stringify_column fc.1 scale values rows
  | _ => rows
  end.

Lemma stringify_step_lookup rows fc i fields :
  rows !! i = Some (Object fields) →
  ∃ fields', stringify_step rows fc !! i = Some (Object fields') ∧
    ∀ name, field name fields'
            = if String.eqb fc.1 name
              then match decimal_text fc.2 i with Some t => Some t | None => field name fields end
              else field name fields.
Proof.
  intros Hi. destruct fc as [name [?|?|scale values|?]]; simpl.
  1,2,4: exists fields; split; [done|]; intros; by destruct (String.eqb _ _).
  unfold stringify_step, stringify_column. simpl. rewrite list_lookup_imap, Hi. simpl.
  destruct (values !! i) as [[v|]|].
  - eexists. split; [done|]. intros name'. apply field_set_field.
  - exists fields. split; [done|]. intros; by destruct (String.eqb _ _).
  - exists fields. split; [done|]. intros; by destruct (String.eqb _ _).
Qed.

Lemma stringify_columns columns i : ∀ rows fields,
  rows !! i = Some (Object fields) →
  ∃ fields', foldl stringify_step rows columns !! i = Some (Object fields') ∧
    ∀ name, field name fields' = row_field columns i fields name.
Proof.
  induction columns as [|fc columns IH]; intros rows fields Hi; [by exists fields|].
  destruct (stringify_step_lookup rows fc i fields Hi) as (f1 & H1 & Hf1).
  destruct (IH _ _ H1) as (f2 & H2 & Hf2). exists f2. split; [done|].
  intros name. rewrite Hf2. unfold row_field. simpl. by rewrite Hf1.
Qed.

(** Only the column of that name changes a field, when names are distinct. *)
Lemma row_field_fold columns i name : ∀ v0,
  name ∉ columns.*1 →
  foldl (λ v fc, if String.eqb fc.1 name
                 then match decimal_text fc.2 i with Some t => Some t | None => v end
                 else v) v0 columns = v0.
Proof.
  induction columns as [|fc columns IH]; intros v0 Hn; [done|]. simpl in *.
  apply not_elem_of_cons in Hn as [Hne Hn].
  rewrite (proj2 (String.eqb_neq fc.1 name)) by congruence. by apply IH.
Qed.

Lemma row_field_distinct columns i fields name c j :
  NoDup columns.*1 → columns !! j = Some (name, c) →
  row_field columns i fields name
  = match decimal_text c i with Some t => Some t | None => field name fields end.
Proof.
  intros Hnd Hj. unfold row_field. generalize (field name fields) as v0. revert j Hj Hnd.
  induction columns as [|fc columns IH]; intros j Hj Hnd v0; [done|]. simpl in *.
  apply NoDup_cons in Hnd as [Hn Hnd]. destruct j as [|j]; simpl in Hj.
  - injection Hj as ->. simpl in *. rewrite String.eqb_refl. by rewrite row_field_fold.
  - assert (name ∈ columns.*1) as Hin.
    { apply list_elem_of_fmap. exists (name, c). split; [done|]. by eapply list_elem_of_lookup_2. }
    rewrite (proj2 (String.eqb_neq fc.1 name)) by (intros E; apply Hn; by rewrite E). by eapply IH.
Qed.

(** JSON rows carry exact decimals.  In a batch with distinct field names,
    every non-null decimal of a row becomes a string whose digits read back as
    its unscaled value and its scale, and the field of any other column keeps
    the value it was encoded with. *)
Theorem json_decimals_are_exact (b : TextBatch (Any:=Any)) rows i j fields name c :
  batch_ok b → NoDup (tb_fields b) → rows !! i = Some (Object fields) →
  tb_fields b !! j = Some name → tb_columns b !! j = Some c →
  ∃ fields', stringify_decimals b rows !! i = Some (Object fields') ∧
    match c with
    | DecimalColumn scale values =>
        ∀ v, values !! i = Some (Some v) → 0 ≤ scale →
          ∃ t, field name fields' = Some (VString t) ∧
               parse_decimal t = Some (v, Z.to_nat scale)
    | _ => field name fields' = field name fields
    end.
Proof.
  intros [Hl _] Hnd Hi Hn Hc.
  destruct (stringify_columns (zip (tb_fields b) (tb_columns b)) i rows fields Hi)
    as (f' & Hf' & Hfield).
  exists f'. split; [exact Hf'|].
  assert (zip (tb_fields b) (tb_columns b) !! j = Some (name, c)) as Hz
    by by rewrite lookup_zip_with, Hn; simpl; rewrite Hc.
  specialize (Hfield name).
  rewrite (row_field_distinct _ i fields name c j) in Hfield; [|rewrite fst_zip by lia; done|done].
  destruct c as [?|?|scale values|?]; [done..| |done]. intros v Hv Hs. simpl in Hfield.
  rewrite Hv in Hfield. exists (exact_decimal v scale). split; [done|].
  by apply exact_decimal_reads_back.
Qed.
End JsonDecimals.
