(* ===== verification/ReplText.v ===== *)
(** * The shell's text (crates/qcli-repl/src/lib.rs, the pure functions)

    Statement boundaries, history and property screening, metadata globs,
    keyword highlighting, completion candidates and the readings of display
    properties.  [extract_word] of rustyline and the alphanumeric characters of
    Unicode are parameters. *)
From stdpp Require Import sorting.
From S2P Require Import Prelude Text Config Chars Output.
From Stdlib Require Import Ascii.

Definition quote_char : string := "'".
Definition double_quote : string := String (ascii_of_N 34) EmptyString.
Definition backslash_char : string := String (ascii_of_N 92) EmptyString.

(** ** Statements *)

Record Scan := { single : bool; double : bool; escaped : bool; last_char : option string }.
Definition Scan_start : Scan :=
  {| single := false; double := false; escaped := false; last_char := None |}.

Definition scan_char (s : Scan) (ch : string) : Scan :=
  if escaped s then
    {| single := single s; double := double s; escaped := false; last_char := last_char s |}
  else if String.eqb ch backslash_char then
    {| single := single s; double := double s; escaped := true; last_char := last_char s |}
  else if String.eqb ch quote_char && negb (double s) then
    {| single := negb (single s); double := double s; escaped := false; last_char := last_char s |}
  else if String.eqb ch double_quote && negb (single s) then
    {| single := single s; double := negb (double s); escaped := false; last_char := last_char s |}
  else if negb (single s) && negb (double s) && negb (is_whitespace ch) then
    {| single := single s; double := double s; escaped := false; last_char := Some ch |}
  else
    {| single := single s; double := double s; escaped := false; last_char := last_char s |}.

Definition scan_text (s : Scan) (text : string) : Scan := foldl scan_char s (chars text).
Definition scan_complete (s : Scan) : bool :=
  negb (single s) && negb (double s) && bool_decide (last_char s = Some ";").

Definition statement_complete (sql : string) : bool := scan_complete (scan_text Scan_start sql).

(** What [run] submits of a complete statement. *)
Definition statement_of (sql : string) : string :=
  let trimmed := trim_end sql in
  trim_end (default trimmed (strip_suffix ";" trimmed)).

Definition safe_for_history (sql : string) : bool :=
  let normalized := to_ascii_lowercase sql in
  negb (existsb (λ marker, contains marker normalized)
    ["password"; "secret"; "token"; "credential"; "create user"; "alter user"]).

Definition sensitive_property (name : string) (properties : gmap string ConfigValue) : bool :=
  match properties !! name with Some v => value_is_secret v | None => false end
  || (let name := to_ascii_lowercase name in
      String.eqb name "url"
      || existsb (λ marker, contains marker name)
           ["password"; "token"; "secret"; "private_key"]).

(** ** Globs *)

(** The cells of a row after the first: [previous] starts at the column to
    the left, [left_] is the cell just written. *)
Fixpoint glob_cells (token : string) (value : list string) (previous : list bool)
    (left_ : bool) : list bool :=
  match value, previous with
  | v :: value, above_left :: ((above :: _) as previous) =>
      let cell := if String.eqb token "*" then above || left_
                  else above_left && (String.eqb token "?" || String.eqb token v) in
      cell :: glob_cells token value previous cell
  | _, _ => []
  end.

Definition glob_row (value : list string) (previous : list bool) (token : string) : list bool :=
  let first := if String.eqb token "*" then default false (head previous) else false in
  first :: glob_cells token value previous first.

Definition glob_matches (pattern : option string) (value : string) : bool :=
  match pattern with
  | None => true
  | Some pattern =>
      let value := chars value in
      let start := true :: repeat false (length value) in
      default false (last (foldl (glob_row value) start (chars pattern)))
  end.

(** ** Completion *)

(** [Vec::dedup]. *)
Fixpoint dedup (l : list string) : list string :=
  match l with
  | a :: ((b :: _) as rest) => if String.eqb a b then dedup rest else a :: dedup rest
  | l => l
  end.

Definition extend_completions (candidates values : list string) : list string :=
  dedup (merge_sort string_le (candidates ++ values)).

Definition word_break (ch : string) : bool :=
  is_whitespace ch || String.eqb ch "," || String.eqb ch "(" || String.eqb ch ")".

Section Rustyline.
(** [rustyline::completion::extract_word] without an escape character. *)
Variable extract_word : string → Z → (string → bool) → Z * string.

Definition completion_pairs (candidates : list string) (line : string) (position : Z) :
    Z * list (string * string) :=
  let '(start, word) := extract_word line position word_break in
  (start, (λ c, (c, c)) <$>
     filter (λ c, starts_with (to_ascii_lowercase word) (to_ascii_lowercase c) = true) candidates).
End Rustyline.

(** ** Highlighting *)

Definition escape (code : string) : string := String (ascii_of_N 27) code.
Definition bold_blue : string := escape "[1;34m".
Definition plain : string := escape "[0m".

Definition keywords : list string :=
  ["select"; "from"; "where"; "group"; "order"; "limit"; "as"; "join"; "on"; "with"; "use";
   "set"].

Section Highlight.
(** [char::is_alphanumeric]. *)
Variable is_alphanumeric : string → bool.

Definition is_separator (ch : string) : bool := negb (is_alphanumeric ch) && negb (String.eqb ch "_").

(** [split_inclusive(is_separator)]: each token ends with its separator. *)
Fixpoint split_inclusive (token : list string) (cs : list string) : list (list string) :=
  match cs with
  | [] => match token with [] => [] | _ => [token] end
  | ch :: cs =>
      if is_separator ch then (token ++ [ch]) :: split_inclusive [] cs
      else split_inclusive (token ++ [ch]) cs
  end.

(** [trim_end_matches(is_separator)]. *)
Fixpoint trim_separators (rev_token : list string) : list string :=
  match rev_token with
  | ch :: rest => if is_separator ch then trim_separators rest else rev_token
  | [] => []
  end.
Definition word_of (token : list string) : list string :=
  rev (trim_separators (rev token)).

Definition is_keyword (word : string) : bool :=
  existsb (λ k, String.eqb (to_ascii_lowercase word) k) keywords.

Definition render_token (token : list string) : string :=
  let word := word_of token in
  if is_keyword (unchars word) then
    bold_blue +:+ unchars word +:+ plain +:+ unchars (drop (length word) token)
  else unchars token.

(** The rendered line; when nothing is coloured the line itself is borrowed. *)
Definition highlight (line : string) : string :=
  let tokens := split_inclusive [] (chars line) in
  if existsb (λ t, is_keyword (unchars (word_of t))) tokens
  then unchars (render_token <$> tokens) else line.
End Highlight.

(** ** Display properties *)

(** [str::parse::<bool>()]. *)
Definition parse_bool (s : string) : option bool :=
  if String.eqb s "true" then Some true else if String.eqb s "false" then Some false else None.

Definition property_format (properties : gmap string string) : OutputFormat :=
  default Output.Table (properties !! "output_format" ≫= λ v, ok_of (OutputFormat_from_str v)).
Definition property_bool (properties : gmap string string) (name : string) (fallback : bool) :
    bool :=
  default fallback (properties !! name ≫= parse_bool).
(** [str::parse::<usize>()] is that of [u64] on a 64-bit machine. *)
Definition option_number (properties : gmap string string) (name : string) (fallback : Z) : Z :=
  default fallback (properties !! name ≫= parse_u64).

Definition parse_on_off (value : string) : option bool :=
  let v := to_ascii_lowercase value in
  if String.eqb v "on" || String.eqb v "true" then Some true
  else if String.eqb v "off" || String.eqb v "false" then Some false
  else None.

(** [format!("{:<width$}", s)]. *)
Definition pad_right (width : nat) (s : string) : string :=
  s +:+ repeat_str " " (width - char_count s).

(** [history_path]: [parent] is [Path::parent] of the configuration file. *)
Definition history_path (parent : option string) : string :=
  let dir := default "." parent in
  if is_empty dir then "history"
  else if ends_with "/" dir then dir +:+ "history" else dir +:+ "/history".

(** ** The shell's text: what its functions compute

    The glob table decides the reference semantics of patterns, highlighting
    only adds colour, candidates stay a sorted set, and the contents of a
    quoted literal never end a statement. *)

(** ** Globs *)

(** What a pattern matches: a star any run, a question mark any character, and
    everything else itself. *)
Inductive glob : list string → list string → Prop :=
| glob_nil : glob [] []
| glob_star p v1 v2 : glob p v2 → glob ("*" :: p) (v1 ++ v2)
| glob_any p c v : glob p v → glob ("?" :: p) (c :: v)
| glob_same p c v : c ≠ "*" → glob p v → glob (c :: p) (c :: v).

Lemma glob_app p q v :
  glob (p ++ q) v ↔ ∃ v1 v2, v = v1 ++ v2 ∧ glob p v1 ∧ glob q v2.
Proof.
  split.
  - revert v. induction p as [|c p IH]; intros v H; simpl in H.
    { exists [], v. split_and!; [done|constructor|done]. }
    inversion H as [|? v1 v2 H2|? x v2 H2|? ? v2 Hc H2]; subst;
      destruct (IH _ H2) as (a & b & -> & Ha & Hb).
    + exists (v1 ++ a), b. rewrite <- app_assoc. split_and!; [done|by constructor|done].
    + exists (x :: a), b. split_and!; [done|by constructor|done].
    + exists (c :: a), b. split_and!; [done|by constructor|done].
  - intros (v1 & v2 & -> & Hp & Hq). revert v2 Hq. induction Hp; intros w Hq; simpl.
    + done.
    + rewrite <- app_assoc. constructor. by apply IHHp.
    + constructor. by apply IHHp.
    + constructor; [done|]. by apply IHHp.
Qed.

Lemma glob_star_only v : glob ["*"] v.
Proof. rewrite <- (app_nil_r v). constructor. constructor. Qed.

Lemma glob_single c v : c ≠ "*" → glob [c] v ↔ ∃ x, v = [x] ∧ (c = "?" ∨ c = x).
Proof.
  intros Hc. split.
  - intros H. inversion H as [|? ? ? H2|? x ? H2|? x ? ? H2]; subst; [done|..];
      inversion H2; subst; [exists x; by auto|exists c; by auto].
  - intros (x & -> & [-> | ->]); repeat constructor; done.
Qed.

(** Adding a token at the end, against prefixes of the value. *)
Lemma glob_snoc_star p v : glob (p ++ ["*"]) v ↔ ∃ i, (i ≤ length v)%nat ∧ glob p (take i v).
Proof.
  rewrite glob_app. split.
  - intros (v1 & v2 & -> & H & _). exists (length v1). rewrite take_app_length, length_app.
    split; [lia|done].
  - intros (i & Hi & H). exists (take i v), (drop i v). rewrite take_drop.
    split_and!; [done..|apply glob_star_only].
Qed.

Lemma glob_snoc_char p c v :
  c ≠ "*" → glob (p ++ [c]) v ↔ ∃ v' x, v = v' ++ [x] ∧ glob p v' ∧ (c = "?" ∨ c = x).
Proof.
  intros Hc. rewrite glob_app. split.
  - intros (v1 & v2 & -> & H & (x & -> & Hx)%glob_single); [|done]. by exists v1, x.
  - intros (v' & x & -> & H & Hx). exists v', [x]. split_and!; [done..|].
    apply glob_single; [done|]. by exists x.
Qed.

(** The row of the table after the tokens [p]: cell [i] tells whether [p]
    matches the first [i] characters. *)
Definition row_of (p value : list string) (row : list bool) : Prop :=
  length row = S (length value) ∧
  ∀ i b, row !! i = Some b → b = true ↔ glob p (take i value).

(** The cells to the right of column [k], given those before. *)
Lemma glob_cells_spec p token done_ value previous left_ :
  row_of p (done_ ++ value) previous →
  (left_ = true ↔ glob (p ++ [token]) done_) →
  let cells := glob_cells token value (drop (length done_) previous) left_ in
  length cells = length value ∧
  ∀ i b, cells !! i = Some b → b = true ↔ glob (p ++ [token]) (done_ ++ take (S i) value).
Proof.
  revert done_ left_. induction value as [|v value IH]; intros done_ left_ [Hlen Hrow] Hleft; simpl.
  { by split. }
  rewrite length_app in Hlen. simpl in Hlen.
  destruct (lookup_lt_is_Some_2 previous (length done_)) as [b0 Hb0]; [lia|].
  destruct (lookup_lt_is_Some_2 previous (S (length done_))) as [b1 Hb1]; [lia|].
  rewrite (drop_S _ _ _ Hb0), (drop_S _ _ _ Hb1). simpl.
  pose proof (Hrow _ _ Hb0) as H0. pose proof (Hrow _ _ Hb1) as H1.
  rewrite take_app_length in H0. rewrite (take_app_ge done_ (v :: value)) in H1 by lia.
  replace (S (length done_) - length done_)%nat with 1%nat in H1 by lia. simpl in H1.
  set (cell := if String.eqb token "*" then b1 || left_
               else b0 && (String.eqb token "?" || String.eqb token v)).
  assert (cell = true ↔ glob (p ++ [token]) (done_ ++ [v])) as Hcell.
  { unfold cell. destruct (String.eqb_spec token "*") as [->|Hne].
    - rewrite orb_true_iff, H1, Hleft, !glob_snoc_star. rewrite length_app. simpl. split.
      + intros [H|(i & Hi & H)].
        * exists (length done_ + 1)%nat. split; [lia|].
          rewrite take_ge by (rewrite length_app; simpl; lia). done.
        * exists i. split; [lia|]. by rewrite take_app_le.
      + intros (i & Hi & H). destruct (decide (i = length done_ + 1)%nat) as [->|].
        * left. rewrite take_ge in H by (rewrite length_app; simpl; lia). done.
        * right. exists i. split; [lia|]. by rewrite take_app_le in H by lia.
    - rewrite andb_true_iff, orb_true_iff, !String.eqb_eq, H0, glob_snoc_char by done. split.
      + intros [H Hc]. by exists done_, v.
      + intros (v' & x & E & H & Hc). by apply app_inj_tail in E as [-> ->]. }
  specialize (IH (done_ ++ [v]) cell). rewrite <- app_assoc, length_app in IH. simpl in IH.
  rewrite Nat.add_1_r, (drop_S _ _ _ Hb1) in IH.
  assert (row_of p (done_ ++ v :: value) previous) as Hprev
    by (split; [rewrite length_app; simpl; lia|done]).
  destruct (IH Hprev Hcell) as [Hl Hc].
  split; [by f_equal|]. intros [|i] b Hi; simpl in Hi.
  - injection Hi as <-. by rewrite take_0.
  - rewrite (Hc i b Hi). by rewrite <- app_assoc.
Qed.

Lemma glob_row_spec p token value previous :
  row_of p value previous → row_of (p ++ [token]) value (glob_row value previous token).
Proof.
  intros Hrow. unfold glob_row.
  set (first := if String.eqb token "*" then default false (head previous) else false).
  assert (first = true ↔ glob (p ++ [token]) []) as Hfirst.
  { unfold first. destruct Hrow as [Hlen Hrow]. destruct previous as [|b previous]; [done|].
    simpl. specialize (Hrow 0%nat b eq_refl). rewrite take_0 in Hrow.
    destruct (String.eqb_spec token "*") as [->|Hne].
    - rewrite Hrow, glob_snoc_star. split; [intros H; by exists 0%nat|].
      intros (i & Hi & H). by rewrite take_nil in H.
    - rewrite glob_snoc_char by done. split; [done|]. intros (v' & x & E & _).
      by destruct v'. }
  destruct (glob_cells_spec p token [] value previous first Hrow Hfirst) as [Hl Hc].
  simpl in Hl, Hc. rewrite drop_0 in Hl, Hc. split; [simpl; by f_equal|].
  intros [|i] b Hi; simpl in Hi; [|by apply Hc]. injection Hi as <-. by rewrite take_0.
Qed.

Lemma glob_rows_spec tokens value : ∀ p previous,
  row_of p value previous → row_of (p ++ tokens) value (foldl (glob_row value) previous tokens).
Proof.
  induction tokens as [|t tokens IH]; intros p previous H; simpl; [by rewrite app_nil_r|].
  rewrite (cons_middle t p tokens), app_assoc. apply IH. by apply glob_row_spec.
Qed.

Lemma start_row value : row_of [] value (true :: repeat false (length value)).
Proof.
  split; [simpl; by rewrite repeat_length|]. intros [|i] b Hi; simpl in Hi.
  - injection Hi as <-. rewrite take_0. split; [intros; constructor|done].
  - pose proof (lookup_lt_Some _ _ _ Hi) as Hlt. rewrite repeat_length in Hlt.
    apply list_elem_of_lookup_2, list_elem_of_In, repeat_spec in Hi as ->. split; [done|].
    destruct value as [|v value]; simpl in *; [lia|]. intros H. inversion H.
Qed.

(** Metadata globs mean what they say.  The dynamic program of
    [glob_matches] accepts exactly the names the pattern describes, character
    by character: a star any run, a question mark any one, the rest itself. *)
Theorem glob_matches_decides pattern value :
  glob_matches (Some pattern) value = true ↔ glob (chars pattern) (chars value).
Proof.
  unfold glob_matches.
  pose proof (glob_rows_spec (chars pattern) (chars value) [] _ (start_row (chars value)))
    as [Hlen Hrow]. simpl in Hlen, Hrow.
  set (row := foldl _ _ (chars pattern)) in *.
  rewrite last_lookup, Hlen. simpl.
  destruct (row !! length (chars value)) as [b|] eqn:E.
  - simpl. rewrite (Hrow _ _ E). by rewrite take_ge.
  - apply lookup_ge_None in E. lia.
Qed.

(** ** Highlighting *)

(** Removing the colours. *)
Fixpoint strip_colours (fuel : nat) (s : string) : string :=
  match fuel with
  | O => s
  | S fuel =>
      match strip_prefix bold_blue s with
      | Some rest => strip_colours fuel rest
      | None =>
          match strip_prefix plain s with
          | Some rest => strip_colours fuel rest
          | None =>
              match s with
              | EmptyString => EmptyString
              | String c rest => String c (strip_colours fuel rest)
              end
          end
      end
  end.
Definition visible (s : string) : string := strip_colours (String.length s) s.

Definition no_escape (s : string) : bool :=
  string_forallb (λ c, negb (Ascii.eqb c (ascii_of_N 27))) s.

Lemma strip_colours_fuel n : ∀ m s,
  (String.length s ≤ n)%nat → (n ≤ m)%nat → strip_colours m s = strip_colours n s.
Proof.
  induction n as [|n IH]; intros m s Hs Hm.
  { destruct s; simpl in Hs; [|lia]. by destruct m. }
  destruct m as [|m]; [lia|]. cbn [strip_colours].
  destruct (strip_prefix bold_blue s) as [rest|] eqn:E1.
  { apply strip_prefix_Some in E1 as ->. rewrite string_length_app in Hs. simpl in Hs.
    apply IH; lia. }
  destruct (strip_prefix plain s) as [rest|] eqn:E2.
  { apply strip_prefix_Some in E2 as ->. rewrite string_length_app in Hs. simpl in Hs.
    apply IH; lia. }
  destruct s as [|c s]; [done|]. simpl in Hs. f_equal. apply IH; lia.
Qed.

Lemma visible_code code s :
  code = bold_blue ∨ code = plain → visible (code +:+ s) = visible s.
Proof.
  intros H. unfold visible. rewrite string_length_app.
  destruct (String.length code) as [|n] eqn:E; [by destruct H as [-> | ->]|].
  cbn [Nat.add strip_colours].
  assert (strip_colours (n + String.length s) s = strip_colours (String.length s) s)
    by (apply strip_colours_fuel; lia).
  destruct H as [-> | ->].
  - by rewrite strip_prefix_app.
  - by rewrite strip_prefix_app; destruct (strip_prefix bold_blue (plain +:+ s)) eqn:E2.
Qed.

Lemma strip_escape code c s :
  Ascii.eqb c (ascii_of_N 27) = false → strip_prefix (escape code) (String c s) = None.
Proof.
  intros H. cbn [escape strip_prefix]. by rewrite Ascii.eqb_sym, H.
Qed.

Lemma visible_app a s : no_escape a = true → visible (a +:+ s) = a +:+ visible s.
Proof.
  induction a as [|c a IH]; intros H; [done|]. simpl in H.
  apply andb_true_iff in H as [Hc%negb_true_iff H].
  change (String c a +:+ s) with (String c (a +:+ s)). unfold visible.
  cbn [String.length strip_colours]. unfold bold_blue, plain. rewrite !strip_escape by done.
  change (strip_colours (String.length (a +:+ s)) (a +:+ s)) with (visible (a +:+ s)).
  by rewrite IH.
Qed.

Section Highlight.
Variable is_alphanumeric : string → bool.

Lemma split_inclusive_concat cs : ∀ token,
  concat (split_inclusive is_alphanumeric token cs) = token ++ cs.
Proof.
  induction cs as [|ch cs IH]; intros token; simpl.
  - destruct token; simpl; by rewrite ?app_nil_r.
  - destruct (is_separator is_alphanumeric ch); simpl; rewrite IH; by rewrite <- app_assoc.
Qed.

Lemma trim_separators_suffix l : ∃ l1, l = l1 ++ trim_separators is_alphanumeric l.
Proof.
  induction l as [|ch l [l1 IH]]; simpl; [by exists []|].
  destruct (is_separator is_alphanumeric ch); [|by exists []].
  exists (ch :: l1). simpl. by f_equal.
Qed.

Lemma word_of_prefix token :
  token = word_of is_alphanumeric token ++ drop (length (word_of is_alphanumeric token)) token.
Proof.
  unfold word_of. destruct (trim_separators_suffix (rev token)) as [l1 E].
  set (t := trim_separators _ _) in *.
  assert (token = rev t ++ rev l1) as Et by by rewrite <- rev_app_distr, <- E, rev_involutive.
  rewrite Et at 2. by rewrite drop_app_length.
Qed.

Lemma no_escape_app a b : no_escape (a +:+ b) = no_escape a && no_escape b.
Proof.
  induction a as [|c a IH]; [done|]. unfold no_escape in *.
  cbn [String.append string_forallb]. by rewrite IH, andb_assoc.
Qed.

Lemma visible_token token s :
  no_escape (unchars token) = true →
  visible (render_token is_alphanumeric token +:+ s) = unchars token +:+ visible s.
Proof.
  intros H. unfold render_token. pose proof (word_of_prefix token) as E.
  set (w := word_of is_alphanumeric token) in *. set (rest := drop _ token) in *.
  destruct (is_keyword (unchars w)); [|by apply visible_app].
  rewrite E, unchars_app, no_escape_app, andb_true_iff in H.
  rewrite !string_app_assoc, visible_code, visible_app, visible_code, visible_app by tauto.
  by rewrite <- string_app_assoc, <- unchars_app, <- E.
Qed.

(** Highlighting only adds colour.  The coloured line, with its colour
    codes removed, is the line that was typed, whichever characters count as
    part of a word. *)
Theorem highlight_only_colours line :
  no_escape line = true → visible (highlight is_alphanumeric line) = line.
Proof.
  intros H. unfold highlight.
  assert (visible line = line) as Hline.
  { rewrite <- (string_app_nil_r line) at 1. rewrite visible_app by done.
    apply string_app_nil_r. }
  case_match; [|done].
  pose proof (split_inclusive_concat (chars line) []) as E. simpl in E.
  set (ts := split_inclusive _ _ _) in *.
  assert (line = unchars (concat ts)) as El by by rewrite E, unchars_chars.
  rewrite El. rewrite El in H. clear -H. clearbody ts. induction ts as [|t ts IH]; [done|].
  simpl in H. rewrite unchars_app, no_escape_app, andb_true_iff in H. destruct H as [H1 H2].
  change (visible (render_token is_alphanumeric t
    +:+ unchars (render_token is_alphanumeric <$> ts)) = unchars (t ++ concat ts)).
  rewrite visible_token, unchars_app by done. f_equal. by apply IH.
Qed.
End Highlight.

(** ** Statements *)

Lemma scan_app s a b :
  at_boundary a = true → at_boundary b = true →
  scan_text s (a +:+ b) = scan_text (scan_text s a) b.
Proof. intros. unfold scan_text. by rewrite chars_append, foldl_app. Qed.

(** No quote of this kind and no backslash. *)
Definition literal_body (q : string) (text : string) : bool :=
  forallb (λ ch, negb (String.eqb ch q) && negb (String.eqb ch backslash_char)) (chars text).

Lemma scan_in_single s cs :
  single s = true → double s = false → escaped s = false →
  forallb (λ ch, negb (String.eqb ch quote_char) && negb (String.eqb ch backslash_char)) cs = true →
  foldl scan_char s cs = s.
Proof.
  intros H1 H2 H3. induction cs as [|ch cs IH]; [done|]. simpl.
  intros [[Hq Hb]%andb_true_iff H]%andb_true_iff. apply negb_true_iff in Hq, Hb.
  assert (scan_char s ch = s) as ->; [|by apply IH].
  unfold scan_char. rewrite H3, Hb, Hq, H1, H2. simpl. rewrite andb_false_r.
  destruct s; simpl in *; by subst.
Qed.

(** Everything between two single quotes, semicolons and newlines included,
    leaves a scan where it was: it can neither end nor continue a statement. *)
Lemma literals_are_opaque s text :
  single s = false → double s = false → escaped s = false →
  at_boundary text = true → literal_body quote_char text = true →
  scan_text s (quote_char +:+ text +:+ quote_char) = s.
Proof.
  intros H1 H2 H3 Hb Hl.
  rewrite scan_app by (done || by apply at_boundary_app). rewrite scan_app by done.
  set (s1 := scan_text s quote_char).
  assert (s1 = {| single := true; double := false; escaped := false; last_char := last_char s |})
    as E1.
  { unfold s1, scan_text. cbn [chars quote_char foldl]. unfold scan_char.
    rewrite H3, H1, H2. done. }
  assert (scan_text s1 text = s1) as ->.
  { apply scan_in_single; [by rewrite E1..|done]. }
  rewrite E1. unfold scan_text. cbn [chars quote_char foldl]. unfold scan_char. simpl.
  destruct s; simpl in *; by subst.
Qed.

(** A text without quotes and backslashes is complete when its last character
    that is not white space is a semicolon. *)
Definition plain_text (text : string) : bool :=
  forallb (λ ch, negb (String.eqb ch quote_char) && negb (String.eqb ch double_quote)
                 && negb (String.eqb ch backslash_char)) (chars text).

Definition last_visible (cs : list string) : option string :=
  foldl (λ l ch, if is_whitespace ch then l else Some ch) None cs.

Lemma plain_statement_complete text :
  plain_text text = true →
  statement_complete text = bool_decide (last_visible (chars text) = Some ";").
Proof.
  intros H. unfold statement_complete, scan_text, last_visible, plain_text in *.
  assert (∀ l, foldl scan_char {| single := false; double := false; escaped := false;
      last_char := l |} (chars text)
    = {| single := false; double := false; escaped := false;
         last_char := foldl (λ l ch, if is_whitespace ch then l else Some ch) l (chars text) |})
    as Hscan.
  { induction (chars text) as [|ch cs IH]; intros l; [done|]. simpl in H.
    apply andb_true_iff in H as [[[Hq Hd]%andb_true_iff Hb]%andb_true_iff H].
    apply negb_true_iff in Hq, Hd, Hb. simpl.
    assert (scan_char {| single := false; double := false; escaped := false; last_char := l |} ch
      = {| single := false; double := false; escaped := false;
           last_char := if is_whitespace ch then l else Some ch |}) as ->; [|by apply IH].
    unfold scan_char. cbn [escaped single double]. rewrite Hb, Hq, Hd. simpl.
    by destruct (is_whitespace ch). }
  unfold Scan_start. by rewrite Hscan.
Qed.

(** ** Candidates *)

Lemma dedup_elem l x : x ∈ dedup l ↔ x ∈ l.
Proof.
  induction l as [|a l IH]; [done|]. destruct l as [|b l]; [done|].
  cbn [dedup]. destruct (String.eqb_spec a b) as [->|Hne].
  - rewrite IH, !elem_of_cons. naive_solver.
  - rewrite !elem_of_cons in *. naive_solver.
Qed.

Definition string_lt (a b : string) : Prop := string_le a b ∧ a ≠ b.

Lemma string_le_cons c s d t :
  string_le (String c s) (String d t)
  ↔ (code c < code d)%N ∨ (c = d ∧ string_le s t).
Proof.
  unfold string_le, String.leb. simpl. unfold Ascii.compare, code.
  destruct (N.compare_spec (N_of_ascii c) (N_of_ascii d)) as [E|E|E].
  - assert (c = d) as -> by (rewrite <- (ascii_N_embedding c), E; apply ascii_N_embedding).
    split; [by right|]. intros [?|[_ ?]]; [lia|done].
  - split; [by left|done].
  - split; [done|]. intros [?|[-> _]]; lia.
Qed.

#[global] Instance string_le_transitive : Transitive string_le.
Proof.
  intros a. induction a as [|c a IH]; intros [|d b] [|e f]; [done..|].
  rewrite !string_le_cons. intros [H1|[-> H1]] [H2|[-> H2]]; [left; lia|by left..|].
  right. split; [done|]. by eapply IH.
Qed.

#[global] Instance string_le_total : Total string_le.
Proof. intros a b. destruct (String.leb_total a b); [by left|by right]. Qed.

Lemma dedup_sorted l :
  StronglySorted string_le l → StronglySorted string_lt (dedup l).
Proof.
  induction 1 as [|a l Hl IH Ha]; [constructor|]. destruct l as [|b l]; [by repeat constructor|].
  cbn [dedup]. destruct (String.eqb_spec a b) as [->|Hne]; [done|].
  constructor; [done|]. apply Forall_forall. intros x Hx.
  apply (proj1 (dedup_elem (b :: l) x)) in Hx.
  rewrite Forall_forall in Ha. split; [by apply Ha|]. intros ->.
  apply Hne, String.leb_antisym; [by apply Ha; left|].
  apply StronglySorted_inv in Hl as [_ Hb]. rewrite Forall_forall in Hb.
  apply elem_of_cons in Hx as [->|Hx]; [by destruct Hne|by apply Hb].
Qed.

(** Completion candidates form a sorted set.  After any extension they are
    strictly increasing, and they are the old ones and the new. *)
Theorem candidates_are_a_sorted_set candidates values :
  StronglySorted string_lt (extend_completions candidates values) ∧
  ∀ x, x ∈ extend_completions candidates values ↔ x ∈ candidates ∨ x ∈ values.
Proof.
  unfold extend_completions. split.
  - apply dedup_sorted, Sorted_StronglySorted; [apply _|]. apply Sorted_merge_sort, _.
  - intros x. rewrite dedup_elem, merge_sort_Permutation, elem_of_app. done.
Qed.
