(* ===== verification/Repl.v ===== *)
(** * The interactive shell (crates/qcli-repl/src/lib.rs)

    [run] and everything it calls: the choice of a target, the read loop turn
    by turn, the whole [meta_command] handler and the execution of a statement
    with its interrupts.  The terminal is the text printed on its two streams;
    what a turn gets from outside (the line that was read, the clock, what the
    adapters observe, the order in which items and interrupts arrive) is its
    input. *)
From stdpp Require Import sorting.
From S2P Require Import Prelude Text Chars Arrow DriverApi Config Core Metadata Output ReplText.
From Stdlib Require Import Ascii.

Inductive ReadlineError := Interrupted | Eof | ReadlineOther (message : string).

Inductive ReplError :=
| LineFailure (e : ReadlineError)
| CoreFailure (e : CoreError)
| OutputFailure (e : OutputError)
| IoFailure (message : string)
| NoTargets
| UnknownTarget (target : string).

(** [From<DriverError> for ReplError]. *)
Definition ReplError_from_driver (e : DriverError) : ReplError := CoreFailure (Driver e).

Record Terminal := { stdout : string; stderr : string }.

Definition println_to (text : string) (t : Terminal) : Terminal :=
  {| stdout := stdout t +:+ text +:+ Output.newline; stderr := stderr t |}.
Definition eprintln_to (text : string) (t : Terminal) : Terminal :=
  {| stdout := stdout t; stderr := stderr t +:+ text +:+ Output.newline |}.

Section Repl.
Context `{ar : Arrow}.
Variable hash_properties : gmap string string → Z.
(** What the renderer reads of a record batch, and its formatters. *)
Context {Any : Type}.
Variable text_batch : RecordBatch → TextBatch (Any:=Any).
Variable format_any : Any → result string string.
Variable csv_text : bool → ascii → TextBatch (Any:=Any) → result string string.
Variable json_encode : TextBatch (Any:=Any) → result string string.
Variable json_parse : string → result (list Value) string.
Variable json_text : Value → string.
(** [impl Display for ReadlineError]. *)
Variable readline_text : ReadlineError → string.

Definition ReplError_display (e : ReplError) : string :=
  match e with
  | LineFailure error => "terminal input failed: " +:+ readline_text error
  | CoreFailure error => CoreError_display error
  | OutputFailure error => oe_message error
  | IoFailure message => message
  | NoTargets => "configuration has no targets"
  | UnknownTarget target => "target '" +:+ target +:+ "' does not exist"
  end.

(** The variables of [run], and the terminal. *)
Record Shell := {
  sh_sessions : Sessions.SessionManager;
  sh_metadata : MetadataService;
  sh_queries : Queries.QueryService;
  sh_snapshot : SessionSnapshot;
  sh_buffer : string;
  sh_format : OutputFormat;
  sh_timing : bool;
  sh_status : string;
  sh_properties : gmap string ConfigValue;
  sh_overrides : gmap string string;
  sh_completions : list string;
  sh_history : list string;
  sh_terminal : Terminal;
}.

Definition set_sh_sessions x s := {| sh_sessions := x; sh_metadata := sh_metadata s;
  sh_queries := sh_queries s; sh_snapshot := sh_snapshot s; sh_buffer := sh_buffer s;
  sh_format := sh_format s; sh_timing := sh_timing s; sh_status := sh_status s;
  sh_properties := sh_properties s; sh_overrides := sh_overrides s;
  sh_completions := sh_completions s; sh_history := sh_history s;
  sh_terminal := sh_terminal s |}.
Definition set_sh_metadata x s := {| sh_sessions := sh_sessions s; sh_metadata := x;
  sh_queries := sh_queries s; sh_snapshot := sh_snapshot s; sh_buffer := sh_buffer s;
  sh_format := sh_format s; sh_timing := sh_timing s; sh_status := sh_status s;
  sh_properties := sh_properties s; sh_overrides := sh_overrides s;
  sh_completions := sh_completions s; sh_history := sh_history s;
  sh_terminal := sh_terminal s |}.
Definition set_sh_queries x s := {| sh_sessions := sh_sessions s; sh_metadata := sh_metadata s;
  sh_queries := x; sh_snapshot := sh_snapshot s; sh_buffer := sh_buffer s;
  sh_format := sh_format s; sh_timing := sh_timing s; sh_status := sh_status s;
  sh_properties := sh_properties s; sh_overrides := sh_overrides s;
  sh_completions := sh_completions s; sh_history := sh_history s;
  sh_terminal := sh_terminal s |}.
Definition set_sh_snapshot x s := {| sh_sessions := sh_sessions s; sh_metadata := sh_metadata s;
  sh_queries := sh_queries s; sh_snapshot := x; sh_buffer := sh_buffer s;
  sh_format := sh_format s; sh_timing := sh_timing s; sh_status := sh_status s;
  sh_properties := sh_properties s; sh_overrides := sh_overrides s;
  sh_completions := sh_completions s; sh_history := sh_history s;
  sh_terminal := sh_terminal s |}.
Definition set_sh_buffer x s := {| sh_sessions := sh_sessions s; sh_metadata := sh_metadata s;
  sh_queries := sh_queries s; sh_snapshot := sh_snapshot s; sh_buffer := x;
  sh_format := sh_format s; sh_timing := sh_timing s; sh_status := sh_status s;
  sh_properties := sh_properties s; sh_overrides := sh_overrides s;
  sh_completions := sh_completions s; sh_history := sh_history s;
  sh_terminal := sh_terminal s |}.
Definition set_sh_display f t s := {| sh_sessions := sh_sessions s; sh_metadata := sh_metadata s;
  sh_queries := sh_queries s; sh_snapshot := sh_snapshot s; sh_buffer := sh_buffer s;
  sh_format := f; sh_timing := t; sh_status := sh_status s;
  sh_properties := sh_properties s; sh_overrides := sh_overrides s;
  sh_completions := sh_completions s; sh_history := sh_history s;
  sh_terminal := sh_terminal s |}.
Definition set_sh_status x s := {| sh_sessions := sh_sessions s; sh_metadata := sh_metadata s;
  sh_queries := sh_queries s; sh_snapshot := sh_snapshot s; sh_buffer := sh_buffer s;
  sh_format := sh_format s; sh_timing := sh_timing s; sh_status := x;
  sh_properties := sh_properties s; sh_overrides := sh_overrides s;
  sh_completions := sh_completions s; sh_history := sh_history s;
  sh_terminal := sh_terminal s |}.
Definition set_sh_values p o s := {| sh_sessions := sh_sessions s; sh_metadata := sh_metadata s;
  sh_queries := sh_queries s; sh_snapshot := sh_snapshot s; sh_buffer := sh_buffer s;
  sh_format := sh_format s; sh_timing := sh_timing s; sh_status := sh_status s;
  sh_properties := p; sh_overrides := o;
  sh_completions := sh_completions s; sh_history := sh_history s;
  sh_terminal := sh_terminal s |}.
Definition set_sh_completions x s := {| sh_sessions := sh_sessions s;
  sh_metadata := sh_metadata s;
  sh_queries := sh_queries s; sh_snapshot := sh_snapshot s; sh_buffer := sh_buffer s;
  sh_format := sh_format s; sh_timing := sh_timing s; sh_status := sh_status s;
  sh_properties := sh_properties s; sh_overrides := sh_overrides s;
  sh_completions := x; sh_history := sh_history s; sh_terminal := sh_terminal s |}.
Definition set_sh_history x s := {| sh_sessions := sh_sessions s; sh_metadata := sh_metadata s;
  sh_queries := sh_queries s; sh_snapshot := sh_snapshot s; sh_buffer := sh_buffer s;
  sh_format := sh_format s; sh_timing := sh_timing s; sh_status := sh_status s;
  sh_properties := sh_properties s; sh_overrides := sh_overrides s;
  sh_completions := sh_completions s; sh_history := x; sh_terminal := sh_terminal s |}.
Definition set_sh_terminal x s := {| sh_sessions := sh_sessions s; sh_metadata := sh_metadata s;
  sh_queries := sh_queries s; sh_snapshot := sh_snapshot s; sh_buffer := sh_buffer s;
  sh_format := sh_format s; sh_timing := sh_timing s; sh_status := sh_status s;
  sh_properties := sh_properties s; sh_overrides := sh_overrides s;
  sh_completions := sh_completions s; sh_history := sh_history s; sh_terminal := x |}.

Abbreviation Sh A := (M Shell ReplError A).

Definition println (text : string) : Sh unit :=
  modify (λ s, set_sh_terminal (println_to text (sh_terminal s)) s).
Definition eprintln (text : string) : Sh unit :=
  modify (λ s, set_sh_terminal (eprintln_to text (sh_terminal s)) s).
Fixpoint print_lines (ls : list string) : Sh unit :=
  match ls with
  | [] => mret tt
  | l :: ls => _ ← println l; print_lines ls
  end.

(** The session and metadata services, with their errors as the shell's. *)
Definition on_sessions {A} (m : M Sessions.SessionManager CoreError A) : Sh A :=
  on sh_sessions set_sh_sessions CoreFailure m.
Definition on_metadata {A} (m : M MetadataService DriverError A) : Sh A :=
  on sh_metadata set_sh_metadata ReplError_from_driver m.

(** [match metadata.f(..).await { Ok(_) => .., Err(error) => .. }]. *)
Definition try_metadata {A} (m : M MetadataService DriverError A) : Sh (result A DriverError) :=
  λ s, let '(r, t) := m (sh_metadata s) in (Ok r, set_sh_metadata t s).

(** ** Prompt and metadata requests *)

Definition context_prompt (s : SessionSnapshot) : string :=
  match snap_properties s !! "catalog", snap_properties s !! "schema" with
  | Some catalog, Some schema => snap_target s +:+ "[" +:+ catalog +:+ "." +:+ schema +:+ "]> "
  | Some catalog, None => snap_target s +:+ "[" +:+ catalog +:+ "]> "
  | None, _ => snap_target s +:+ "> "
  end.

Definition repl_metadata_request (s : SessionSnapshot) (pattern : option string) :
    MetadataRequest :=
  {| mr_identity := "local-cli"; mr_target := snap_target s; mr_engine := snap_engine s;
     mr_properties := snap_properties s; mr_catalog := snap_properties s !! "catalog";
     mr_schema := snap_properties s !! "schema"; mr_pattern := pattern |}.

Definition request_from_target (t : ResolvedTarget) (pattern : option string) : MetadataRequest :=
  let properties := expose <$> target_properties t in
  {| mr_identity := "local-cli"; mr_target := target_name t; mr_engine := target_engine t;
     mr_properties := properties; mr_catalog := properties !! "catalog";
     mr_schema := properties !! "schema"; mr_pattern := pattern |}.

(** [config.targets()]. *)
Definition targets_of (config : Config) : list ResolvedTarget :=
  (sorted_entries (config_targets config)).*2.

(** ** Choosing a target *)

Definition numbered_target (targets : list ResolvedTarget) (answer : string) :
    option ResolvedTarget :=
  index ← parse_u64 (trim answer);
  if index =? 0 then None else targets !! Z.to_nat (index - 1).

Fixpoint number_targets (n : Z) (targets : list ResolvedTarget) : list string :=
  match targets with
  | [] => []
  | t :: targets =>
      ("  " +:+ pretty n +:+ ") " +:+ target_name t +:+ " (" +:+ target_engine t +:+ ")")
      :: number_targets (n + 1) targets
  end.

(** The question loop over the answers that are read; [None] while it waits. *)
Fixpoint choose_loop (config : Config) (answers : list (result string ReadlineError))
    (t : Terminal) : option (result ResolvedTarget ReplError) * Terminal :=
  match answers with
  | [] => (None, t)
  | Err e :: _ => (Some (Err (LineFailure e)), t)
  | Ok answer :: answers =>
      match numbered_target (targets_of config) answer with
      | Some target => (Some (Ok target), t)
      | None =>
          match config_target config (trim answer) with
          | Some target => (Some (Ok target), t)
          | None =>
              choose_loop config answers (eprintln_to "Choose a target number or exact name." t)
          end
      end
  end.

Definition choose_target (config : Config) (requested : option string)
    (answers : list (result string ReadlineError)) (t : Terminal) :
    option (result ResolvedTarget ReplError) * Terminal :=
  match requested with
  | Some name => (Some (ok_or (config_target config name) (UnknownTarget name)), t)
  | None =>
      match targets_of config with
      | [] => (Some (Err NoTargets), t)
      | [target] => (Some (Ok target), t)
      | targets =>
          choose_loop config answers
            (foldl (λ t l, println_to l t) t ("Select a target:" :: number_targets 1 targets))
      end
  end.

(** ** Meta commands *)

Variable config : Config.

(** What a command observes of the clock and the adapters. *)
Record Moment := { moment_invocation : Invocation; moment_done : Z }.

Definition repl_help : string :=
  "\targets | \use TARGET | \catalogs [PATTERN] | \schemas [PATTERN] | \tables [PATTERN] | \describe OBJECT | \use-catalog CATALOG | \use-schema SCHEMA | \status | \set NAME VALUE | \format FORMAT | \timing [on|off] | \properties | \q".

Definition status_line (s : Shell) : string :=
  let snap := sh_snapshot s in
  "target=" +:+ snap_target snap +:+ " engine=" +:+ snap_engine snap
  +:+ " catalog=" +:+ default "-" (snap_properties snap !! "catalog")
  +:+ " schema=" +:+ default "-" (snap_properties snap !! "schema")
  +:+ " session=" +:+ snap_id snap +:+ " version=" +:+ pretty (snap_version snap)
  +:+ " status=" +:+ sh_status s.

Definition target_lines (current : string) : list string :=
  (λ t, (if String.eqb (target_name t) current then "* " else "  ")
        +:+ target_name t +:+ " (" +:+ target_engine t +:+ ")") <$> targets_of config.

(** [\use TARGET]. *)
Definition use_target (name : string) (m : Moment) : Sh unit :=
  s ← get_state;
  match config_target config name with
  | None => eprintln ("target '" +:+ name +:+ "' does not exist; still using '"
              +:+ snap_target (sh_snapshot s) +:+ "'")
  | Some target =>
      r ← try_metadata (catalogs hash_properties (request_from_target target None)
            (moment_invocation m) (moment_done m));
      match r with
      | Err error =>
          eprintln ("target switch failed; still using '" +:+ snap_target (sh_snapshot s)
            +:+ "': " +:+ DriverError_display error)
      | Ok _ =>
          let old := sh_snapshot s in
          snap ← on_sessions (Sessions.switch_target (snap_id old) (snap_version old) target);
          _ ← modify (set_sh_snapshot snap);
          _ ← modify (set_sh_values (target_properties target) ∅);
          _ ← on_metadata (invalidate_target (snap_target old));
          _ ← modify (set_sh_display (property_format (snap_properties snap))
                        (property_bool (snap_properties snap) "timing" true));
          println ("Switched to '" +:+ snap_target snap +:+ "' (" +:+ snap_engine snap +:+ ")")
      end
  end.

Definition complete_and_print (names : list string) : Sh unit :=
  _ ← modify (λ s, set_sh_completions (extend_completions (sh_completions s) names) s);
  print_lines names.

(** [\catalogs] and [\schemas], with their optional pattern. *)
Definition list_catalogs_command (pattern : option string) (m : Moment) : Sh unit :=
  snap ← gets sh_snapshot;
  values ← on_metadata (catalogs hash_properties (repl_metadata_request snap pattern)
             (moment_invocation m) (moment_done m));
  complete_and_print (filter (λ n, glob_matches pattern n = true) (cat_name <$> values)).

Definition list_schemas_command (pattern : option string) (m : Moment) : Sh unit :=
  snap ← gets sh_snapshot;
  values ← on_metadata (schemas hash_properties (repl_metadata_request snap pattern)
             (moment_invocation m) (moment_done m));
  complete_and_print (filter (λ n, glob_matches pattern n = true) (sm_name <$> values)).

Definition kind_text (k : ObjectKind) : string :=
  match k with DriverApi.Table => "table" | View => "view" | Other => "object" end.

(** [\tables]: the pattern goes to the adapter only. *)
Definition list_tables_command (pattern : option string) (m : Moment) : Sh unit :=
  snap ← gets sh_snapshot;
  values ← on_metadata (objects hash_properties (repl_metadata_request snap pattern)
             (moment_invocation m) (moment_done m));
  _ ← modify (λ s, set_sh_completions
         (extend_completions (sh_completions s) (om_name <$> values)) s);
  print_lines ((λ v, pad_right 40 (om_name v) +:+ " " +:+ kind_text (om_kind v)) <$> values).

Definition describe_command (object : string) (m : Moment) : Sh unit :=
  snap ← gets sh_snapshot;
  columns ← on_metadata (describe hash_properties (repl_metadata_request snap None) object
              (moment_invocation m) (moment_done m));
  _ ← modify (λ s, set_sh_completions
         (extend_completions (sh_completions s) (cm_name <$> columns)) s);
  print_lines ((λ c, pad_right 32 (cm_name c) +:+ " " +:+ pad_right 28 (cm_data_type c)
                     +:+ " " +:+ default EmptyString (cm_comment c)) <$> columns).

(** [*snapshot = sessions.set_option(..)?]. *)
Definition set_session_option (name value : string) : Sh unit :=
  snap ← gets sh_snapshot;
  snap' ← on_sessions (Sessions.set_option (snap_id snap) (snap_version snap) name value);
  modify (set_sh_snapshot snap').

(** Invalidate the metadata of the current target. *)
Definition forget_metadata : Sh unit :=
  snap ← gets sh_snapshot;
  on_metadata (invalidate_target (snap_target snap)).

Definition use_catalog (catalog : string) (m : Moment) : Sh unit :=
  snap ← gets sh_snapshot;
  available ← on_metadata (catalogs hash_properties (repl_metadata_request snap None)
                (moment_invocation m) (moment_done m));
  if existsb (λ v, String.eqb (cat_name v) catalog) available then
    _ ← set_session_option "catalog" catalog;
    _ ← forget_metadata;
    println ("catalog = " +:+ catalog)
  else eprintln ("catalog '" +:+ catalog +:+ "' does not exist; context unchanged").

Definition use_schema (schema : string) (m : Moment) : Sh unit :=
  snap ← gets sh_snapshot;
  available ← on_metadata (schemas hash_properties (repl_metadata_request snap None)
                (moment_invocation m) (moment_done m));
  if existsb (λ v, String.eqb (sm_name v) schema) available then
    _ ← set_session_option "schema" schema;
    _ ← forget_metadata;
    println ("schema = " +:+ schema)
  else eprintln ("schema '" +:+ schema +:+ "' does not exist; context unchanged").

(** [\set NAME VALUE]. *)
Definition set_command (name value : string) : Sh unit :=
  _ ← set_session_option name value;
  _ ← modify (λ s, set_sh_values (sh_properties s) (<[name := value]> (sh_overrides s)) s);
  _ ← (if String.eqb name "output_format" then
         f ← of_result (map_err OutputFailure (OutputFormat_from_str value));
         modify (λ s, set_sh_display f (sh_timing s) s)
       else mret tt);
  _ ← (if String.eqb name "timing" then
         modify (λ s, set_sh_display (sh_format s)
                        (default (sh_timing s) (parse_on_off value)) s)
       else mret tt);
  s ← get_state;
  println (name +:+ " = "
    +:+ if sensitive_property name (sh_properties s) then "<redacted>" else value).

Definition format_command (value : string) : Sh unit :=
  f ← of_result (map_err OutputFailure (OutputFormat_from_str value));
  _ ← modify (λ s, set_sh_display f (sh_timing s) s);
  println ("format = " +:+ value).

Definition on_off (b : bool) : string := if b then "on" else "off".
Definition toggle_timing : Sh unit :=
  _ ← modify (λ s, set_sh_display (sh_format s) (negb (sh_timing s)) s);
  s ← get_state;
  println ("timing is " +:+ on_off (sh_timing s)).
Definition timing_command (value : string) : Sh unit :=
  match parse_on_off value with
  | Some enabled =>
      _ ← modify (λ s, set_sh_display (sh_format s) enabled s);
      println ("timing is " +:+ on_off enabled)
  | None => eprintln "usage: \timing [on|off]"
  end.

(** The lines of [\properties]: the target's, then what else was set. *)
Definition property_line (overrides : gmap string string) (e : string * ConfigValue) : string :=
  e.1 +:+ " = " +:+
  if value_is_secret e.2 then "<redacted>"
  else match overrides !! e.1 with Some v => v | None => display_value e.2 end.
Definition override_line (properties : gmap string ConfigValue) (e : string * string) : string :=
  e.1 +:+ " = " +:+ if sensitive_property e.1 properties then "<redacted>" else e.2.
Definition property_lines (properties : gmap string ConfigValue)
    (overrides : gmap string string) : list string :=
  (property_line overrides <$> sorted_entries properties)
  ++ (override_line properties <$>
        filter (λ e, properties !! e.1 = None) (sorted_entries overrides)).

(** The whole [meta_command]: [false] ends the shell. *)
Definition meta_command (line : string) (m : Moment) : Sh bool :=
  let keep (c : Sh unit) : Sh bool := _ ← c; mret true in
  let unknown := keep (eprintln "unknown command; type \help") in
  s ← get_state;
  match split_whitespace line with
  | [cmd] =>
      if is_one_of cmd ["\q"; "\quit"] then mret false
      else if String.eqb cmd "\help" then keep (println repl_help)
      else if String.eqb cmd "\status" then keep (println (status_line s))
      else if String.eqb cmd "\targets" then
        keep (print_lines (target_lines (snap_target (sh_snapshot s))))
      else if String.eqb cmd "\catalogs" then keep (list_catalogs_command None m)
      else if String.eqb cmd "\schemas" then keep (list_schemas_command None m)
      else if String.eqb cmd "\tables" then keep (list_tables_command None m)
      else if String.eqb cmd "\timing" then keep toggle_timing
      else if String.eqb cmd "\properties" then
        keep (print_lines (property_lines (sh_properties s) (sh_overrides s)))
      else if String.eqb cmd "\p" then keep (println (sh_buffer s))
      else if String.eqb cmd "\r" then
        keep (_ ← modify (set_sh_buffer EmptyString); println "Query buffer cleared.")
      else unknown
  | [cmd; arg] =>
      if String.eqb cmd "\use" then keep (use_target arg m)
      else if String.eqb cmd "\catalogs" then keep (list_catalogs_command (Some arg) m)
      else if String.eqb cmd "\schemas" then keep (list_schemas_command (Some arg) m)
      else if String.eqb cmd "\tables" then keep (list_tables_command (Some arg) m)
      else if String.eqb cmd "\describe" then keep (describe_command arg m)
      else if String.eqb cmd "\use-catalog" then keep (use_catalog arg m)
      else if String.eqb cmd "\use-schema" then keep (use_schema arg m)
      else if String.eqb cmd "\format" then keep (format_command arg)
      else if String.eqb cmd "\timing" then keep (timing_command arg)
      else unknown
  | [cmd; name; value] => if String.eqb cmd "\set" then keep (set_command name value) else unknown
  | _ => unknown
  end.

(** ** Executing a statement *)

(** What the two branches of [tokio::select!] answer: an item, or the
    interrupt channel ([false] once it is closed). *)
Inductive ExecTurn := Received (item : QueryItem) | Signal (open : bool).

Record Running := {
  run_output : StreamOutput (W:=string);
  run_engine_id : option string;
  run_properties : gmap string string;
  run_cancelled : bool;
  run_stderr : string;
}.

Abbreviation write_batch := (write_batch format_any csv_text json_encode json_parse json_text).

(** One round of the loop of [execute]. *)
Definition execute_turn (id : string) (t : ExecTurn) : M Running OutputError unit :=
  match t with
  | Received (Batch b) =>
      on run_output (λ o r, {| run_output := o; run_engine_id := run_engine_id r;
                               run_properties := run_properties r;
                               run_cancelled := run_cancelled r; run_stderr := run_stderr r |})
        (λ e, e) (write_batch (text_batch b))
  | Received (Event (EngineQueryId e)) =>
      modify (λ r, {| run_output := run_output r; run_engine_id := Some e;
                      run_properties := run_properties r; run_cancelled := run_cancelled r;
                      run_stderr := run_stderr r |})
  | Received (Event (SessionProperties p)) =>
      modify (λ r, {| run_output := run_output r; run_engine_id := run_engine_id r;
                      run_properties := extend (run_properties r) p;
                      run_cancelled := run_cancelled r; run_stderr := run_stderr r |})
  | Received (Event _) => mret tt
  | Signal open =>
      modify (λ r,
        if run_cancelled r || negb open then r
        else {| run_output := run_output r; run_engine_id := run_engine_id r;
                run_properties := run_properties r; run_cancelled := true;
                run_stderr := run_stderr r +:+ "Cancelling query " +:+ id +:+ "..."
                              +:+ Output.newline |})
  end.

Fixpoint execute_loop (id : string) (turns : list ExecTurn) : M Running OutputError unit :=
  match turns with
  | [] => mret tt
  | t :: turns => _ ← execute_turn id t; execute_loop id turns
  end.

Record ExecutionOutcome := {
  outcome_status : string;
  outcome_properties : gmap string string;
}.

Definition display_options (s : SessionSnapshot) : DisplayOptions :=
  {| decimal_places := option_number (snap_properties s) "decimal_places" 3;
     string_truncate := option_number (snap_properties s) "string_truncate" 80 |}.

Definition Running_start (o : StreamOutput) (err : string) : Running :=
  {| run_output := o; run_engine_id := None; run_properties := ∅; run_cancelled := false;
     run_stderr := err |}.

(** The output stream over the terminal: what it wrote stays written. *)
Definition stream_items (id : string) (turns : list ExecTurn) (options : DisplayOptions)
    (format : OutputFormat) (t : Terminal) :
    result (Running * Z) OutputError * Terminal :=
  match StreamOutput_new (stdout t) format options with
  | Err e => (Err e, t)
  | Ok o =>
      let '(r, run) := execute_loop id turns (Running_start o (stderr t)) in
      match r with
      | Err e => (Err e, {| stdout := so_writer (run_output run); stderr := run_stderr run |})
      | Ok _ =>
          let '(r, o) := finish_output (run_output run) in
          (let? rows := r in Ok (run, rows), {| stdout := so_writer o; stderr := run_stderr run |})
      end
  end.

(** [execute]: [order] is the order in which the items of the query and the
    interrupts arrive, [elapsed] the seconds it took. *)
Definition execute (sql : string) (i : Invocation) (order : list QueryItem → list ExecTurn)
    (elapsed : string) : Sh ExecutionOutcome :=
  s ← get_state;
  handle ← on sh_queries set_sh_queries CoreFailure (Queries.submit (sh_snapshot s) sql i);
  let id := Queries.qh_id handle in
  _ ← eprintln ("Query ID: " +:+ id);
  rr ← on sh_terminal set_sh_terminal OutputFailure
         (stream_items id (order (Queries.qh_items handle)) (display_options (sh_snapshot s))
            (sh_format s));
  let '(run, rows) := rr in
  _ ← of_result (map_err CoreFailure (Queries.finish handle));
  _ ← eprintln (pretty rows +:+ " rows");
  _ ← match run_engine_id run with
      | Some e => eprintln ("Engine query ID: " +:+ e)
      | None => mret tt
      end;
  _ ← (if sh_timing s then eprintln ("Time: " +:+ elapsed +:+ "s") else mret tt);
  mret {| outcome_status := "completed: " +:+ pretty rows +:+ " rows, query " +:+ id
            +:+ match run_engine_id run with
                | Some e => ", engine query " +:+ e
                | None => EmptyString
                end;
          outcome_properties := run_properties run |}.

(** ** The read loop *)

(** What a turn of the loop gets: the line, and what the command or the
    statement it carries observes. *)
Record TurnInput := {
  ti_line : result string ReadlineError;
  ti_moment : Moment;
  ti_order : list QueryItem → list ExecTurn;
  ti_elapsed : string;
}.

Fixpoint apply_properties (values : list (string * string)) : Sh unit :=
  match values with
  | [] => mret tt
  | (name, value) :: values => _ ← set_session_option name value; apply_properties values
  end.

(** What [run] does with the outcome of a statement. *)
Definition conclude_statement (r : result ExecutionOutcome ReplError) : Sh unit :=
  match r with
  | Ok outcome =>
      _ ← modify (set_sh_status (outcome_status outcome));
      _ ← apply_properties (sorted_entries (outcome_properties outcome));
      forget_metadata
  | Err error =>
      _ ← eprintln ("error: " +:+ ReplError_display error);
      modify (set_sh_status ("failed: " +:+ ReplError_display error))
  end.

(** A complete statement: it leaves the buffer, is offered to the history and
    runs; its session properties become the session's. *)
Definition run_statement (history_enabled : bool) (t : TurnInput) : Sh unit :=
  sql ← gets sh_buffer;
  _ ← modify (set_sh_buffer EmptyString);
  _ ← (if history_enabled && safe_for_history sql
       then modify (λ s, set_sh_history (sh_history s ++ [trim sql]) s) else mret tt);
  r ← attempt (execute (statement_of sql) (moment_invocation (ti_moment t)) (ti_order t)
                 (ti_elapsed t));
  conclude_statement r.

Definition is_meta (line buffer : string) : bool :=
  starts_with "\" (trim line)
  && (is_empty buffer || is_one_of (trim line) ["\p"; "\r"]).

Definition prompt (s : Shell) : string :=
  if is_empty (sh_buffer s) then context_prompt (sh_snapshot s) else "   -> ".

(** One turn of the loop of [run]: whether the shell goes on. *)
Definition turn (history_enabled : bool) (t : TurnInput) : Sh bool :=
  s ← get_state;
  match ti_line t with
  | Ok line =>
      if is_meta line (sh_buffer s) then meta_command line (ti_moment t)
      else
        let buffer := (if is_empty (sh_buffer s) then EmptyString
                       else sh_buffer s +:+ Output.newline) +:+ line in
        _ ← modify (set_sh_buffer buffer);
        _ ← (if statement_complete buffer then run_statement history_enabled t else mret tt);
        mret true
  | Err Interrupted =>
      _ ← modify (set_sh_buffer EmptyString);
      _ ← println "^C";
      mret true
  | Err Eof => mret false
  | Err error => fail (LineFailure error)
  end.

(** The loop over the lines read so far: [true] while it waits for the next. *)
Fixpoint run_loop (history_enabled : bool) (ts : list TurnInput) : Sh bool :=
  match ts with
  | [] => mret true
  | t :: ts =>
      go ← turn history_enabled t;
      if (go : bool) then run_loop history_enabled ts else mret false
  end.

(** The state the loop starts in, for the chosen target; durations are in
    nanoseconds. *)
Definition history_enabled_of (t : ResolvedTarget) : bool :=
  default true ((target_properties t !! "history") ≫= λ v, parse_bool (expose v)).

Definition initial_completions : list string :=
  ["\targets"; "\use"; "\catalogs"; "\schemas"; "\tables"; "\describe"; "\use-catalog";
   "\use-schema"; "\status"; "\properties"; "SELECT"; "FROM"; "WHERE"].

Definition Shell_start (env : string → option string) (now_minute : string)
    (ids_ : Sessions.SessionIdState) (adapters : list EngineAdapter) (target : ResolvedTarget)
    (terminal : Terminal) : option Shell :=
  match Sessions.create env now_minute target (Sessions.SessionManager_default ids_) with
  | (Ok snap, sessions) =>
      Some {| sh_sessions := sessions;
              sh_metadata := MetadataService_new adapters (30 * 10 ^ 9);
              sh_queries := Queries.QueryService_new adapters 8;
              sh_snapshot := snap;
              sh_buffer := EmptyString;
              sh_format := property_format (snap_properties snap);
              sh_timing := property_bool (snap_properties snap) "timing" true;
              sh_status := "no query submitted";
              sh_properties := target_properties target;
              sh_overrides := ∅;
              sh_completions :=
                extend_completions initial_completions (target_name <$> targets_of config);
              sh_history := [];
              sh_terminal := println_to ("Connected to '" +:+ snap_target snap +:+ "' ("
                +:+ snap_engine snap +:+ "). Type \help for help.") terminal |}
  | (Err _, _) => None
  end.

(** ** The whole session *)

Definition history_limit_of (t : ResolvedTarget) : Z :=
  default 10000 ((target_properties t !! "history_limit") ≫= λ v, parse_u64 (expose v)).

(** The line editor's side of the history, over the files [F], and what else
    touches them. *)
Record HistoryFiles (F : Type) := {
  load_history : string → M F ReadlineError (list string);
  store_history : list string → string → M F ReadlineError unit;
  (** The limit of the history, and the entries the editor keeps under it. *)
  set_max_history_size : Z → result unit ReadlineError;
  kept_entries : Z → list string → list string;
  create_dir_all : string → M F string unit;
  set_permissions : string → Z → M F string unit;
}.

Context {F : Type} (files : HistoryFiles F).
(** [Path::parent]. *)
Variable parent : string → option string.

Definition save_history (entries : list string) (path : string) : M F ReplError unit :=
  _ ← match parent path with
      | Some dir => on (λ f : F, f) (λ f _, f) IoFailure (create_dir_all F files dir)
      | None => mret tt
      end;
  _ ← on (λ f : F, f) (λ f _, f) LineFailure (store_history F files entries path);
  (* 0o600 *)
  on (λ f : F, f) (λ f _, f) IoFailure (set_permissions F files path 384).

(** [run], over the answers to the question for a target and the inputs of the
    turns: [None] while it waits for the next. *)
Definition repl_run (requested : option string) (answers : list (result string ReadlineError))
    (ts : list TurnInput) (path : string) (env : string → option string) (now_minute : string)
    (ids_ : Sessions.SessionIdState) (adapters : list EngineAdapter) (t : Terminal) (f : F) :
    option (result unit ReplError) * F * Terminal :=
  match choose_target config requested answers t with
  | (None, t) => (None, f, t)
  | (Some (Err e), t) => (Some (Err e), f, t)
  | (Some (Ok target), t) =>
      match set_max_history_size F files (history_limit_of target) with
      | Err e => (Some (Err (LineFailure e)), f, t)
      | Ok _ =>
      let enabled := history_enabled_of target in
      let '(loaded, f) := if enabled then load_history F files path f else (Ok [], f) in
      match Shell_start env now_minute ids_ adapters target t with
      | None => (None, f, t)
      | Some s0 =>
          match run_loop enabled ts s0 with
          | (Err e, s) => (Some (Err e), f, sh_terminal s)
          | (Ok true, s) => (None, f, sh_terminal s)
          | (Ok false, s) =>
              if enabled then
                let entries := kept_entries F files (history_limit_of target)
                                 (default [] (ok_of loaded) ++ sh_history s) in
                let '(r, f) := save_history entries path f in (Some r, f, sh_terminal s)
              else (Some (Ok tt), f, sh_terminal s)
          end
      end
      end
  end.
End Repl.
