(* ===== verification/ReplFacts.v ===== *)
(** * The shell: what holds after every turn

    The snapshot the shell keeps is always the current one of its session, so
    no command ever meets a version conflict; the buffer never holds a
    statement that is complete; nothing that looks like a credential reaches
    the history.  Values of sensitive properties never reach the terminal. *)
From stdpp Require Import sorting.
From S2P Require Import Prelude Text Arrow DriverApi Config ConfigFacts Core Metadata Chars.
From S2P Require Import Output ReplText Repl.
From Stdlib Require Import Ascii.

Section ReplFacts.
Context `{ar : Arrow}.
Context {Any : Type}.
Variable hash_properties : gmap string string → Z.
Variable text_batch : RecordBatch → TextBatch (Any:=Any).
Variable format_any : Any → result string string.
Variable csv_text : bool → ascii → TextBatch (Any:=Any) → result string string.
Variable json_encode : TextBatch (Any:=Any) → result string string.
Variable json_parse : string → result (list Value) string.
Variable json_text : Value → string.
Variable readline_text : ReadlineError → string.
Variable config : Config.

Abbreviation meta_command := (meta_command hash_properties config).
Abbreviation execute :=
  (execute text_batch format_any csv_text json_encode json_parse json_text).
Abbreviation run_statement := (run_statement text_batch format_any csv_text json_encode
  json_parse json_text readline_text).
Abbreviation conclude_statement := (conclude_statement readline_text).
Abbreviation turn := (turn hash_properties text_batch format_any csv_text json_encode
  json_parse json_text readline_text config).
Abbreviation run_loop := (run_loop hash_properties text_batch format_any csv_text json_encode
  json_parse json_text readline_text config).
Abbreviation Sh A := (M Shell ReplError A).

(** The snapshot and the displayed properties are those of the session. *)
Definition in_sync (s : Shell) : Prop :=
  ∃ session, Sessions.sessions (sh_sessions s) !! snap_id (sh_snapshot s) = Some session ∧
    sh_snapshot s = Sessions.snapshot_of session ∧
    sh_properties s = target_properties (session_target session).

Definition history_safe (s : Shell) : Prop :=
  Forall (λ h, ∃ sql, h = trim sql ∧ safe_for_history sql = true) (sh_history s).

(** The invariant, with [B] for the buffer. *)
Definition shell_inv (B : string → Prop) (s : Shell) : Prop :=
  in_sync s ∧ history_safe s ∧ B (sh_buffer s).

Definition unfinished (buffer : string) : Prop :=
  buffer = EmptyString ∨ statement_complete buffer = false.

(** The errors that end the shell: the terminal's, an output format that does
    not exist, and a driver's answer to a metadata command. *)
Definition expected_error (e : ReplError) : Prop :=
  match e with
  | LineFailure _ | OutputFailure _ | CoreFailure (Driver _) => True
  | _ => False
  end.

Definition good {A} (B : string → Prop) (m : Sh A) : Prop :=
  triple (shell_inv B) m (λ _, shell_inv B) (λ e s, shell_inv B s ∧ expected_error e).

Section Rules.
Context (B : string → Prop).

Lemma good_ret {A} (a : A) : good B (mret a).
Proof. by intros s. Qed.
Lemma good_gets {A} (f : Shell → A) : good B (gets f).
Proof. by intros s. Qed.
Lemma good_get_state : good B get_state.
Proof. by intros s. Qed.
Lemma good_bind {A C} (m : Sh A) (f : A → Sh C) :
  good B m → (∀ a, good B (f a)) → good B (mbind f m).
Proof. apply triple_bind. Qed.
Lemma good_if {A} (b : bool) (m1 m2 : Sh A) :
  good B m1 → good B m2 → good B (if b then m1 else m2).
Proof. by destruct b. Qed.
Lemma good_modify (f : Shell → Shell) :
  (∀ s, shell_inv B s → shell_inv B (f s)) → good B (modify f).
Proof. intros H s. apply H. Qed.
Lemma good_println t : good B (println t).
Proof. by apply good_modify. Qed.
Lemma good_eprintln t : good B (eprintln t).
Proof. by apply good_modify. Qed.
Lemma good_print_lines ls : good B (print_lines ls).
Proof.
  induction ls; simpl; [apply good_ret|]. apply good_bind; [apply good_println|by intros].
Qed.
Lemma good_on_metadata {A} (m : M MetadataService DriverError A) : good B (on_metadata m).
Proof.
  intros s Hs. unfold on_metadata, on. by destruct (m (sh_metadata s)) as [[a|e] t].
Qed.
Lemma good_try_metadata {A} (m : M MetadataService DriverError A) : good B (try_metadata m).
Proof. intros s Hs. unfold try_metadata. by destruct (m (sh_metadata s)) as [r t]. Qed.
Lemma good_format v : good B (of_result (map_err OutputFailure (OutputFormat_from_str v))).
Proof. intros s Hs. unfold of_result. by destruct (OutputFormat_from_str v). Qed.
Lemma good_completions f :
  good B (modify (λ s, set_sh_completions (f s) s)).
Proof. by apply good_modify. Qed.

(** A mutation of the current session is never refused, and its snapshot is
    the shell's next one. *)
Lemma set_session_option_shape name value s :
  in_sync s →
  ∃ ss snap, set_session_option name value s
      = (Ok tt, set_sh_snapshot snap (set_sh_sessions ss s)) ∧
    in_sync (set_sh_snapshot snap (set_sh_sessions ss s)) ∧
    snap_id snap = snap_id (sh_snapshot s) ∧
    snap_version snap = u64_add (snap_version (sh_snapshot s)) 1 ∧
    snap_target snap = snap_target (sh_snapshot s) ∧
    snap_engine snap = snap_engine (sh_snapshot s) ∧
    snap_properties snap = <[name := value]> (snap_properties (sh_snapshot s)).
Proof.
  intros (session & Hl & Hsnap & Hp).
  assert (session_version session = snap_version (sh_snapshot s)) as Hv by by rewrite Hsnap.
  assert (session_id session = snap_id (sh_snapshot s)) as Hid by by rewrite Hsnap.
  eexists _, _. unfold set_session_option, on_sessions, Sessions.set_option, Sessions.set_options.
  unfold_M. simpl. rewrite Hl. simpl. rewrite <- Hv, Z.eqb_refl. simpl.
  split; [reflexivity|]. split.
  { eexists. simpl. rewrite Hid, lookup_insert_eq. split; [reflexivity|]. by split. }
  rewrite Hsnap. simpl. split_and!; [done..|].
  apply map_eq. intros k. rewrite !lookup_extend. destruct (decide (k = name)) as [->|Hne].
  - by rewrite lookup_singleton_eq, lookup_insert_eq.
  - by rewrite lookup_singleton_ne, lookup_insert_ne, lookup_extend by done.
Qed.

Lemma good_set_session_option name value : good B (set_session_option name value).
Proof.
  intros s (Hsync & Hh & HB).
  by destruct (set_session_option_shape name value s Hsync) as (ss & snap & -> & H & _).
Qed.

Lemma good_forget_metadata : good B forget_metadata.
Proof. apply good_bind; [apply good_gets|intros]. apply good_on_metadata. Qed.
End Rules.

Ltac good_step :=
  first [ apply good_ret | apply good_gets | apply good_get_state | apply good_println
        | apply good_eprintln | apply good_print_lines | apply good_on_metadata
        | apply good_try_metadata | apply good_format | apply good_completions
        | apply good_set_session_option | apply good_forget_metadata
        | (by apply good_modify) | apply good_if | apply good_bind; [|intros ?] ].

(** Switching the target keeps the shell in step with its session. *)
Lemma good_use_target B name m : good B (use_target hash_properties config name m).
Proof.
  intros s Hs. unfold use_target. unfold mbind at 1, M_bind at 1, get_state, gets.
  destruct (config_target config name) as [target|]; [|by apply good_eprintln].
  unfold mbind at 1, M_bind at 1, try_metadata. destruct (catalogs _ _ _ _ _) as [[l|e] t];
    [|by apply good_eprintln].
  destruct Hs as ((session & Hl & Hsnap & Hp) & Hh & HB).
  assert (session_version session = snap_version (sh_snapshot s)) as Hv by by rewrite Hsnap.
  assert (session_id session = snap_id (sh_snapshot s)) as Hid by by rewrite Hsnap.
  unfold on_sessions, Sessions.switch_target, on_metadata, invalidate_target, println. unfold_M.
  simpl. rewrite Hl. simpl. rewrite <- Hv, Z.eqb_refl. simpl. split_and!; [|done..].
  eexists. simpl. rewrite Hid, lookup_insert_eq. done.
Qed.

Lemma good_set_command B name value : good B (set_command name value).
Proof. unfold set_command. repeat good_step. Qed.

Lemma good_meta_command B line m : B EmptyString → good B (meta_command line m).
Proof.
  intros HB. unfold Repl.meta_command. apply good_bind; [apply good_get_state|intros s].
  assert (∀ c : Sh unit, good B c → good B (_ ← c; mret true)) as Hkeep.
  { intros c Hc. apply good_bind; [done|intros; apply good_ret]. }
  assert (good B (_ ← modify (set_sh_buffer EmptyString); println "Query buffer cleared.")).
  { apply good_bind; [|intros; apply good_println]. apply good_modify. by intros s0 (? & ? & ?). }
  destruct (split_whitespace line) as [|cmd [|arg [|value [|]]]];
    repeat (case_match; [first [apply Hkeep | apply good_ret]|]);
    try (apply Hkeep; apply good_eprintln); try done; try apply good_use_target.
  all: unfold list_catalogs_command, list_schemas_command, list_tables_command,
    describe_command, complete_and_print, use_catalog, use_schema, format_command,
    toggle_timing, timing_command, set_command; repeat good_step.
  case_match; repeat good_step.
Qed.

(** A statement changes the query service and the terminal only. *)
Lemma execute_inv B sql i order elapsed s :
  shell_inv B s → shell_inv B (execute sql i order elapsed s).2.
Proof.
  intros Hs. unfold Repl.execute. unfold mbind at 1, M_bind at 1, get_state, gets.
  unfold mbind at 1, M_bind at 1, on.
  destruct (Queries.submit _ _ _ _) as [[h|e] q]; [|done]. cbn [map_err].
  unfold mbind at 1, M_bind at 1, eprintln at 1, modify at 1.
  unfold mbind at 1, M_bind at 1. destruct (stream_items _ _ _ _ _ _ _ _ _ _) as [[[run rows]|e] t];
    [|done]. cbn [map_err].
  assert (∀ s0, shell_inv B s0 → ∀ (m : Sh ExecutionOutcome), preserves (shell_inv B) m →
    shell_inv B (m s0).2) as Hp by (intros; auto).
  apply Hp; [done|]. unfold eprintln. preserve.
  all: first [by apply preserves_modify | case_match; preserve; by apply preserves_modify].
Qed.

Lemma good_run_statement B history t s :
  B EmptyString → shell_inv (λ _, True) s →
  match run_statement history t s with
  | (Ok _, s') => shell_inv B s'
  | (Err e, s') => shell_inv B s' ∧ expected_error e
  end.
Proof.
  intros HB (Hsync & Hh & _).
  set (s2 := if history && safe_for_history (sh_buffer s)
             then set_sh_history (sh_history s ++ [trim (sh_buffer s)])
                    (set_sh_buffer EmptyString s)
             else set_sh_buffer EmptyString s).
  assert (run_statement history t s
    = (r ← attempt (execute (statement_of (sh_buffer s)) (moment_invocation (ti_moment t))
         (ti_order t) (ti_elapsed t));
       conclude_statement r) s2) as ->.
  { unfold Repl.run_statement, s2. unfold mbind at 1 2 3, M_bind at 1 2 3, gets, modify.
    by destruct (history && safe_for_history (sh_buffer s)). }
  assert (shell_inv B s2) as Hs2.
  { unfold s2. destruct (history && safe_for_history (sh_buffer s)) eqn:Eh; [|done].
    apply andb_true_iff in Eh as [_ Eh]. split_and!; [done| |done]. apply Forall_app.
    split; [done|]. apply Forall_singleton. by eexists. }
  clearbody s2.
  unfold mbind at 1, M_bind at 1, attempt.
  pose proof (execute_inv B (statement_of (sh_buffer s)) (moment_invocation (ti_moment t))
    (ti_order t) (ti_elapsed t) s2 Hs2) as He.
  destruct (execute _ _ _ _ s2) as [r s3]. simpl in He.
  assert (good B (conclude_statement r)) as Hgood; [|by apply Hgood]. unfold Repl.conclude_statement.
  destruct r as [outcome|error]; repeat good_step.
  induction (sorted_entries _) as [|[n v] l IH]; simpl; repeat good_step; done.
Qed.

Lemma good_turn history t : good unfinished (turn history t).
Proof.
  intros s Hs. unfold Repl.turn. unfold mbind at 1, M_bind at 1, get_state, gets.
  destruct (ti_line t) as [line|[| |e]].
  - destruct (is_meta line (sh_buffer s)).
    { apply good_meta_command; [by left|done]. }
    set (buffer := _ +:+ line). unfold mbind at 1, M_bind at 1, modify at 1.
    unfold mbind at 1, M_bind at 1.
    destruct (statement_complete buffer) eqn:E.
    + pose proof (good_run_statement unfinished history t (set_sh_buffer buffer s)) as Hr.
      destruct (run_statement _ _ _) as [[?|?] s']; apply Hr; try (by left); by destruct Hs as (?&?&?).
    + destruct Hs as (? & ? & _). split_and!; [done..|]. by right.
  - destruct Hs as (? & ? & _). split_and!; [done..|]. by left.
  - done.
  - done.
Qed.

Lemma run_loop_inv history ts env now_minute ids adapters target terminal s0 :
  Shell_start config env now_minute ids adapters target terminal = Some s0 →
  match run_loop history ts s0 with
  | (Ok _, s) => shell_inv unfinished s
  | (Err e, s) => shell_inv unfinished s ∧ expected_error e
  end.
Proof.
  intros Hstart.
  assert (shell_inv unfinished s0) as H0.
  { unfold Shell_start, Sessions.create, Sessions.create_with_overrides in Hstart.
    destruct (Sessions.next_session_id _ _ _) as [id i]. injection Hstart as <-.
    split_and!; [|constructor|by left]. eexists. simpl. by rewrite lookup_insert_eq. }
  clear Hstart. revert s0 H0. change (good unfinished (run_loop history ts)).
  induction ts as [|t ts IH]; simpl; [apply good_ret|].
  apply good_bind; [apply good_turn|]. intros []; [done|apply good_ret].
Qed.


Context {F : Type} (files : HistoryFiles F) (parent : string → option string).
Abbreviation repl_run := (repl_run hash_properties text_batch format_any csv_text json_encode
  json_parse json_text readline_text config files parent).

(** The history file.  A session that ended without an error has written its
    history, if it keeps one, and made the file private; every entry was in the
    file before, or is a statement of the session that looks like no
    credential. *)
Theorem history_files_are_clean requested answers ts path env now_minute ids adapters t f f' t' :
  (∀ limit entries, kept_entries F files limit entries ⊆ entries) →
  repl_run requested answers ts path env now_minute ids adapters t f = (Some (Ok tt), f', t') →
  ∃ target t1, choose_target config requested answers t = (Some (Ok target), t1) ∧
    if history_enabled_of target then
      ∃ loaded f1 entries, load_history F files path f = (loaded, f1) ∧
        save_history files parent entries path f1 = (Ok tt, f') ∧
        Forall (λ e, e ∈ default [] (ok_of loaded) ∨
                     ∃ sql, e = trim sql ∧ safe_for_history sql = true) entries
    else f' = f.
Proof.
  intros Hkept. unfold Repl.repl_run.
  destruct (choose_target config requested answers t) as [[[target|e]|] t1]; [|done|done].
  destruct (set_max_history_size F files _); [|done].
  intros H. exists target, t1. split; [done|].
  destruct (history_enabled_of target).
  - destruct (load_history F files path f) as [loaded f1].
    destruct (Shell_start _ _ _ _ _ _ _) as [s0|] eqn:Es; [|done].
    pose proof (run_loop_inv true ts _ _ _ _ _ _ _ Es) as Hi.
    destruct (run_loop true ts s0) as [[[]|e] s]; [done| |done]. destruct Hi as (_ & Hh & _).
    destruct (save_history files parent _ path f1) as [r f2] eqn:Ev. injection H as -> -> _.
    eexists loaded, f1, _. split; [done|]. split; [exact Ev|].
    apply Forall_forall. intros e He%Hkept. apply elem_of_app in He as [He|He]; [by left|right].
    by apply (proj1 (Forall_forall _ _) Hh).
  - destruct (Shell_start _ _ _ _ _ _ _) as [s0|]; [|done].
    destruct (run_loop false ts s0) as [[[]|e] s]; [done| |done]. by injection H as ->.
Qed.
End ReplFacts.

(** ** The shell: secrets, failed switches and stale listings

    Two shells that differ only in the values of sensitive properties print the
    same and stay that way, also when the values typed at [\set] differ; a
    switch that fails leaves everything but the metadata cache as it was. *)

(** ** Entries in order *)

Lemma key_le_sorted {A} (m : gmap string A) : StronglySorted key_le (sorted_entries m).
Proof.
  apply Sorted_StronglySorted.
  - intros a b c. unfold key_le. apply string_le_transitive.
  - apply Sorted_merge_sort. intros a b. unfold key_le. apply string_le_total.
Qed.

(** Changing the values changes nothing of the order. *)
Lemma sorted_entries_imap {A C} (f : string → A → C) (m : gmap string A) :
  sorted_entries (map_imap (λ k v, Some (f k v)) m)
  = (λ e, (e.1, f e.1 e.2)) <$> sorted_entries m.
Proof.
  set (g := λ e : string * A, (e.1, f e.1 e.2)).
  assert (NoDup (g <$> sorted_entries m)).
  { apply (NoDup_fmap_1 fst). rewrite <- list_fmap_compose.
    change (fst ∘ g) with (fst (A:=string) (B:=A)). apply NoDup_sorted_entries. }
  apply (StronglySorted_unique_strong key_le).
  - intros [k v] [k' v'] H1 H2 Hle Hge. unfold key_le in *. simpl in *.
    pose proof (String.leb_antisym _ _ Hle Hge) as <-. f_equal.
    apply elem_of_sorted_entries in H1. simpl in H1. rewrite map_lookup_imap in H1.
    apply list_elem_of_fmap in H2 as ([k0 v0] & [= -> ->] & H2).
    apply elem_of_sorted_entries in H2. simpl in *. rewrite H2 in H1. simpl in H1. congruence.
  - apply key_le_sorted.
  - pose proof (key_le_sorted m) as Hs. induction Hs as [|e l Hl IH He]; csimpl; constructor.
    + apply IH. by apply NoDup_cons in H as [_ H].
    + apply Forall_fmap. eapply Forall_impl; [exact He|]. done.
  - apply NoDup_Permutation; [|done|].
    + eapply NoDup_fmap_1, NoDup_sorted_entries.
    + intros [k v]. rewrite list_elem_of_fmap. split.
      * intros H1%elem_of_sorted_entries. simpl in H1. rewrite map_lookup_imap in H1.
        destruct (m !! k) as [v0|] eqn:E; [|done]. simpl in H1. injection H1 as <-.
        exists (k, v0). split; [done|]. by apply elem_of_sorted_entries.
      * intros ([k0 v0] & [= -> ->] & H2%elem_of_sorted_entries).
        apply elem_of_sorted_entries. simpl in *. by rewrite map_lookup_imap, H2.
Qed.

(** ** What two shells may differ in *)

(** The flags of configured properties, as the configuration sets them. *)
Definition flags_ok (p : gmap string ConfigValue) : Prop :=
  ∀ n v, p !! n = Some v → cv_secret v = is_secret n.

(** Equal but for the values of sensitive names. *)
Definition agree {A} (m m' : gmap string A) : Prop :=
  ∀ n, (is_Some (m !! n) ↔ is_Some (m' !! n)) ∧ (is_secret n = false → m !! n = m' !! n).

Lemma is_secret_markers n :
  String.eqb (to_ascii_lowercase n) "url"
  || existsb (λ marker, contains marker (to_ascii_lowercase n))
       ["password"; "token"; "secret"; "private_key"] = is_secret n.
Proof. unfold is_secret. cbn [existsb]. by rewrite orb_false_r, !orb_assoc. Qed.

Lemma sensitive_is_secret n p : flags_ok p → sensitive_property n p = is_secret n.
Proof.
  intros Hp. unfold sensitive_property. cbv zeta. rewrite is_secret_markers.
  specialize (Hp n). destruct (p !! n) as [v|]; [|done].
  unfold value_is_secret. rewrite (Hp v eq_refl). by destruct (is_secret n).
Qed.

Lemma agree_insert {A} (m m' : gmap string A) n v v' :
  agree m m' → (is_secret n = false → v = v') → agree (<[n := v]> m) (<[n := v']> m').
Proof.
  intros H Hv k. destruct (decide (k = n)) as [->|Hne].
  - rewrite !lookup_insert_eq. split; [done|]. intros E. by rewrite (Hv E).
  - by rewrite !lookup_insert_ne by done.
Qed.

(** Sensitive values blanked out. *)
Definition blank_values {A} (blank : A) (m : gmap string A) : gmap string A :=
  map_imap (λ n v, Some (if is_secret n then blank else v)) m.

Lemma agree_blank {A} (blank : A) (m m' : gmap string A) :
  agree m m' → blank_values blank m = blank_values blank m'.
Proof.
  intros H. apply map_eq. intros n. unfold blank_values. rewrite !map_lookup_imap.
  specialize (H n). destruct (is_secret n).
  - destruct H as [[H1 H2] _]. destruct (m !! n), (m' !! n); simpl; [done| | |done].
    + by destruct (H1 (mk_is_Some _ _ eq_refl)).
    + by destruct (H2 (mk_is_Some _ _ eq_refl)).
  - destruct H as [_ ->]; done.
Qed.

(** A listing that does not read sensitive values. *)
Lemma listing_agrees {A} (blank : A) (f f' : string * A → string) (m m' : gmap string A) :
  agree m m' →
  (∀ n v, m !! n = Some v → f (n, v) = f' (n, if is_secret n then blank else v)) →
  (∀ n v, m' !! n = Some v → f' (n, v) = f' (n, if is_secret n then blank else v)) →
  f <$> sorted_entries m = f' <$> sorted_entries m'.
Proof.
  intros Ha Hf Hf'. trans (f' <$> sorted_entries (blank_values blank m)).
  - unfold blank_values. rewrite sorted_entries_imap, <- list_fmap_compose.
    apply list_fmap_ext. intros i [n v] Hi. apply list_elem_of_lookup_2, elem_of_sorted_entries in Hi.
    by apply Hf.
  - rewrite (agree_blank blank m m' Ha). unfold blank_values.
    rewrite sorted_entries_imap, <- list_fmap_compose. apply list_fmap_ext.
    intros i [n v] Hi. apply list_elem_of_lookup_2, elem_of_sorted_entries in Hi.
    symmetry. by apply Hf'.
Qed.

Lemma property_listing p p' o o' :
  flags_ok p → flags_ok p' → agree p p' → agree o o' →
  property_line o <$> sorted_entries p = property_line o' <$> sorted_entries p'.
Proof.
  intros Hp Hp' Ha Ho. apply (listing_agrees {| cv_value := ""; cv_secret := true |}); [done|..].
  - intros n v Hv. unfold property_line, value_is_secret. simpl. rewrite (Hp n v Hv).
    destruct (is_secret n) eqn:E; [done|]. rewrite (Hp n v Hv), E.
    by rewrite (proj2 (Ho n) E).
  - intros n v Hv. unfold property_line, value_is_secret. simpl.
    destruct (is_secret n) eqn:E; [|done]. by rewrite (Hp' n v Hv), E.
Qed.

(** The entries of the overrides that are not properties of the target. *)
Definition extra (p : gmap string ConfigValue) (o : gmap string string) : gmap string string :=
  filter (λ e, p !! e.1 = None) o.

Lemma sorted_filter {A} (P : string * A → Prop) `{!∀ e, Decision (P e)} (m : gmap string A) :
  filter P (sorted_entries m) = sorted_entries (filter P m).
Proof.
  apply (StronglySorted_unique_strong key_le).
  - intros [k v] [k' v'] H1 H2 Hle Hge. unfold key_le in *. simpl in *.
    pose proof (String.leb_antisym _ _ Hle Hge) as <-. f_equal.
    apply list_elem_of_filter in H1 as [_ H1%elem_of_sorted_entries].
    apply elem_of_sorted_entries, map_lookup_filter_Some in H2 as [H2 _]. congruence.
  - pose proof (key_le_sorted m) as Hs. induction Hs as [|e l Hl IH He]; [constructor|].
    rewrite filter_cons. case_decide; [|done]. constructor; [done|].
    apply Forall_forall. intros x [_ Hx]%list_elem_of_filter. rewrite Forall_forall in He. by apply He.
  - apply key_le_sorted.
  - apply NoDup_Permutation.
    + apply NoDup_filter. eapply NoDup_fmap_1, NoDup_sorted_entries.
    + eapply NoDup_fmap_1, NoDup_sorted_entries.
    + intros [k v]. rewrite list_elem_of_filter, !elem_of_sorted_entries, map_lookup_filter_Some.
      tauto.
Qed.

Lemma override_listing p p' o o' :
  flags_ok p → flags_ok p' → agree p p' → agree o o' →
  override_line p <$> filter (λ e, p !! e.1 = None) (sorted_entries o)
  = override_line p' <$> filter (λ e, p' !! e.1 = None) (sorted_entries o').
Proof.
  intros Hp Hp' Ha Ho. rewrite !sorted_filter. fold (extra p o) (extra p' o').
  assert (∀ n, p !! n = None ↔ p' !! n = None) as Hnone.
  { intros n. destruct (Ha n) as [Hs _]. rewrite !eq_None_not_Some. tauto. }
  apply (listing_agrees EmptyString).
  - intros n. unfold extra. destruct (Ho n) as [Hs Hv]. split.
    + split; intros (x & [Hx Hn]%map_lookup_filter_Some); simpl in Hn.
      * destruct (proj1 Hs (mk_is_Some _ _ Hx)) as [y Hy]. exists y.
        apply map_lookup_filter_Some. split; [done|]. by apply Hnone.
      * destruct (proj2 Hs (mk_is_Some _ _ Hx)) as [y Hy]. exists y.
        apply map_lookup_filter_Some. split; [done|]. by apply Hnone.
    + intros E. specialize (Hv E). apply option_eq. intros x.
      rewrite !map_lookup_filter_Some. simpl. by rewrite Hv, (Hnone n).
  - intros n v _. unfold override_line. simpl. rewrite !sensitive_is_secret by done.
    by destruct (is_secret n).
  - intros n v _. unfold override_line. simpl. rewrite !sensitive_is_secret by done.
    by destruct (is_secret n).
Qed.

Section Secrets.
Context `{ar : Arrow}.
Variable hash_properties : gmap string string → Z.
Variable config : Config.

Abbreviation meta_command := (meta_command hash_properties config).

(** Two shells an observer of the terminal cannot tell apart: they differ at
    most in the values of sensitive properties, and in what the adapters, the
    session store and the metadata cache hold. *)
Record same_view (s s' : Shell) : Prop := {
  sv_properties : agree (sh_properties s) (sh_properties s');
  sv_overrides : agree (sh_overrides s) (sh_overrides s');
  sv_snapshot : agree (snap_properties (sh_snapshot s)) (snap_properties (sh_snapshot s'));
  sv_id : snap_id (sh_snapshot s) = snap_id (sh_snapshot s');
  sv_version : snap_version (sh_snapshot s) = snap_version (sh_snapshot s');
  sv_target : snap_target (sh_snapshot s) = snap_target (sh_snapshot s');
  sv_engine : snap_engine (sh_snapshot s) = snap_engine (sh_snapshot s');
  sv_buffer : sh_buffer s = sh_buffer s';
  sv_format : sh_format s = sh_format s';
  sv_timing : sh_timing s = sh_timing s';
  sv_status : sh_status s = sh_status s';
  sv_completions : sh_completions s = sh_completions s';
  sv_history : sh_history s = sh_history s';
  sv_terminal : sh_terminal s = sh_terminal s';
}.

(** The commands that ask an adapter, to which the properties are shown. *)
Definition metadata_commands : list string :=
  ["\use"; "\catalogs"; "\schemas"; "\tables"; "\describe"; "\use-catalog"; "\use-schema"].

(** The same line, but for the value given to a sensitive property. *)
Definition same_line (l l' : string) : Prop :=
  match split_whitespace l, split_whitespace l' with
  | [c; n; v], [c'; n'; v'] => c = c' ∧ n = n' ∧ (is_secret n = false → v = v')
  | p, p' => p = p'
  end.

Lemma status_line_same s s' : same_view s s' → status_line s = status_line s'.
Proof.
  intros [_ _ Hs Hid Hv Ht He _ _ _ Hst _ _ _]. unfold status_line.
  rewrite Hid, Hv, Ht, He, Hst, (proj2 (Hs "catalog") eq_refl), (proj2 (Hs "schema") eq_refl).
  done.
Qed.

Lemma property_lines_same s s' :
  flags_ok (sh_properties s) → flags_ok (sh_properties s') → same_view s s' →
  property_lines (sh_properties s) (sh_overrides s)
  = property_lines (sh_properties s') (sh_overrides s').
Proof.
  intros Hf Hf' Hv. unfold property_lines.
  f_equal; [by apply property_listing; destruct Hv|by apply override_listing; destruct Hv].
Qed.

(** Both shells are in step with their sessions, and indistinguishable. *)
Definition paired (s s' : Shell) : Prop :=
  same_view s s' ∧ in_sync s ∧ in_sync s' ∧
  flags_ok (sh_properties s) ∧ flags_ok (sh_properties s').

(** Two runs with the same answer that keep shells indistinguishable. *)
Definition alike {A} (m m' : M Shell ReplError A) : Prop :=
  ∀ s s', paired s s' → (m s).1 = (m' s').1 ∧ paired (m s).2 (m' s').2.

Lemma alike_ret {A} (a : A) : alike (mret a) (mret a).
Proof. by intros s s'. Qed.
Lemma alike_fail {A} (r : result A ReplError) : alike (of_result r) (of_result r).
Proof. by intros s s'. Qed.
Lemma alike_bind {A C} (m m' : M Shell ReplError A) (f f' : A → M Shell ReplError C) :
  alike m m' → (∀ a, alike (f a) (f' a)) → alike (mbind f m) (mbind f' m').
Proof.
  intros Hm Hf s s' H. specialize (Hm s s' H). unfold mbind, M_bind.
  destruct (m s) as [r t], (m' s') as [r' t']. simpl in Hm. destruct Hm as [<- Ht].
  destruct r as [a|e]; [by apply Hf|done].
Qed.
Lemma alike_state {A} (f f' : Shell → M Shell ReplError A) :
  (∀ s s', paired s s' → (f s s).1 = (f' s' s').1 ∧ paired (f s s).2 (f' s' s').2) →
  alike (mbind f get_state) (mbind f' get_state).
Proof. intros H s s'. apply H. Qed.
Lemma alike_modify (f f' : Shell → Shell) :
  (∀ s s', paired s s' → paired (f s) (f' s')) → alike (modify f) (modify f').
Proof. intros H s s' Hp. split; [done|by apply H]. Qed.
Lemma alike_println t : alike (println t) (println t).
Proof.
  apply alike_modify. intros s s' ([] & H). split; [|done]. split; simpl; try done. congruence.
Qed.
Lemma alike_eprintln t : alike (eprintln t) (eprintln t).
Proof.
  apply alike_modify. intros s s' ([] & H). split; [|done]. split; simpl; try done. congruence.
Qed.
Lemma alike_print_lines ls : alike (print_lines ls) (print_lines ls).
Proof.
  induction ls as [|l ls IH]; simpl; [apply alike_ret|].
  apply alike_bind; [apply alike_println|done].
Qed.
Lemma alike_display f g :
  (∀ s s', paired s s' → g s = g s') →
  alike (modify (λ s, set_sh_display (default (sh_format s) f) (g s) s))
        (modify (λ s, set_sh_display (default (sh_format s) f) (g s) s)).
Proof.
  intros Hg. apply alike_modify. intros s s' Hp. pose proof (Hg s s' Hp).
  destruct Hp as ([] & H'). split; [|done]. split; simpl; try done. destruct f; simpl; congruence.
Qed.

(** [\set]: the value may differ when the property is sensitive. *)
Lemma alike_set_option name v v' :
  (is_secret name = false → v = v') →
  alike (set_session_option name v) (set_session_option name v').
Proof.
  intros Hv s s' ([] & Hin & Hin' & Hf & Hf').
  destruct (set_session_option_shape name v s Hin)
    as (ss & snap & -> & Hs & H1 & H2 & H3 & H4 & H5).
  destruct (set_session_option_shape name v' s' Hin')
    as (ss' & snap' & -> & Hs' & H1' & H2' & H3' & H4' & H5').
  split; [done|]. split_and!; [|done..]. split; simpl; try done; try congruence.
  rewrite H5, H5'. by apply agree_insert.
Qed.

Lemma alike_set_command name v v' :
  (is_secret name = false → v = v') → alike (set_command name v) (set_command name v').
Proof.
  intros Hv. unfold set_command. apply alike_bind; [by apply alike_set_option|intros _].
  apply alike_bind; [|intros _].
  { apply alike_modify. intros s s' ([] & H). split; [|done]. split; simpl; try done.
    by apply agree_insert. }
  apply alike_bind; [|intros _].
  { destruct (String.eqb_spec name "output_format") as [->|]; [|apply alike_ret].
    rewrite (Hv eq_refl). apply alike_bind; [apply alike_fail|intros f].
    apply (alike_display (Some f) sh_timing). by intros s s' [[] _]. }
  apply alike_bind; [|intros _].
  { destruct (String.eqb_spec name "timing") as [->|]; [|apply alike_ret].
    rewrite (Hv eq_refl).
    apply (alike_display None (λ s, default (sh_timing s) (parse_on_off v'))).
    intros s s' [[] _]. by f_equal. }
  apply alike_state. intros s s' Hp. destruct (Hp) as (_ & _ & _ & Hf & Hf').
  rewrite !sensitive_is_secret by done. destruct (is_secret name) eqn:E.
  - by apply alike_println.
  - rewrite (Hv eq_refl). by apply alike_println.
Qed.

Lemma alike_toggle_timing : alike toggle_timing toggle_timing.
Proof.
  unfold toggle_timing. apply alike_bind; [|intros _].
  { apply (alike_display None (λ s, negb (sh_timing s))). intros s s' [[] _]. by f_equal. }
  apply alike_state. intros s s' Hp. rewrite (sv_timing s s' (proj1 Hp)). by apply alike_println.
Qed.

Lemma alike_clear_buffer :
  alike (_ ← modify (set_sh_buffer EmptyString); println "Query buffer cleared.")
        (_ ← modify (set_sh_buffer EmptyString); println "Query buffer cleared.").
Proof.
  apply alike_bind; [|intros; apply alike_println]. apply alike_modify.
  intros s s' ([] & H). split; [|done]. by split.
Qed.

Lemma alike_format_command v : alike (format_command v) (format_command v).
Proof.
  unfold format_command. apply alike_bind; [apply alike_fail|intros f].
  apply alike_bind; [|intros; apply alike_println].
  apply (alike_display (Some f) sh_timing). by intros s s' [[] _].
Qed.

Lemma alike_timing_command v : alike (timing_command v) (timing_command v).
Proof.
  unfold timing_command. destruct (parse_on_off v) as [b|]; [|apply alike_eprintln].
  apply alike_bind; [|intros; apply alike_println].
  by apply (alike_display None (λ _, b)).
Qed.

Lemma same_line_cases l l' :
  same_line l l' →
  (∃ c n v v', split_whitespace l = [c; n; v] ∧ split_whitespace l' = [c; n; v'] ∧
     (is_secret n = false → v = v')) ∨
  split_whitespace l = split_whitespace l'.
Proof.
  unfold same_line. destruct (split_whitespace l) as [|c [|n [|v [|]]]]; auto.
  destruct (split_whitespace l') as [|c' [|n' [|v' [|]]]]; auto.
  intros (<- & <- & H). left. by exists c, n, v, v'.
Qed.


(** ** Switching and listing *)

(** A switch to a target that does not exist, or whose engine does not answer,
    prints one line of error and keeps the session, the context and the display
    settings; only the metadata cache may have changed. *)
Lemma failed_switch_keeps_context name m s :
  match config_target config name with
  | None => True
  | Some target => ∃ e, (catalogs hash_properties (request_from_target target None)
      (moment_invocation m) (moment_done m) (sh_metadata s)).1 = Err e
  end →
  ∃ md line, use_target hash_properties config name m s
    = (Ok tt, set_sh_terminal (eprintln_to line (sh_terminal s)) (set_sh_metadata md s)).
Proof.
  intros H. unfold use_target, try_metadata. unfold_M.
  destruct (config_target config name) as [target|].
  - destruct H as [e H]. destruct (catalogs _ _ _ _ _) as [r md]. simpl in H. subst r.
    exists md. eexists. reflexivity.
  - exists (sh_metadata s). eexists. by destruct s.
Qed.

(** The listing of [\properties] reads the target's properties and what [\set]
    recorded: choosing another catalog changes the session, not the listing. *)
Theorem listing_misses_the_catalog c m s :
  in_sync s →
  match catalogs hash_properties (repl_metadata_request (sh_snapshot s) None)
      (moment_invocation m) (moment_done m) (sh_metadata s) with
  | (Ok available, _) => existsb (λ v, String.eqb (cat_name v) c) available = true
  | (Err _, _) => False
  end →
  ∃ s', use_catalog hash_properties c m s = (Ok tt, s') ∧
    snap_properties (sh_snapshot s') !! "catalog" = Some c ∧
    property_lines (sh_properties s') (sh_overrides s')
    = property_lines (sh_properties s) (sh_overrides s).
Proof.
  intros Hin Ha. unfold use_catalog. unfold mbind at 1, M_bind at 1, gets.
  unfold mbind at 1, M_bind at 1, on_metadata at 1, on.
  destruct (catalogs _ _ _ _ _) as [[available|e] md]; [|done]. simpl map_err. cbv iota.
  rewrite Ha. unfold mbind at 1, M_bind at 1.
  destruct (set_session_option_shape "catalog" c (set_sh_metadata md s) Hin)
    as (ss & snap & -> & _ & _ & _ & _ & _ & H5).
  eexists. split; [reflexivity|]. simpl. rewrite H5, lookup_insert_eq. done.
Qed.

(** An output format that does not exist ends the shell: [run] propagates the
    error of the command. *)
Lemma unknown_format_is_an_error v s e :
  OutputFormat_from_str v = Err e → format_command v s = (Err (OutputFailure e), s).
Proof. intros H. unfold format_command. unfold_M. by rewrite H. Qed.
End Secrets.
