(* ===== verification/ShellExamples.v ===== *)
(** * Rendering and the shell: concrete results and sessions

    The batch of the crate's own tests, a name and an amount with six decimal
    places, through every theorem on rendering. *)
From stdpp Require Import sorting.
From S2P Require Import Prelude Text Arrow DriverApi Config Core Metadata Chars Output.
From S2P Require Import OutputFacts ReplText Repl ReplFacts.
From Stdlib Require Import Ascii.

(** The sample batch, a null in each column. *)
Definition sample : TextBatch (Any:=unit) :=
  {| tb_fields := ["name"; "amount"];
     tb_columns := [StringColumn [Some "snowman"; None]; DecimalColumn 6 [Some 123456789; None]];
     tb_rows := 2 |}.
Definition sample_options : DisplayOptions := {| decimal_places := 3; string_truncate := 4 |}.

Definition any_text (_ : unit) : result string string := Ok "()".
Definition csv_none (_ : bool) (_ : ascii) (_ : TextBatch (Any:=unit)) : result string string :=
  Ok EmptyString.
Definition encode_tag (b : TextBatch (Any:=unit)) : result string string := Ok "rows".
Definition sample_fields : list (string * Value) :=
  [("name", VString "snowman"); ("amount", Number 123)].
Definition parse_tag (_ : string) : result (list Value) string :=
  Ok [Object sample_fields; Object [("name", Null); ("amount", Null)]].
Definition text_of (v : Value) : string :=
  match v with
  | Object fields => "{" +:+ join "," ((λ f, f.1 +:+ ":" +:+ match f.2 with
      | VString s => s | Null => "null" | _ => "?" end) <$> fields) +:+ "}"
  | _ => "?"
  end.

Abbreviation sample_stream := (render_stream any_text csv_none encode_tag parse_tag text_of
  EmptyString).

Example sample_json :
  sample_stream JsonFormat sample_options [sample; sample]
  = Ok (4, "[{name:snowman,amount:123.456789},{name:null,amount:null},"
      +:+ "{name:snowman,amount:123.456789},{name:null,amount:null}]" +:+ newline).
Proof. vm_compute. reflexivity. Qed.

Lemma streams_depend_on_rows_only_witness :
  sample_stream Vertical sample_options [sample; sample]
  = let? text := stream_document any_text encode_tag parse_tag text_of Vertical sample_options
                   [sample; sample] in
    Ok (total_rows [sample; sample], text).
Proof. apply streams_depend_on_rows_only; [by right; right|by vm_compute]. Defined.

Lemma json_decimals_are_exact_witness :
  ∃ fields', stringify_decimals sample [Object sample_fields; Null] !! 0%nat
      = Some (Object fields') ∧
    ∀ v, [Some 123456789; None] !! 0%nat = Some (Some v) → 0 ≤ 6 →
      ∃ t, field "amount" fields' = Some (VString t) ∧ parse_decimal t = Some (v, Z.to_nat 6).
Proof.
  apply (json_decimals_are_exact sample [Object sample_fields; Null] 0 1 sample_fields "amount"
    (DecimalColumn 6 [Some 123456789; None])).
  - split; [reflexivity|]. repeat constructor.
  - apply (bool_decide_unpack _). by vm_compute.
  - reflexivity.
  - reflexivity.
  - reflexivity.
Defined.

Lemma decimal_rounds_half_even_witness :
  ∃ r, decimal 1125 3 2 = Some (exact_decimal r (Z.min 3 2)) ∧
    2 * Z.abs (1125 - r * 10 ^ (3 - Z.min 3 2)) ≤ 10 ^ (3 - Z.min 3 2) ∧
    (2 * Z.abs (1125 - r * 10 ^ (3 - Z.min 3 2)) = 10 ^ (3 - Z.min 3 2) → Z.even r = true).
Proof. apply (decimal_rounds_half_even 1125 3 2); lia. Defined.

Example half_to_even :
  decimal 1125 3 2 = Some "1.12" ∧ decimal (-1135) 3 2 = Some "-1.14" ∧ decimal 5 1 0 = Some "0".
Proof. vm_compute. done. Qed.

Lemma table_lines_are_aligned_witness :
  Forall (λ line, char_count line = line_width (column_widths ["name"; "amount"]
      [["sno" +:+ ellipsis; "123.457"]; ["NULL"; "NULL"]]))
    (table_lines ["name"; "amount"] [["sno" +:+ ellipsis; "123.457"]; ["NULL"; "NULL"]]).
Proof.
  apply table_lines_are_aligned.
  - repeat constructor.
  - repeat constructor.
Defined.

(** ** The shell: concrete sessions

    A shell on a demo target with a password, through every theorem on the
    shell. *)

Import Concrete.

Definition secret_value (v : string) : ConfigValue := {| cv_value := v; cv_secret := true |}.
Definition demo_target (password : string) : ResolvedTarget :=
  {| target_name := "demo"; target_engine := "demo";
     target_properties := <["password" := secret_value password]> ∅ |}.
Definition demo_config : Config :=
  {| config_path := "qcli.ini"; config_defaults := ∅;
     config_targets := <["demo" := demo_target "hunter2"]> ∅ |}.

Definition hash_size (m : gmap string string) : Z := Z.of_nat (size m).
Definition quiet : Moment :=
  {| moment_invocation := {| invoked_at := 0; poll := λ _, false |}; moment_done := 0 |}.
Definition typed (line : string) : TurnInput :=
  {| ti_line := Ok line; ti_moment := quiet; ti_order := fmap Received; ti_elapsed := "0.001" |}.
Definition empty_batch (_ : RecordBatch) : TextBatch (Any:=unit) :=
  {| tb_fields := []; tb_columns := []; tb_rows := 0 |}.
Definition blank_terminal : Terminal := {| stdout := ""; stderr := "" |}.
Definition start (password : string) : option Shell :=
  Shell_start demo_config (λ _, None) "202401010000" Sessions.SessionIdState_default []
    (demo_target password) blank_terminal.

Abbreviation demo_loop := (run_loop hash_size empty_batch (λ _ : unit, Ok "")
  (λ _ _ _, Ok "") (λ _, Ok "[]") (λ _, Ok []) (λ _, "") (λ _, "closed") demo_config).

(** What the user sees of a password that is set. *)
Example password_is_redacted :
  (λ s, stdout (sh_terminal (demo_loop true [typed "\set password x"; typed "\properties"] s).2))
    <$> start "hunter2"
  = Some ("Connected to 'demo' (demo). Type \help for help." +:+ Output.newline
      +:+ "password = <redacted>" +:+ Output.newline
      +:+ "password = <redacted>" +:+ Output.newline).
Proof. vm_compute. reflexivity. Qed.

Example glob_examples :
  glob_matches (Some "event*") "event_summary" = true ∧ glob_matches (Some "sf?") "sf1" = true ∧
  glob_matches (Some "sf?") "sf100" = false.
Proof. vm_compute. done. Qed.

Example statement_examples :
  statement_complete "select ';'" = false ∧ statement_complete "select ';';" = true ∧
  statement_complete ("select" +:+ Output.newline +:+ "  1") = false.
Proof. vm_compute. done. Qed.


(** The shell of a demo target, as [start] makes it. *)
Definition demo_shell (password : string) : Shell :=
  match start password with
  | Some s => s
  | None =>
      {| sh_sessions := Sessions.SessionManager_default Sessions.SessionIdState_default;
         sh_metadata := MetadataService_new [] 0; sh_queries := Queries.QueryService_new [] 1;
         sh_snapshot := {| snap_id := ""; snap_version := 0; snap_target := "";
           snap_engine := ""; snap_properties := ∅; snap_overrides := ∅ |};
         sh_buffer := ""; sh_format := Output.Table; sh_timing := true; sh_status := "";
         sh_properties := ∅; sh_overrides := ∅; sh_completions := []; sh_history := [];
         sh_terminal := blank_terminal |}
  end.

Lemma demo_paired : paired (demo_shell "hunter2") (demo_shell "swordfish").
Proof.
  assert (∀ v w, agree (A:=ConfigValue) (<["password" := secret_value v]> ∅)
    (<["password" := secret_value w]> ∅)) as Ha by (intros; by apply agree_insert).
  assert (∀ v, flags_ok (<["password" := secret_value v]> ∅)) as Hf.
  { intros v n x Hx. destruct (decide (n = "password")) as [->|Hne].
    - rewrite lookup_insert_eq in Hx. injection Hx as <-. reflexivity.
    - by rewrite lookup_insert_ne in Hx. }
  assert (∀ v w, agree (snap_properties (sh_snapshot (demo_shell v)))
    (snap_properties (sh_snapshot (demo_shell w)))) as Hs.
  { intros v w n. simpl. rewrite !lookup_extend, lookup_empty, !lookup_fmap.
    destruct (Ha v w n) as [H1 H2]. rewrite !fmap_is_Some. split; [done|].
    intros E. by rewrite (H2 E). }
  split_and!; [|by eexists; split; [vm_compute; reflexivity|split; vm_compute; reflexivity]..
              |apply Hf|apply Hf].
  split; [apply Ha|done|apply Hs|reflexivity..].
Qed.


Lemma highlight_only_colours_witness :
  visible (highlight (λ ch, is_ascii_alphanumeric (default "000"%char (String.get 0 ch)))
    "select a from t") = "select a from t".
Proof. apply highlight_only_colours. by vm_compute. Defined.
