(* ===== verification/PageToken.v ===== *)
(** * Continuation tokens of result pages (crates/qcli-http/src/lib.rs)

    [encode_page_token] and [decode_page_token] with the hexadecimal printing
    and parsing of [u64] they use.  The URL-safe base64 of the [base64] crate is
    a parameter, of which only the round trip is used. *)
From S2P Require Import Prelude Text.
From Stdlib Require Import Ascii.

(** ** [u64] in hexadecimal *)

(** [format!("{n:x}")]. *)
Fixpoint hex_loop (fuel : nat) (n : N) (acc : string) : string :=
  match fuel with
  | O => acc
  | S fuel =>
      let acc := String (digit_char (n mod 16)) acc in
      if (n / 16 =? 0)%N then acc else hex_loop fuel (n / 16) acc
  end.
Definition format_x (n : Z) : string := hex_loop 16 (Z.to_N n) EmptyString.

(** [char::to_digit(16)]. *)
Definition hex_digit (c : ascii) : option Z :=
  if is_ascii_digit c then Some (Z.of_N (code c) - 48)
  else if in_range 97 102 c then Some (Z.of_N (code c) - 87)
  else if in_range 65 70 c then Some (Z.of_N (code c) - 55)
  else None.

Fixpoint hex_digits (acc : Z) (s : string) : option Z :=
  match s with
  | EmptyString => Some acc
  | String c s =>
      match hex_digit c with
      | Some d => let acc := acc * 16 + d in
                  if acc <=? u64_max then hex_digits acc s else None
      | None => None
      end
  end.

(** [u64::from_str_radix(s, 16)]: an optional plus sign, digits, no overflow. *)
Definition from_str_radix_16 (s : string) : option Z :=
  let s := match strip_prefix "+" s with Some t => t | None => s end in
  if is_empty s then None else hex_digits 0 s.

(** [u64::rotate_left]. *)
Definition rotate_left (n k : Z) : Z :=
  Z.lor (Z.shiftl n k mod 2 ^ 64) (Z.shiftr n (64 - k)).

(** ** Tokens *)

Section Tokens.
(** [URL_SAFE_NO_PAD.encode] and [decode]. *)
Variable b64_encode : string → string.
Variable b64_decode : string → option string.

Definition token_signature (offset secret : Z) : Z := Z.lxor (rotate_left offset 17) secret.

Definition encode_page_token (offset secret : Z) : string :=
  b64_encode (format_x offset +:+ ":" +:+ format_x (token_signature offset secret)).

(** [None] is the error [invalid_page_token]; the decoded bytes of a token are
    UTF-8 when they have the form of one. *)
Definition decode_page_token (token : string) (secret : Z) : option Z :=
  value ← b64_decode token;
  parts ← split_once ":" value;
  offset ← from_str_radix_16 parts.1;
  signature ← from_str_radix_16 parts.2;
  if signature =? token_signature offset secret then Some offset else None.

(** ** Facts *)

Definition is_hex (c : ascii) : bool := is_ascii_digit c || in_range 97 102 c.

Lemma hex_digit_spec d :
  (d < 16)%N → hex_digit (digit_char d) = Some (Z.of_N d) ∧ is_hex (digit_char d) = true.
Proof.
  intros Hd. assert (In d (N.of_nat <$> seq 0 16)) as Hin.
  { apply list_elem_of_In, list_elem_of_fmap. exists (N.to_nat d). rewrite elem_of_seq. lia. }
  revert Hin. clear. simpl. intros H. repeat (destruct H as [<-|H]; [by vm_compute|]). done.
Qed.

Lemma hex_loop_S fuel n acc :
  hex_loop (S fuel) n acc
  = if (n / 16 =? 0)%N then String (digit_char (n mod 16)) acc
    else hex_loop fuel (n / 16) (String (digit_char (n mod 16)) acc).
Proof. done. Qed.

Lemma hex_loop_spec fuel : ∀ n acc,
  (n < 16 ^ N.of_nat (S fuel))%N → Z.of_N n ≤ u64_max →
  hex_digits 0 (hex_loop (S fuel) n acc) = hex_digits (Z.of_N n) acc.
Proof.
  induction fuel as [|fuel IH]; intros n acc Hn Hmax.
  - cbn [hex_loop]. change (16 ^ N.of_nat 1)%N with 16%N in Hn.
    rewrite (N.div_small n 16), (N.mod_small n 16) by lia.
    cbn [hex_digits N.eqb]. destruct (hex_digit_spec n Hn) as [-> _].
    by rewrite (proj2 (Z.leb_le _ _)).
  - rewrite hex_loop_S. destruct (hex_digit_spec (n mod 16)) as [Hd _];
      [apply N.mod_lt; lia|].
    pose proof (N.div_mod n 16 ltac:(lia)) as E.
    destruct (N.eqb_spec (n / 16) 0) as [E0|Hne].
    + cbn [hex_digits]. rewrite Hd. rewrite (proj2 (Z.leb_le _ _)) by lia. f_equal. lia.
    + rewrite IH; [|apply N.Div0.div_lt_upper_bound|].
      * cbn [hex_digits]. rewrite Hd. rewrite (proj2 (Z.leb_le _ _)) by lia. f_equal. lia.
      * by rewrite Nat2N.inj_succ, N.pow_succ_r' in Hn.
      * transitivity (Z.of_N n); [|done]. apply N2Z.inj_le, N.Div0.div_le_upper_bound. lia.
Qed.

Lemma hex_loop_hex fuel : ∀ n acc,
  string_forallb is_hex acc = true → string_forallb is_hex (hex_loop fuel n acc) = true.
Proof.
  induction fuel as [|fuel IH]; intros n acc H; [done|]. cbn [hex_loop].
  assert (string_forallb is_hex (String (digit_char (n mod 16)) acc) = true) as H'.
  { cbn [string_forallb]. rewrite H, (proj2 (hex_digit_spec (n mod 16) (N.mod_lt n 16 ltac:(lia)))).
    done. }
  destruct (n / 16 =? 0)%N; [done|by apply IH].
Qed.

Lemma hex_loop_nonempty fuel n c s : ∃ d t, hex_loop fuel n (String c s) = String d t.
Proof.
  revert n c s. induction fuel as [|fuel IH]; intros; cbn [hex_loop]; [eauto|].
  destruct (n / 16 =? 0)%N; eauto.
Qed.

(** Printing and parsing are inverse on [u64]. *)
Lemma from_format_x n : 0 ≤ n ≤ u64_max → from_str_radix_16 (format_x n) = Some n.
Proof.
  intros Hn. unfold from_str_radix_16, format_x.
  pose proof (hex_loop_hex 16 (Z.to_N n) EmptyString eq_refl) as Hhex.
  assert (hex_digits 0 (hex_loop 16 (Z.to_N n) EmptyString) = Some n) as Hv.
  { rewrite (hex_loop_spec 15); [simpl; f_equal; lia| |lia].
    change (16 ^ N.of_nat 16)%N with (2 ^ 64)%N. unfold u64_max in Hn. lia. }
  assert (∃ d t, hex_loop 16 (Z.to_N n) EmptyString = String d t) as (d & t & E).
  { rewrite hex_loop_S. destruct (_ =? 0)%N; [eauto|apply hex_loop_nonempty]. }
  rewrite E in *. cbn [string_forallb] in Hhex. apply andb_true_iff in Hhex as [Hd _].
  assert (strip_prefix "+" (String d t) = None) as ->; [|done].
  cbn [strip_prefix]. destruct (Ascii.eqb_spec "+"%char d) as [<-|]; [by vm_compute in Hd|done].
Qed.

Lemma u64_bits n : 0 ≤ n ≤ u64_max ↔ 0 ≤ n ∧ ∀ i, 64 ≤ i → Z.testbit n i = false.
Proof.
  unfold u64_max. split.
  - intros Hn. split; [lia|]. intros i Hi.
    destruct (decide (n = 0)) as [->|]; [apply Z.bits_0|]. apply Z.bits_above_log2; [lia|].
    assert (Z.log2 n < 64); [|lia]. apply Z.log2_lt_pow2; lia.
  - intros [H0 Hb]. split; [done|]. destruct (decide (n < 2 ^ 64)) as [|Hge]; [lia|].
    assert (64 ≤ Z.log2 n) as Hl by (apply Z.log2_le_pow2; lia).
    pose proof (Z.bit_log2 n ltac:(lia)) as Hbit.
    by rewrite (Hb _ Hl) in Hbit.
Qed.

Lemma lxor_u64 a b : 0 ≤ a ≤ u64_max → 0 ≤ b ≤ u64_max → 0 ≤ Z.lxor a b ≤ u64_max.
Proof.
  rewrite !u64_bits. intros [Ha Hab] [Hb Hbb]. split; [by apply Z.lxor_nonneg|].
  intros i Hi. by rewrite Z.lxor_spec, Hab, Hbb.
Qed.

Lemma rotate_left_u64 n : 0 ≤ n ≤ u64_max → 0 ≤ rotate_left n 17 ≤ u64_max.
Proof.
  rewrite !u64_bits. intros [Hn Hb]. unfold rotate_left.
  pose proof (Z.mod_pos_bound (Z.shiftl n 17) (2 ^ 64) ltac:(lia)) as Hm.
  split; [apply Z.lor_nonneg; split; [lia|by apply Z.shiftr_nonneg]|].
  intros i Hi. rewrite Z.lor_spec, Z.mod_pow2_bits_high, Z.shiftr_spec, Hb by lia. done.
Qed.

Lemma signature_u64 offset secret :
  0 ≤ offset ≤ u64_max → 0 ≤ secret ≤ u64_max → 0 ≤ token_signature offset secret ≤ u64_max.
Proof. intros. apply lxor_u64; [by apply rotate_left_u64|done]. Qed.

Hypothesis b64_roundtrip : ∀ s, b64_decode (b64_encode s) = Some s.

Lemma token_parts offset secret :
  split_once ":" (format_x offset +:+ ":" +:+ format_x (token_signature offset secret))
  = Some (format_x offset, format_x (token_signature offset secret)).
Proof.
  apply (split_once_char ":"%char). unfold format_x.
  pose proof (hex_loop_hex 16 (Z.to_N offset) EmptyString eq_refl) as H.
  induction (hex_loop 16 (Z.to_N offset) EmptyString) as [|c s IH]; [done|].
  cbn [string_forallb] in *. apply andb_true_iff in H as [Hc H]. rewrite (IH H), andb_true_r.
  destruct (Ascii.eqb_spec ":"%char c) as [<-|]; [by vm_compute in Hc|done].
Qed.

Lemma decode_encode offset secret secret' :
  0 ≤ offset ≤ u64_max → 0 ≤ secret ≤ u64_max →
  decode_page_token (encode_page_token offset secret) secret'
  = if token_signature offset secret =? token_signature offset secret'
    then Some offset else None.
Proof.
  intros Ho Hs. unfold decode_page_token, encode_page_token. rewrite b64_roundtrip.
  cbn [mbind option_bind fst snd]. rewrite token_parts. cbn [mbind option_bind fst snd].
  rewrite (from_format_x offset Ho). cbn [mbind option_bind fst snd].
  rewrite (from_format_x _ (signature_u64 _ _ Ho Hs)). done.
Qed.

Lemma signature_inj offset a b : token_signature offset a = token_signature offset b → a = b.
Proof.
  unfold token_signature. intros H%(f_equal (Z.lxor (rotate_left offset 17))).
  by rewrite <- !Z.lxor_assoc, Z.lxor_nilpotent, !Z.lxor_0_l in H.
Qed.

(** Continuation tokens.  The token of an offset is accepted by the
    process that made it, as that very offset, and by no process with another
    secret. *)
Theorem page_tokens_are_process_bound offset secret secret' :
  0 ≤ offset ≤ u64_max → 0 ≤ secret ≤ u64_max →
  decode_page_token (encode_page_token offset secret) secret'
  = if decide (secret = secret') then Some offset else None.
Proof.
  intros Ho Hs. rewrite decode_encode by done. case_decide as E; [subst; by rewrite Z.eqb_refl|].
  destruct (Z.eqb_spec (token_signature offset secret) (token_signature offset secret')) as [H|];
    [|done]. by apply signature_inj in H.
Qed.

(** The secret as read off a token. *)
Definition secret_of_token (token : string) : option Z :=
  value ← b64_decode token;
  parts ← split_once ":" value;
  offset ← from_str_radix_16 parts.1;
  signature ← from_str_radix_16 parts.2;
  Some (token_signature offset signature).

(** The integrity check has no secret left after one page.  Whoever
    receives the token of one page computes the secret from it, and with it the
    token of any offset. *)
Theorem one_page_token_reveals_the_secret offset secret :
  0 ≤ offset ≤ u64_max → 0 ≤ secret ≤ u64_max →
  ∃ s, secret_of_token (encode_page_token offset secret) = Some s ∧ s = secret ∧
    ∀ offset', 0 ≤ offset' ≤ u64_max →
      decode_page_token (encode_page_token offset' s) secret = Some offset'.
Proof.
  intros Ho Hs. exists secret. split_and!; [|done|].
  - unfold secret_of_token, encode_page_token. rewrite b64_roundtrip. cbn [mbind option_bind fst snd]. rewrite token_parts.
    cbn [mbind option_bind fst snd]. rewrite (from_format_x offset Ho). cbn [mbind option_bind fst snd]. rewrite (from_format_x _ (signature_u64 _ _ Ho Hs)).
    cbn [mbind option_bind]. f_equal. unfold token_signature.
    by rewrite <- Z.lxor_assoc, Z.lxor_nilpotent, Z.lxor_0_l.
  - intros offset' Ho'. rewrite decode_encode by done. by rewrite Z.eqb_refl.
Qed.
End Tokens.
