(* ===== verification/Headers.v ===== *)
(** * Header values and UTF-8

    What both gateways use of header values ([http::HeaderValue], also under
    gRPC metadata), and the validation of UTF-8 ([std::str::from_utf8]). *)
From S2P Require Import Prelude Text.
From Stdlib Require Import Ascii.

(** [HeaderValue::to_str] and [HeaderValue::from_str]. *)
Definition visible_byte (c : ascii) : bool := in_range 32 126 c || N.eqb (code c) 9.
Definition header_to_str (v : string) : option string :=
  if string_forallb visible_byte v then Some v else None.
Definition header_byte (c : ascii) : bool :=
  (in_range 32 255 c && negb (N.eqb (code c) 127)) || N.eqb (code c) 9.
Definition header_from_str (v : string) : option string :=
  if string_forallb header_byte v then Some v else None.

(** The alphabet of URL-safe base64. *)
Definition url_char (c : ascii) : bool :=
  is_ascii_alphanumeric c || Ascii.eqb c "-"%char || Ascii.eqb c "_"%char.

Lemma url_text_is_a_header s :
  string_forallb url_char s = true → header_from_str s = Some s.
Proof.
  intros Hs. unfold header_from_str. assert (string_forallb header_byte s = true) as ->; [|done].
  revert Hs. apply string_forallb_impl. intros [[] [] [] [] [] [] [] []]; vm_compute; done.
Qed.

(** ** UTF-8 *)

Definition cont (c : ascii) : bool := in_range 128 191 c.

(** The ranges of the second byte after each first byte, and the number of
    bytes that follow it. *)
Definition lead (c : ascii) : option (N * N * nat) :=
  if in_range 194 223 c then Some (128, 191, 0%nat)%N
  else if in_range 224 224 c then Some (160, 191, 1%nat)%N
  else if in_range 237 237 c then Some (128, 159, 1%nat)%N
  else if in_range 225 239 c then Some (128, 191, 1%nat)%N
  else if in_range 240 240 c then Some (144, 191, 2%nat)%N
  else if in_range 241 243 c then Some (128, 191, 2%nat)%N
  else if in_range 244 244 c then Some (128, 143, 2%nat)%N
  else None.

(** [expected]: the range of the next byte, if inside a character, and how many
    continuation bytes come after it. *)
Fixpoint utf8_from (expected : option (N * N * nat)) (s : string) : bool :=
  match s with
  | EmptyString => match expected with None => true | Some _ => false end
  | String c s =>
      match expected with
      | None =>
          if (code c <? 128)%N then utf8_from None s
          else match lead c with None => false | Some e => utf8_from (Some e) s end
      | Some (lo, hi, more) =>
          in_range lo hi c
          && utf8_from (match more with O => None | S k => Some (128, 191, k)%N end) s
      end
  end.
Definition utf8 (s : string) : bool := utf8_from None s.

Lemma utf8_ascii s : string_forallb (λ c, (code c <? 128)%N) s = true → utf8 s = true.
Proof.
  unfold utf8. induction s as [|c s IH]; [done|]. cbn [string_forallb utf8_from].
  intros [Hc Hs]%andb_true_iff. rewrite Hc. by apply IH.
Qed.
