(* ===== verification/HttpEvents.v ===== *)
(** * Server-sent events (crates/qcli-http/src/lib.rs, [get_events])

    The task behind an event stream, over the event log of a query and the
    broadcast channel it subscribes to: it replays the part of the log after
    [Last-Event-ID], then follows the channel, skipping what it has already
    sent.  The channel keeps the last [channel_capacity] events for a receiver
    that is slower than the query.  Clients read while the task runs; a client
    that disconnects only cuts the stream short. *)
From S2P Require Import Prelude Text Arrow DriverApi Auth Config Core Cluster Metadata.
From S2P Require Import ServiceData Results Service.

(** [broadcast::channel(128)]. *)
Definition channel_capacity : nat := 128.

(** The variables of the task: the position of its receiver in the sequence of
    events sent on the channel, [seen], what it has passed on, and whether it
    has returned. *)
Record EventStream := {
  es_pos : nat;
  es_seen : Z;
  es_sent : list ServiceEvent;
  es_ended : bool;
}.

(** One round of the loop over the history. *)
Definition replay_entry (st : EventStream) (e : ServiceEvent) : EventStream :=
  if es_ended st then st
  else {| es_pos := es_pos st; es_seen := Z.max (es_seen st) (ev_id e);
          es_sent := es_sent st ++ [e]; es_ended := ev_terminal e |}.

Definition open_stream (last : Z) (pos : nat) (history : list ServiceEvent) : EventStream :=
  foldl replay_entry {| es_pos := pos; es_seen := last; es_sent := []; es_ended := false |} history.

(** One round of the loop over the channel: [None] while it waits, or after it
    has returned.  A receiver that is too far behind is moved to the oldest
    event that is kept ([RecvError::Lagged]). *)
Definition stream_recv (log : list ServiceEvent) (st : EventStream) : option EventStream :=
  if es_ended st then None
  else if (es_pos st + channel_capacity <? length log)%nat then
    Some {| es_pos := length log - channel_capacity; es_seen := es_seen st;
            es_sent := es_sent st; es_ended := false |}
  else
    match log !! es_pos st with
    | None => None
    | Some e =>
        Some (if es_seen st <? ev_id e then
                {| es_pos := S (es_pos st); es_seen := ev_id e; es_sent := es_sent st ++ [e];
                   es_ended := ev_terminal e |}
              else
                {| es_pos := S (es_pos st); es_seen := es_seen st; es_sent := es_sent st;
                   es_ended := false |})
    end.

(** The query logs events while the task receives them. *)
Inductive stream_step : list ServiceEvent * EventStream → list ServiceEvent * EventStream → Prop :=
| step_push log st e :
    ev_id e = Z.of_nat (S (length log)) → stream_step (log, st) (log ++ [e], st)
| step_recv log st st' :
    stream_recv log st = Some st' → stream_step (log, st) (log, st').

(** The handler: the receiver is created before the history is read. *)
Section Handler.
Context `{ipc : ArrowIpc}.

(** [subscribe]: the receiver starts after the events sent so far. *)
Definition subscribe (principal : AuthenticatedPrincipal) (query_id : string) (now : Z) :
    M ServiceState ServiceError nat :=
  record ← owned_record principal query_id now;
  mret (length (qd_events (qr_data record))).

Definition get_events_stream (principal : AuthenticatedPrincipal) (query_id : string)
    (last now later : Z) : M ServiceState ServiceError EventStream :=
  receiver ← subscribe principal query_id now;
  history ← event_history principal query_id last later;
  mret (open_stream last receiver history).
End Handler.

(** ** What a stream delivers *)

(** Events numbered consecutively from one, as every query's log is. *)
Definition numbered (log : list ServiceEvent) : Prop :=
  ∀ i e, log !! i = Some e → ev_id e = Z.of_nat (S i).

(** The log after [last]. *)
Definition later (last : Z) (log : list ServiceEvent) : list ServiceEvent :=
  filter (λ e, last < ev_id e) log.

Lemma numbered_snoc log e :
  numbered log → ev_id e = Z.of_nat (S (length log)) → numbered (log ++ [e]).
Proof.
  intros Hn He i x. destruct (decide (i < length log)%nat) as [Hi|Hi].
  - rewrite lookup_app_l by done. apply Hn.
  - rewrite lookup_app_r by lia. intros Hx.
    destruct (i - length log)%nat as [|k] eqn:E; simpl in Hx; [|done]. injection Hx as <-.
    rewrite He. f_equal. lia.
Qed.

Lemma numbered_take n log : numbered log → numbered (take n log).
Proof. intros Hn i e [He _]%lookup_take_Some. by apply Hn. Qed.

Section Delivery.
(** [Last-Event-ID], and the length of the log when the history was read. *)
Context (last : Z) (h : nat).

(** Passing on an event that comes after everything seen. *)
Lemma sent_snoc log sent seen i e :
  numbered log → log !! i = Some e → 0 ≤ last → last ≤ seen → seen < ev_id e →
  sublist sent (later last (take (Z.to_nat seen) log)) →
  sublist (sent ++ [e]) (later last (take (Z.to_nat (ev_id e)) log)).
Proof.
  intros Hn He H0 Hl Hs Hsub. pose proof (Hn _ _ He) as Hid.
  replace (Z.to_nat (ev_id e)) with (S i) by lia. rewrite (take_S_r _ _ _ He).
  unfold later. rewrite filter_app. apply sublist_app.
  - etrans; [exact Hsub|]. unfold later.
    replace i with (Z.to_nat seen + (i - Z.to_nat seen))%nat by lia.
    rewrite <- (take_take_drop log (Z.to_nat seen) (i - Z.to_nat seen)).
    rewrite filter_app. apply sublist_inserts_r. done.
  - rewrite filter_cons, decide_True by lia. done.
Qed.

Definition ends_at_terminal (st : EventStream) : Prop :=
  if es_ended st
  then ∃ before e, es_sent st = before ++ [e] ∧ ev_terminal e = true ∧
         Forall (λ e, ev_terminal e = false) before
  else Forall (λ e, ev_terminal e = false) (es_sent st).

Lemma ends_snoc pos seen sent e :
  Forall (λ e, ev_terminal e = false) sent →
  ends_at_terminal {| es_pos := pos; es_seen := seen; es_sent := sent ++ [e];
                      es_ended := ev_terminal e |}.
Proof.
  intros H. unfold ends_at_terminal. simpl. destruct (ev_terminal e) eqn:E; [by exists sent, e|].
  apply Forall_app. split; [done|]. by apply Forall_singleton.
Qed.

(** The replay of the first [n] events of the log. *)
Lemma replay_spec log pos n :
  numbered log → 0 ≤ last → (n ≤ length log)%nat →
  let st := open_stream last pos (later last (take n log)) in
  es_pos st = pos ∧ last ≤ es_seen st ≤ Z.max last (Z.of_nat n) ∧
  sublist (es_sent st) (later last (take (Z.to_nat (es_seen st)) log)) ∧
  (es_ended st = false → es_sent st = later last (take n log)) ∧ ends_at_terminal st.
Proof.
  intros Hn H0. induction n as [|n IH]; intros Hlen.
  { simpl. rewrite take_0. unfold later, open_stream. simpl. split_and!; try done; try lia.
    - apply sublist_nil_l.
    - constructor. }
  destruct (lookup_lt_is_Some_2 log n) as [e He]; [lia|]. pose proof (Hn _ _ He) as Hid.
  specialize (IH ltac:(lia)). destruct IH as (Hp & Hs & Hsub & Hex & Hend).
  rewrite (take_S_r _ _ _ He). unfold later in *. rewrite filter_app.
  unfold open_stream in *. rewrite foldl_app. set (st := foldl _ _ _) in *.
  destruct (decide (last < ev_id e)) as [Hl|Hl].
  - rewrite filter_cons, decide_True by done. simpl. unfold replay_entry.
    destruct (es_ended st) eqn:Ee.
    { split_and!; [done|lia..|done|congruence|done]. }
    replace (Z.max (es_seen st) (ev_id e)) with (ev_id e) by lia. simpl.
    split_and!; [done|lia..| | |].
    + apply (sent_snoc log (es_sent st) (es_seen st) n); [done..|lia|lia|done].
    + intros _. rewrite (Hex eq_refl). by rewrite filter_nil.
    + apply ends_snoc. unfold ends_at_terminal in Hend. by rewrite Ee in Hend.
  - rewrite filter_cons, decide_False by done. simpl. rewrite filter_nil, app_nil_r.
    split_and!; try done; lia.
Qed.

(** The invariant: nothing is sent twice or out of order, and what is missing
    was followed by more events than the channel keeps. *)
Record stream_inv (log : list ServiceEvent) (st : EventStream) : Prop := {
  si_numbered : numbered log;
  si_history : (h ≤ length log)%nat;
  si_seen : last ≤ es_seen st ≤ Z.max last (Z.of_nat (Nat.max h (es_pos st)));
  si_pos : (es_pos st ≤ length log)%nat;
  si_sent : sublist (es_sent st) (later last (take (Z.to_nat (es_seen st)) log));
  si_cover i e :
    es_ended st = false → log !! i = Some e → last < ev_id e →
    (i < h ∨ i < es_pos st)%nat → e ∈ es_sent st ∨ (i + channel_capacity < length log)%nat;
  si_end : ends_at_terminal st;
}.

Lemma stream_step_inv log st log' st' :
  0 ≤ last → stream_step (log, st) (log', st') → stream_inv log st → stream_inv log' st'.
Proof.
  intros H0 Hstep [Hn Hh Hs Hp Hsub Hcov Hend].
  inversion Hstep as [log0 st0 e Hid|log0 st0 st0' Hr]; subst; clear Hstep.
  - split; [by apply numbered_snoc|rewrite length_app; lia|done|rewrite length_app; lia| | |done].
    + etrans; [exact Hsub|]. rewrite take_app. unfold later. rewrite filter_app.
      by apply sublist_inserts_r.
    + intros i x He Hx Hl Hi. rewrite length_app. simpl.
      rewrite lookup_app_l in Hx by lia. destruct (Hcov i x He Hx Hl Hi); [by left|right; lia].
  - unfold stream_recv in Hr. destruct (es_ended st) eqn:Ee; [done|].
    destruct (Nat.ltb_spec (es_pos st + channel_capacity) (length log')) as [Hlag|Hkept].
    + injection Hr as <-. split; simpl; try done; try lia.
      * intros i x _ Hx Hl Hi. destruct (decide (i < h ∨ i < es_pos st)%nat) as [Hold|Hnew].
        { by apply (Hcov i x). }
        right. lia.
      * unfold ends_at_terminal in *. simpl. by rewrite Ee in Hend.
    + destruct (log' !! es_pos st) as [e|] eqn:He; [|done]. injection Hr as <-.
      pose proof (Hn _ _ He) as Hid. pose proof (lookup_lt_Some _ _ _ He).
      destruct (Z.ltb_spec (es_seen st) (ev_id e)) as [Hnew|Hold]; split; simpl; try done; try lia.
      * apply (sent_snoc log' (es_sent st) (es_seen st) (es_pos st)); [done..|lia|lia|done].
      * intros i x _ Hx Hl Hi. destruct (decide (i = es_pos st)) as [->|Hne].
        { left. rewrite He in Hx. injection Hx as <-. apply elem_of_app. right. by left. }
        destruct (Hcov i x eq_refl Hx Hl) as [Hin|]; [lia| |by right].
        left. apply elem_of_app. by left.
      * apply ends_snoc. unfold ends_at_terminal in Hend. by rewrite Ee in Hend.
      * intros i x _ Hx Hl Hi. destruct (decide (i = es_pos st)) as [->|Hne].
        { rewrite He in Hx. injection Hx as <-. apply (Hcov (es_pos st) e); try done. left. lia. }
        apply (Hcov i x); try done. lia.
      * unfold ends_at_terminal in *. simpl. by rewrite Ee in Hend.
Qed.

Lemma open_stream_inv log pos :
  numbered log → 0 ≤ last → h = length log → (pos ≤ h)%nat →
  stream_inv log (open_stream last pos (later last log)).
Proof.
  intros Hn H0 Hh Hp.
  destruct (replay_spec log pos (length log) Hn H0 ltac:(lia)) as (E & Hs & Hsub & Hex & Hend).
  rewrite take_ge in * by done. split; [done|lia| |lia|done| |done].
  - rewrite E. lia.
  - intros i e He Hi Hl _. left. rewrite (Hex He). apply list_elem_of_filter. split; [done|].
    by eapply list_elem_of_lookup_2.
Qed.

Lemma stream_steps_inv a b :
  0 ≤ last → rtc stream_step a b → stream_inv a.1 a.2 → stream_inv b.1 b.2.
Proof.
  intros H0. induction 1 as [|[l1 s1] [l2 s2] c Hstep _ IH]; [done|].
  intros Hi. apply IH. by apply (stream_step_inv l1 s1).
Qed.
End Delivery.


(** A client that has already seen the last event waits: nothing is sent and
    the stream does not end, also when that event was terminal. *)
Lemma resuming_after_the_end_waits log pos last :
  numbered log → pos = length log → Z.of_nat (length log) ≤ last →
  let st := open_stream last pos (later last log) in
  es_sent st = [] ∧ es_ended st = false ∧ stream_recv log st = None.
Proof.
  intros Hn -> Hl. assert (later last log = []) as ->.
  { destruct (later last log) as [|e l] eqn:E; [done|].
    assert (e ∈ later last log) as He by (rewrite E; by left).
    apply list_elem_of_filter in He as [He [i Hi]%list_elem_of_lookup].
    pose proof (Hn _ _ Hi). apply lookup_lt_Some in Hi. lia. }
  simpl. split_and!; [done..|]. unfold stream_recv. simpl.
  destruct (Nat.ltb_spec (length log + channel_capacity) (length log)); [lia|].
  by rewrite (proj2 (lookup_ge_None _ _)).
Qed.
