(* ===== verification/Http.v ===== *)
(** * The HTTP gateway (crates/qcli-http/src/lib.rs)

    The two middleware layers, every handler over the clustered operations of
    the service, the encodings of results and errors, and the router that
    composes them.  A request is its method, its headers and the call its route
    and body denote (axum's routing and the decoding of JSON bodies are not
    under src/); a response is its status, its headers and its body. *)
From S2P Require Import Prelude Text Arrow DriverApi Auth Config Core Cluster Metadata.
From S2P Require Import ServiceData Results Service ServiceCluster Chars Output PageToken.
From S2P Require Import Headers HttpEvents.
From Stdlib Require Import Ascii.

Record HttpLimits := {
  hl_max_queries : Z;
  hl_memory_result_bytes_per_query : Z;
  hl_max_result_bytes_per_query : Z;
  hl_result_ttl : Z;
  default_page_rows : Z;
  max_page_rows : Z;
  hl_max_sql_bytes : Z;
  hl_session_ttl : Z;
  cleanup_interval : Z;
  hl_shutdown_grace : Z;
}.

Definition HttpLimits_default : HttpLimits :=
  {| hl_max_queries := 128; hl_memory_result_bytes_per_query := 1024 * 1024;
     hl_max_result_bytes_per_query := 64 * 1024 * 1024; hl_result_ttl := from_secs (15 * 60);
     default_page_rows := 1000; max_page_rows := 10000; hl_max_sql_bytes := 1024 * 1024;
     hl_session_ttl := from_secs (30 * 60); cleanup_interval := from_secs 30;
     hl_shutdown_grace := from_secs 10 |}.

Record HttpOperations := {
  trusted_proxy : bool;
  allowed_origins : list string;
}.

(** [AuditEvent] as JSON, and the line [StderrAuditSink] prints of it. *)
Definition audit_value (e : AuditEvent) : Value :=
  Object [("action", VString (ae_action e)); ("outcome", VString (ae_outcome e));
          ("principal", opt_value VString (ae_principal e));
          ("target", opt_value VString (ae_target e));
          ("session_id", opt_value VString (ae_session_id e));
          ("query_id", opt_value VString (ae_query_id e))].
Definition audit_line (to_string : Value → result string string) (e : AuditEvent) : option string :=
  match to_string (audit_value e) with Ok text => Some ("qcli_audit " +:+ text) | Err _ => None end.

(** ** Errors *)

Record ApiError := {
  api_status : Z;
  api_code : string;
  api_message : string;
}.
Definition ApiError_new (status : Z) (code message : string) : ApiError :=
  {| api_status := status; api_code := code; api_message := message |}.

Definition service_error (e : ServiceError) : ApiError :=
  let status :=
    match se_kind e with
    | InvalidArgument => if String.eqb (se_code e) "invalid_sql_size" then 413 else 400
    | NotFound => 404
    | Forbidden => 403
    | Conflict => 409
    | ResourceExhausted => 429
    | FailedPrecondition =>
        if String.eqb (se_code e) "shutting_down" then 503
        else if String.eqb (se_code e) "query_running" then 409
        else 422
    | Upstream => 502
    | Internal => 500
    end in
  ApiError_new status (se_code e) (se_message e).

Definition output_error (message : string) : ApiError :=
  ApiError_new 500 "result_encoding" message.

Definition invalid_page_token : ApiError :=
  ApiError_new 400 "invalid_page_token" "page token is invalid".

(** ** Responses *)

Inductive HttpBody :=
| NoBody
| JsonBody (v : Value)
| BytesBody (bytes : string)
| EventsBody (stream : EventStream).

Record Response := {
  rs_status : Z;
  rs_headers : gmap string string;
  rs_body : HttpBody;
}.
Definition Response_new (status : Z) (body : HttpBody) : Response :=
  {| rs_status := status; rs_headers := ∅; rs_body := body |}.
Definition insert_header (name value : string) (r : Response) : Response :=
  {| rs_status := rs_status r; rs_headers := <[name := value]> (rs_headers r);
     rs_body := rs_body r |}.

(** [impl IntoResponse for ApiError]. *)
Definition error_response (e : ApiError) : Response :=
  let r := Response_new (api_status e)
    (JsonBody (Object [("error", Object [("code", VString (api_code e));
                                         ("message", VString (api_message e))])])) in
  if api_status e =? 401 then insert_header "www-authenticate" "Bearer" r else r.

(** ** Requests *)

Inductive HttpMethod := GET | POST | PATCH | DELETE | OPTIONS.
#[global] Instance HttpMethod_eq_dec : EqDecision HttpMethod.
Proof. solve_decision. Defined.

Record CreateSessionRequest := {
  cs_target : string;
  cs_context : gmap string Value;
  cs_properties : gmap string Value;
  cs_options : gmap string Value;
}.
Record UpdateSessionRequest := {
  us_expected_version : Z;
  us_context : gmap string Value;
  us_properties : gmap string Value;
  us_options : gmap string Value;
}.
Record SwitchTargetRequest := {
  st_expected_version : Z;
  st_target : string;
}.
Record StatelessQueryRequest := {
  sl_target : string;
  sl_sql : string;
  sl_context : gmap string Value;
  sl_properties : gmap string Value;
}.
Record ResultsQuery := {
  page_token : option string;
  page_limit : option Z;
}.

(** The routes of the API. *)
Inductive ApiCall :=
| CallCreateSession (r : CreateSessionRequest)
| CallGetSession (session_id : string)
| CallUpdateSession (session_id : string) (r : UpdateSessionRequest)
| CallSwitchTarget (session_id : string) (r : SwitchTargetRequest)
| CallDeleteSession (session_id : string)
| CallSubmitSession (session_id sql : string)
| CallSubmitStateless (r : StatelessQueryRequest)
| CallGetQuery (query_id : string)
| CallCancelQuery (query_id : string)
| CallGetResults (query_id : string) (q : ResultsQuery)
| CallGetEvents (query_id : string).

Record HttpRequest := {
  rq_method : HttpMethod;
  rq_headers : gmap string string;
  rq_call : ApiCall;
}.

Definition header (name : string) (r : HttpRequest) : option string :=
  rq_headers r !! name ≫= header_to_str.
Definition has_header (name : string) (r : HttpRequest) : bool :=
  match rq_headers r !! name with Some _ => true | None => false end.

(** [values]: the first property, in order of names, that is no scalar is an
    error. *)
Definition value_text (name : string) (v : Value) : result string ApiError :=
  match v with
  | VString s => Ok s
  | Bool b => Ok (if b then "true" else "false")
  | Number n => Ok (pretty n)
  | Float text => Ok text
  | Null | Array _ | Object _ =>
      Err (ApiError_new 400 "invalid_property"
        ("property '" +:+ name +:+ "' must be a string, number, or boolean"))
  end.
Definition values (m : gmap string Value) : result (gmap string string) ApiError :=
  let? l := try_map (λ e, let? v := value_text e.1 e.2 in Ok (e.1, v)) (sorted_entries m) in
  Ok (list_to_map l).

(** [From<SessionSnapshot>] and [From<QueryStatus>], as JSON. *)
Definition session_response (s : SessionSnapshot) : Value :=
  Object [("id", VString (snap_id s)); ("version", Number (snap_version s));
          ("target", VString (snap_target s)); ("engine", VString (snap_engine s))].
Definition query_response (q : QueryStatus) : Value :=
  Object [("id", VString (qs_id q)); ("session_id", VString (qs_session_id q));
          ("session_version", Number (qs_session_version q)); ("target", VString (qs_target q));
          ("engine", VString (qs_engine q));
          ("engine_query_id", opt_value VString (qs_engine_query_id q));
          ("state", VString (qs_state q)); ("rows", Number (qs_rows q));
          ("error", opt_value (λ e, Object [("code", VString (qe_code e));
                                            ("message", VString (qe_message e))])
                     (qs_error q))].

(** [from_gateway]: the secret is the first eight bytes of a random UUID. *)
Definition page_secret_of (uuid : list Z) : Z :=
  foldr (λ b n, b + 256 * n) 0 (take 8 uuid).

(** [bind_http]: what may be exposed. *)
Definition may_bind (loopback trusted_proxy_ authenticated : bool) : bool :=
  loopback || trusted_proxy_ && authenticated.
Definition bind_http (loopback trusted_proxy_ authenticated : bool) : result unit string :=
  if may_bind loopback trusted_proxy_ authenticated then Ok tt
  else Err "non-loopback binding requires --auth-file and --trusted-proxy".
Definition bind_local (loopback : bool) : result unit string := bind_http loopback false false.

(** [HttpService::new]. *)
Definition service_limits_of (l : HttpLimits) : ServiceLimits :=
  {| max_queries := hl_max_queries l;
     memory_result_bytes_per_query := hl_memory_result_bytes_per_query l;
     max_result_bytes_per_query := hl_max_result_bytes_per_query l;
     result_ttl := hl_result_ttl l; max_sql_bytes := hl_max_sql_bytes l;
     session_ttl := hl_session_ttl l; shutdown_grace := hl_shutdown_grace l;
     max_prepared_statements := max_prepared_statements ServiceLimits_default;
     prepared_statement_ttl := prepared_statement_ttl ServiceLimits_default |}.

Section Http.
Context `{ipc : ArrowIpc}.
Context {St : Type} `{!ClusterStateStore St}.
Context {Ob : Type} `{!ResultObjectStore Bytes Ob}.
Context `{!Serde SharedSession} `{!Serde SharedQuery} `{!Serde SharedPrepared}.
(** The parameters of the page tokens, of rendering, and the Arrow stream
    writer: the bytes of a stream of these batches under this schema. *)
Variable b64_encode : string → string.
Variable b64_decode : string → option string.
Context {Any : Type}.
Variable text_batch : RecordBatch → TextBatch (Any:=Any).
Variable format_any : Any → result string string.
Variable csv_text : bool → ascii → TextBatch (Any:=Any) → result string string.
Variable json_encode : TextBatch (Any:=Any) → result string string.
Variable json_parse : string → result (list Value) string.
Variable json_text : Value → string.
Variable arrow_stream : Schema → list RecordBatch → result string string.
(** The state of the authenticator. *)
Context {Au : Type}.

Abbreviation Node := (Node (St:=St) (Ob:=Ob)).
Abbreviation Handler := (M Node ApiError Response).

(** [AppState], but for the service and the authenticator's own state. *)
Record AppState := {
  app_limits : HttpLimits;
  app_page_secret : Z;
  app_authenticator : option (Authenticator Au);
  app_operations : HttpOperations;
}.

(** [HttpService::from_gateway], and the calls that complete the service. *)
Definition from_gateway (limits : HttpLimits) (uuid : list Z) : AppState :=
  {| app_limits := limits; app_page_secret := page_secret_of uuid; app_authenticator := None;
     app_operations := {| trusted_proxy := false; allowed_origins := [] |} |}.
Definition with_authenticator (a : Authenticator Au) (s : AppState) : AppState :=
  {| app_limits := app_limits s; app_page_secret := app_page_secret s;
     app_authenticator := Some a; app_operations := app_operations s |}.
Definition with_operations (o : HttpOperations) (s : AppState) : AppState :=
  {| app_limits := app_limits s; app_page_secret := app_page_secret s;
     app_authenticator := app_authenticator s; app_operations := o |}.

(** [state.service.f(..).await.map_err(service_error)?]. *)
Definition service {A} (m : M Node ServiceError A) : M Node ApiError A :=
  on (λ n, n) (λ n _, n) service_error m.

(** ** Encoding results *)

Definition render_output (batches : list RecordBatch) (format : OutputFormat) :
    result string ApiError :=
  let? r := map_err (λ e, output_error (oe_message e))
    (render_stream format_any csv_text json_encode json_parse json_text EmptyString format
       {| decimal_places := 3; string_truncate := usize_max |} (text_batch <$> batches)) in
  Ok r.2.

Definition render_arrow (batches : list RecordBatch) : result string ApiError :=
  match batches with
  | [] => Ok EmptyString
  | first :: _ => map_err output_error (arrow_stream (batch_schema first) batches)
  end.

(** Content negotiation of [get_results]. *)
Definition render_page (accept : string) (batches : list RecordBatch) :
    result (string * string) ApiError :=
  if contains "application/vnd.apache.arrow.stream" accept then
    let? b := render_arrow batches in Ok ("application/vnd.apache.arrow.stream", b)
  else if contains "text/csv" accept then
    let? b := render_output batches Csv in Ok ("text/csv", b)
  else if contains "application/x-ndjson" accept then
    let? b := render_output batches JsonLines in Ok ("application/x-ndjson", b)
  else
    let? b := render_output batches JsonFormat in Ok ("application/json", b).

(** ** Handlers *)

Definition create_session_handler (p : AuthenticatedPrincipal) (r : CreateSessionRequest)
    (ca : ClusterCall) : Handler :=
  context ← of_result (values (cs_context r));
  properties ← of_result (values (cs_properties r));
  options ← of_result (values (cs_options r));
  let overrides := extend (extend context properties) options in
  snapshot ← service (create_session_clustered p (cs_target r) overrides ca);
  mret (Response_new 201 (JsonBody (session_response snapshot))).

Definition get_session_handler (p : AuthenticatedPrincipal) (session_id : string)
    (ca : ClusterCall) : Handler :=
  snapshot ← service (session_clustered p session_id ca);
  mret (Response_new 200 (JsonBody (session_response snapshot))).

Definition update_session_handler (p : AuthenticatedPrincipal) (session_id : string)
    (r : UpdateSessionRequest) (ca : ClusterCall) : Handler :=
  context ← of_result (values (us_context r));
  properties ← of_result (values (us_properties r));
  options ← of_result (values (us_options r));
  let overrides := extend (extend context properties) options in
  snapshot ← service (update_session_clustered p session_id (us_expected_version r) overrides ca);
  mret (Response_new 200 (JsonBody (session_response snapshot))).

Definition switch_session_target_handler (p : AuthenticatedPrincipal) (session_id : string)
    (r : SwitchTargetRequest) (ca : ClusterCall) : Handler :=
  snapshot ← service (switch_target_clustered p session_id (st_expected_version r)
                        (st_target r) ca);
  mret (Response_new 200 (JsonBody (session_response snapshot))).

Definition delete_session_handler (p : AuthenticatedPrincipal) (session_id : string)
    (ca : ClusterCall) : Handler :=
  _ ← service (close_session_clustered p session_id ca);
  mret (Response_new 204 NoBody).

Definition submit_session_query_handler (p : AuthenticatedPrincipal) (session_id sql : string)
    (ca : ClusterCall) : Handler :=
  q ← service (submit_session_query_clustered p session_id sql ca);
  mret (Response_new 202 (JsonBody (query_response q))).

Definition submit_stateless_query_handler (p : AuthenticatedPrincipal)
    (r : StatelessQueryRequest) (ca : ClusterCall) : Handler :=
  context ← of_result (values (sl_context r));
  properties ← of_result (values (sl_properties r));
  q ← service (submit_stateless_query_clustered p (sl_target r) (extend context properties)
                 (sl_sql r) ca);
  mret (Response_new 202 (JsonBody (query_response q))).

Definition get_query_handler (p : AuthenticatedPrincipal) (query_id : string)
    (ca : ClusterCall) : Handler :=
  q ← service (query_clustered p query_id (ca_now ca) (ca_utc ca));
  mret (Response_new 200 (JsonBody (query_response q))).

Definition cancel_query_handler (p : AuthenticatedPrincipal) (query_id : string)
    (ca : ClusterCall) : Handler :=
  q ← service (locally (cancel p query_id (ca_now ca)));
  mret (Response_new 202 (JsonBody (query_response q))).

(** [query.limit.unwrap_or(default).clamp(1, max)]. *)
Definition page_limit_of (l : HttpLimits) (q : ResultsQuery) : Z :=
  Z.min (Z.max (default (default_page_rows l) (page_limit q)) 1) (max_page_rows l).

Definition page_offset_of (app : AppState) (q : ResultsQuery) : result Z ApiError :=
  match page_token q with
  | None => Ok 0
  | Some token => ok_or (decode_page_token b64_decode token (app_page_secret app))
                    invalid_page_token
  end.

(** The header that carries the continuation token. *)
Definition add_next_token (app : AppState) (next : option Z) (r : Response) :
    result Response ApiError :=
  match next with
  | None => Ok r
  | Some offset =>
      let? token := ok_or (header_from_str (encode_page_token b64_encode offset
                                              (app_page_secret app)))
        (ApiError_new 500 "pagination" "could not encode page token") in
      Ok (insert_header "x-qcli-next-page-token" token r)
  end.

Definition get_results_handler (app : AppState) (p : AuthenticatedPrincipal) (query_id : string)
    (q : ResultsQuery) (accept : option string) (ca : ClusterCall) : Handler :=
  offset ← of_result (page_offset_of app q);
  let limit := page_limit_of (app_limits app) q in
  page ← service (result_page_clustered p query_id offset limit (ca_now ca) (ca_utc ca));
  rendered ← of_result (render_page (default "application/json" accept) (page_batches page));
  of_result (add_next_token app (page_next_offset page)
    (insert_header "content-type" rendered.1 (Response_new 200 (BytesBody rendered.2)))).

(** [get_events]: the stream the task of HttpEvents.v then drives; [later] is
    the time of the second call. *)
Definition get_events_handler (p : AuthenticatedPrincipal) (query_id : string)
    (last_event_id : option string) (ca : ClusterCall) (later : Z) : Handler :=
  let last := default 0 (last_event_id ≫= parse_u64) in
  stream ← service (locally (get_events_stream p query_id last (ca_now ca) later));
  mret (Response_new 200 (EventsBody stream)).

Definition dispatch (app : AppState) (p : AuthenticatedPrincipal) (r : HttpRequest)
    (ca : ClusterCall) (later : Z) : Handler :=
  match rq_call r with
  | CallCreateSession b => create_session_handler p b ca
  | CallGetSession id => get_session_handler p id ca
  | CallUpdateSession id b => update_session_handler p id b ca
  | CallSwitchTarget id b => switch_session_target_handler p id b ca
  | CallDeleteSession id => delete_session_handler p id ca
  | CallSubmitSession id sql => submit_session_query_handler p id sql ca
  | CallSubmitStateless b => submit_stateless_query_handler p b ca
  | CallGetQuery id => get_query_handler p id ca
  | CallCancelQuery id => cancel_query_handler p id ca
  | CallGetResults id q => get_results_handler app p id q (header "accept" r) ca
  | CallGetEvents id => get_events_handler p id (header "last-event-id" r) ca later
  end.

(** ** The layers *)

(** What a request works on: the service and the authenticator. *)
Record App := { app_node : Node; app_auth : Au }.

Definition on_node {A} (m : M Node ApiError A) : M App ApiError A :=
  on app_node (λ n a, {| app_node := n; app_auth := app_auth a |}) (λ e, e) m.
Definition audit_request (outcome : string) (p : option AuthenticatedPrincipal) :
    M App ApiError unit :=
  on_node (service (locally (audit "request.authenticate" outcome p None None None))).

(** A handler's error is a response. *)
Definition respond (m : M App ApiError Response) : M App ApiError Response :=
  λ a, let '(r, a') := m a in
       (Ok match r with Ok resp => resp | Err e => error_response e end, a').

Definition local_principal : AuthenticatedPrincipal :=
  {| principal_id := "local"; allowed_targets := {[ "*" ]}; max_sessions := usize_max;
     max_concurrent_queries := usize_max |}.

(** [authenticate_request]: who the request acts for. *)
Definition authenticate (app : AppState) (r : HttpRequest) (now : Z) :
    M App ApiError AuthenticatedPrincipal :=
  match app_authenticator app with
  | None => mret local_principal
  | Some authenticator =>
      match header "authorization" r ≫= strip_prefix "Bearer " with
      | None =>
          _ ← audit_request "denied" None;
          fail (ApiError_new 401 "authentication_required" "a bearer credential is required")
      | Some bearer =>
          λ a,
            let '(outcome, au) := authenticator bearer now (app_auth a) in
            let a' := {| app_node := app_node a; app_auth := au |} in
            match outcome with
            | Ok p => (Ok p, a')
            | Err e =>
                (_ ← audit_request "denied" None;
                 fail (ApiError_new (if decide (ae_kind e = Configuration) then 500 else 401)
                         "authentication_failed" (ae_message e))) a'
            end
      end
  end.

Definition authenticate_request (app : AppState) (r : HttpRequest) (now : Z)
    (next : AuthenticatedPrincipal → M App ApiError Response) : M App ApiError Response :=
  p ← authenticate app r now;
  _ ← audit_request "allowed" (Some p);
  respond (next p).

Definition add_cors_headers (origin : string) (r : Response) : result Response ApiError :=
  let? v := ok_or (header_from_str origin)
    (ApiError_new 500 "cors" "configured origin is not a valid header value") in
  Ok (insert_header "vary" "Origin" (insert_header "access-control-allow-origin" v r)).

Definition preflight_headers (r : Response) : Response :=
  insert_header "access-control-allow-headers" "Authorization, Content-Type, Last-Event-ID"
    (insert_header "access-control-allow-methods" "GET, POST, PATCH, DELETE, OPTIONS" r).

Definition add_origin (origin : option string) (r : Response) : result Response ApiError :=
  match origin with Some o => add_cors_headers o r | None => Ok r end.

Definition enforce_http_operations (app : AppState) (r : HttpRequest)
    (next : M App ApiError Response) : M App ApiError Response :=
  down ← gets (λ a, shutting_down (nd_service (app_node a)));
  _ ← reject_if down (ApiError_new 503 "shutting_down" "server is shutting down");
  let forwarded := has_header "forwarded" r || has_header "x-forwarded-for" r
                   || has_header "x-forwarded-host" r || has_header "x-forwarded-proto" r in
  _ ← reject_if (forwarded && negb (trusted_proxy (app_operations app)))
        (ApiError_new 400 "untrusted_forwarded_headers"
           "forwarded headers require trusted-proxy mode");
  _ ← reject_if (trusted_proxy (app_operations app)
                 && negb (bool_decide (header "x-forwarded-proto" r = Some "https")))
        (ApiError_new 426 "https_required" "trusted proxy must report x-forwarded-proto: https");
  let origin := header "origin" r in
  _ ← reject_if (match origin with
                 | Some o => negb (bool_decide (o ∈ allowed_origins (app_operations app)))
                 | None => false
                 end)
        (ApiError_new 403 "origin_forbidden" "request origin is not allowed");
  if bool_decide (rq_method r = OPTIONS) && has_header "access-control-request-method" r then
    let resp := Response_new 204 NoBody in
    of_result (match origin with
               | Some o => let? resp := add_cors_headers o resp in Ok (preflight_headers resp)
               | None => Ok resp
               end)
  else
    resp ← respond next;
    of_result (add_origin origin resp).

(** [HttpService::router]: the API under both layers. *)
Definition handle (app : AppState) (r : HttpRequest) (ca : ClusterCall) (later : Z) :
    M App ApiError Response :=
  respond (enforce_http_operations app r
    (authenticate_request app r (ca_utc ca) (λ p, on_node (dispatch app p r ca later)))).

Definition health_live : Z := 204.
Definition health_ready (a : App) : Z :=
  if shutting_down (nd_service (app_node a)) then 503 else 204.

(** A tick of the cleanup task of [serve_with_shutdown]: [false] ends it. *)
Definition cleanup_tick (now : Z) : M App ApiError bool :=
  down ← gets (λ a, shutting_down (nd_service (app_node a)));
  if (down : bool) then mret false
  else _ ← on_node (service (locally (cleanup_expired now))); mret true.
End Http.
