(* ===== verification/HttpApi.v ===== *)
(** * The interface of the HTTP gateway (crates/qcli-http/src/lib.rs)

    The table of routes ([HttpService::router]), the decoding of request bodies
    (the derived [Deserialize] of the request types), the call a routed request
    makes, and the OpenAPI description ([ApiDoc] and the attributes of the
    handlers).  The matching of paths is axum's; the tables are compared as they
    are written. *)
From S2P Require Import Prelude Text Arrow DriverApi Auth Config Core Cluster Metadata.
From S2P Require Import ServiceData Results Service ServiceCluster Chars Output PageToken.
From S2P Require Import Headers HttpEvents Http.
From Stdlib Require Import Ascii.

(** ** Routes *)

(** The functions the routes name. *)
Inductive Endpoint :=
| create_session_endpoint | get_session_endpoint | update_session_endpoint
| switch_session_target_endpoint | delete_session_endpoint | submit_session_query_endpoint
| submit_stateless_query_endpoint | get_query_endpoint | cancel_query_endpoint
| get_results_endpoint | get_events_endpoint.
#[global] Instance Endpoint_eq_dec : EqDecision Endpoint.
Proof. solve_decision. Defined.

Record Route := { rt_path : string; rt_methods : list (HttpMethod * Endpoint) }.

(** The routes under both layers. *)
Definition api_routes : list Route :=
  [{| rt_path := "/v1/sessions"; rt_methods := [(POST, create_session_endpoint)] |};
   {| rt_path := "/v1/sessions/{session_id}";
      rt_methods := [(GET, get_session_endpoint); (PATCH, update_session_endpoint);
                     (DELETE, delete_session_endpoint)] |};
   {| rt_path := "/v1/sessions/{session_id}/target";
      rt_methods := [(POST, switch_session_target_endpoint)] |};
   {| rt_path := "/v1/sessions/{session_id}/properties";
      rt_methods := [(PATCH, update_session_endpoint)] |};
   {| rt_path := "/v1/sessions/{session_id}/options";
      rt_methods := [(PATCH, update_session_endpoint)] |};
   {| rt_path := "/v1/sessions/{session_id}/queries";
      rt_methods := [(POST, submit_session_query_endpoint)] |};
   {| rt_path := "/v1/queries"; rt_methods := [(POST, submit_stateless_query_endpoint)] |};
   {| rt_path := "/v1/queries/{query_id}"; rt_methods := [(GET, get_query_endpoint)] |};
   {| rt_path := "/v1/queries/{query_id}/results"; rt_methods := [(GET, get_results_endpoint)] |};
   {| rt_path := "/v1/queries/{query_id}/events"; rt_methods := [(GET, get_events_endpoint)] |};
   {| rt_path := "/v1/queries/{query_id}/cancel"; rt_methods := [(POST, cancel_query_endpoint)] |}].

(** Every method and path that is routed, with its function. *)
Definition routed : list (HttpMethod * string * Endpoint) :=
  api_routes ≫= λ r, (λ e, (e.1, rt_path r, e.2)) <$> rt_methods r.

(** ** Bodies *)

(** [BTreeMap<String, Value>]: the last of equal keys wins. *)
Definition map_of_value (v : Value) : option (gmap string Value) :=
  match v with Object fields => Some (list_to_map (reverse fields)) | _ => None end.

(** A field with [#[serde(default)]]: missing, it is empty. *)
Definition defaulted_map (o : option Value) : option (gmap string Value) :=
  match o with None => Some ∅ | Some v => map_of_value v end.

(** The derived [Deserialize] when the last fields have defaults: an object has no
    field twice; an array may end before the defaulted ones. *)
Definition some_fields (names : list string) (v : Value) : option (list (option Value)) :=
  match v with
  | Object fields =>
      mapM (λ name, match filter (λ e, e.1 = name) fields with
                    | [] => Some None
                    | [(_, v)] => Some (Some v)
                    | _ => None
                    end) names
  | Array l =>
      if (length l <=? length names)%nat
      then Some ((Some <$> l) ++ replicate (length names - length l) None) else None
  | _ => None
  end.

Definition create_session_of_value (v : Value) : option CreateSessionRequest :=
  fields ← some_fields ["target"; "context"; "properties"; "options"] v;
  match fields with
  | [target; context; properties; options] =>
      target ← target ≫= as_str;
      context ← defaulted_map context;
      properties ← defaulted_map properties;
      options ← defaulted_map options;
      Some {| cs_target := target; cs_context := context; cs_properties := properties;
              cs_options := options |}
  | _ => None
  end.

Definition update_session_of_value (v : Value) : option UpdateSessionRequest :=
  fields ← some_fields ["expected_version"; "context"; "properties"; "options"] v;
  match fields with
  | [expected_version; context; properties; options] =>
      expected_version ← expected_version ≫= as_unsigned u64_max;
      context ← defaulted_map context;
      properties ← defaulted_map properties;
      options ← defaulted_map options;
      Some {| us_expected_version := expected_version; us_context := context;
              us_properties := properties; us_options := options |}
  | _ => None
  end.

Definition switch_target_of_value (v : Value) : option SwitchTargetRequest :=
  fields ← struct_fields ["expected_version"; "target"] v;
  match fields with
  | [expected_version; target] =>
      expected_version ← as_unsigned u64_max expected_version;
      target ← as_str target;
      Some {| st_expected_version := expected_version; st_target := target |}
  | _ => None
  end.

(** [QueryRequest]: its one field. *)
Definition query_of_value (v : Value) : option string :=
  fields ← struct_fields ["sql"] v;
  match fields with [sql] => as_str sql | _ => None end.

Definition stateless_query_of_value (v : Value) : option StatelessQueryRequest :=
  fields ← some_fields ["target"; "sql"; "context"; "properties"] v;
  match fields with
  | [target; sql; context; properties] =>
      target ← target ≫= as_str;
      sql ← sql ≫= as_str;
      context ← defaulted_map context;
      properties ← defaulted_map properties;
      Some {| sl_target := target; sl_sql := sql; sl_context := context;
              sl_properties := properties |}
  | _ => None
  end.

(** The call of a function with what its extractors get: the segment of the path
    it captures, the query string and the body. *)
Definition call_of (e : Endpoint) (captured : string) (q : ResultsQuery) (body : Value) :
    option ApiCall :=
  match e with
  | create_session_endpoint => CallCreateSession <$> create_session_of_value body
  | get_session_endpoint => Some (CallGetSession captured)
  | update_session_endpoint => CallUpdateSession captured <$> update_session_of_value body
  | switch_session_target_endpoint => CallSwitchTarget captured <$> switch_target_of_value body
  | delete_session_endpoint => Some (CallDeleteSession captured)
  | submit_session_query_endpoint => CallSubmitSession captured <$> query_of_value body
  | submit_stateless_query_endpoint => CallSubmitStateless <$> stateless_query_of_value body
  | get_query_endpoint => Some (CallGetQuery captured)
  | cancel_query_endpoint => Some (CallCancelQuery captured)
  | get_results_endpoint => Some (CallGetResults captured q)
  | get_events_endpoint => Some (CallGetEvents captured)
  end.

(** ** The OpenAPI description *)

(** A parameter by its name and place, or the fields of a struct. *)
Inductive Param :=
| PathParam (name : string)
| HeaderParam (name : string)
| FieldsOf (type : string).

(** What [#[utoipa::path]] says of an operation: the function that serves it, its
    parameters, the type of its body and of each response by status. *)
Record Operation := {
  op_endpoint : Endpoint;
  op_method : HttpMethod;
  op_path : string;
  op_tag : string;
  op_params : list Param;
  op_body : option string;
  op_responses : list (Z * option string);
}.

Definition create_session_doc : Operation :=
  {| op_endpoint := create_session_endpoint; op_method := POST;
     op_path := "/v1/sessions"; op_tag := "sessions";
     op_params := [];
     op_body := Some "CreateSessionRequest";
     op_responses := [(201, Some "SessionResponse"); (400, Some "ApiErrorResponse");
                       (404, Some "ApiErrorResponse")] |}.

Definition get_session_doc : Operation :=
  {| op_endpoint := get_session_endpoint; op_method := GET;
     op_path := "/v1/sessions/{session_id}"; op_tag := "sessions";
     op_params := [PathParam "session_id"];
     op_body := None;
     op_responses := [(200, Some "SessionResponse"); (404, Some "ApiErrorResponse")] |}.

Definition update_session_doc : Operation :=
  {| op_endpoint := update_session_endpoint; op_method := PATCH;
     op_path := "/v1/sessions/{session_id}"; op_tag := "sessions";
     op_params := [PathParam "session_id"];
     op_body := Some "UpdateSessionRequest";
     op_responses := [(200, Some "SessionResponse"); (400, Some "ApiErrorResponse");
                       (404, Some "ApiErrorResponse"); (409, Some "ApiErrorResponse")] |}.

Definition update_session_properties_doc : Operation :=
  {| op_endpoint := update_session_endpoint; op_method := PATCH;
     op_path := "/v1/sessions/{session_id}/properties"; op_tag := "sessions";
     op_params := [PathParam "session_id"];
     op_body := Some "UpdateSessionRequest";
     op_responses := [(200, Some "SessionResponse"); (409, Some "ApiErrorResponse")] |}.

Definition update_session_options_doc : Operation :=
  {| op_endpoint := update_session_endpoint; op_method := PATCH;
     op_path := "/v1/sessions/{session_id}/options"; op_tag := "sessions";
     op_params := [PathParam "session_id"];
     op_body := Some "UpdateSessionRequest";
     op_responses := [(200, Some "SessionResponse"); (409, Some "ApiErrorResponse")] |}.

Definition switch_session_target_doc : Operation :=
  {| op_endpoint := switch_session_target_endpoint; op_method := POST;
     op_path := "/v1/sessions/{session_id}/target"; op_tag := "sessions";
     op_params := [PathParam "session_id"];
     op_body := Some "SwitchTargetRequest";
     op_responses := [(200, Some "SessionResponse"); (404, Some "ApiErrorResponse");
                       (409, Some "ApiErrorResponse")] |}.

Definition delete_session_doc : Operation :=
  {| op_endpoint := delete_session_endpoint; op_method := DELETE;
     op_path := "/v1/sessions/{session_id}"; op_tag := "sessions";
     op_params := [PathParam "session_id"];
     op_body := None;
     op_responses := [(204, None); (404, Some "ApiErrorResponse")] |}.

Definition submit_session_query_doc : Operation :=
  {| op_endpoint := submit_session_query_endpoint; op_method := POST;
     op_path := "/v1/sessions/{session_id}/queries"; op_tag := "queries";
     op_params := [PathParam "session_id"];
     op_body := Some "QueryRequest";
     op_responses := [(202, Some "QueryResponse"); (404, Some "ApiErrorResponse");
                       (413, Some "ApiErrorResponse"); (429, Some "ApiErrorResponse")] |}.

Definition submit_stateless_query_doc : Operation :=
  {| op_endpoint := submit_stateless_query_endpoint; op_method := POST;
     op_path := "/v1/queries"; op_tag := "queries";
     op_params := [];
     op_body := Some "StatelessQueryRequest";
     op_responses := [(202, Some "QueryResponse"); (404, Some "ApiErrorResponse");
                       (413, Some "ApiErrorResponse"); (429, Some "ApiErrorResponse")] |}.

Definition get_query_doc : Operation :=
  {| op_endpoint := get_query_endpoint; op_method := GET;
     op_path := "/v1/queries/{query_id}"; op_tag := "queries";
     op_params := [PathParam "query_id"];
     op_body := None;
     op_responses := [(200, Some "QueryResponse"); (404, Some "ApiErrorResponse")] |}.

Definition cancel_query_doc : Operation :=
  {| op_endpoint := cancel_query_endpoint; op_method := POST;
     op_path := "/v1/queries/{query_id}/cancel"; op_tag := "queries";
     op_params := [PathParam "query_id"];
     op_body := None;
     op_responses := [(202, Some "QueryResponse"); (404, Some "ApiErrorResponse")] |}.

Definition get_results_doc : Operation :=
  {| op_endpoint := get_results_endpoint; op_method := GET;
     op_path := "/v1/queries/{query_id}/results"; op_tag := "queries";
     op_params := [PathParam "query_id"; FieldsOf "ResultsQuery"];
     op_body := None;
     op_responses := [(200, None); (400, Some "ApiErrorResponse");
                       (404, Some "ApiErrorResponse"); (409, Some "ApiErrorResponse");
                       (422, Some "ApiErrorResponse")] |}.

Definition get_events_doc : Operation :=
  {| op_endpoint := get_events_endpoint; op_method := GET;
     op_path := "/v1/queries/{query_id}/events"; op_tag := "queries";
     op_params := [PathParam "query_id"; HeaderParam "Last-Event-ID"];
     op_body := None;
     op_responses := [(200, None); (404, Some "ApiErrorResponse")] |}.

(** [ApiDoc]: the operations in order. *)
Definition api_doc : list Operation :=
  [create_session_doc; get_session_doc; update_session_doc;
   update_session_properties_doc; update_session_options_doc; switch_session_target_doc;
   delete_session_doc; submit_session_query_doc; submit_stateless_query_doc;
   get_query_doc; get_results_doc; get_events_doc;
   cancel_query_doc].

(** ** What they say of each other *)

(** The parameters in braces of a path. *)
Fixpoint braced (open : option string) (path : string) : list string :=
  match path with
  | EmptyString => []
  | String c path =>
      match open with
      | None => braced (if Ascii.eqb c "{" then Some EmptyString else None) path
      | Some name =>
          if Ascii.eqb c "}" then name :: braced None path
          else braced (Some (name +:+ String c EmptyString)) path
      end
  end.
Definition path_params (path : string) : list string := braced None path.

Definition named_in_path (op : Operation) : list string :=
  omap (λ p, match p with PathParam name => Some name | _ => None end) (op_params op).

(** The documented statuses of success. *)
Definition success_statuses (op : Operation) : list Z :=
  filter (λ s, 200 ≤ s < 300) (op_responses op).*1.

Definition endpoint_of (c : ApiCall) : Endpoint :=
  match c with
  | CallCreateSession _ => create_session_endpoint
  | CallGetSession _ => get_session_endpoint
  | CallUpdateSession _ _ => update_session_endpoint
  | CallSwitchTarget _ _ => switch_session_target_endpoint
  | CallDeleteSession _ => delete_session_endpoint
  | CallSubmitSession _ _ => submit_session_query_endpoint
  | CallSubmitStateless _ => submit_stateless_query_endpoint
  | CallGetQuery _ => get_query_endpoint
  | CallCancelQuery _ => cancel_query_endpoint
  | CallGetResults _ _ => get_results_endpoint
  | CallGetEvents _ => get_events_endpoint
  end.

Lemma call_of_endpoint e captured q body c : call_of e captured q body = Some c → endpoint_of c = e.
Proof. destruct e; simpl; intros H; by simplify_option_eq. Qed.

Lemma documented_routes :
  (λ op, (op_method op, op_path op, op_endpoint op)) <$> api_doc ≡ₚ routed.
Proof. apply (bool_decide_unpack _). vm_compute. exact I. Qed.

Lemma documented_once : NoDup ((λ op, (op_method op, op_path op)) <$> api_doc).
Proof. apply (bool_decide_unpack _). vm_compute. exact I. Qed.

Lemma documented_params :
  Forall (λ op, named_in_path op = path_params (op_path op)) api_doc.
Proof. apply (bool_decide_unpack _). vm_compute. exact I. Qed.

Lemma documented_bodies :
  Forall (λ op, is_Some (op_body op) ↔ ∀ captured q, call_of (op_endpoint op) captured q Null = None)
    api_doc.
Proof.
  unfold api_doc. repeat (apply Forall_cons_2; [|]); [..|by apply Forall_nil_2];
    (split; [try (by intros [? ?])|try (by eexists)]); try done;
    by intros H; specialize (H EmptyString {| page_token := None; page_limit := None |}).
Qed.

Section Described.
Context `{ipc : ArrowIpc}.
Context {St : Type} `{!ClusterStateStore St}.
Context {Ob : Type} `{!ResultObjectStore Bytes Ob}.
Context `{!Serde SharedSession} `{!Serde SharedQuery} `{!Serde SharedPrepared}.
Variable b64_encode : string → string.
Variable b64_decode : string → option string.
Context {Any : Type}.
Variable text_batch : RecordBatch → TextBatch (Any:=Any).
Variable format_any : Any → result string string.
Variable csv_text : bool → ascii → TextBatch (Any:=Any) → result string string.
Variable json_encode : TextBatch (Any:=Any) → result string string.
Variable json_parse : string → result (list Value) string.
Variable json_text : Value → string.
Variable arrow_stream : Schema → list RecordBatch → result string string.
Context {Au : Type}.

Abbreviation Node := (Node (St:=St) (Ob:=Ob)).
Abbreviation dispatch := (dispatch (St:=St) (Ob:=Ob) (Au:=Au) b64_encode b64_decode text_batch
  format_any csv_text json_encode json_parse json_text arrow_stream).

(** Every answer of [m] has the status [s]. *)
Definition answers (s : Z) (m : M Node ApiError Response) : Prop :=
  ∀ n resp n', m n = (Ok resp, n') → rs_status resp = s.

Lemma answers_bind {A} s (m : M Node ApiError A) f :
  (∀ a, answers s (f a)) → answers s (mbind f m).
Proof.
  intros Hf n resp n'. unfold mbind, M_bind. destruct (m n) as [[a|e] n1]; [apply Hf|done].
Qed.

Lemma answers_ret s body : answers s (mret (Response_new s body)).
Proof. by intros n resp n' [= <- _]. Qed.

Lemma next_token_status b64 app next r r' :
  add_next_token (Au:=Au) b64 app next r = Ok r' → rs_status r' = rs_status r.
Proof.
  unfold add_next_token. destruct next; [|by intros [= ->]].
  destruct (header_from_str _); simpl; [by intros [= <-]|done].
Qed.

(** The status of a call's answer, by function. *)
Lemma dispatch_status app p r ca later op :
  op ∈ api_doc → op_endpoint op = endpoint_of (rq_call r) →
  ∃ s, success_statuses op = [s] ∧ answers s (dispatch app p r ca later).
Proof.
  intros Hop. unfold Http.dispatch.
  assert (∀ s m, success_statuses op = [s] → answers s m →
    ∃ s, success_statuses op = [s] ∧ answers s m) as Hex by eauto.
  unfold api_doc in Hop.
  repeat (apply elem_of_cons in Hop as [->|Hop]; [|]); [..|by apply elem_of_nil in Hop];
    destruct (rq_call r); try done; intros _; (eapply Hex; [vm_compute; reflexivity|]);
    repeat (apply answers_bind; intros ?); try apply answers_ret.
  intros n resp n' [= Hr%next_token_status _]. by rewrite Hr.
Qed.

End Described.

(** The statuses of the layers, and of the errors every handler can meet, are
    described for no operation. *)
Example undescribed_statuses :
  Forall (λ op, Forall (λ s, s ∉ (op_responses op).*1) [401; 403; 426; 500; 502; 503]) api_doc.
Proof. apply (bool_decide_unpack _). vm_compute. exact I. Qed.
