(* ===== verification/HttpFacts.v ===== *)
(** * The HTTP gateway: who a request acts for

    Requests the layers refuse change nothing but the audit log; every other
    request acts for the principal its credential belongs to, and on a
    standalone node what it does is a sequence of the changes that principal is
    entitled to. *)
From S2P Require Import Prelude Text Arrow DriverApi Auth Config Core Cluster Metadata.
From S2P Require Import ServiceData Results Service ServiceSpec ServiceCluster Chars Output.
From S2P Require Import NodeSteps PageToken Headers HttpEvents Http.
From Stdlib Require Import Ascii.

Section HttpFacts.
Context `{ipc : ArrowIpc}.
Context {St : Type} `{!ClusterStateStore St}.
Context {Ob : Type} `{!ResultObjectStore Bytes Ob}.
Context `{!Serde SharedSession} `{!Serde SharedQuery} `{!Serde SharedPrepared}.
Variable b64_encode : string → string.
Variable b64_decode : string → option string.
Context {Any : Type}.
Variable text_batch : RecordBatch → TextBatch (Any:=Any).
Variable format_any : Any → result string string.
Variable csv_text : bool → ascii → TextBatch (Any:=Any) → result string string.
Variable json_encode : TextBatch (Any:=Any) → result string string.
Variable json_parse : string → result (list Value) string.
Variable json_text : Value → string.
Variable arrow_stream : Schema → list RecordBatch → result string string.
Context {Au : Type}.

Abbreviation Node := (Node (St:=St) (Ob:=Ob)).
Abbreviation App := (App (St:=St) (Ob:=Ob) (Au:=Au)).
Abbreviation dispatch := (dispatch (St:=St) (Ob:=Ob) (Au:=Au) b64_encode b64_decode text_batch
  format_any csv_text json_encode json_parse json_text arrow_stream).
Abbreviation handle := (handle (St:=St) (Ob:=Ob) (Au:=Au) b64_encode b64_decode text_batch
  format_any csv_text json_encode json_parse json_text arrow_stream).

(** ** The handlers on a standalone node *)

Section Handlers.
Context (app : AppState (Au:=Au)) (p : AuthenticatedPrincipal) (ca : ClusterCall).
Context (doomed : gset string).
Abbreviation am := (ca_ambient ca).
Abbreviation stepwise := (alone am doomed (rtc (step p am doomed))).
Abbreviation evolving := (alone am doomed (evolution p am doomed)).

Lemma evolves_events id last :
  evolves p am doomed (get_events_stream p id last (ca_now ca) (ca_now ca)).
Proof.
  apply evolves_bind; [|intros k].
  { apply evolves_bind; [apply evolves_owned|intros; apply evolves_ret]. }
  apply evolves_bind; [|intros; apply evolves_ret].
  apply evolves_bind; [apply evolves_owned|intros; apply evolves_ret].
Qed.

Ltac step_handler :=
  first [ apply stepwise_result | apply stepwise_ret
        | apply alone_on; first [ apply stepwise_create | apply stepwise_session
            | apply stepwise_mutate | apply stepwise_close | apply stepwise_query
            | apply stepwise_page | apply stepwise_local; first [ apply evolves_cancel
            | apply evolves_events ] ]
        | apply stepwise_bind; [|intros ?] ].

(** Every handler takes the service through changes its principal may make. *)
Lemma evolving_dispatch r : evolving (dispatch app p r ca (ca_now ca)).
Proof.
  unfold Http.dispatch. destruct (rq_call r).
  1-5,8-11: apply stepwise_evolving; repeat step_handler.
  - apply evolving_then; [|done]. apply alone_on, evolving_submit_session.
  - apply evolving_bind; [apply stepwise_result|intros context].
    apply evolving_bind; [apply stepwise_result|intros properties].
    apply evolving_then; [|done]. apply alone_on, evolving_submit_stateless.
Qed.
End Handlers.

(** ** The layers *)

(** The principal a request acts for: the credential's, or the local one when
    the gateway runs without an authenticator. *)
Definition accepted (app : AppState (Au:=Au)) (r : HttpRequest) (now : Z) (au : Au)
    (p : AuthenticatedPrincipal) : Prop :=
  match app_authenticator app with
  | None => p = local_principal
  | Some authenticator =>
      ∃ bearer, header "authorization" r = Some ("Bearer " +:+ bearer) ∧
        (authenticator bearer now au).1 = Ok p
  end.

(** Changed in nothing but new entries of the audit log. *)
Definition only_audited (n n' : Node) : Prop :=
  ∃ l, n' = with_service (with_audit_log (λ log, log ++ l) (nd_service n)) n.

Lemma only_audited_refl n : only_audited n n.
Proof.
  exists []. destruct n as [[]]. unfold with_service, with_audit_log. simpl.
  by rewrite app_nil_r.
Qed.

Definition audit_entry (outcome : string) (p : option AuthenticatedPrincipal) : AuditEvent :=
  {| ae_action := "request.authenticate"; ae_outcome := outcome; ae_principal := principal_id <$> p;
     ae_target := None; ae_session_id := None; ae_query_id := None |}.

(** The node with one more entry. *)
Definition audited (e : AuditEvent) (n : Node) : Node :=
  with_service (with_audit_log (λ log, log ++ [e]) (nd_service n)) n.

Lemma audited_only e n : only_audited n (audited e n).
Proof. by exists [e]. Qed.

Lemma audit_request_run outcome p (a : App) :
  audit_request outcome p a
  = (Ok tt, {| app_node := audited (audit_entry outcome p) (app_node a); app_auth := app_auth a |}).
Proof. done. Qed.

(** What authentication does. *)
Lemma authenticate_spec app r now (a : App) :
  (∃ p au, accepted app r now (app_auth a) p ∧
     authenticate app r now a = (Ok p, {| app_node := app_node a; app_auth := au |})) ∨
  (∃ e au, (api_status e = 401 ∨ api_status e = 500) ∧
     (¬ ∃ p, accepted app r now (app_auth a) p) ∧
     authenticate app r now a
     = (Err e, {| app_node := audited (audit_entry "denied" None) (app_node a);
                  app_auth := au |})).
Proof.
  unfold authenticate, accepted. destruct (app_authenticator app) as [f|].
  2:{ left. exists local_principal, (app_auth a). split; [done|]. by destruct a. }
  destruct (header "authorization" r) as [h|] eqn:Eh; cbn [mbind option_bind].
  2:{ right. eexists _, (app_auth a). split; [|split; [|reflexivity]]; [by left|].
      by intros (p & b & [=] & _). }
  destruct (strip_prefix "Bearer " h) as [bearer|] eqn:Eb.
  2:{ right. eexists _, (app_auth a). split; [|split; [|reflexivity]]; [by left|].
      intros (p & b & Hb & _). assert (h = "Bearer " +:+ b) as -> by by injection Hb.
      by rewrite strip_prefix_app in Eb. }
  apply strip_prefix_Some in Eb as ->.
  destruct (f bearer now (app_auth a)) as [[p|e] au] eqn:Ef.
  - left. exists p, au. split; [|done]. exists bearer. by rewrite Ef.
  - right. eexists _, au. split; [|split; [|reflexivity]].
    + simpl. destruct (decide (ae_kind e = Configuration)); auto.
    + intros (p & b & Hb & Hp).
      assert (bearer = b) as <- by (apply (string_app_inv_l "Bearer "); congruence).
      by rewrite Ef in Hp.
Qed.

(** The outcome of a request under both layers. *)
Lemma handle_spec app r ca later (a : App) :
  ∃ resp a', handle app r ca later a = (Ok resp, a') ∧
    (((rs_status resp ∈ [204; 400; 401; 403; 426; 500; 503]) ∧
      only_audited (app_node a) (app_node a')) ∨
     (∃ p, accepted app r (ca_utc ca) (app_auth a) p ∧
        app_node a' = (dispatch app p r ca later
          (audited (audit_entry "allowed" (Some p)) (app_node a))).2)).
Proof.
  unfold Http.handle.
  set (next := authenticate_request _ _ _ _).
  assert (∃ resp a', respond next a = (Ok resp, a') ∧
    (((rs_status resp ∈ [401; 500]) ∧ only_audited (app_node a) (app_node a')) ∨
     (∃ p, accepted app r (ca_utc ca) (app_auth a) p ∧
        app_node a' = (dispatch app p r ca later
          (audited (audit_entry "allowed" (Some p)) (app_node a))).2))) as (resp & a' & E & Hcase).
  { unfold respond, next, authenticate_request. unfold mbind at 1, M_bind at 1.
    destruct (authenticate_spec app r (ca_utc ca) a) as
      [(p & au & Hp & ->)|(e & au & He & _ & ->)].
    - unfold mbind at 1, M_bind at 1. rewrite audit_request_run. unfold respond, on_node, on.
      cbn [app_node app_auth].
      destruct (dispatch app p r ca later _) as [d n] eqn:Ed.
      eexists _, _. split; [reflexivity|]. right. exists p. split; [done|]. by rewrite Ed.
    - eexists _, _. split; [reflexivity|]. left. split; [|apply audited_only].
      unfold error_response. destruct He as [-> | ->]; simpl; set_solver. }
  set (outcome := λ (resp : Response) (a' : App),
    (((rs_status resp ∈ [204; 400; 401; 403; 426; 500; 503]) ∧
      only_audited (app_node a) (app_node a')) ∨
     (∃ p, accepted app r (ca_utc ca) (app_auth a) p ∧
        app_node a' = (dispatch app p r ca later
          (audited (audit_entry "allowed" (Some p)) (app_node a))).2))).
  assert (∀ e, api_status e ∈ [204; 400; 401; 403; 426; 500; 503] →
    outcome (error_response e) a) as Hreject.
  { intros e He. left. split; [|apply only_audited_refl]. unfold error_response.
    by destruct (api_status e =? 401). }
  assert (∀ b e (k : M App ApiError Response), api_status e ∈ [204; 400; 401; 403; 426; 500; 503] →
    (∃ resp a', respond k a = (Ok resp, a') ∧ outcome resp a') →
    ∃ resp a', respond (_ ← reject_if b e; k) a = (Ok resp, a') ∧ outcome resp a') as Hguard.
  { intros b e k He Hk. destruct b; [|exact Hk]. eexists _, _. split; [reflexivity|].
    by apply Hreject. }
  unfold enforce_http_operations.
  set (down := shutting_down (nd_service (app_node a))).
  match goal with |- context [mbind ?f (gets _)] =>
    change (∃ resp a', respond (f down) a = (Ok resp, a') ∧ outcome resp a') end.
  repeat (apply Hguard; [simpl; set_solver|]).
  set (origin := header "origin" r).
  destruct (bool_decide (rq_method r = OPTIONS) && has_header "access-control-request-method" r).
  - unfold respond, of_result. eexists _, _. split; [reflexivity|].
    destruct origin as [o|]; simpl.
    + unfold add_cors_headers. destruct (header_from_str o); simpl.
      * left. split; [simpl; set_solver|apply only_audited_refl].
      * apply Hreject. simpl. set_solver.
    + left. split; [simpl; set_solver|apply only_audited_refl].
  - unfold respond at 1. unfold mbind at 1, M_bind at 1. rewrite E. unfold of_result.
    eexists _, _. split; [reflexivity|].
    assert (outcome resp a') as Hout.
    { destruct Hcase as [[Hs Ho]|Hp]; [left; split; [set_solver|done]|by right]. }
    destruct origin as [o|]; simpl; [|done]. unfold add_cors_headers.
    destruct (header_from_str o); simpl.
    + destruct Hout as [[Hs Ho]|Hp]; [by left|by right].
    + destruct Hcase as [[Hs Ho]|Hp]; [left; split; [simpl; set_solver|done]|by right].
Qed.

(** C11: Only authenticated requests reach the service.  When the authenticator
    accepts no credential of the request, the answer is an error of one of the
    layers (or a preflight answer), and nothing of the node has changed but its
    audit log: no session, query, statement, shared resource or object. *)
Theorem unauthenticated_requests_do_nothing app r ca later (a : App) :
  (¬ ∃ p, accepted app r (ca_utc ca) (app_auth a) p) →
  ∃ resp a', handle app r ca later a = (Ok resp, a') ∧
    rs_status resp ∈ [204; 400; 401; 403; 426; 500; 503] ∧
    only_audited (app_node a) (app_node a').
Proof.
  intros Hno. destruct (handle_spec app r ca later a) as (resp & a' & E & [[Hs Ho]|(p & Hp & _)]).
  - by exists resp, a'.
  - exfalso. eauto.
Qed.

(** C10: Requests act for their principal.  On a standalone node, whatever a
    request does to the service is a sequence of the changes that the principal
    of its credential is entitled to; the layers alone only audit. *)
Theorem requests_refine_authorized_steps app r ca (a : App) :
  nd_cluster (app_node a) = None →
  0 < prepared_statement_ttl (st_limits (nd_service (app_node a))) →
  ∃ resp a', handle app r ca (ca_now ca) a = (Ok resp, a') ∧
    nd_store (app_node a') = nd_store (app_node a) ∧
    nd_objects (app_node a') = nd_objects (app_node a) ∧
    (only_audited (app_node a) (app_node a') ∨
     ∃ p, accepted app r (ca_utc ca) (app_auth a) p ∧
       evolution p (ca_ambient ca)
         (doomed_sessions (ca_now ca) (nd_service (app_node a)))
         (nd_service (app_node a)) (nd_service (app_node a'))).
Proof.
  intros Hc Httl. destruct (handle_spec app r ca (ca_now ca) a)
    as (resp & a' & E & [[Hs Ho]|(p & Hp & Hn)]).
  - exists resp, a'. split; [done|]. destruct Ho as [l El]. rewrite El.
    split_and!; [done..|]. left. by exists l.
  - exists resp, a'. split; [done|].
    set (n := audited (audit_entry "allowed" (Some p)) (app_node a)) in *.
    set (doomed := doomed_sessions _ _).
    assert (pending (ca_ambient ca) doomed (nd_service (app_node a))) as Hpend
      by by apply pending_start.
    destruct (evolving_dispatch app p ca doomed r n Hc Hpend) as (_ & H2 & H3 & H4).
    rewrite Hn. split_and!; [done..|]. right. exists p. split; [done|].
    eapply steps_then_evolution; [|exact H4]. apply rtc_once. by apply step_audit.
Qed.
End HttpFacts.
