(* ===== verification/HttpPaging.v ===== *)
(** * Results over HTTP

    A client that asks [GET /v1/queries/{id}/results] for the first page and
    then, for as long as a response carries [x-qcli-next-page-token], sends that
    token back, receives the whole result: the offsets of [result_page], the
    continuation tokens, the headers and the rendering of the pages composed. *)
From S2P Require Import Prelude Text Arrow DriverApi Auth Config Core Cluster Metadata.
From S2P Require Import ServiceData Results ResultsFacts Service ServiceSpec ServiceCluster.
From S2P Require Import NodeSteps Chars Output PageToken Headers HttpEvents Http.
From Stdlib Require Import Ascii.

Section HttpPaging.
Context `{ipc : ArrowIpc}.
Context {St : Type} `{!ClusterStateStore St}.
Context {Ob : Type} `{!ResultObjectStore Bytes Ob}.
Context `{!Serde SharedSession} `{!Serde SharedQuery} `{!Serde SharedPrepared}.
Variable b64_encode : string → string.
Variable b64_decode : string → option string.
Context {Any : Type}.
Variable text_batch : RecordBatch → TextBatch (Any:=Any).
Variable format_any : Any → result string string.
Variable csv_text : bool → ascii → TextBatch (Any:=Any) → result string string.
Variable json_encode : TextBatch (Any:=Any) → result string string.
Variable json_parse : string → result (list Value) string.
Variable json_text : Value → string.
Variable arrow_stream : Schema → list RecordBatch → result string string.
Context {Au : Type}.
Hypothesis b64_roundtrip : ∀ s, b64_decode (b64_encode s) = Some s.
Hypothesis b64_alphabet : ∀ s, string_forallb url_char (b64_encode s) = true.

Abbreviation Node := (Node (St:=St) (Ob:=Ob)).
Abbreviation get_results_handler := (get_results_handler (St:=St) (Ob:=Ob) (Au:=Au) b64_encode
  b64_decode text_batch format_any csv_text json_encode json_parse json_text arrow_stream).
Abbreviation render_page := (render_page text_batch format_any csv_text json_encode json_parse
  json_text arrow_stream).

Context (app : AppState (Au:=Au)) (p : AuthenticatedPrincipal) (query_id : string).
Context (limit : option Z) (accept : option string) (c : nat → ClusterCall).

Definition next_page_token (r : Response) : option string :=
  rs_headers r !! "x-qcli-next-page-token".

(** The client: the [k]-th request and the ones after it, [fuel] at most. *)
Fixpoint follow_pages (fuel k : nat) (token : option string) : M Node ApiError (list Response) :=
  match fuel with
  | O => mret []
  | S fuel =>
      r ← get_results_handler app p query_id {| page_token := token; page_limit := limit |}
            accept (c k);
      match next_page_token r with
      | None => mret [r]
      | Some t => rest ← follow_pages fuel (S k) (Some t); mret (r :: rest)
      end
  end.

Context (record : QueryRecord) (d : QueryData) (name : string) (limits : ServiceLimits).
Context (bs : list RecordBatch) (n : Node).

(** An ended query of [p] that retains the batches [bs], on a node where nothing
    expires while the client reads, with pages that can be encoded. *)
Record pageable : Prop := {
  pa_record : records (nd_service n) !! query_id = Some record;
  pa_owner : qr_owner record = principal_id p;
  pa_data : qr_data record = set_state_name name d;
  pa_ended : terminal_name name = true;
  pa_kept : retains limits (d, disk (nd_service n)) bs;
  pa_finished : match qd_storage d with Spill _ (Some _) => False | _ => True end;
  pa_rows : sum_rows bs ≤ usize_max;
  pa_idle : ∀ k, cleanup_expired (ca_now (c k)) (nd_service n) = (Ok tt, nd_service n);
  pa_renders : ∀ start stop, ∃ rendered,
    render_page (default "application/json" accept) (slice_batches bs start stop) = Ok rendered;
}.

(** The configuration of the gateway: a page has a row at least, and the secret
    is a [u64]. *)
Record paging_app : Prop := {
  pp_rows : 1 ≤ max_page_rows (app_limits app) ≤ usize_max;
  pp_secret : 0 ≤ app_page_secret app ≤ u64_max;
}.

Abbreviation page_rows :=
  (page_limit_of (app_limits app) {| page_token := None; page_limit := limit |}).

Lemma page_rows_bounds : paging_app → 1 ≤ page_rows ≤ usize_max.
Proof. intros [Hrows _]. unfold page_limit_of. cbn [page_limit]. lia. Qed.

(** A response that carries these batches. *)
Definition carries (r : Response) (batches : list RecordBatch) : Prop :=
  rs_status r = 200 ∧ ∃ rendered,
    render_page (default "application/json" accept) batches = Ok rendered ∧
    rs_body r = BytesBody rendered.2 ∧ rs_headers r !! "content-type" = Some rendered.1.

(** The token of an offset, as the client sends it. *)
Definition token_at (offset : Z) : string :=
  encode_page_token b64_encode offset (app_page_secret app).
Definition names_offset (token : option string) (offset : Z) : Prop :=
  match token with
  | None => offset = 0
  | Some t => t = token_at offset ∧ 0 ≤ offset ≤ usize_max
  end.

Lemma token_offset token offset :
  paging_app → names_offset token offset →
  page_offset_of b64_decode app {| page_token := token; page_limit := limit |} = Ok offset.
Proof.
  intros [_ Hs] Ht. unfold page_offset_of. cbn [page_token].
  destruct token as [t|]; simpl in Ht; [|by subst]. destruct Ht as [-> Ho].
  unfold token_at. rewrite (decode_encode b64_encode b64_decode b64_roundtrip) by done.
  by rewrite Z.eqb_refl.
Qed.

Lemma page_at offset :
  paging_app → pageable → 0 ≤ offset → ∀ k,
  ∃ page, result_page_clustered p query_id offset page_rows (ca_now (c k)) (ca_utc (c k)) n
            = (Ok page, n) ∧
    page_spec bs offset page_rows page ∧
    ∃ start stop, page_batches page = slice_batches bs start stop.
Proof.
  intros Ha Hp Ho k. pose proof (page_rows_bounds Ha). destruct Hp.
  destruct (retains_page_rows limits d (disk (nd_service n)) bs name offset page_rows)
    as (page & Hpage & Hspec); [done|done|done|done|done|lia|].
  exists page. split_and!; [|done|].
  - unfold result_page_clustered, mbind at 1, M_bind at 1, attempt.
    rewrite (locally_run _ (Ok page)); [done|]. unfold result_page. unfold_M.
    rewrite (owned_record_idle p query_id _ _ record) by auto. cbn.
    rewrite pa_data0, Hpage. done.
  - rewrite (retains_page limits d (disk (nd_service n)) bs name) in Hpage by done.
    injection Hpage as <-. by do 2 eexists.
Qed.

(** One request. *)
Lemma page_response token offset k :
  paging_app → pageable → names_offset token offset → 0 ≤ offset →
  ∃ r batches,
    get_results_handler app p query_id {| page_token := token; page_limit := limit |} accept (c k) n
      = (Ok r, n) ∧
    carries r batches ∧
    all_rows batches = take (Z.to_nat page_rows) (drop (Z.to_nat offset) (all_rows bs)) ∧
    next_page_token r = if offset + page_rows <? Z.of_nat (length (all_rows bs))
                        then Some (token_at (offset + page_rows)) else None.
Proof.
  intros Ha Hp Ht Ho. pose proof (page_rows_bounds Ha) as Hrows.
  destruct (page_at offset Ha Hp Ho k) as (page & Hpage & (Hr & _ & Hnext) & start & stop & Hsl).
  destruct (pa_renders Hp start stop) as [rendered Hrender]. rewrite <- Hsl in Hrender.
  rewrite Z.max_l in Hr, Hnext by lia.
  unfold Http.get_results_handler. unfold mbind at 1, M_bind at 1, of_result at 1.
  rewrite (token_offset token offset Ha Ht). unfold mbind at 1, M_bind at 1, service, on.
  replace (page_limit_of (app_limits app) {| page_token := token; page_limit := limit |})
    with page_rows by done.
  rewrite Hpage. unfold mbind, M_bind, of_result at 1. cbn [map_err]. rewrite Hrender.
  unfold of_result, add_next_token. rewrite Hnext.
  destruct (Z.ltb_spec (offset + page_rows) (Z.of_nat (length (all_rows bs)))) as [Hlt|Hge].
  - fold (token_at (offset + page_rows)). rewrite url_text_is_a_header by apply b64_alphabet. cbn.
    do 2 eexists. split; [done|]. split_and!; [|done|].
    + split; [done|]. exists rendered. split_and!; [done..|].
      cbn. rewrite lookup_insert_ne by done. apply lookup_insert_eq.
    + unfold next_page_token. cbn. apply lookup_insert_eq.
  - do 2 eexists. split; [done|]. split_and!; [|done|].
    + split; [done|]. exists rendered. split_and!; [done..|]. apply lookup_insert_eq.
    + unfold next_page_token. cbn. by rewrite lookup_insert_ne by done.
Qed.

Definition within_page (batches : list RecordBatch) : Prop :=
  Z.of_nat (length (all_rows batches)) ≤ page_rows.

Lemma follow_from fuel : ∀ k token offset,
  paging_app → pageable → names_offset token offset → 0 ≤ offset →
  (Z.to_nat (Z.of_nat (length (all_rows bs)) - offset) < fuel)%nat →
  ∃ responses pages,
    follow_pages fuel k token n = (Ok responses, n) ∧
    Forall2 carries responses pages ∧ Forall within_page pages ∧
    all_rows (concat pages) = drop (Z.to_nat offset) (all_rows bs) ∧
    last responses ≫= next_page_token = None ∧ responses ≠ [].
Proof.
  induction fuel as [|fuel IH]; intros k token offset Ha Hp Ht Ho Hfuel; [lia|].
  pose proof (page_rows_bounds Ha) as Hrows.
  pose proof (sum_rows_all_rows bs) as Hsum. pose proof (pa_rows Hp) as Hmax.
  destruct (page_response token offset k Ha Hp Ht Ho) as (r & batches & Hrun & Hc & Hr & Hnext).
  assert (within_page batches) as Hw
    by (unfold within_page; rewrite Hr, length_take; lia).
  cbn [follow_pages]. unfold mbind, M_bind. rewrite Hrun, Hnext.
  destruct (Z.ltb_spec (offset + page_rows) (Z.of_nat (length (all_rows bs)))) as [Hlt|Hge].
  - destruct (IH (S k) (Some (token_at (offset + page_rows))) (offset + page_rows))
      as (rs & pages & -> & Hf & Hws & Hrest & Hlast & Hne); [done|done|split; [done|lia]|lia|lia|].
    exists (r :: rs), (batches :: pages). split_and!; [done|by constructor..| |by destruct rs|done].
    cbn [concat]. rewrite all_rows_app, Hr, Hrest.
    replace (Z.to_nat (offset + page_rows)) with (Z.to_nat offset + Z.to_nat page_rows)%nat by lia.
    rewrite <- drop_drop. apply take_drop.
  - exists [r], [batches]. split_and!; [done|by (constructor; [|constructor])..| |done|done].
    cbn [concat]. rewrite app_nil_r, Hr. apply take_ge. rewrite length_drop. lia.
Qed.

(** C12: Every row of a result is served over HTTP, once and in order.  A client
    that reads the results of an ended query of its own and sends back each
    continuation token it gets needs at most one request per row and one more;
    every response has status 200 and the encoding of its page, no page has more
    rows than the limit that was asked for and the gateway allows, the last
    response has no token, and the pages together hold the rows of the result,
    whether they were kept in memory or spilled. *)
Theorem clients_receive_every_row :
  paging_app → pageable →
  ∃ responses pages,
    follow_pages (S (length (all_rows bs))) 0 None n = (Ok responses, n) ∧
    Forall2 carries responses pages ∧ Forall within_page pages ∧
    all_rows (concat pages) = all_rows bs ∧
    last responses ≫= next_page_token = None ∧ responses ≠ [].
Proof.
  intros Ha Hp. apply (follow_from _ 0 None 0 Ha Hp); [done|done|lia].
Qed.
End HttpPaging.
