(* ===== verification/HttpExamples.v ===== *)
(** * The HTTP gateway: concrete requests

    A standalone gateway with two API tokens, its page tokens, an event stream and
    a result read page by page, through the theorems on the HTTP gateway. *)
From S2P Require Import Prelude Text Arrow DriverApi Auth Config Core Cluster Metadata.
From S2P Require Import ServiceData Results Service ServiceSpec ServiceCluster Collect Chars.
From S2P Require Import Output PageToken Headers HttpEvents Http HttpApi HttpFacts.
From S2P Require Import ResultsFacts HttpPaging GatewayExamples.
From Stdlib Require Import Ascii.
Import Arrow.Concrete.

(** Hexadecimal in place of base64. *)
Fixpoint hex_encode (s : string) : string :=
  match s with
  | EmptyString => EmptyString
  | String c s => String (digit_char (code c / 16)) (String (digit_char (code c mod 16))
                    (hex_encode s))
  end.
Fixpoint hex_decode (s : string) : option string :=
  match s with
  | EmptyString => Some EmptyString
  | String _ EmptyString => None
  | String a (String b s) =>
      high ← hex_digit a; low ← hex_digit b; rest ← hex_decode s;
      Some (String (ascii_of_N (Z.to_N (high * 16 + low))) rest)
  end.

Lemma hex_roundtrip s : hex_decode (hex_encode s) = Some s.
Proof.
  induction s as [|c s IH]; [done|]. cbn [hex_encode hex_decode].
  assert (code c < 256)%N as Hc by apply N_ascii_bounded.
  rewrite (proj1 (hex_digit_spec (code c / 16) ltac:(apply N.Div0.div_lt_upper_bound; lia))).
  rewrite (proj1 (hex_digit_spec (code c mod 16) ltac:(apply N.mod_lt; lia))).
  cbn [mbind option_bind]. rewrite IH. cbn [mbind option_bind]. do 2 f_equal.
  rewrite <- (ascii_N_embedding c) at 3. f_equal. fold (code c).
  pose proof (N.div_mod (code c) 16 ltac:(lia)). lia.
Qed.

Lemma hex_alphabet s : string_forallb url_char (hex_encode s) = true.
Proof.
  induction s as [|c s IH]; [done|]. cbn [hex_encode string_forallb]. rewrite IH, andb_true_r.
  destruct c as [[] [] [] [] [] [] [] []]; by vm_compute.
Qed.

#[local] Instance clock : Chrono :=
  {| from_std := Some; from_std_same d r := λ e, eq_sym (f_equal (default 0) e) |}.

(** A standalone node serializes nothing and has no object store. *)
#[local] Instance no_serde A : Serde A :=
  {| to_value _ := Err "not clustered"; from_value _ := Err "not clustered" |}.
#[local] Instance no_objects : ResultObjectStore Bytes unit :=
  {| objects_put _ _ s := (Ok tt, s); objects_get _ s := (Ok None, s);
     objects_delete _ s := (Ok tt, s) |}.

(** The tokens of two principals. *)
Definition token_auth : Authenticator unit := λ bearer _ s,
  if String.eqb bearer "ada-token" then (Ok ada, s)
  else if String.eqb bearer "bob-token" then (Ok bob, s)
  else (Err AuthenticationError_invalid, s).

Definition gateway_app : AppState (Au:=unit) :=
  {| app_limits := HttpLimits_default; app_page_secret := 81985529216486895;
     app_authenticator := Some token_auth;
     app_operations := {| trusted_proxy := false; allowed_origins := ["https://app.example"] |} |}.

Definition gateway_start_app : App (St:=Memory.MemoryState) (Ob:=unit) (Au:=unit) :=
  {| app_node := {| nd_service := gw_state start; nd_cluster := None;
       nd_store := Memory.MemoryState_default; nd_objects := tt; nd_publishers := [] |};
     app_auth := tt |}.

Definition one_call : ClusterCall :=
  {| ca_ambient := at_time 1 "202401010000" "u1"; ca_utc := 1001; ca_permit := "permit" |}.

Definition as_text (s : string) : string := s.
Definition plain_batch (_ : RecordBatch) : TextBatch (Any:=unit) :=
  {| tb_fields := []; tb_columns := []; tb_rows := 0 |}.

Abbreviation serve := (handle as_text Some plain_batch (λ _ : unit, Ok "") (λ _ _ _, Ok "")
  (λ _, Ok "[]") (λ _, Ok []) (λ _, "") (λ _ _, Ok "")).

Definition post (bearer : string) (call : ApiCall) : HttpRequest :=
  {| rq_method := POST; rq_headers := {["authorization" := "Bearer " +:+ bearer]};
     rq_call := call |}.
Definition open_warehouse : ApiCall :=
  CallCreateSession {| cs_target := "warehouse"; cs_context := {["catalog" := VString "tpch"]};
                       cs_properties := ∅; cs_options := {["timing" := Bool true]} |}.

Definition status_of (r : result Response ApiError) : Z :=
  match r with Ok resp => rs_status resp | Err e => api_status e end.

(** A session is created for the holder of a token, and for nobody else. *)
Example created_over_http :
  status_of (serve gateway_app (post "ada-token" open_warehouse) one_call 1
    gateway_start_app).1 = 201 ∧
  status_of (serve gateway_app (post "guess" open_warehouse) one_call 1
    gateway_start_app).1 = 401.
Proof. vm_compute. done. Qed.

(** The third session of a principal that may have two is refused with a status
    the description of the operation does not list. *)
Definition open_another (a : App (St:=Memory.MemoryState) (Ob:=unit) (Au:=unit)) :=
  (serve gateway_app (post "ada-token" open_warehouse) one_call 1 a).2.
Example session_quota_is_undescribed :
  let status := status_of (serve gateway_app (post "ada-token" open_warehouse) one_call 1
    (open_another (open_another gateway_start_app))).1 in
  status = 429 ∧ status ∉ (op_responses create_session_doc).*1.
Proof. split; [vm_compute; reflexivity|]. apply (bool_decide_unpack _). vm_compute. exact I. Qed.

(** A body with a field left out, and one with a field of the wrong type. *)
Example bodies_are_decoded :
  call_of create_session_endpoint EmptyString {| page_token := None; page_limit := None |}
    (Object [("target", VString "warehouse"); ("context", Object [("catalog", VString "tpch")]);
             ("options", Object [("timing", Bool true)])]) = Some open_warehouse ∧
  call_of update_session_endpoint "s" {| page_token := None; page_limit := None |}
    (Object [("expected_version", Number (-1))]) = None.
Proof. vm_compute. done. Qed.

Lemma unauthenticated_requests_witness :
  ∃ resp a', serve gateway_app (post "guess" open_warehouse) one_call 1 gateway_start_app
      = (Ok resp, a') ∧
    rs_status resp ∈ [204; 400; 401; 403; 426; 500; 503] ∧
    only_audited (app_node gateway_start_app) (app_node a').
Proof.
  apply unauthenticated_requests_do_nothing. intros (p & bearer & Hb & Hp).
  assert (header "authorization" (post "guess" open_warehouse) = Some ("Bearer " +:+ "guess"))
    as Hh by (vm_compute; reflexivity).
  assert (bearer = "guess") as ->.
  { apply (string_app_inv_l "Bearer "). congruence. }
  discriminate Hp.
Defined.

Lemma requests_refine_witness :
  ∃ resp a', serve gateway_app (post "ada-token" open_warehouse) one_call (ca_now one_call)
      gateway_start_app = (Ok resp, a') ∧
    nd_store (app_node a') = nd_store (app_node gateway_start_app) ∧
    nd_objects (app_node a') = nd_objects (app_node gateway_start_app) ∧
    (only_audited (app_node gateway_start_app) (app_node a') ∨
     ∃ p, accepted gateway_app (post "ada-token" open_warehouse) (ca_utc one_call) tt p ∧
       evolution p (ca_ambient one_call)
         (doomed_sessions (ca_now one_call) (nd_service (app_node gateway_start_app)))
         (nd_service (app_node gateway_start_app)) (nd_service (app_node a'))).
Proof.
  apply (requests_refine_authorized_steps as_text Some plain_batch (λ _ : unit, Ok "")
    (λ _ _ _, Ok "") (λ _, Ok "[]") (λ _, Ok []) (λ _, "") (λ _ _, Ok "") gateway_app
    (post "ada-token" open_warehouse) one_call gateway_start_app).
  - reflexivity.
  - vm_compute. reflexivity.
Defined.

Lemma page_tokens_witness :
  decode_page_token Some (encode_page_token as_text 1000 7) 8
  = if decide (7 = 8) then Some 1000 else None.
Proof. apply page_tokens_are_process_bound; [done|unfold u64_max; lia..]. Defined.

Lemma page_token_secret_witness :
  ∃ s, secret_of_token Some (encode_page_token as_text 1000 7) = Some s ∧ s = 7 ∧
    ∀ offset', 0 ≤ offset' ≤ u64_max →
      decode_page_token Some (encode_page_token as_text offset' s) 7 = Some offset'.
Proof. apply one_page_token_reveals_the_secret; [done|unfold u64_max; lia..]. Defined.

(** A query whose log has three events, followed after the first. *)
Definition event_number (n : Z) (terminal : bool) : ServiceEvent :=
  {| ev_id := n; ev_event := "state"; ev_data := Null; ev_terminal := terminal |}.
Definition two_events : list ServiceEvent := [event_number 1 false; event_number 2 false].
Definition all_events : list ServiceEvent := two_events ++ [event_number 3 true].
Definition final_stream : EventStream :=
  {| es_pos := 3; es_seen := 3; es_sent := [event_number 2 false; event_number 3 true];
     es_ended := true |}.


(** ** Reading a result page by page *)

(** A stream is shown as its number of rows. *)
Definition row_count (_ : Schema) (bs : list RecordBatch) : result string string :=
  Ok (pretty (sum_rows bs)).
Definition reading : Node (St:=Memory.MemoryState) (Ob:=unit) :=
  {| nd_service := gw_state finished; nd_cluster := None;
     nd_store := Memory.MemoryState_default; nd_objects := tt; nd_publishers := [] |}.
Definition reading_call : ClusterCall :=
  {| ca_ambient := at_time 30 "202401010002" "c"; ca_utc := 1030; ca_permit := "permit" |}.
Definition arrow_type : option string := Some "application/vnd.apache.arrow.stream".

Abbreviation read_pages := (follow_pages hex_encode hex_decode plain_batch (λ _ : unit, Ok "")
  (λ _ _ _, Ok "") (λ _, Ok "[]") (λ _, Ok []) (λ _, "") row_count gateway_app ada "qcli_a" (Some 2)
  arrow_type (λ _, reading_call)).

(** Five rows, two at a time. *)
Example five_rows :
  match (read_pages 6 0 None reading).1 with
  | Ok responses => (rs_body <$> responses,
                     (λ r, bool_decide (is_Some (next_page_token r))) <$> responses)
  | Err _ => ([], [])
  end = ([BytesBody "2"; BytesBody "2"; BytesBody "1"], [true; true; false]).
Proof. vm_compute. reflexivity. Qed.

Lemma ada_pageable :
  pageable plain_batch (λ _ : unit, Ok "") (λ _ _ _, Ok "") (λ _, Ok "[]") (λ _, Ok []) (λ _, "")
    row_count ada "qcli_a" arrow_type (λ _, reading_call) fetched (qr_data fetched) "completed"
    limits fetched_batches reading.
Proof.
  split; [vm_compute; reflexivity..|exact fetched_kept|exact I|vm_compute; discriminate| |].
  - intros _. vm_compute. reflexivity.
  - intros start stop. generalize (slice_batches fetched_batches start stop). intros l.
    unfold render_page, render_arrow. destruct (contains _ _) eqn:E; [|by vm_compute in E].
    destruct l; eexists; reflexivity.
Qed.

Lemma paging_over_http_witness :
  ∃ responses pages,
    read_pages 6 0 None reading = (Ok responses, reading) ∧
    Forall2 (carries plain_batch (λ _ : unit, Ok "") (λ _ _ _, Ok "") (λ _, Ok "[]") (λ _, Ok [])
      (λ _, "") row_count arrow_type) responses pages ∧
    Forall (within_page gateway_app (Some 2)) pages ∧
    all_rows (concat pages) = [[1]; [2]; [3]; [4]; [5]] ∧
    last responses ≫= next_page_token = None ∧ responses ≠ [].
Proof.
  apply (clients_receive_every_row hex_encode hex_decode plain_batch (λ _ : unit, Ok "")
    (λ _ _ _, Ok "") (λ _, Ok "[]") (λ _, Ok []) (λ _, "") row_count hex_roundtrip hex_alphabet
    gateway_app ada "qcli_a" (Some 2) arrow_type (λ _, reading_call) fetched (qr_data fetched)
    "completed" limits fetched_batches reading); [|exact ada_pageable].
  split; vm_compute; split; discriminate.
Defined.
