(* ===== verification/ArrowTypes.v ===== *)
(** * Arrow types

    The data types and fields of an Arrow schema, as far as the gateway and the
    engine adapters build them ([arrow_schema::DataType], [Field], [Schema]). *)
From S2P Require Import Prelude Text.

Inductive TimeUnit := Second | Millisecond | Microsecond | Nanosecond.

Inductive DataType :=
| Boolean
| Int8
| Int16
| Int32
| Int64
| UInt8
| Float32
| Float64
| Utf8
| Binary
| Date32
| Date64
| Time64 (unit : TimeUnit)
| Timestamp (unit : TimeUnit) (timezone : option string)
| Decimal128 (precision scale : Z)
| List (item : Field)
| Map (entries : Field) (sorted : bool)
| Struct (fields : list Field)
with Field :=
| mk_field (name : string) (data_type : DataType) (nullable : bool)
    (metadata : gmap string string).

Definition field_name (f : Field) : string := let '(mk_field n _ _ _) := f in n.
Definition field_type (f : Field) : DataType := let '(mk_field _ t _ _) := f in t.
Definition field_nullable (f : Field) : bool := let '(mk_field _ _ b _) := f in b.
Definition field_metadata (f : Field) : gmap string string := let '(mk_field _ _ _ m) := f in m.

Definition Field_new (name : string) (data_type : DataType) (nullable : bool) : Field :=
  mk_field name data_type nullable ∅.
(** The name Arrow gives the field of a list's items. *)
Definition new_list_field (data_type : DataType) (nullable : bool) : Field :=
  Field_new "item" data_type nullable.
Definition with_metadata (m : gmap string string) (f : Field) : Field :=
  mk_field (field_name f) (field_type f) (field_nullable f) m.

Definition ArrowSchema := list Field.

(** The type of a map from [key] to [value]. *)
Definition map_of (key value : DataType) (value_nullable : bool) : DataType :=
  Map (Field_new "entries"
         (Struct [Field_new "key" key false; Field_new "value" value value_nullable]) false)
    false.
