(* ===== verification/FlightTypes.v ===== *)
(** * Types of table columns in the Flight SQL gateway (crates/qcli-flight-sql/src/lib.rs)

    How a native type name becomes an Arrow type: [arrow_type] with the helpers
    that take its arguments apart, and the schema of a table.  [arrow_type]
    recurses on the text between brackets; the fuel is the length of the name,
    and [arrow_type_unfold] shows that it never runs out. *)
From S2P Require Import Prelude Text DriverApi Config ServiceData Chars Headers ArrowTypes.
From Stdlib Require Import Ascii.

(** ** Text *)

(** [value.split(['(', '<']).next()]. *)
Fixpoint before_bracket (s : string) : string :=
  match s with
  | EmptyString => EmptyString
  | String c s' =>
      if Ascii.eqb c "("%char || Ascii.eqb c "<"%char then EmptyString
      else String c (before_bracket s')
  end.

(** ** Arguments *)

(** [&suffix[1..suffix.len() - 1]]. *)
Definition inside (suffix : string) : string :=
  String.substring 1 (String.length suffix - 2) suffix.

Definition type_arguments (value name : string) : option string :=
  rest ← strip_prefix name value;
  let suffix := trim rest in
  if (starts_with "(" suffix && ends_with ")" suffix)
     || (starts_with "<" suffix && ends_with ">" suffix)
  then Some (inside suffix) else None.

Definition opens (c : ascii) : bool := Ascii.eqb c "("%char || Ascii.eqb c "<"%char.
Definition closes (c : ascii) : bool := Ascii.eqb c ")"%char || Ascii.eqb c ">"%char.

(** The pieces between the commas outside all brackets: the first and the
    rest. *)
Fixpoint split_raw (depth : Z) (s : string) : string * list string :=
  match s with
  | EmptyString => (EmptyString, [])
  | String c s =>
      if opens c then let '(p, ps) := split_raw (depth + 1) s in (String c p, ps)
      else if closes c then let '(p, ps) := split_raw (depth - 1) s in (String c p, ps)
      else
        let '(p, ps) := split_raw depth s in
        if Ascii.eqb c ","%char && (depth =? 0) then (EmptyString, p :: ps)
        else (String c p, ps)
  end.
Definition split_top_level (value : string) : list string :=
  let '(p, ps) := split_raw 0 value in trim <$> (p :: ps).

Definition decimal_shape (value : string) : option (Z * Z) :=
  parts ← split_once "(" value;
  let values := trim <$> split ","%char (trim_end_matches ")"%char parts.2) in
  precision ← head values ≫= parse_u8;
  scale ← parse_i8 (default "0" (values !! 1%nat));
  Some (precision, scale).

(** ** [arrow_type] *)

Definition scalar_of (normalized : string) : DataType :=
  let base := trim (before_bracket normalized) in
  if one_of ["boolean"; "bool"] base then Boolean
  else if one_of ["tinyint"; "byteint"] base then Int8
  else if one_of ["smallint"] base then Int16
  else if one_of ["integer"; "int"] base then Int32
  else if one_of ["bigint"; "long"] base then Int64
  else if one_of ["real"; "float"] base then Float32
  else if one_of ["double"; "double precision"] base then Float64
  else if one_of ["binary"; "varbinary"] base then Binary
  else if one_of ["date"] base then Date32
  else if one_of ["timestamp"; "timestamp_ntz"; "timestamp_ltz"; "timestamp_tz"] base
  then Timestamp Microsecond None
  else if one_of ["decimal"; "numeric"; "number"] base then
    let '(precision, scale) := default (38, 9) (decimal_shape normalized) in
    Decimal128 precision scale
  else Utf8.

(** The body, with the recursive call as an argument. *)
Definition arrow_type_body (rec : string → DataType) (native : string) : DataType :=
  let normalized := to_ascii_lowercase (trim native) in
  match type_arguments normalized "array" with
  | Some inner => List (new_list_field (rec inner) true)
  | None =>
      if String.eqb normalized "array" then List (new_list_field Utf8 true)
      else
        match split_top_level <$> type_arguments normalized "map" with
        | Some [key; value] => map_of (rec key) (rec value) true
        | _ =>
            if String.eqb normalized "object" || String.eqb normalized "map"
            then map_of Utf8 Utf8 true
            else scalar_of normalized
        end
  end.

Fixpoint arrow_type_loop (fuel : nat) (native : string) : DataType :=
  match fuel with
  | O => Utf8
  | S fuel => arrow_type_body (arrow_type_loop fuel) native
  end.
Definition arrow_type (native : string) : DataType :=
  arrow_type_loop (S (String.length native)) native.

(** ** The schema of a table *)

Definition table_type (kind : ObjectKind) : string :=
  match kind with
  | Table => "TABLE"
  | View => "VIEW"
  | Other => "OTHER"
  end.

Definition column_metadata (catalog schema : option string) (table : string)
    (c : ColumnMetadata) : gmap string string :=
  let m := <["ARROW:FLIGHT:SQL:TYPE_NAME" := cm_data_type c]>
             (<["ARROW:FLIGHT:SQL:TABLE_NAME" := table]>
                (<["ARROW:FLIGHT:SQL:DB_SCHEMA_NAME" := default EmptyString schema]>
                   {["ARROW:FLIGHT:SQL:CATALOG_NAME" := default EmptyString catalog]})) in
  match cm_comment c with
  | Some comment => <["ARROW:FLIGHT:SQL:REMARKS" := comment]> m
  | None => m
  end.

Definition columns_schema (catalog schema : option string) (table : string)
    (columns : list ColumnMetadata) : ArrowSchema :=
  (λ c, ArrowTypes.with_metadata (column_metadata catalog schema table c)
          (Field_new (cm_name c) (arrow_type (cm_data_type c))
             (default true (cm_nullable c)))) <$> columns.

Definition primary_key_schema : ArrowSchema :=
  [Field_new "catalog_name" Utf8 true; Field_new "db_schema_name" Utf8 true;
   Field_new "table_name" Utf8 false; Field_new "column_name" Utf8 false;
   Field_new "key_name" Utf8 true; Field_new "key_sequence" Int32 false].

Definition foreign_key_schema : ArrowSchema :=
  [Field_new "pk_catalog_name" Utf8 true; Field_new "pk_db_schema_name" Utf8 true;
   Field_new "pk_table_name" Utf8 false; Field_new "pk_column_name" Utf8 false;
   Field_new "fk_catalog_name" Utf8 true; Field_new "fk_db_schema_name" Utf8 true;
   Field_new "fk_table_name" Utf8 false; Field_new "fk_column_name" Utf8 false;
   Field_new "key_sequence" Int32 false; Field_new "fk_key_name" Utf8 true;
   Field_new "pk_key_name" Utf8 true; Field_new "update_rule" UInt8 false;
   Field_new "delete_rule" UInt8 false].

Example nested_type :
  arrow_type " ARRAY<Map(varchar, decimal(10,2))> "
  = List (new_list_field (map_of Utf8 (Decimal128 10 2) true) true).
Proof. vm_compute. reflexivity. Qed.

(** ** Tickets and session tokens of the Flight SQL gateway (crates/qcli-flight-sql/src/lib.rs)

    The signed payloads a client carries: [TicketSigner] (which result of which
    query) and [SessionSigner] (which session at which version), and the cookie
    that transports the latter.  HMAC-SHA256, the URL-safe base64 of the
    [base64] crate and the text of JSON documents ([serde_json]) are parameters;
    the derived [Serialize] and [Deserialize] of both payloads are written out. *)

(** ** Statuses *)

Inductive Code :=
| CInvalidArgument | CNotFound | CPermissionDenied | CAborted | CResourceExhausted
| CFailedPrecondition | CUnavailable | CInternal | CUnauthenticated | CUnimplemented
| CCancelled.
#[global] Instance Code_eq_dec : EqDecision Code.
Proof. solve_decision. Defined.

Record Status := { status_code : Code; status_message : string }.
Definition Status_new (code : Code) (message : string) : Status :=
  {| status_code := code; status_message := message |}.

(** ** Payloads *)

Record TicketPayload := {
  tp_version : Z;
  tp_query_id : string;
  tp_owner : string;
  tp_expires_at : Z;
  tp_partition : Z;
  tp_partitions : Z;
}.

Record SessionTokenPayload := {
  sp_format_version : Z;
  sp_session_version : Z;
  sp_session : string;
  sp_owner : string;
  sp_expires_at : Z;
}.

(** [#[derive(Serialize)]]. *)
Definition ticket_value (p : TicketPayload) : Value :=
  Object [("version", Number (tp_version p)); ("query_id", VString (tp_query_id p));
          ("owner", VString (tp_owner p)); ("expires_at", Number (tp_expires_at p));
          ("partition", Number (tp_partition p)); ("partitions", Number (tp_partitions p))].
Definition session_value (p : SessionTokenPayload) : Value :=
  Object [("format_version", Number (sp_format_version p));
          ("session_version", Number (sp_session_version p));
          ("session_id", VString (sp_session p)); ("owner", VString (sp_owner p));
          ("expires_at", Number (sp_expires_at p))].

Definition ticket_of_value (v : Value) : option TicketPayload :=
  fields ← struct_fields ["version"; "query_id"; "owner"; "expires_at"; "partition"; "partitions"] v;
  match fields with
  | [version; query_id; owner; expires_at; partition; partitions] =>
      version ← as_unsigned 255 version;
      query_id ← as_str query_id;
      owner ← as_str owner;
      expires_at ← as_unsigned u64_max expires_at;
      partition ← as_unsigned usize_max partition;
      partitions ← as_unsigned usize_max partitions;
      Some {| tp_version := version; tp_query_id := query_id; tp_owner := owner;
              tp_expires_at := expires_at; tp_partition := partition;
              tp_partitions := partitions |}
  | _ => None
  end.

Definition session_of_value (v : Value) : option SessionTokenPayload :=
  fields ← struct_fields ["format_version"; "session_version"; "session_id"; "owner"; "expires_at"] v;
  match fields with
  | [format_version; session_version; session_id; owner; expires_at] =>
      format_version ← as_unsigned 255 format_version;
      session_version ← as_unsigned u64_max session_version;
      session_id ← as_str session_id;
      owner ← as_str owner;
      expires_at ← as_unsigned u64_max expires_at;
      Some {| sp_format_version := format_version; sp_session_version := session_version;
              sp_session := session_id; sp_owner := owner; sp_expires_at := expires_at |}
  | _ => None
  end.

(** [TicketSigner::new] and [SessionSigner::new]: two random UUIDs. *)
Definition random_key (uuid1 uuid2 : string) : string := uuid1 +:+ uuid2.

(** [now_unix().saturating_add(ttl.as_secs())]. *)
Definition expiry (now ttl : Z) : Z := Z.min (now + ttl / nanos_per_second) u64_max.

(** ** Signing *)

Section Tokens.
(** [URL_SAFE_NO_PAD], HMAC-SHA256 as a function of the key and the message,
    and [serde_json]: the text of a document, and the document of a text. *)
Variable b64_encode : string → string.
Variable b64_decode : string → option string.
Variable hmac : string → string → string.
Variable json_text : Value → string.
Variable json_parse : string → option Value.

Definition sign_payload (key : string) (payload : Value) : string :=
  let payload := json_text payload in
  b64_encode payload +:+ "." +:+ b64_encode (hmac key payload).

(** The bytes under a valid signature. *)
Definition verified_bytes (key token label : string) : result string Status :=
  if negb (utf8 token) then
    Err (Status_new CInvalidArgument (label +:+ " is not valid UTF-8"))
  else
    let? parts := ok_or (split_once "." token)
      (Status_new CInvalidArgument (label +:+ " has an invalid format")) in
    let? payload := ok_or (b64_decode parts.1)
      (Status_new CInvalidArgument (label +:+ " payload is invalid")) in
    let? signature := ok_or (b64_decode parts.2)
      (Status_new CInvalidArgument (label +:+ " signature is invalid")) in
    if String.eqb (hmac key payload) signature then Ok payload
    else Err (Status_new CPermissionDenied (label +:+ " signature is invalid")).

Definition verify_payload {A} (of_value : Value → option A) (key token label : string) :
    result A Status :=
  let? payload := verified_bytes key token label in
  ok_or (json_parse payload ≫= of_value)
    (Status_new CInvalidArgument (label +:+ " payload is invalid")).

(** [TicketSigner::issue_partition] and [issue]; [now] is [now_unix()]. *)
Definition ticket_payload (owner query_id : string) (partition partitions ttl now : Z) :
    TicketPayload :=
  {| tp_version := 1; tp_query_id := query_id; tp_owner := owner;
     tp_expires_at := expiry now ttl; tp_partition := partition; tp_partitions := partitions |}.
Definition issue_partition (key owner query_id : string) (partition partitions ttl now : Z) :
    string :=
  sign_payload key (ticket_value (ticket_payload owner query_id partition partitions ttl now)).
Definition issue_ticket (key owner query_id : string) (ttl now : Z) : string :=
  issue_partition key owner query_id 0 1 ttl now.

(** [TicketSigner::verify]. *)
Definition check_ticket (owner : string) (now : Z) (p : TicketPayload) :
    result TicketPayload Status :=
  if negb (tp_version p =? 1) then
    Err (Status_new CInvalidArgument "query ticket version is not supported")
  else if negb (String.eqb (tp_owner p) owner) then
    Err (Status_new CPermissionDenied "query ticket belongs to another principal")
  else if (tp_partitions p =? 0) || (tp_partitions p <=? tp_partition p) then
    Err (Status_new CInvalidArgument "query ticket has an invalid result partition")
  else if tp_expires_at p <? now then
    Err (Status_new CNotFound "query ticket has expired")
  else Ok p.
Definition verify_ticket (key ticket owner : string) (now : Z) : result TicketPayload Status :=
  let? p := verify_payload ticket_of_value key ticket "query ticket" in
  check_ticket owner now p.

(** [SessionSigner::issue] and [verify]. *)
Definition session_payload (owner session_id : string) (version ttl now : Z) :
    SessionTokenPayload :=
  {| sp_format_version := 1; sp_session_version := version; sp_session := session_id;
     sp_owner := owner; sp_expires_at := expiry now ttl |}.
Definition issue_session (key owner session_id : string) (version ttl now : Z) : string :=
  sign_payload key (session_value (session_payload owner session_id version ttl now)).

Definition check_session (owner : string) (now : Z) (p : SessionTokenPayload) :
    result SessionTokenPayload Status :=
  if negb (sp_format_version p =? 1) then
    Err (Status_new CInvalidArgument "Flight session token version is not supported")
  else if negb (String.eqb (sp_owner p) owner) then
    Err (Status_new CPermissionDenied "Flight session belongs to another principal")
  else if sp_expires_at p <? now then
    Err (Status_new CNotFound "Flight session token has expired")
  else Ok p.
Definition verify_session (key token owner : string) (now : Z) :
    result SessionTokenPayload Status :=
  let? p := verify_payload session_of_value key token "session token" in
  check_session owner now p.
End Tokens.

(** ** Metadata and cookies *)

(** Request metadata: names and values in order, a name possibly repeated. *)
Definition Metadata := list (string * string).
Definition get_all (name : string) (m : Metadata) : list string :=
  snd <$> filter (λ e, e.1 = name) m.
Definition get_value (name : string) (m : Metadata) : option string := head (get_all name m).
Definition contains_key (name : string) (m : Metadata) : bool :=
  match get_value name m with Some _ => true | None => false end.
(** [metadata.get(name).and_then(|value| value.to_str().ok())]. *)
Definition get_str (name : string) (m : Metadata) : option string :=
  get_value name m ≫= header_to_str.

Definition SESSION_COOKIE : string := "arrow_flight_session_id".

Fixpoint find_map {A B} (f : A → option B) (l : list A) : option B :=
  match l with
  | [] => None
  | a :: l => match f a with Some b => Some b | None => find_map f l end
  end.

Definition cookie (m : Metadata) (name : string) : option string :=
  let values := omap header_to_str (get_all "cookie" m) in
  let entries := omap (λ entry, split_once "=" (trim entry)) (values ≫= split ";"%char) in
  find_map (λ e, if String.eqb e.1 name then Some e.2 else None) entries.

(** The value of [set-cookie] that carries a token, and the one that removes
    the cookie. *)
Definition session_cookie (token : string) : string :=
  SESSION_COOKIE +:+ "=" +:+ token +:+ "; Path=/; HttpOnly; SameSite=Strict".
Definition removed_cookie : string :=
  "arrow_flight_session_id=; Max-Age=0; Path=/; HttpOnly; SameSite=Strict".
