(* ===== verification/FlightTypeFacts.v ===== *)
(** * Facts about the types of table columns

    [arrow_type] is total (its fuel suffices on every input), and it reads every
    type expression of the native grammar, nested to any depth, as the Arrow
    type the expression denotes. *)
From S2P Require Import Prelude Text DriverApi Config ArrowTypes Chars FlightTypes.
From Stdlib Require Import Ascii.

(** ** Lengths *)

Lemma string_rev_spec s acc : rev_append s acc = string_rev s +:+ acc.
Proof.
  unfold string_rev. revert acc. induction s as [|c s IH]; intros acc; [done|]. simpl.
  rewrite (IH (String c acc)), (IH (String c EmptyString)), string_app_assoc. done.
Qed.

Lemma string_rev_cons c s : string_rev (String c s) = string_rev s +:+ String c EmptyString.
Proof. unfold string_rev at 1. simpl. apply string_rev_spec. Qed.

Lemma string_rev_app a b : string_rev (a +:+ b) = string_rev b +:+ string_rev a.
Proof.
  induction a as [|c a IH]; [by rewrite string_app_nil_r|]. cbn [String.append].
  by rewrite !string_rev_cons, IH, string_app_assoc.
Qed.

Lemma string_rev_involutive s : string_rev (string_rev s) = s.
Proof.
  induction s as [|c s IH]; [done|]. by rewrite string_rev_cons, string_rev_app, IH.
Qed.

Lemma string_rev_length s : String.length (string_rev s) = String.length s.
Proof.
  induction s as [|c s IH]; [done|]. rewrite string_rev_cons, string_length_app, IH. simpl. lia.
Qed.

Lemma strip_prefix_length p s r :
  strip_prefix p s = Some r → (String.length r ≤ String.length s)%nat.
Proof. intros ->%strip_prefix_Some. rewrite string_length_app. lia. Qed.

Lemma first_stripped_length ps s r :
  first_stripped ps s = Some r → (String.length r ≤ String.length s)%nat.
Proof.
  induction ps as [|p ps IH]; [done|]. cbn [first_stripped].
  destruct (strip_prefix p s) eqn:E; [|done]. intros [= <-]. by eapply strip_prefix_length.
Qed.

Lemma trim_loop_length ps n : ∀ s, (String.length (trim_loop ps n s) ≤ String.length s)%nat.
Proof.
  induction n as [|n IH]; intros s; [done|]. cbn [trim_loop].
  destruct (first_stripped ps s) as [r|] eqn:E; [|done].
  apply first_stripped_length in E. specialize (IH r). lia.
Qed.

Lemma trim_length s : (String.length (trim s) ≤ String.length s)%nat.
Proof.
  unfold trim, trim_end. rewrite string_rev_length.
  etransitivity; [apply trim_loop_length|]. rewrite string_rev_length. apply trim_loop_length.
Qed.

Lemma lowercase_length s : String.length (to_ascii_lowercase s) = String.length s.
Proof. unfold to_ascii_lowercase. induction s as [|c s IH]; simpl; [done|by rewrite IH]. Qed.

Lemma substring_length n : ∀ m s, (String.length (String.substring n m s) ≤ m)%nat.
Proof.
  induction n as [|n IH]; intros m s.
  - revert s. induction m as [|m IHm]; intros [|c s]; simpl; try lia. specialize (IHm s). lia.
  - destruct s as [|c s]; simpl; [destruct m; simpl; lia|apply IH].
Qed.

Lemma split_raw_length s : ∀ d p,
  p ∈ (split_raw d s).1 :: (split_raw d s).2 → (String.length p ≤ String.length s)%nat.
Proof.
  induction s as [|c s IH]; intros d p.
  - cbn. intros ->%list_elem_of_singleton. done.
  - cbn [split_raw String.length]. intros Hp.
    assert (∃ d' q, q ∈ (split_raw d' s).1 :: (split_raw d' s).2 ∧
              (String.length p ≤ S (String.length q))%nat) as (d' & q & Hq & Hle).
    { destruct (opens c); [exists (d + 1)|destruct (closes c); [exists (d - 1)|exists d]];
        destruct (split_raw _ s) as [p0 ps]; try destruct (_ && _); cbn in *;
        apply elem_of_cons in Hp as [->|Hp];
        first [exists p0; split; [left|simpl; lia] | exists p; split; [by right|lia]
              | idtac]. all: exists p; split; [done|lia]. }
    specialize (IH d' q Hq). lia.
Qed.

Lemma split_top_level_length v p :
  p ∈ split_top_level v → (String.length p ≤ String.length v)%nat.
Proof.
  unfold split_top_level. pose proof (split_raw_length v 0) as H.
  destruct (split_raw 0 v) as [q qs].
  intros (r & -> & Hr)%list_elem_of_fmap. etransitivity; [apply trim_length|]. by apply H.
Qed.

(** The arguments are shorter than the type. *)
Lemma type_arguments_length v name inner :
  type_arguments v name = Some inner → (S (String.length inner) ≤ String.length v)%nat.
Proof.
  unfold type_arguments. destruct (strip_prefix name v) as [rest|] eqn:E; [|done].
  cbn [mbind option_bind]. apply strip_prefix_length in E.
  destruct (_ || _) eqn:Hb; [|done]. intros [= <-].
  pose proof (trim_length rest) as Ht. unfold inside.
  pose proof (substring_length 1 (String.length (trim rest) - 2) (trim rest)) as Hs.
  destruct (trim rest) as [|c t]; [done|]. simpl String.length in *. lia.
Qed.

(** ** Termination *)

Lemma arrow_type_body_ext rec1 rec2 native :
  (∀ s, (String.length s < String.length native)%nat → rec1 s = rec2 s) →
  arrow_type_body rec1 native = arrow_type_body rec2 native.
Proof.
  intros H. unfold arrow_type_body. set (v := to_ascii_lowercase (trim native)).
  assert (String.length v ≤ String.length native)%nat as Hv.
  { unfold v. rewrite lowercase_length. apply trim_length. }
  destruct (type_arguments v "array") as [inner|] eqn:Ea.
  - apply type_arguments_length in Ea. by rewrite H by lia.
  - destruct (String.eqb v "array"); [done|].
    destruct (type_arguments v "map") as [inner|] eqn:Em; [|done]. cbn [fmap option_fmap option_map].
    apply type_arguments_length in Em. pose proof (split_top_level_length inner) as Hp.
    destruct (split_top_level inner) as [|k [|x [|]]]; try done.
    pose proof (Hp k ltac:(left)). pose proof (Hp x ltac:(right; left)).
    by rewrite !H by lia.
Qed.

Lemma arrow_type_loop_fuel n : ∀ m native,
  (String.length native < n)%nat → (String.length native < m)%nat →
  arrow_type_loop n native = arrow_type_loop m native.
Proof.
  induction n as [|n IH]; intros [|m] native Hn Hm; try lia. cbn [arrow_type_loop].
  apply arrow_type_body_ext. intros s Hs. apply IH; lia.
Qed.

(** [arrow_type] is a total function: the fuel never runs out, on any text. *)
Theorem arrow_type_unfold native :
  arrow_type native = arrow_type_body arrow_type native.
Proof.
  unfold arrow_type at 1. cbn [arrow_type_loop]. apply arrow_type_body_ext.
  intros s Hs. apply arrow_type_loop_fuel; lia.
Qed.

(** ** Trimmed and plain text *)

Definition visible (c : ascii) : bool := in_range 33 126 c.

(** Text that begins and ends with a visible ASCII character. *)
Definition solid (s : string) : Prop :=
  (∃ c t, s = String c t ∧ visible c = true) ∧
  (∃ t c, s = t +:+ String c EmptyString ∧ visible c = true).

Lemma visible_not_blank c t :
  visible c = true →
  first_stripped whitespace (String c t) = None ∧
  first_stripped (string_rev <$> whitespace) (String c t) = None.
Proof.
  intros Hc. destruct c as [[] [] [] [] [] [] [] []]; try (by vm_compute in Hc); by split.
Qed.

Lemma trim_loop_solid n c t :
  visible c = true →
  trim_loop whitespace n (String c t) = String c t ∧
  trim_loop (string_rev <$> whitespace) n (String c t) = String c t.
Proof.
  intros Hc. destruct n; [done|]. destruct (visible_not_blank c t Hc) as [H1 H2].
  cbn [trim_loop]. by rewrite H1, H2.
Qed.

Lemma trim_solid s : solid s → trim s = s.
Proof.
  intros [(c & t & Ec & Hc) (t' & c' & Ec' & Hc')]. unfold trim, trim_start.
  rewrite Ec at 2. rewrite (proj1 (trim_loop_solid _ _ _ Hc)), <- Ec. unfold trim_end.
  rewrite Ec' at 2. rewrite string_rev_app. cbn [String.append].
  change (string_rev (String c' EmptyString)) with (String c' EmptyString).
  cbn [String.append]. rewrite (proj2 (trim_loop_solid _ _ _ Hc')).
  rewrite string_rev_cons, string_rev_involutive. done.
Qed.

Lemma trim_space s : solid s → trim (String " " s) = s.
Proof.
  intros Hs. transitivity (trim s); [|by apply trim_solid]. unfold trim. f_equal.
Qed.

Definition lower (s : string) : bool := string_forallb (λ c, negb (is_ascii_uppercase c)) s.

Lemma lowercase_lower s : lower s = true → to_ascii_lowercase s = s.
Proof.
  unfold lower, to_ascii_lowercase. induction s as [|c s IH]; [done|]. cbn [string_forallb string_map].
  intros [Hc Hs]%andb_true_iff. rewrite IH by done. unfold to_ascii_lowercase_char.
  apply negb_true_iff in Hc. by rewrite Hc.
Qed.

Lemma string_forallb_append p a b :
  string_forallb p (a +:+ b) = string_forallb p a && string_forallb p b.
Proof. induction a as [|c a IH]; [done|]. cbn. by rewrite IH, andb_assoc. Qed.

Lemma solid_wrap c m d :
  visible c = true → visible d = true → solid (String c (m +:+ String d EmptyString)).
Proof. intros Hc Hd. split; [eauto|]. by exists (String c m), d. Qed.

Lemma ends_with_char c t : ends_with (String c EmptyString) (t +:+ String c EmptyString) = true.
Proof.
  unfold ends_with, strip_suffix. rewrite string_rev_app. cbn [String.append].
  change (string_rev (String c EmptyString)) with (String c EmptyString).
  cbn [strip_prefix String.append]. by rewrite Ascii.eqb_refl.
Qed.

Lemma ends_with_wrap c m d :
  ends_with (String d EmptyString) (String c (m +:+ String d EmptyString)) = true.
Proof. apply (ends_with_char d (String c m)). Qed.

Lemma starts_with_char c t : starts_with (String c EmptyString) (String c t) = true.
Proof. unfold starts_with. simpl. destruct (ascii_dec c c); by destruct t. Qed.

Lemma substring_prefix s t : String.substring 0 (String.length s) (s +:+ t) = s.
Proof. induction s as [|c s IH]; cbn; [by destruct t|by rewrite IH]. Qed.

Lemma inside_wrap c m d : inside (String c (m +:+ String d EmptyString)) = m.
Proof.
  unfold inside. cbn [String.length]. rewrite string_length_app. cbn [String.length].
  replace (_ - 2)%nat with (String.length m) by lia. apply substring_prefix.
Qed.

(** ** Brackets *)

Definition bracket_open (angle : bool) : ascii := if angle then "<"%char else "("%char.
Definition bracket_close (angle : bool) : ascii := if angle then ">"%char else ")"%char.
Definition wrap (name : string) (angle : bool) (s : string) : string :=
  name +:+ String (bracket_open angle) (s +:+ String (bracket_close angle) EmptyString).

Lemma type_arguments_wrap name angle s : type_arguments (wrap name angle s) name = Some s.
Proof.
  unfold type_arguments, wrap. rewrite strip_prefix_app. cbn [mbind option_bind].
  rewrite trim_solid by (apply solid_wrap; by destruct angle). rewrite inside_wrap.
  destruct angle; cbn [bracket_open bracket_close]; rewrite starts_with_char.
  - rewrite (ends_with_wrap "<"%char s ">"%char). by rewrite orb_true_r.
  - by rewrite (ends_with_wrap "("%char s ")"%char).
Qed.

(** Text the top-level split passes over, from depth [k] on. *)
Definition opaque (k : Z) (s : string) : Prop := ∀ d rest, k ≤ d →
  split_raw d (s +:+ rest)
  = (s +:+ (split_raw d rest).1, (split_raw d rest).2).

Lemma opaque_app k a b : opaque k a → opaque k b → opaque k (a +:+ b).
Proof. intros Ha Hb d rest Hd. rewrite string_app_assoc, Ha, Hb by done. simpl. by rewrite string_app_assoc. Qed.

Lemma opaque_weaken k k' s : k ≤ k' → opaque k s → opaque k' s.
Proof. intros Hk Hs d rest Hd. apply Hs. lia. Qed.

Definition plain (c : ascii) : bool :=
  negb (opens c) && negb (closes c) && negb (Ascii.eqb c ","%char).

Lemma opaque_plain k s : string_forallb plain s = true → opaque k s.
Proof.
  intros Hs d rest Hd. induction s as [|c s IH]; [apply surjective_pairing|].
  cbn [string_forallb] in Hs. apply andb_true_iff in Hs as [Hc Hs]. specialize (IH Hs).
  unfold plain in Hc. apply andb_true_iff in Hc as [[Ho Hcl]%andb_true_iff Hcm].
  cbn [String.append split_raw]. rewrite IH.
  rewrite (proj1 (negb_true_iff _) Ho), (proj1 (negb_true_iff _) Hcl),
    (proj1 (negb_true_iff _) Hcm). done.
Qed.

Lemma opaque_comma : opaque 1 ",".
Proof.
  intros d rest Hd. cbn [String.append split_raw].
  destruct (split_raw d rest) as [p ps]. cbn. by destruct (Z.eqb_spec d 0); [lia|].
Qed.

Lemma opaque_wrap name angle s :
  string_forallb plain name = true → opaque 1 s → opaque 0 (wrap name angle s).
Proof.
  intros Hn Hs. apply opaque_app; [by apply opaque_plain|]. intros d rest Hd.
  cbn [String.append split_raw]. assert (opens (bracket_open angle) = true) as ->
    by (by destruct angle).
  rewrite string_app_assoc, Hs by lia. cbn [String.append split_raw].
  assert (opens (bracket_close angle) = false) as -> by (by destruct angle).
  assert (closes (bracket_close angle) = true) as -> by (by destruct angle).
  replace (d + 1 - 1) with d by lia. destruct (split_raw d rest) as [p ps]. cbn.
  by rewrite string_app_assoc.
Qed.

Lemma split_pair a b :
  opaque 0 a → opaque 0 b → solid a → solid b →
  split_top_level (a +:+ String "," (String " " b)) = [a; b].
Proof.
  intros Ha Hb Sa Sb. unfold split_top_level. rewrite Ha by done.
  assert (split_raw 0 b = (b, [])) as E.
  { specialize (Hb 0 EmptyString ltac:(done)). rewrite !string_app_nil_r in Hb. done. }
  assert (split_raw 0 (String "," (String " " b)) = (EmptyString, [String " " b])) as ->.
  { cbn [split_raw]. by rewrite E. }
  cbn [fst snd]. rewrite string_app_nil_r. cbn [fmap list_fmap].
  by rewrite trim_solid, trim_space.
Qed.

(** ** Numbers in types *)

Definition numeral (s : string) : bool :=
  negb (is_empty s) && string_forallb (λ c, is_ascii_digit c || Ascii.eqb c "-"%char) s.

Lemma numeral_u8 p :
  0 ≤ p ≤ 255 → parse_u8 (pretty p) = Some p ∧ numeral (pretty p) = true.
Proof.
  intros Hp. assert (forallb (λ p, bool_decide (parse_u8 (pretty p) = Some p) && numeral (pretty p))
                       (seqZ 0 256) = true) as H by (by vm_compute).
  assert (p ∈ seqZ 0 256) as Hin%list_elem_of_In by (apply elem_of_seqZ; lia).
  rewrite forallb_forall in H. specialize (H _ Hin).
  apply andb_true_iff in H as [E Hn]. apply bool_decide_eq_true in E. exact (conj E Hn).
Qed.

Lemma numeral_i8 s :
  -128 ≤ s ≤ 127 → parse_i8 (pretty s) = Some s ∧ numeral (pretty s) = true.
Proof.
  intros Hs. assert (forallb (λ p, bool_decide (parse_i8 (pretty p) = Some p) && numeral (pretty p))
                       (seqZ (-128) 256) = true) as H by (by vm_compute).
  assert (s ∈ seqZ (-128) 256) as Hin%list_elem_of_In by (apply elem_of_seqZ; lia).
  rewrite forallb_forall in H. specialize (H _ Hin).
  apply andb_true_iff in H as [E Hn]. apply bool_decide_eq_true in E. exact (conj E Hn).
Qed.

Lemma string_last s : s ≠ EmptyString → ∃ t c, s = t +:+ String c EmptyString.
Proof.
  induction s as [|c s IH]; [done|]. intros _. destruct s as [|d s]; [by exists EmptyString, c|].
  destruct IH as (t & e & E); [done|]. exists (String c t), e. by rewrite E.
Qed.

Ltac by_character c H := destruct c as [[] [] [] [] [] [] [] []]; first [by vm_compute in H|done].

Lemma numeral_spec s :
  numeral s = true →
  solid s ∧ string_forallb plain s = true ∧ lower s = true ∧
  string_forallb (λ c, negb (Ascii.eqb ","%char c)) s = true ∧
  (∃ t c, s = t +:+ String c EmptyString ∧ Ascii.eqb c ")"%char = false).
Proof.
  unfold numeral. intros [Hne Hd]%andb_true_iff.
  assert (s ≠ EmptyString) as Hs by (by destruct s).
  split_and!.
  - split.
    + destruct s as [|c s]; [done|]. cbn [string_forallb] in Hd. apply andb_true_iff in Hd as [Hc _].
      exists c, s. split; [done|]. by_character c Hc.
    + destruct (string_last s Hs) as (t & c & ->). rewrite string_forallb_append in Hd.
      cbn [string_forallb] in Hd. apply andb_true_iff in Hd as [_ [Hc _]%andb_true_iff].
      exists t, c. split; [done|]. by_character c Hc.
  - revert Hd. apply string_forallb_impl. intros c Hc. by_character c Hc.
  - revert Hd. apply string_forallb_impl. intros c Hc. by_character c Hc.
  - revert Hd. apply string_forallb_impl. intros c Hc. by_character c Hc.
  - destruct (string_last s Hs) as (t & c & ->). rewrite string_forallb_append in Hd.
    cbn [string_forallb] in Hd. apply andb_true_iff in Hd as [_ [Hc _]%andb_true_iff].
    exists t, c. split; [done|]. by_character c Hc.
Qed.

Lemma trim_end_matches_one c s t d :
  s = t +:+ String d EmptyString → Ascii.eqb d c = false →
  trim_end_matches c (s +:+ String c EmptyString) = s.
Proof.
  intros -> Hd. unfold trim_end_matches. rewrite !string_rev_app. cbn [String.append].
  change (string_rev (String c EmptyString)) with (String c EmptyString).
  change (string_rev (String d EmptyString)) with (String d EmptyString).
  cbn [String.append drop_leading]. rewrite Ascii.eqb_refl, Hd.
  by rewrite string_rev_cons, string_rev_involutive.
Qed.

Lemma split_char_free c a : ∀ rest,
  string_forallb (λ d, negb (Ascii.eqb c d)) a = true →
  split_char c (a +:+ rest) = (a +:+ (split_char c rest).1, (split_char c rest).2).
Proof.
  induction a as [|d a IH]; intros rest; [intros; apply surjective_pairing|].
  cbn [string_forallb]. intros [Hd Ha]%andb_true_iff. cbn [String.append split_char].
  rewrite (IH _ Ha). rewrite Ascii.eqb_sym, (proj1 (negb_true_iff _) Hd). done.
Qed.

Lemma decimal_shape_spec name p s :
  string_forallb (λ d, negb (Ascii.eqb "("%char d)) name = true →
  0 ≤ p ≤ 255 → -128 ≤ s ≤ 127 →
  decimal_shape (wrap name false (pretty p +:+ String "," (pretty s))) = Some (p, s).
Proof.
  intros Hn Hp Hs. destruct (numeral_u8 p Hp) as [Ep (Sp & _ & _ & Cp & _)%numeral_spec].
  destruct (numeral_i8 s Hs) as [Es (Ss & _ & _ & Cs & t & c & Et & Hc)%numeral_spec].
  unfold decimal_shape, wrap. cbn [bracket_open bracket_close].
  rewrite (split_once_char "("%char) by done. cbn [mbind option_bind fst snd].
  rewrite (trim_end_matches_one ")"%char _ (pretty p +:+ String "," t) c);
    [|by rewrite Et, string_app_assoc|done].
  assert (split ","%char (pretty p +:+ String "," (pretty s)) = [pretty p; pretty s]) as ->.
  { unfold split. rewrite (split_char_free _ _ _ Cp). cbn [split_char].
    pose proof (split_char_free _ _ EmptyString Cs) as E. rewrite !string_app_nil_r in E.
    rewrite E. cbn. by rewrite !string_app_nil_r. }
  cbn [fmap list_fmap]. rewrite !trim_solid by done.
  cbn [head mbind option_bind]. rewrite Ep. cbn [mbind option_bind].
  change (default "0" ([pretty p; pretty s] !! 1%nat)) with (pretty s). by rewrite Es.
Qed.

(** ** Type expressions *)

(** The types without arguments, with what they denote. *)
Definition simple_types : list (string * DataType) :=
  [("boolean", Boolean); ("bool", Boolean); ("tinyint", Int8); ("byteint", Int8);
   ("smallint", Int16); ("integer", Int32); ("int", Int32); ("bigint", Int64); ("long", Int64);
   ("real", Float32); ("float", Float32); ("double", Float64); ("double precision", Float64);
   ("binary", Binary); ("varbinary", Binary); ("date", Date32);
   ("timestamp", Timestamp Microsecond None); ("timestamp_ntz", Timestamp Microsecond None);
   ("timestamp_ltz", Timestamp Microsecond None); ("timestamp_tz", Timestamp Microsecond None);
   ("varchar", Utf8); ("char", Utf8); ("string", Utf8); ("json", Utf8); ("uuid", Utf8);
   ("time", Utf8); ("variant", Utf8)].
Definition decimal_names : list string := ["decimal"; "numeric"; "number"].
(** The containers without arguments. *)
Definition bare_types : list (string * DataType) :=
  [("decimal", Decimal128 38 9); ("numeric", Decimal128 38 9); ("number", Decimal128 38 9);
   ("array", List (new_list_field Utf8 true)); ("object", map_of Utf8 Utf8 true);
   ("map", map_of Utf8 Utf8 true)].

Inductive Native :=
| Bare (name : string) (meaning : DataType)
| Sized (name : string) (meaning : DataType) (size : Z)
| Exact (name : string) (precision scale : Z)
| ArrayOf (angle : bool) (item : Native)
| MapOf (angle : bool) (key value : Native).

Fixpoint native_ok (t : Native) : Prop :=
  match t with
  | Bare n d => (n, d) ∈ simple_types ++ bare_types
  | Sized n d size => (n, d) ∈ simple_types ∧ 0 ≤ size ≤ 255
  | Exact n p s => n ∈ decimal_names ∧ 0 ≤ p ≤ 255 ∧ -128 ≤ s ≤ 127
  | ArrayOf _ t => native_ok t
  | MapOf _ k v => native_ok k ∧ native_ok v
  end.

Fixpoint render_native (t : Native) : string :=
  match t with
  | Bare n _ => n
  | Sized n _ size => wrap n false (pretty size)
  | Exact n p s => wrap n false (pretty p +:+ String "," (pretty s))
  | ArrayOf angle t => wrap "array" angle (render_native t)
  | MapOf angle k v => wrap "map" angle (render_native k +:+ String "," (String " " (render_native v)))
  end.

Fixpoint denote (t : Native) : DataType :=
  match t with
  | Bare _ d | Sized _ d _ => d
  | Exact _ p s => Decimal128 p s
  | ArrayOf _ t => List (new_list_field (denote t) true)
  | MapOf _ k v => map_of (denote k) (denote v) true
  end.

(** What holds of the text of a type expression. *)
Definition tidy (s : string) : Prop := lower s = true ∧ solid s ∧ opaque 0 s.

Lemma tidy_wrap name angle s :
  (∃ c t, name = String c t ∧ visible c = true) → lower name = true →
  string_forallb plain name = true → lower s = true → opaque 1 s → tidy (wrap name angle s).
Proof.
  intros (c & t & -> & Hc) Hn Hp Hs Ho. split_and!.
  - unfold lower, wrap in *. rewrite string_forallb_append, Hn. cbn [string_forallb].
    rewrite string_forallb_append, Hs. by destruct angle.
  - unfold wrap. cbn [String.append]. split; [eauto|].
    exists (String c (t +:+ String (bracket_open angle) s)), (bracket_close angle).
    split; [|by destruct angle]. cbn [String.append]. by rewrite string_app_assoc.
  - by apply opaque_wrap.
Qed.

Definition first_visible (s : string) : bool :=
  match s with String c _ => visible c | EmptyString => false end.
Definition good_name (n : string) : bool :=
  first_visible n && first_visible (string_rev n) && lower n && string_forallb plain n.

Lemma good_name_spec n :
  good_name n = true →
  (∃ c t, n = String c t ∧ visible c = true) ∧ lower n = true ∧
  string_forallb plain n = true ∧ solid n ∧
  string_forallb (λ c, negb (Ascii.eqb "("%char c)) n = true.
Proof.
  unfold good_name. intros [[[Hf Hr]%andb_true_iff Hl]%andb_true_iff Hp]%andb_true_iff.
  assert (∃ c t, n = String c t ∧ visible c = true) as Hn by (destruct n; [done|eauto]).
  split_and!; [done..| |].
  - split; [done|]. destruct (string_rev n) as [|c t] eqn:E; [done|].
    exists (string_rev t), c. split; [|done]. by rewrite <- string_rev_cons, <- E, string_rev_involutive.
  - revert Hp. apply string_forallb_impl. intros c Hc. by_character c Hc.
Qed.

Lemma known_names : forallb good_name ((simple_types ++ bare_types).*1 ++ decimal_names) = true.
Proof. by vm_compute. Qed.

Lemma known_name n :
  n ∈ (simple_types ++ bare_types).*1 ++ decimal_names → good_name n = true.
Proof. intros H%list_elem_of_In. by apply (proj1 (forallb_forall _ _) known_names). Qed.

Lemma render_tidy t : native_ok t → tidy (render_native t).
Proof.
  induction t as [n d|n d z|n p s|angle t IH|angle k IHk v IHv]; cbn [native_ok render_native].
  - intros H. destruct (good_name_spec n) as (_ & Hl & Hp & Hs & _).
    { apply known_name, elem_of_app. left. by apply (list_elem_of_fmap_2' fst _ (n, d)). }
    split_and!; [done..|]. by apply opaque_plain.
  - intros [H Hz]. destruct (good_name_spec n) as (Hf & Hl & Hp & Hs & _).
    { apply known_name, elem_of_app. left. apply (list_elem_of_fmap_2' fst _ (n, d)); [|done].
      apply elem_of_app. by left. }
    destruct (numeral_u8 z Hz) as [_ (_ & Hpz & Hlz & _)%numeral_spec].
    apply tidy_wrap; [done..|]. by apply opaque_plain.
  - intros (H & Hp & Hs). destruct (good_name_spec n) as (Hf & Hl & Hn & _).
    { apply known_name, elem_of_app. by right. }
    destruct (numeral_u8 p Hp) as [_ (_ & Pp & Lp & _)%numeral_spec].
    destruct (numeral_i8 s Hs) as [_ (_ & Ps & Ls & _)%numeral_spec].
    apply tidy_wrap; [done..| |].
    + unfold lower in *. by rewrite string_forallb_append, Lp.
    + apply opaque_app; [by apply opaque_plain|].
      apply (opaque_app 1 ","); [apply opaque_comma|by apply opaque_plain].
  - intros H. destruct (IH H) as (Hl & Hs & Ho).
    apply tidy_wrap; [by eexists _, _|done..|]. by apply (opaque_weaken 0).
  - intros [Hk Hv]. destruct (IHk Hk) as (Lk & Sk & Ok), (IHv Hv) as (Lv & Sv & Ov).
    apply tidy_wrap; [by eexists _, _|done|done| |].
    + unfold lower in *. by rewrite string_forallb_append, Lk.
    + apply opaque_app; [by apply (opaque_weaken 0)|].
      apply (opaque_app 1 ","); [apply opaque_comma|].
      apply (opaque_app 1 " "); [by apply opaque_plain|by apply (opaque_weaken 0)].
Qed.

Lemma before_bracket_wrap name s :
  string_forallb plain name = true → before_bracket (wrap name false s) = name.
Proof.
  unfold wrap. induction name as [|c name IH]; [done|]. cbn [string_forallb String.append before_bracket].
  intros [Hc Hn]%andb_true_iff. rewrite IH by done.
  assert (Ascii.eqb c "("%char || Ascii.eqb c "<"%char = false) as -> by by_character c Hc. done.
Qed.

Lemma arrow_type_tidy s : tidy s → to_ascii_lowercase (trim s) = s.
Proof. intros (Hl & Hs & _). rewrite trim_solid by done. by apply lowercase_lower. Qed.

(** A name with arguments that is no container. *)
Lemma arrow_type_scalar name s :
  tidy (wrap name false s) → one_of ["array"; "map"] name = false →
  type_arguments (wrap name false s) "array" = None →
  type_arguments (wrap name false s) "map" = None →
  arrow_type (wrap name false s) = scalar_of (wrap name false s).
Proof.
  intros Ht Hn Ha Hm. rewrite arrow_type_unfold. unfold arrow_type_body.
  rewrite arrow_type_tidy by done. rewrite Ha, Hm.
  assert (∀ x, string_forallb (λ c, negb (Ascii.eqb "("%char c)) x = true →
               String.eqb (wrap name false s) x = false) as Hx.
  { intros x Hx. apply String.eqb_neq. intros E. rewrite <- E in Hx. unfold wrap in Hx.
    rewrite string_forallb_append in Hx. cbn [string_forallb] in Hx.
    apply andb_true_iff in Hx as [_ [Hx _]%andb_true_iff]. done. }
  by rewrite !Hx.
Qed.

(** Each name of a list, one at a time. *)
Ltac each_name H :=
  repeat (apply elem_of_cons in H as [[= -> ->]|H] || apply elem_of_cons in H as [->|H]);
  [..|by apply elem_of_nil in H].

Lemma bare_types_denote n d : (n, d) ∈ simple_types ++ bare_types → arrow_type n = d.
Proof. intros H. cbn [simple_types bare_types app] in H. each_name H. all: by vm_compute. Qed.

Lemma sized_types_denote n d s :
  (n, d) ∈ simple_types → tidy (wrap n false s) → arrow_type (wrap n false s) = d.
Proof.
  intros H Ht. cbn [simple_types] in H.
  each_name H; (rewrite arrow_type_scalar by done); unfold scalar_of;
    (rewrite before_bracket_wrap by done); by vm_compute.
Qed.

Lemma exact_types_denote n p s :
  n ∈ decimal_names → 0 ≤ p ≤ 255 → -128 ≤ s ≤ 127 →
  tidy (wrap n false (pretty p +:+ String "," (pretty s))) →
  arrow_type (wrap n false (pretty p +:+ String "," (pretty s))) = Decimal128 p s.
Proof.
  intros H Hp Hs Ht. cbn [decimal_names] in H.
  each_name H; (rewrite arrow_type_scalar by done); unfold scalar_of;
    (rewrite before_bracket_wrap by done); (rewrite decimal_shape_spec by done); done.
Qed.

(** Type expressions mean what they say.  Every native type expression,
    arrays and maps nested to any depth in either bracket style included, is read
    as the Arrow type it denotes. *)
Theorem type_expressions_denote t : native_ok t → arrow_type (render_native t) = denote t.
Proof.
  induction t as [n d|n d z|n p s|angle t IH|angle k IHk v IHv]; intros H;
    pose proof (render_tidy _ H) as Ht; cbn [native_ok render_native denote] in *.
  - by apply bare_types_denote.
  - destruct H as [H _]. by apply sized_types_denote.
  - destruct H as (H & Hp & Hs). by apply exact_types_denote.
  - rewrite arrow_type_unfold. unfold arrow_type_body. rewrite arrow_type_tidy by done.
    rewrite type_arguments_wrap, IH by done. done.
  - destruct H as [Hk Hv]. destruct (render_tidy k Hk) as (_ & Sk & Ok).
    destruct (render_tidy v Hv) as (_ & Sv & Ov).
    rewrite arrow_type_unfold. unfold arrow_type_body. rewrite arrow_type_tidy by done.
    rewrite type_arguments_wrap. change (type_arguments (wrap "map" angle _) "array") with (@None string).
    cbn iota. change (String.eqb (wrap "map" angle _) "array") with false. cbn [fmap option_fmap option_map].
    rewrite split_pair by done. by rewrite IHk, IHv.
Qed.

(** A decimal wider than Arrow's 38 digits is passed on as it is. *)
Lemma decimal_precision_is_unchecked : arrow_type "decimal(77,2)" = Decimal128 77 2.
Proof. by vm_compute. Qed.
