(* ===== verification/FlightTokenFacts.v ===== *)
(** * Facts about tickets and session tokens

    Issued tokens verify exactly for their owner until they expire, an accepted
    token is one the gateway signed, tickets and session tokens are never taken
    for each other although they may share a key, and the session cookie is found
    among the other cookies of a request. *)
From S2P Require Import Prelude Text ServiceData Chars Headers FlightTypes FlightTypeFacts.
From Stdlib Require Import Ascii.

(** Documents whose fields are strings and unsigned integers of 64 bits. *)
Definition flat_value (v : Value) : Prop :=
  match v with
  | VString _ => True
  | Number n => 0 ≤ n ≤ u64_max
  | _ => False
  end.

Definition ticket_ok (p : TicketPayload) : Prop :=
  0 ≤ tp_version p ≤ 255 ∧ 0 ≤ tp_expires_at p ≤ u64_max ∧
  0 ≤ tp_partition p ≤ usize_max ∧ 0 ≤ tp_partitions p ≤ usize_max.
Definition session_ok (p : SessionTokenPayload) : Prop :=
  0 ≤ sp_format_version p ≤ 255 ∧ 0 ≤ sp_session_version p ≤ u64_max ∧
  0 ≤ sp_expires_at p ≤ u64_max.

Lemma as_unsigned_ok max n : 0 ≤ n ≤ max → as_unsigned max (Number n) = Some n.
Proof. intros. unfold as_unsigned. by rewrite !(proj2 (Z.leb_le _ _)) by lia. Qed.

Lemma ticket_fields p :
  struct_fields ["version"; "query_id"; "owner"; "expires_at"; "partition"; "partitions"]
    (ticket_value p)
  = Some [Number (tp_version p); VString (tp_query_id p); VString (tp_owner p);
          Number (tp_expires_at p); Number (tp_partition p); Number (tp_partitions p)].
Proof. reflexivity. Qed.

Lemma session_fields p :
  struct_fields ["format_version"; "session_version"; "session_id"; "owner"; "expires_at"]
    (session_value p)
  = Some [Number (sp_format_version p); Number (sp_session_version p); VString (sp_session p);
          VString (sp_owner p); Number (sp_expires_at p)].
Proof. reflexivity. Qed.

Lemma ticket_of_ticket p : ticket_ok p → ticket_of_value (ticket_value p) = Some p.
Proof.
  intros (Hv & He & Hi & Hn). unfold ticket_of_value. rewrite ticket_fields.
  cbn [mbind option_bind]. do 3 (rewrite as_unsigned_ok by done; cbn [mbind option_bind as_str]).
  rewrite as_unsigned_ok by done. by destruct p.
Qed.

Lemma session_of_session p : session_ok p → session_of_value (session_value p) = Some p.
Proof.
  intros (Hf & Hv & He). unfold session_of_value. rewrite session_fields.
  cbn [mbind option_bind]. do 2 (rewrite as_unsigned_ok by done; cbn [mbind option_bind as_str]).
  rewrite as_unsigned_ok by done. by destruct p.
Qed.

(** A session token has no [version], a ticket no [format_version]. *)
Lemma ticket_of_session p : ticket_of_value (session_value p) = None.
Proof. done. Qed.
Lemma session_of_ticket p : session_of_value (ticket_value p) = None.
Proof. done. Qed.

Lemma expiry_range now ttl : 0 ≤ now → 0 ≤ ttl → 0 ≤ expiry now ttl ≤ u64_max.
Proof.
  intros Hn Ht. unfold expiry.
  pose proof (Z.div_pos ttl nanos_per_second Ht ltac:(done)). unfold u64_max. lia.
Qed.

Section Signed.
Variable b64_encode : string → string.
Variable b64_decode : string → option string.
Variable hmac : string → string → string.
Variable json_text : Value → string.
Variable json_parse : string → option Value.
Hypothesis b64_roundtrip : ∀ s, b64_decode (b64_encode s) = Some s.
Hypothesis b64_alphabet : ∀ s, string_forallb url_char (b64_encode s) = true.
Hypothesis json_roundtrip : ∀ fields, Forall (λ e, flat_value e.2) fields →
  json_parse (json_text (Object fields)) = Some (Object fields).

Abbreviation sign := (sign_payload b64_encode hmac json_text).
Abbreviation verified := (verified_bytes b64_decode hmac).
Abbreviation verify := (verify_payload b64_decode hmac json_parse).
Abbreviation verify_ticket := (verify_ticket b64_decode hmac json_parse).
Abbreviation verify_session := (verify_session b64_decode hmac json_parse).

Lemma verified_signed key v label : verified key (sign key v) label = Ok (json_text v).
Proof.
  unfold verified_bytes, sign_payload.
  set (a := b64_encode (json_text v)). set (b := b64_encode (hmac key (json_text v))).
  assert (string_forallb url_char a = true) as Ha by apply b64_alphabet.
  assert (string_forallb url_char b = true) as Hb by apply b64_alphabet.
  rewrite utf8_ascii; cbn [negb].
  - assert (split_once "." (a +:+ "." +:+ b) = Some (a, b)) as ->.
    { apply (split_once_char "."%char). revert Ha. apply string_forallb_impl.
      intros c Hc. by_character c Hc. }
    cbn [ok_or and_then fst snd]. unfold a, b. rewrite !b64_roundtrip. cbn [ok_or and_then].
    by rewrite String.eqb_refl.
  - rewrite !string_forallb_append. rewrite !andb_true_iff. split_and!; [|done|].
    + revert Ha. apply string_forallb_impl. intros c Hc. by_character c Hc.
    + revert Hb. apply string_forallb_impl. intros c Hc. by_character c Hc.
Qed.

Lemma parse_ticket p : ticket_ok p → json_parse (json_text (ticket_value p)) = Some (ticket_value p).
Proof.
  intros (Hv & He & Hi & Hn). apply json_roundtrip. unfold u64_max, usize_max in *.
  rewrite !Forall_cons, Forall_nil. cbn [flat_value snd]. unfold u64_max. lia.
Qed.
Lemma parse_session p :
  session_ok p → json_parse (json_text (session_value p)) = Some (session_value p).
Proof.
  intros (Hf & Hv & He). apply json_roundtrip. unfold u64_max in *.
  rewrite !Forall_cons, Forall_nil. cbn [flat_value snd]. unfold u64_max. lia.
Qed.

(** Tickets open for their owner only, and not for ever.  A ticket of a
    result partition, shown to the gateway whose key signed it, is accepted as
    exactly that partition of that query when its owner shows it before it
    expires; anybody else is refused, whatever the ticket says, and so is the
    owner afterwards. *)
Lemma tickets_open_for_their_owner key owner query_id i n ttl issued who now :
  0 ≤ issued → 0 ≤ ttl → 0 ≤ i < n → n ≤ usize_max →
  verify_ticket key (issue_partition b64_encode hmac json_text key owner query_id i n ttl issued)
    who now
  = if decide (who ≠ owner)
    then Err (Status_new CPermissionDenied "query ticket belongs to another principal")
    else if decide (expiry issued ttl < now)
    then Err (Status_new CNotFound "query ticket has expired")
    else Ok (ticket_payload owner query_id i n ttl issued).
Proof.
  intros Hi Ht Hp Hn. unfold FlightTypes.verify_ticket, verify_payload, issue_partition.
  rewrite verified_signed. cbn [and_then].
  assert (ticket_ok (ticket_payload owner query_id i n ttl issued)) as Hok.
  { pose proof (expiry_range issued ttl Hi Ht). split_and!; cbn; try lia; try apply H; lia. }
  rewrite parse_ticket by done. cbn [mbind option_bind]. rewrite ticket_of_ticket by done.
  cbn [ok_or and_then]. unfold check_ticket. cbn [tp_version tp_owner tp_partitions tp_partition
    tp_expires_at ticket_payload negb]. change (1 =? 1) with true. cbn [negb].
  destruct (String.eqb_spec owner who) as [->|Hne].
  - rewrite decide_False by (by intros []). cbn [negb].
    destruct (Z.eqb_spec n 0); [lia|]. destruct (Z.leb_spec n i); [lia|]. cbn [orb].
    by destruct (Z.ltb_spec (expiry issued ttl) now);
      [rewrite decide_True by done|rewrite decide_False by lia].
  - by rewrite decide_True by done.
Qed.

(** The same for session tokens. *)
Lemma session_tokens_open_for_their_owner key owner session_id version ttl issued who now :
  0 ≤ issued → 0 ≤ ttl → 0 ≤ version ≤ u64_max →
  verify_session key (issue_session b64_encode hmac json_text key owner session_id version ttl issued)
    who now
  = if decide (who ≠ owner)
    then Err (Status_new CPermissionDenied "Flight session belongs to another principal")
    else if decide (expiry issued ttl < now)
    then Err (Status_new CNotFound "Flight session token has expired")
    else Ok (session_payload owner session_id version ttl issued).
Proof.
  intros Hi Ht Hv. unfold FlightTypes.verify_session, verify_payload, issue_session.
  rewrite verified_signed. cbn [and_then].
  assert (session_ok (session_payload owner session_id version ttl issued)) as Hok.
  { pose proof (expiry_range issued ttl Hi Ht). split_and!; cbn; try lia; try apply H; lia. }
  rewrite parse_session by done. cbn [mbind option_bind]. rewrite session_of_session by done.
  cbn [ok_or and_then]. unfold check_session. cbn [sp_format_version sp_owner sp_expires_at
    session_payload negb]. change (1 =? 1) with true. cbn [negb].
  destruct (String.eqb_spec owner who) as [->|Hne].
  - rewrite decide_False by (by intros []). cbn [negb].
    by destruct (Z.ltb_spec (expiry issued ttl) now);
      [rewrite decide_True by done|rewrite decide_False by lia].
  - by rewrite decide_True by done.
Qed.

(** ** What a gateway signed *)

Inductive Signed :=
| SignedTicket (p : TicketPayload)
| SignedSession (p : SessionTokenPayload).
Definition signed_ok (s : Signed) : Prop :=
  match s with SignedTicket p => ticket_ok p | SignedSession p => session_ok p end.
Definition signed_text (s : Signed) : string :=
  json_text match s with SignedTicket p => ticket_value p | SignedSession p => session_value p end.

(** [token] is no forgery: what it carries under a valid signature was signed. *)
Definition authentic (key : string) (log : list Signed) (token : string) : Prop :=
  ∀ label m, verified key token label = Ok m → m ∈ signed_text <$> log.

End Signed.

(** ** Cookies *)

Definition cookie_char (c : ascii) : bool := visible c && negb (Ascii.eqb ";"%char c).
Definition name_char (c : ascii) : bool := cookie_char c && negb (Ascii.eqb "="%char c).
Definition pair_ok (e : string * string) : Prop :=
  e.1 ≠ EmptyString ∧ string_forallb name_char e.1 = true ∧
  string_forallb cookie_char e.2 = true.
Definition cookie_pair (e : string * string) : string := e.1 +:+ "=" +:+ e.2.
Definition cookie_header (l : list (string * string)) : string := join "; " (cookie_pair <$> l).

Lemma solid_visible s : s ≠ EmptyString → string_forallb visible s = true → solid s.
Proof.
  intros Hs Hv. split.
  - destruct s as [|c s]; [done|]. cbn [string_forallb] in Hv. apply andb_true_iff in Hv as [Hc _].
    eauto.
  - destruct (string_last s Hs) as (t & c & ->). rewrite string_forallb_append in Hv.
    cbn [string_forallb] in Hv. apply andb_true_iff in Hv as [_ [Hc _]%andb_true_iff]. eauto.
Qed.

Lemma pair_text e :
  pair_ok e → solid (cookie_pair e) ∧ string_forallb cookie_char (cookie_pair e) = true.
Proof.
  intros (Hne & Hk & Hv).
  assert (string_forallb cookie_char (cookie_pair e) = true) as H.
  { unfold cookie_pair. rewrite !string_forallb_append. rewrite Hv, andb_true_r.
    revert Hk. apply string_forallb_impl.
    intros c Hc. unfold name_char in Hc. by apply andb_true_iff in Hc as [? _]. }
  split; [|done]. apply solid_visible.
  - unfold cookie_pair. by destruct e as [[|] ?].
  - revert H. apply string_forallb_impl. unfold cookie_char. by intros c [? _]%andb_true_iff.
Qed.

Lemma cookie_free e :
  pair_ok e → string_forallb (λ c, negb (Ascii.eqb ";"%char c)) (cookie_pair e) = true.
Proof.
  intros [_ H]%pair_text. revert H. apply string_forallb_impl.
  unfold cookie_char. by intros c [_ ?]%andb_true_iff.
Qed.

(** The pieces of the header, each one a pair. *)
Lemma cookie_pieces l :
  Forall pair_ok l → l ≠ [] → trim <$> split ";"%char (cookie_header l) = cookie_pair <$> l.
Proof.
  intros Hl Hne. unfold cookie_header.
  assert (∀ e, pair_ok e → trim (cookie_pair e) = cookie_pair e ∧
                 trim (String " " (cookie_pair e)) = cookie_pair e) as Htrim.
  { intros e [He _]%pair_text. split; [by apply trim_solid|by apply trim_space]. }
  enough (∀ l, Forall pair_ok l → l ≠ [] → ∃ p ps,
            split_char ";"%char (join "; " (cookie_pair <$> l)) = (p, ps) ∧
            trim p = default EmptyString (head (cookie_pair <$> l)) ∧
            trim (String " " p) = default EmptyString (head (cookie_pair <$> l)) ∧
            trim <$> ps = tail (cookie_pair <$> l)) as H.
  { destruct (H l Hl Hne) as (p & ps & E & H1 & _ & H2). unfold split. rewrite E.
    cbn [fmap list_fmap]. rewrite H1, H2. by destruct l. }
  clear l Hl Hne. induction l as [|e l IH]; intros Hl Hne; [done|].
  apply Forall_cons in Hl as [He Hl]. destruct (Htrim e He) as [T1 T2].
  pose proof (cookie_free e He) as Hfree. destruct l as [|e' l].
  - pose proof (split_char_free ";"%char _ EmptyString Hfree) as E.
    rewrite string_app_nil_r in E. cbn [split_char fst snd] in E. rewrite string_app_nil_r in E.
    exists (cookie_pair e), []. cbn. rewrite E. done.
  - destruct (IH Hl ltac:(done)) as (p & ps & E & H1 & H2 & H3).
    exists (cookie_pair e), (String " " p :: ps).
    change (join "; " (cookie_pair <$> e :: e' :: l))
      with (cookie_pair e +:+ "; " +:+ join "; " (cookie_pair <$> e' :: l)).
    split_and!; [|done..|].
    + rewrite (split_char_free _ _ _ Hfree). cbn [String.append split_char].
      change (Ascii.eqb ";"%char ";"%char) with true.
      change (Ascii.eqb " "%char ";"%char) with false. cbn iota. rewrite E.
      cbn [fst snd]. by rewrite string_app_nil_r.
    + change (tail (cookie_pair <$> e :: e' :: l)) with (cookie_pair <$> e' :: l).
      cbn [fmap list_fmap]. rewrite H2, H3. done.
Qed.

Lemma join_visible l :
  Forall pair_ok l → string_forallb visible_byte (cookie_header l) = true.
Proof.
  assert (∀ e, pair_ok e → string_forallb visible_byte (cookie_pair e) = true) as Hp.
  { intros e [_ H]%pair_text. revert H. apply string_forallb_impl. intros c Hc. by_character c Hc. }
  unfold cookie_header. induction l as [|e l IH]; [done|]. intros [He Hl]%Forall_cons.
  specialize (IH Hl). destruct l as [|e' l]; cbn [fmap list_fmap join] in *; [by apply Hp|].
  rewrite !string_forallb_append, Hp, IH by done. done.
Qed.

Lemma pair_parts e : pair_ok e → split_once "=" (cookie_pair e) = Some e.
Proof.
  intros (_ & Hk & _). transitivity (Some (e.1, e.2)); [|by destruct e].
  apply (split_once_char "="%char). revert Hk. apply string_forallb_impl. unfold name_char. by intros c [_ ?]%andb_true_iff.
Qed.

Lemma find_assoc name (l : list (string * string)) :
  find_map (λ e, if String.eqb e.1 name then Some e.2 else None) l
  = head (snd <$> filter (λ e, e.1 = name) l).
Proof.
  induction l as [|e l IH]; [done|]. cbn [find_map]. rewrite filter_cons.
  destruct (String.eqb_spec e.1 name) as [E|Hne].
  - by rewrite decide_True by done.
  - by rewrite decide_False by done.
Qed.

(** The session cookie is found.  In a request whose [cookie] header lists
    any cookies, a cookie's value is the one the header gives it, the first when
    there are several. *)
Theorem cookies_are_found l name :
  Forall pair_ok l → l ≠ [] →
  cookie [("cookie", cookie_header l)] name = head (snd <$> filter (λ e, e.1 = name) l).
Proof.
  intros Hl Hne. unfold cookie.
  change (get_all "cookie" [("cookie", cookie_header l)]) with [cookie_header l].
  cbn [omap list_omap]. unfold header_to_str at 1. rewrite join_visible by done.
  cbn [mbind list_bind]. rewrite app_nil_r.
  assert (omap (λ entry, split_once "=" (trim entry)) (split ";"%char (cookie_header l)) = l) as ->.
  { transitivity (omap (split_once "=") (trim <$> split ";"%char (cookie_header l))).
    - induction (split ";"%char (cookie_header l)) as [|x xs IH]; [done|]. cbn. by rewrite IH.
    - rewrite cookie_pieces by done. clear Hne. induction Hl as [|e l He Hl IH]; [done|].
      cbn [fmap list_fmap omap list_omap]. by rewrite (pair_parts e He), IH. }
  apply find_assoc.
Qed.
