(* ===== verification/FlightPolicy.v ===== *)
(** * Who and what the Flight SQL gateway lets in (crates/qcli-flight-sql/src/lib.rs)

    The listener's transport policy, the interceptor that authenticates every
    call, the mapping of errors to gRPC statuses, the options of a session and
    the static SQL information. *)
From S2P Require Import Prelude Text Arrow DriverApi Auth Config ServiceData Headers ArrowTypes.
From S2P Require Import Chars FlightTypes.
From Stdlib Require Import Ascii.

(** ** Configuration *)

Record FlightTlsConfig := {
  tls_certificate : string;
  tls_private_key : string;
  tls_client_ca : option string;
}.

Record FlightServerConfig := {
  fl_trusted_proxy : bool;
  max_message_bytes : Z;
  request_timeout : Z;
  keepalive_interval : Z;
  keepalive_timeout : Z;
  fl_ticket_ttl : Z;
  fl_session_ttl : Z;
  max_concurrent_streams : Z;
  max_connection_age : Z;
  max_connection_age_grace : Z;
  fl_tls : option FlightTlsConfig;
  shared_signing_key : option string;
}.

Definition FlightServerConfig_default : FlightServerConfig :=
  {| fl_trusted_proxy := false; max_message_bytes := 16 * 1024 * 1024;
     request_timeout := from_secs 60; keepalive_interval := from_secs 30;
     keepalive_timeout := from_secs 10; fl_ticket_ttl := from_secs (15 * 60);
     fl_session_ttl := from_secs (30 * 60); max_concurrent_streams := 64;
     max_connection_age := from_secs (30 * 60); max_connection_age_grace := from_secs 60;
     fl_tls := None; shared_signing_key := None |}.

(** [bind_flight], before the listener is bound. *)
Definition bind_flight (loopback : bool) (config : FlightServerConfig) : result unit string :=
  let tls := match fl_tls config with Some _ => true | None => false end in
  if fl_trusted_proxy config && tls then
    Err "Flight trusted-proxy mode and direct TLS are mutually exclusive"
  else if negb loopback && negb tls && negb (fl_trusted_proxy config) then
    Err "non-loopback Flight SQL requires direct TLS or --flight-trusted-proxy"
  else Ok tt.

(** ** The service *)

(** [QcliFlightSql], but for the gateway. *)
Record QcliFlightSql := {
  fs_tickets : string;
  fs_sessions : string;
  fs_ticket_ttl : Z;
  fs_session_ttl : Z;
  max_flight_data_bytes : Z;
}.

(** [uuids]: the four random UUIDs of the two keys. *)
Definition with_limits (ticket_ttl session_ttl max_bytes : Z) (u1 u2 u3 u4 : string) :
    QcliFlightSql :=
  {| fs_tickets := random_key u1 u2; fs_sessions := random_key u3 u4;
     fs_ticket_ttl := ticket_ttl; fs_session_ttl := session_ttl;
     max_flight_data_bytes := Z.max max_bytes 1024 |}.

Definition with_shared_signing_key (key : string) (s : QcliFlightSql) : QcliFlightSql :=
  {| fs_tickets := key; fs_sessions := key; fs_ticket_ttl := fs_ticket_ttl s;
     fs_session_ttl := fs_session_ttl s; max_flight_data_bytes := max_flight_data_bytes s |}.

(** The service [serve_flight] builds from its configuration. *)
Definition served (config : FlightServerConfig) (u1 u2 u3 u4 : string) : QcliFlightSql :=
  let s := with_limits (fl_ticket_ttl config) (fl_session_ttl config)
             (Z.max 0 (max_message_bytes config - 1024)) u1 u2 u3 u4 in
  match shared_signing_key config with
  | Some key => with_shared_signing_key key s
  | None => s
  end.

(** The identity and the client authority [serve_flight] reads for TLS; [read] is
    [std::fs::read]. *)
Definition flight_tls (read : string → result string string) (config : FlightServerConfig) :
    result (option (string * string * option string)) string :=
  match fl_tls config with
  | None => Ok None
  | Some tls =>
      let? certificate := map_err (λ error, tls_certificate tls
        +:+ ": cannot read Flight TLS certificate: " +:+ error) (read (tls_certificate tls)) in
      let? private_key := map_err (λ error, tls_private_key tls
        +:+ ": cannot read Flight TLS private key: " +:+ error) (read (tls_private_key tls)) in
      let? client_ca := match tls_client_ca tls with
                        | Some ca => let? bytes := map_err (λ error, ca
                            +:+ ": cannot read Flight client CA: " +:+ error) (read ca) in
                            Ok (Some bytes)
                        | None => Ok None
                        end in
      Ok (Some (certificate, private_key, client_ca))
  end.

(** ** Statuses *)

Definition authentication_status (e : AuthenticationError) : Status :=
  match ae_kind e with
  | Configuration => Status_new CInternal (ae_message e)
  | Missing | Invalid => Status_new CUnauthenticated (ae_message e)
  end.

Definition service_error_status (e : ServiceError) : Status :=
  Status_new
    (match se_kind e with
     | InvalidArgument => CInvalidArgument
     | NotFound => CNotFound
     | Forbidden => CPermissionDenied
     | Conflict => CAborted
     | ResourceExhausted => CResourceExhausted
     | FailedPrecondition => CFailedPrecondition
     | Upstream => CUnavailable
     | Internal => CInternal
     end) (se_message e).

Definition driver_status (e : DriverError) : Status :=
  if String.eqb (de_code e) "unsupported_capability"
  then Status_new CUnimplemented (de_message e)
  else Status_new CUnavailable (de_message e).

(** ** The interceptor *)

Definition bearer (m : Metadata) : result string Status :=
  ok_or (value ← get_str "authorization" m;
         credential ← strip_prefix "Bearer " value;
         if is_empty credential then None else Some credential)
    (Status_new CUnauthenticated "a bearer credential is required").

Definition enforce_proxy_policy (m : Metadata) (trusted_proxy : bool) : result unit Status :=
  let forwarded := contains_key "forwarded" m || contains_key "x-forwarded-for" m
                   || contains_key "x-forwarded-host" m || contains_key "x-forwarded-proto" m in
  if forwarded && negb trusted_proxy then
    Err (Status_new CPermissionDenied "forwarded metadata requires Flight trusted-proxy mode")
  else if trusted_proxy && negb (bool_decide (get_str "x-forwarded-proto" m = Some "https")) then
    Err (Status_new CFailedPrecondition
           "trusted Flight proxy must report x-forwarded-proto: https")
  else Ok tt.

Definition with_principal_id (id : string) (p : AuthenticatedPrincipal) : AuthenticatedPrincipal :=
  {| principal_id := id; allowed_targets := allowed_targets p; max_sessions := max_sessions p;
     max_concurrent_queries := max_concurrent_queries p |}.

Definition require_client_certificate (config : FlightServerConfig) : bool :=
  match fl_tls config with
  | Some tls => match tls_client_ca tls with Some _ => true | None => false end
  | None => false
  end.

Section Interceptor.
(** [format!("{:x}", Sha256::digest(der))]. *)
Variable sha256_hex : string → string.
Context {Au : Type}.

Definition mtls_bound_principal_id (id certificate_der : string) : string :=
  id +:+ "@mtls:" +:+ sha256_hex certificate_der.

(** The interceptor of [serve_flight]: the principal it puts into the request.
    [peer_certs] are the verified certificates of the connection. *)
Definition interceptor (config : FlightServerConfig) (authenticator : Authenticator Au)
    (m : Metadata) (peer_certs : list string) (now : Z) : M Au Status AuthenticatedPrincipal :=
  _ ← of_result (enforce_proxy_policy m (fl_trusted_proxy config));
  credential ← of_result (bearer m);
  p ← on (λ a, a) (λ a _, a) authentication_status (authenticator credential now);
  if require_client_certificate config then
    certificate ← of_result (ok_or (head peer_certs)
      (Status_new CUnauthenticated "a verified client certificate is required"));
    mret (with_principal_id (mtls_bound_principal_id (principal_id p) certificate) p)
  else mret p.
End Interceptor.

(** [do_handshake]: the authorization metadata of the answer. *)
Definition do_handshake (m : Metadata) : result string Status :=
  let? credential := bearer m in
  ok_or (header_from_str ("Bearer " +:+ credential))
    (Status_new CInternal "could not encode authorization metadata").

(** ** Session options *)

Definition SET_SESSION_OPTIONS : string := "SetSessionOptions".
Definition GET_SESSION_OPTIONS : string := "GetSessionOptions".
Definition CLOSE_SESSION : string := "CloseSession".

Inductive SetSessionOptionErrorValue := Unspecified | InvalidName | InvalidValue | OptionError.
#[global] Instance SetSessionOptionErrorValue_eq_dec : EqDecision SetSessionOptionErrorValue.
Proof. solve_decision. Defined.

Section Options.
(** [f64], with [is_finite] and [to_string]. *)
Context {F64 : Type}.
Variable is_finite : F64 → bool.
Variable f64_text : F64 → string.
(** [serde_json::to_string]. *)
Variable json_text : Value → string.

Inductive OptionValue :=
| StringValue (s : string)
| BoolValue (b : bool)
| Int64Value (n : Z)
| DoubleValue (f : F64)
| StringListValue (l : list string).

Inductive ParsedSessionOption :=
| Unset
| ParsedValue (s : string).

Definition session_option_string (v : option OptionValue) : option ParsedSessionOption :=
  match v with
  | None => Some Unset
  | Some (StringValue s) => Some (ParsedValue s)
  | Some (BoolValue b) => Some (ParsedValue (if b then "true" else "false"))
  | Some (Int64Value n) => Some (ParsedValue (pretty n))
  | Some (DoubleValue f) => if is_finite f then Some (ParsedValue (f64_text f)) else None
  | Some (StringListValue l) => Some (ParsedValue (json_text (Array (VString <$> l))))
  end.

Definition session_property_name (option_ : string) : option string :=
  if one_of ["catalog"; "schema"; "timeout"] option_ then Some option_
  else name ← strip_prefix "engine." option_; if is_empty name then None else Some name.

Definition session_option_name (property : string) : string :=
  if one_of ["catalog"; "schema"; "timeout"] property then property
  else "engine." +:+ property.

Record ParsedSetSessionOptions := {
  po_target : option string;
  po_overrides : gmap string (option string);
  po_errors : gmap string SetSessionOptionErrorValue;
}.

Definition with_error (name : string) (e : SetSessionOptionErrorValue)
    (p : ParsedSetSessionOptions) : ParsedSetSessionOptions :=
  {| po_target := po_target p; po_overrides := po_overrides p;
     po_errors := <[name := e]> (po_errors p) |}.

(** One turn of the loop. *)
Definition parse_option (parsed : ParsedSetSessionOptions)
    (entry : string * option OptionValue) : ParsedSetSessionOptions :=
  let '(name, value) := entry in
  if one_of ["qcli.version"; "qcli.session_id"] name then with_error name InvalidName parsed
  else
    match session_option_string value with
    | None => with_error name InvalidValue parsed
    | Some value =>
        if String.eqb name "qcli.target" then
          match value with
          | ParsedValue v =>
              if is_empty v then with_error name InvalidValue parsed
              else {| po_target := Some v; po_overrides := po_overrides parsed;
                      po_errors := po_errors parsed |}
          | Unset => with_error name InvalidValue parsed
          end
        else
          match session_property_name name with
          | Some property =>
              {| po_target := po_target parsed;
                 po_overrides :=
                   <[property := match value with Unset => None | ParsedValue v => Some v end]>
                     (po_overrides parsed);
                 po_errors := po_errors parsed |}
          | None => with_error name InvalidName parsed
          end
    end.

(** The options in the order the [HashMap] yields them. *)
Definition parse_set_session_options (options : list (string * option OptionValue)) :
    ParsedSetSessionOptions :=
  foldl parse_option {| po_target := None; po_overrides := ∅; po_errors := ∅ |} options.

Definition i64_max : Z := 2 ^ 63 - 1.
(** [i64::try_from(n).unwrap_or(i64::MAX)]. *)
Definition i64_clamp (n : Z) : Z := if n <=? i64_max then n else i64_max.

Definition string_session_option (v : string) : OptionValue := StringValue v.
Definition int_session_option (n : Z) : OptionValue := Int64Value (i64_clamp n).

(** The options [get_session_options] reports. *)
Definition reported_options (target id : string) (version : Z) (overrides : gmap string string) :
    gmap string OptionValue :=
  map_fold (λ name value m, <[session_option_name name := string_session_option value]> m)
    (<["qcli.version" := int_session_option version]>
       (<["qcli.session_id" := string_session_option id]>
          {["qcli.target" := string_session_option target]})) overrides.
End Options.

(** ** SQL information *)

Inductive SqlInfo :=
| FlightSqlServerName | FlightSqlServerVersion | FlightSqlServerArrowVersion
| FlightSqlServerReadOnly | FlightSqlServerSql | FlightSqlServerSubstrait
| FlightSqlServerTransaction | FlightSqlServerCancel | FlightSqlServerBulkIngestion
| SqlIdentifierCase | SqlIdentifierQuoteChar | SqlQuotedIdentifierCase.

Inductive SqlInfoValue :=
| InfoString (s : string)
| InfoBool (b : bool)
| InfoInt (n : Z).

Inductive SqlSupportedCaseSensitivity :=
| SqlCaseSensitivityUnknown
| SqlCaseSensitivityCaseInsensitive
| SqlCaseSensitivityUppercase
| SqlCaseSensitivityLowercase.

Definition sql_identifier_case (c : IdentifierCase) : SqlSupportedCaseSensitivity :=
  match c with
  | Insensitive => SqlCaseSensitivityCaseInsensitive
  | Upper => SqlCaseSensitivityUppercase
  | Lower => SqlCaseSensitivityLowercase
  | Mixed => SqlCaseSensitivityUnknown
  end.
(** The protocol's numbers. *)
Definition case_number (c : SqlSupportedCaseSensitivity) : Z :=
  match c with
  | SqlCaseSensitivityUnknown => 0
  | SqlCaseSensitivityCaseInsensitive => 1
  | SqlCaseSensitivityUppercase => 2
  | SqlCaseSensitivityLowercase => 3
  end.

Definition sql_info_data (cancel bulk_ingestion : bool) (identifiers : IdentifierCapabilities) :
    list (SqlInfo * SqlInfoValue) :=
  [(FlightSqlServerName, InfoString "qcli"); (FlightSqlServerVersion, InfoString "0.1.0");
   (FlightSqlServerArrowVersion, InfoString "1.3"); (FlightSqlServerReadOnly, InfoBool false);
   (FlightSqlServerSql, InfoBool true); (FlightSqlServerSubstrait, InfoBool false);
   (FlightSqlServerTransaction, InfoInt 0); (FlightSqlServerCancel, InfoBool cancel);
   (FlightSqlServerBulkIngestion, InfoBool bulk_ingestion);
   (SqlIdentifierCase, InfoInt (case_number (sql_identifier_case (unquoted identifiers))));
   (SqlIdentifierQuoteChar, InfoString (quote identifiers));
   (SqlQuotedIdentifierCase, InfoInt (case_number (sql_identifier_case (quoted identifiers))))].

Inductive XdbcDataType :=
| XdbcBit | XdbcInteger | XdbcBigint | XdbcDouble | XdbcDecimal | XdbcVarchar | XdbcVarbinary
| XdbcDate | XdbcTimestamp.

(** A row of the type information: name, type, size, case sensitivity, radix;
    the other columns are the same in every row but for [fixed_prec_scale], true
    of decimals. *)
Definition xdbc_type_info : list (string * XdbcDataType * option Z * bool * option Z) :=
  [("BOOLEAN", XdbcBit, Some 1, false, None);
   ("INTEGER", XdbcInteger, Some 32, false, Some 2);
   ("BIGINT", XdbcBigint, Some 64, false, Some 2);
   ("DOUBLE", XdbcDouble, Some 53, false, Some 2);
   ("DECIMAL", XdbcDecimal, Some 38, false, Some 10);
   ("VARCHAR", XdbcVarchar, None, true, None);
   ("VARBINARY", XdbcVarbinary, None, false, None);
   ("DATE", XdbcDate, Some 10, false, None);
   ("TIMESTAMP", XdbcTimestamp, Some 29, false, None)].
