(* ===== verification/Flight.v ===== *)
(** * The Flight SQL gateway (crates/qcli-flight-sql/src/lib.rs)

    The handlers of [QcliFlightSql] over the operations of the service.  A
    request is its metadata and the principal the interceptor put into it; the
    protobuf messages arrive decoded, except where a handler decodes one itself.
    [c k] is what the [k]-th call of a handler to the gateway reads from its
    surroundings; a handler that waits is interleaved with the rest of the node
    through [Waiting]. *)
From S2P Require Import Prelude Text Arrow DriverApi Auth Config Core Cluster Metadata.
From S2P Require Import ServiceData Results Service ServiceCluster Headers ArrowTypes Chars.
From S2P Require Import FlightTypes FlightPolicy.
From Stdlib Require Import Ascii.
Import Core.Sessions Core.Queries.

Record FlightRequest := {
  fr_metadata : FlightTypes.Metadata;
  fr_principal : option AuthenticatedPrincipal;
}.

Definition required_principal (r : FlightRequest) : result AuthenticatedPrincipal Status :=
  ok_or (fr_principal r) (Status_new CUnauthenticated "authenticated principal is missing").

(** [request.metadata().get("qcli-target")], when not empty. *)
Definition metadata_target (r : FlightRequest) : option string :=
  value ← get_str "qcli-target" (fr_metadata r); if is_empty value then None else Some value.
Definition target_required (r : FlightRequest) : result string Status :=
  ok_or (metadata_target r)
    (Status_new CInvalidArgument "qcli-target metadata or a Flight session cookie is required").

Definition prepared_handle (value : string) : result string Status :=
  if negb (utf8 value) || is_empty value
  then Err (Status_new CInvalidArgument "prepared statement handle is invalid")
  else Ok value.

(** [now_unix()]. *)
Definition now_unix (ca : ClusterCall) : Z := Z.max 0 (ca_utc ca) / nanos_per_second.

(** A response and the [set-cookie] metadata it carries. *)
Record FlightResponse (A : Type) := { fl_body : A; fl_cookie : option string }.
Arguments fl_body {A}.
Arguments fl_cookie {A}.
Arguments Build_FlightResponse {A}.
Definition FlightResponse_new {A} (a : A) : FlightResponse A :=
  {| fl_body := a; fl_cookie := None |}.

Record FlightInfo := {
  fi_schema : string;
  fi_tickets : list (option string);
  fi_total_records : Z;
  fi_total_bytes : Z;
  fi_ordered : bool;
  fi_app_metadata : option Value;
}.

(** [CommandStatementIngest]; [si_definition] holds the numbers of
    [if_not_exist] and [if_exists]. *)
Record StatementIngest := {
  si_transaction_id : option string;
  si_definition : option (Z * Z);
  si_temporary : bool;
  si_catalog : option string;
  si_schema : option string;
  si_table : string;
  si_options : gmap string string;
}.

Definition create_option (n : Z) : result bool Status :=
  if n =? 1 then Ok true
  else if n =? 2 then Ok false
  else if n =? 0 then
    Err (Status_new CInvalidArgument "table-not-exist option must be CREATE or FAIL")
  else Err (Status_new CInvalidArgument "invalid table-not-exist option").

Definition exists_option (n : Z) : result IngestTableExists Status :=
  if n =? 1 then Ok Fail
  else if n =? 2 then Ok Append
  else if n =? 3 then Ok Replace
  else if n =? 0 then
    Err (Status_new CInvalidArgument "table-exists option must be FAIL, APPEND, or REPLACE")
  else Err (Status_new CInvalidArgument "invalid table-exists option").

(** The rows a metadata answer is built from. *)
Inductive MetadataRows :=
| CatalogRows (names : list string)
| SchemaRows (rows : list (string * string))
| TableRows (rows : list (string * string * string * string * option string))
| TableTypeRows (types : list string)
| TypeInfoRows
| EmptyRows (schema : ArrowSchema)
| InfoRows (info : list (SqlInfo * SqlInfoValue)).

Section Flight.
Context `{ipc : ArrowIpc}.
Context {St : Type} `{!ClusterStateStore St}.
Context {Ob : Type} `{!ResultObjectStore Bytes Ob}.
Context `{!Serde SharedSession} `{!Serde SharedQuery} `{!Serde SharedPrepared}.
(** The parameters of the tokens and of the options. *)
Variable b64_encode : string → string.
Variable b64_decode : string → option string.
Variable hmac : string → string → string.
Variable json_text : Value → string.
Variable json_parse : string → option Value.
Context {F64 : Type}.
Variable is_finite : F64 → bool.
Variable f64_text : F64 → string.
(** [DefaultHasher] on the properties of a metadata request. *)
Variable hash_properties : gmap string string → Z.
(** The hash of a principal in the keys of shared objects. *)
Variable hash_hex : string → string.
(** The IPC message of a schema: of a result, and of a table. *)
Variable schema_message : Schema → result string string.
Variable table_schema_message : ArrowSchema → result string string.
(** The bytes of a statement ticket ([as_any().encode_to_vec()]), and what bytes
    decode to: nothing, a message of another type, or a statement handle. *)
Variable ticket_bytes : string → string.
Variable ticket_message : string → option (option string).

Abbreviation Node := (Node (St:=St) (Ob:=Ob)).
Abbreviation Handler := (M Node Status).
Abbreviation OptionValue := (OptionValue (F64:=F64)).
Abbreviation sign_ticket := (issue_partition b64_encode hmac json_text).
Abbreviation read_ticket := (verify_ticket b64_decode hmac json_parse).
Abbreviation sign_session := (issue_session b64_encode hmac json_text).
Abbreviation read_session := (verify_session b64_decode hmac json_parse).

(** [gateway.f(..).await.map_err(service_error_status)?]. *)
Definition gateway {A} (m : M Node ServiceError A) : Handler A :=
  on (λ n, n) (λ n _, n) service_error_status m.
(** The same, with the error at hand. *)
Definition gateway_result {A} (m : M Node ServiceError A) : Handler (result A ServiceError) :=
  λ n, let '(r, n') := m n in (Ok r, n').
(** [gateway.metadata().f(..).await.map_err(driver_status)?]. *)
Definition discovery {A} (m : M MetadataService DriverError A) : Handler A :=
  on (λ n, st_metadata (nd_service n))
     (λ s n, with_service (Service.with_metadata (λ _, s) (nd_service n)) n) driver_status m.

Section Handlers.
Context (svc : QcliFlightSql).

(** ** Sessions *)

Definition session_from_request (r : FlightRequest) (p : AuthenticatedPrincipal)
    (ca : ClusterCall) : Handler (option SessionTokenPayload) :=
  match cookie (fr_metadata r) SESSION_COOKIE with
  | None => mret None
  | Some token =>
      payload ← of_result (read_session (fs_sessions svc) token (principal_id p) (now_unix ca));
      snapshot ← gateway (session_clustered p (sp_session payload) ca);
      _ ← reject_if (negb (snap_version snapshot =? sp_session_version payload))
            (Status_new CAborted "Flight session token has a stale session version");
      mret (Some payload)
  end.

Definition set_session_cookie {A} (response : FlightResponse A) (p : AuthenticatedPrincipal)
    (snapshot : SessionSnapshot) (ca : ClusterCall) : result (FlightResponse A) Status :=
  let token := sign_session (fs_sessions svc) (principal_id p) (snap_id snapshot)
                 (snap_version snapshot) (fs_session_ttl svc) (now_unix ca) in
  let? value := ok_or (header_from_str (session_cookie token))
    (Status_new CInternal "could not encode Flight session cookie") in
  Ok {| fl_body := fl_body response; fl_cookie := Some value |}.

(** [body]: the options of the request in the order the map yields them, or
    [None] when the message is malformed. *)
Definition set_session_options (r : FlightRequest) (body : option (list (string * option OptionValue)))
    (c : nat → ClusterCall) :
    Handler (FlightResponse (gmap string SetSessionOptionErrorValue)) :=
  p ← of_result (required_principal r);
  current ← session_from_request r p (c 0%nat);
  options ← of_result (ok_or body
    (Status_new CInvalidArgument "SetSessionOptions body is malformed"));
  let parsed := parse_set_session_options is_finite f64_text json_text options in
  snapshot ←
    match current with
    | Some current =>
        gateway (mutate_session_clustered p (sp_session current) (sp_session_version current)
                   (po_target parsed) (po_overrides parsed) (c 1%nat))
    | None =>
        target ← of_result (ok_or (from_option Some (metadata_target r) (po_target parsed))
          (Status_new CInvalidArgument
             "qcli.target option or qcli-target metadata is required when creating a Flight session"));
        gateway (create_session_clustered p target (omap (λ v, v) (po_overrides parsed)) (c 1%nat))
    end;
  of_result (set_session_cookie (FlightResponse_new (po_errors parsed)) p snapshot (c 2%nat)).

Definition session_cookie_required : Status :=
  Status_new CNotFound "Flight session cookie is required".

Definition get_session_options (r : FlightRequest) (body_ok : bool) (c : nat → ClusterCall) :
    Handler (FlightResponse (gmap string OptionValue)) :=
  _ ← reject_if (negb body_ok)
        (Status_new CInvalidArgument "GetSessionOptions body is malformed");
  p ← of_result (required_principal r);
  current ← session_from_request r p (c 0%nat);
  current ← of_result (ok_or current session_cookie_required);
  snapshot ← gateway (session_clustered p (sp_session current) (c 1%nat));
  let options := reported_options (snap_target snapshot) (snap_id snapshot)
                   (snap_version snapshot) (snap_overrides snapshot) in
  of_result (set_session_cookie (FlightResponse_new options) p snapshot (c 2%nat)).

(** [CloseSessionStatus::Closed]. *)
Definition CLOSED : Z := 1.

Definition flight_close_session (r : FlightRequest) (body_ok : bool) (c : nat → ClusterCall) :
    Handler (FlightResponse Z) :=
  _ ← reject_if (negb body_ok) (Status_new CInvalidArgument "CloseSession body is malformed");
  p ← of_result (required_principal r);
  current ← session_from_request r p (c 0%nat);
  current ← of_result (ok_or current session_cookie_required);
  _ ← gateway (close_session_clustered p (sp_session current) (c 1%nat));
  mret {| fl_body := CLOSED; fl_cookie := Some removed_cookie |}.

Inductive ActionReply :=
| OptionErrors (response : FlightResponse (gmap string SetSessionOptionErrorValue))
| SessionOptions (response : FlightResponse (gmap string OptionValue))
| SessionClosed (response : FlightResponse Z).

(** [do_action_fallback]; [options] and [empty_ok] are the two ways the body is
    decoded. *)
Definition do_action_fallback (r : FlightRequest) (type : string)
    (options : option (list (string * option OptionValue))) (empty_ok : bool)
    (c : nat → ClusterCall) : Handler ActionReply :=
  if String.eqb type SET_SESSION_OPTIONS then
    a ← set_session_options r options c; mret (OptionErrors a)
  else if String.eqb type GET_SESSION_OPTIONS then
    a ← get_session_options r empty_ok c; mret (SessionOptions a)
  else if String.eqb type CLOSE_SESSION then
    a ← flight_close_session r empty_ok c; mret (SessionClosed a)
  else
    fail (Status_new CInvalidArgument ("unsupported Flight action '" +:+ type +:+ "'")).

(** ** Metadata *)

(** [metadata_flight_info] and [get_flight_info_sql_info]: where the rows of a
    metadata command are; the command itself is the ticket. *)
Definition metadata_flight_info (command : string) (schema : result string string)
    (ordered : bool) : result FlightInfo Status :=
  let? message := map_err (Status_new CInternal) schema in
  Ok {| fi_schema := message; fi_tickets := [Some command]; fi_total_records := -1;
        fi_total_bytes := -1; fi_ordered := ordered; fi_app_metadata := None |}.
Definition get_flight_info_sql_info (command : string) (schema : result string string) :
    result FlightInfo Status := metadata_flight_info command schema false.

(** The other metadata commands: the schema is that of the command's builder in
    arrow-flight, or one of the two key schemas, as an IPC message. *)
Definition get_flight_info_catalogs (command : string) (schema : result string string) :
    result FlightInfo Status := metadata_flight_info command schema true.
Definition get_flight_info_schemas (command : string) (schema : result string string) :
    result FlightInfo Status := metadata_flight_info command schema true.
Definition get_flight_info_tables (command : string) (schema : result string string) :
    result FlightInfo Status := metadata_flight_info command schema true.
Definition get_flight_info_table_types (command : string) (schema : result string string) :
    result FlightInfo Status := metadata_flight_info command schema true.
Definition get_flight_info_xdbc_type_info (command : string) (schema : result string string) :
    result FlightInfo Status := metadata_flight_info command schema true.
Definition get_flight_info_primary_keys (schema_message : ArrowSchema → result string string)
    (command : string) : result FlightInfo Status :=
  metadata_flight_info command (schema_message primary_key_schema) true.
Definition get_flight_info_exported_keys (schema_message : ArrowSchema → result string string)
    (command : string) : result FlightInfo Status :=
  metadata_flight_info command (schema_message foreign_key_schema) true.
Definition get_flight_info_imported_keys (schema_message : ArrowSchema → result string string)
    (command : string) : result FlightInfo Status :=
  metadata_flight_info command (schema_message foreign_key_schema) true.
Definition get_flight_info_cross_reference (schema_message : ArrowSchema → result string string)
    (command : string) : result FlightInfo Status :=
  metadata_flight_info command (schema_message foreign_key_schema) true.

Definition list_custom_actions : list (string * string) :=
  [(SET_SESSION_OPTIONS, "Set or create the current Flight session");
   (GET_SESSION_OPTIONS, "Get current Flight session options");
   (CLOSE_SESSION, "Close the current Flight session")].

Definition flight_metadata_request (r : FlightRequest) (p : AuthenticatedPrincipal)
    (catalog schema : option string) (c : nat → ClusterCall) : Handler MetadataRequest :=
  current ← session_from_request r p (c 0%nat);
  match current with
  | Some session =>
      gateway (locally (session_metadata_request p (sp_session session) catalog schema None
                          (ca_now (c 1%nat))))
  | None =>
      target ← of_result (target_required r);
      gateway (locally (target_metadata_request p target catalog schema None))
  end.

Definition invocation (ca : ClusterCall) : Invocation := am_invocation (ca_ambient ca).

Definition do_get_sql_info (r : FlightRequest) (c : nat → ClusterCall) : Handler MetadataRows :=
  p ← of_result (required_principal r);
  request ← flight_metadata_request r p None None c;
  o ← gets (λ n, md_capabilities (mr_engine request) (st_metadata (nd_service n)));
  caps ← of_result (ok_or o
    (Status_new CUnimplemented "adapter capabilities are unavailable"));
  ids ← gets (λ n, md_identifier_capabilities (mr_engine request) (st_metadata (nd_service n)));
  mret (InfoRows (sql_info_data (supports caps CancelQuery) (supports caps BulkIngest)
                    (default IdentifierCapabilities_default ids))).

Definition do_get_catalogs (r : FlightRequest) (c : nat → ClusterCall) : Handler MetadataRows :=
  p ← of_result (required_principal r);
  request ← flight_metadata_request r p None None c;
  l ← discovery (catalogs hash_properties request (invocation (c 2%nat)) (ca_now (c 3%nat)));
  mret (CatalogRows (cat_name <$> l)).

Definition do_get_schemas (r : FlightRequest) (catalog : option string) (c : nat → ClusterCall) :
    Handler MetadataRows :=
  p ← of_result (required_principal r);
  request ← flight_metadata_request r p catalog None c;
  l ← discovery (schemas hash_properties request (invocation (c 2%nat)) (ca_now (c 3%nat)));
  mret (SchemaRows ((λ s, (default EmptyString (sm_catalog s), sm_name s)) <$> l)).

Definition described (o : ObjectMetadata) (request : MetadataRequest) : MetadataRequest :=
  {| mr_identity := mr_identity request; mr_target := mr_target request;
     mr_engine := mr_engine request; mr_properties := mr_properties request;
     mr_catalog := om_catalog o; mr_schema := om_schema o; mr_pattern := mr_pattern request |}.

(** One row per object, with its schema when the command asks for schemas; the
    [k]-th object is described in the calls [2 k] and [2 k + 1]. *)
Fixpoint table_rows (include_schema : bool) (request : MetadataRequest) (k : nat)
    (objects : list ObjectMetadata) (c : nat → ClusterCall) :
    Handler (list (string * string * string * string * option string)) :=
  match objects with
  | [] => mret []
  | o :: rest =>
      schema ←
        (if include_schema then
           columns ← discovery (describe hash_properties (described o request) (om_name o)
                                  (invocation (c (2 * k)%nat)) (ca_now (c (2 * k + 1)%nat)));
           bytes ← of_result (map_err (Status_new CInternal)
             (table_schema_message (columns_schema (om_catalog o) (om_schema o) (om_name o)
                                      columns)));
           mret (Some bytes)
         else mret None);
      rows ← table_rows include_schema request (S k) rest c;
      mret ((default EmptyString (om_catalog o), default EmptyString (om_schema o), om_name o,
             table_type (om_kind o), schema) :: rows)
  end.

Definition do_get_tables (r : FlightRequest) (catalog : option string) (include_schema : bool)
    (c : nat → ClusterCall) : Handler MetadataRows :=
  p ← of_result (required_principal r);
  request ← flight_metadata_request r p catalog None c;
  l ← discovery (objects hash_properties request (invocation (c 2%nat)) (ca_now (c 3%nat)));
  rows ← table_rows include_schema request 2 l c;
  mret (TableRows rows).

(** The [BTreeSet] of the types, in order. *)
Definition table_types (l : list ObjectMetadata) : list string :=
  match filter (λ t, t ∈ (λ o, table_type (om_kind o)) <$> l) ["OTHER"; "TABLE"; "VIEW"] with
  | [] => ["TABLE"; "VIEW"]
  | types => types
  end.

Definition do_get_table_types (r : FlightRequest) (c : nat → ClusterCall) :
    Handler MetadataRows :=
  p ← of_result (required_principal r);
  request ← flight_metadata_request r p None None c;
  l ← discovery (objects hash_properties request (invocation (c 2%nat)) (ca_now (c 3%nat)));
  mret (TableTypeRows (table_types l)).

Definition do_get_xdbc_type_info (r : FlightRequest) (c : nat → ClusterCall) :
    Handler MetadataRows :=
  p ← of_result (required_principal r);
  _ ← flight_metadata_request r p None None c;
  mret TypeInfoRows.

(** [do_get_primary_keys], [do_get_exported_keys], [do_get_imported_keys] and
    [do_get_cross_reference]: no keys, after the access check. *)
Definition do_get_keys (schema : ArrowSchema) (r : FlightRequest)
    (catalog db_schema : option string) (c : nat → ClusterCall) : Handler MetadataRows :=
  p ← of_result (required_principal r);
  _ ← flight_metadata_request r p catalog db_schema c;
  mret (EmptyRows schema).
Definition do_get_primary_keys := do_get_keys primary_key_schema.
Definition do_get_exported_keys := do_get_keys foreign_key_schema.
Definition do_get_imported_keys := do_get_keys foreign_key_schema.
Definition do_get_cross_reference := do_get_keys foreign_key_schema.

(** ** Waiting *)

(** A wait of a handler: how often it looks before the server's request timeout
    drops it, the surroundings of each look, and what the rest of the node does
    during each sleep. *)
Record Waiting := {
  w_looks : nat;
  w_calls : nat → ClusterCall;
  w_elapsed : nat → Node → Node;
}.

(** The answer of the timeout layer. *)
Definition timed_out : Status := Status_new CCancelled "Timeout expired".

Definition still_running (e : ServiceError) : bool :=
  match se_kind e with
  | FailedPrecondition => String.eqb (se_code e) "query_running"
  | _ => false
  end.

Fixpoint schema_loop (w : Waiting) (p : AuthenticatedPrincipal) (query_id : string)
    (looks k : nat) : Handler QueryStatus :=
  match looks with
  | O => fail timed_out
  | S looks =>
      r ← gateway_result (locally (query_schema p query_id (ca_now (w_calls w k))));
      match r with
      | Ok _ => gateway (locally (query p query_id (ca_now (w_calls w k))))
      | Err e =>
          if still_running e then
            _ ← modify (w_elapsed w k);
            schema_loop w p query_id looks (S k)
          else fail (service_error_status e)
      end
  end.
Definition wait_for_schema (w : Waiting) (p : AuthenticatedPrincipal) (query_id : string) :
    Handler QueryStatus := schema_loop w p query_id (w_looks w) 0.

Fixpoint terminal_loop (w : Waiting) (p : AuthenticatedPrincipal) (query_id : string)
    (looks k : nat) : Handler QueryStatus :=
  match looks with
  | O => fail timed_out
  | S looks =>
      status ← gateway (query_clustered p query_id (ca_now (w_calls w k)) (ca_utc (w_calls w k)));
      if one_of ["completed"; "cancelled"; "failed"] (qs_state status) then mret status
      else
        _ ← modify (w_elapsed w k);
        terminal_loop w p query_id looks (S k)
  end.
Definition wait_for_terminal (w : Waiting) (p : AuthenticatedPrincipal) (query_id : string) :
    Handler QueryStatus := terminal_loop w p query_id (w_looks w) 0.

(** ** Statements *)

(** Totals are known of a completed query only. *)
Definition total (status : QueryStatus) (n : Z) : Z :=
  if String.eqb (qs_state status) "completed" then i64_clamp n else -1.

Definition status_metadata (status : QueryStatus) (partitions : option Z) : Value :=
  Object ([("qcli_query_id", VString (qs_id status));
           ("engine_query_id", opt_value VString (qs_engine_query_id status));
           ("target", VString (qs_target status))]
          ++ match partitions with Some n => [("result_partitions", Number n)] | None => [] end).

Definition requested_partitions (r : FlightRequest) : result Z Status :=
  let? n := match get_str "qcli-result-partitions" (fr_metadata r) with
            | None => Ok 1
            | Some value => ok_or (parse_u64 value)
                (Status_new CInvalidArgument "qcli-result-partitions must be an integer")
            end in
  if (1 <=? n) && (n <=? 16) then Ok n
  else Err (Status_new CInvalidArgument "qcli-result-partitions must be between 1 and 16").

(** The tickets of the endpoints; every one is signed at [now]. *)
Definition partition_tickets (p : AuthenticatedPrincipal) (query_id : string) (partitions now : Z) :
    list (option string) :=
  (λ i, Some (ticket_bytes (sign_ticket (fs_tickets svc) (principal_id p) query_id i partitions
                              (fs_ticket_ttl svc) now))) <$> seqZ 0 partitions.

Definition flight_info (status : QueryStatus) (schema : Schema) (tickets : list (option string))
    (ordered : bool) (partitions : option Z) : result FlightInfo Status :=
  let? message := map_err (Status_new CInternal) (schema_message schema) in
  Ok {| fi_schema := message; fi_tickets := tickets;
        fi_total_records := total status (qs_rows status);
        fi_total_bytes := total status (qs_retained_bytes status);
        fi_ordered := ordered; fi_app_metadata := Some (status_metadata status partitions) |}.

Definition get_flight_info_statement (r : FlightRequest) (sql : string) (c : nat → ClusterCall)
    (schema_wait terminal_wait : Waiting) : Handler (FlightResponse FlightInfo) :=
  p ← of_result (required_principal r);
  requested ← of_result (requested_partitions r);
  current ← session_from_request r p (c 0%nat);
  status ←
    match current with
    | Some session =>
        gateway (locally (submit_session_query p (sp_session session) sql (ca_ambient (c 1%nat))))
    | None =>
        target ← of_result (target_required r);
        gateway (submit_stateless_query_clustered p target ∅ sql (c 1%nat))
    end;
  status ← wait_for_schema schema_wait p (qs_id status);
  schema ← gateway (locally (query_schema p (qs_id status) (ca_now (c 2%nat))));
  progress ←
    (if 1 <? requested then
       status ← wait_for_terminal terminal_wait p (qs_id status);
       batches ← gateway (locally (result_batch_count p (qs_id status) (ca_now (c 3%nat))));
       mret (status, Z.min requested (Z.max batches 1))
     else mret (status, 1));
  let '(status, partitions) := progress in
  info ← of_result (flight_info status schema
           (partition_tickets p (qs_id status) partitions (now_unix (c 4%nat)))
           (partitions =? 1) (Some partitions));
  match current with
  | None => mret (FlightResponse_new info)
  | Some session =>
      snapshot ← gateway (locally (Service.session p (sp_session session) (ca_now (c 5%nat))));
      of_result (set_session_cookie (FlightResponse_new info) p snapshot (c 6%nat))
  end.

(** [query_flight_info], which is called without a session. *)
Definition query_flight_info (p : AuthenticatedPrincipal) (status : QueryStatus)
    (schema : Schema) (now : Z) : result FlightInfo Status :=
  flight_info status schema
    [Some (ticket_bytes (issue_ticket b64_encode hmac json_text (fs_tickets svc) (principal_id p)
                           (qs_id status) (fs_ticket_ttl svc) now))] true None.

(** What [do_get] streams: the batches of a reader. *)
Definition do_get_statement (r : FlightRequest) (statement_handle : string) (c : nat → ClusterCall)
    (w : Waiting) : Handler ResultBatchReader :=
  p ← of_result (required_principal r);
  payload ← of_result (read_ticket (fs_tickets svc) statement_handle (principal_id p)
                         (now_unix (c 0%nat)));
  _ ← wait_for_terminal w p (tp_query_id payload);
  if tp_partitions payload =? 1 then
    gateway (result_reader_clustered p (tp_query_id payload) (ca_now (c 1%nat))
               (ca_utc (c 1%nat)))
  else
    gateway (result_partition_reader_clustered p (tp_query_id payload) (tp_partition payload)
               (tp_partitions payload) (ca_now (c 1%nat)) (ca_utc (c 1%nat))).

(** The stream of [do_get_statement]: [try_unfold] over [next_result_batch] ends
    with the reader or with its first error; one call more than the source has
    items is enough. *)
Definition next_result_batch : M ResultBatchReader Status (option RecordBatch) :=
  on (λ r, r) (λ r _, r) service_error_status next_batch.
Fixpoint unfold_batches (fuel : nat) (rd : ResultBatchReader) : list RecordBatch * option Status :=
  match fuel with
  | O => ([], None)
  | S fuel =>
      match next_result_batch rd with
      | (Err e, _) => ([], Some e)
      | (Ok None, _) => ([], None)
      | (Ok (Some b), rd) => let '(bs, e) := unfold_batches fuel rd in (b :: bs, e)
      end
  end.
Definition result_stream (rd : ResultBatchReader) : list RecordBatch * option Status :=
  unfold_batches (S (source_length (rd_source rd))) rd.

Definition decode_statement_ticket (bytes : string) : result string Status :=
  let? message := ok_or (ticket_message bytes)
    (Status_new CInvalidArgument "query ticket is malformed") in
  ok_or message (Status_new CInvalidArgument "ticket is not a statement-query ticket").

(** [info]: the tickets of the endpoints of the [FlightInfo], or [None] when it
    does not decode. *)
Definition do_action_cancel_query (r : FlightRequest) (info : option (list (option string)))
    (c : nat → ClusterCall) : Handler Z :=
  p ← of_result (required_principal r);
  tickets ← of_result (ok_or info
    (Status_new CInvalidArgument "cancel request has invalid FlightInfo"));
  ticket ← of_result (ok_or (mjoin (head tickets))
    (Status_new CInvalidArgument "cancel request has no query ticket"));
  handle ← of_result (decode_statement_ticket ticket);
  payload ← of_result (read_ticket (fs_tickets svc) handle (principal_id p) (now_unix (c 0%nat)));
  _ ← gateway (locally (cancel p (tp_query_id payload) (ca_now (c 1%nat))));
  mret 2.

(** ** Prepared statements *)

Definition get_flight_info_prepared_statement (r : FlightRequest) (handle : string)
    (c : nat → ClusterCall) : Handler FlightInfo :=
  p ← of_result (required_principal r);
  handle ← of_result (prepared_handle handle);
  statement ← gateway (prepared_statement_clustered p handle (c 0%nat));
  status ← gateway (execute_prepared_statement_clustered p handle (c 1%nat));
  of_result (query_flight_info p status (ps_dataset_schema statement) (now_unix (c 2%nat))).

Definition do_get_prepared_statement (r : FlightRequest) (handle : string) (c : nat → ClusterCall)
    (w : Waiting) : Handler (Schema * ResultBatchReader) :=
  p ← of_result (required_principal r);
  handle ← of_result (prepared_handle handle);
  status ← gateway (execute_prepared_statement_clustered p handle (c 0%nat));
  _ ← wait_for_terminal w p (qs_id status);
  schema ← gateway (locally (query_schema p (qs_id status) (ca_now (c 1%nat))));
  reader ← gateway (locally (result_reader p (qs_id status) (ca_now (c 2%nat))));
  mret (schema, reader).

(** [batches]: the parameters of the stream, or its error. *)
Definition do_put_prepared_statement_query (r : FlightRequest) (handle : string)
    (batches : result (list RecordBatch) Status) (c : nat → ClusterCall) : Handler string :=
  p ← of_result (required_principal r);
  h ← of_result (prepared_handle handle);
  parameters ← of_result batches;
  _ ← gateway (bind_prepared_statement_clustered hash_hex p h parameters (c 0%nat));
  mret handle.

Definition do_put_prepared_statement_update (r : FlightRequest) (handle : string)
    (c : nat → ClusterCall) : Handler Z :=
  p ← of_result (required_principal r);
  handle ← of_result (prepared_handle handle);
  gateway (execute_prepared_update_clustered p handle (c 0%nat)).

Definition do_put_statement_update (r : FlightRequest) (sql : string) (c : nat → ClusterCall) :
    Handler Z :=
  p ← of_result (required_principal r);
  current ← session_from_request r p (c 0%nat);
  session ← of_result (ok_or current
    (Status_new CFailedPrecondition "statement updates require a session"));
  gateway (locally (execute_session_update p (sp_session session) sql (ca_ambient (c 1%nat)))).

Definition do_action_create_prepared_statement (r : FlightRequest) (transaction_id : option string)
    (sql : string) (c : nat → ClusterCall) : Handler (string * string * string) :=
  _ ← reject_if (match transaction_id with Some _ => true | None => false end)
        (Status_new CUnimplemented "transactions are not supported");
  p ← of_result (required_principal r);
  current ← session_from_request r p (c 0%nat);
  statement ←
    match current with
    | Some session =>
        gateway (create_prepared_statement_clustered p (sp_session session) sql (c 1%nat))
    | None =>
        target ← of_result (target_required r);
        gateway (locally (create_stateless_prepared_statement p target sql (ca_ambient (c 1%nat))))
    end;
  dataset ← of_result (map_err (Status_new CInternal)
              (schema_message (ps_dataset_schema statement)));
  parameters ← of_result (map_err (Status_new CInternal)
              (schema_message (ps_parameter_schema statement)));
  mret (ps_handle statement, dataset, parameters).

Definition do_action_close_prepared_statement (r : FlightRequest) (handle : string)
    (c : nat → ClusterCall) : Handler unit :=
  p ← of_result (required_principal r);
  handle ← of_result (prepared_handle handle);
  gateway (close_prepared_statement_clustered p handle (c 0%nat)).

(** ** Ingestion *)

Definition MAX_INGEST_ROWS : Z := 1000000.
Definition MAX_INGEST_BYTES : Z := 64 * 1024 * 1024.

(** The loop that feeds the ingestion task: the batches it sends, and the status
    it stops with, if any.  [alive k]: the task still takes the [k]-th batch. *)
Fixpoint feed (alive : nat → bool) (k : nat) (rows bytes : Z) (schema : option Schema)
    (items : list (result RecordBatch Status)) : list RecordBatch * option Status :=
  match items with
  | [] => ([], None)
  | Err e :: _ => ([], Some e)
  | Ok batch :: items =>
      if match schema with
         | Some expected => negb (bool_decide (expected = batch_schema batch))
         | None => false
         end
      then ([], Some (Status_new CInvalidArgument
                        "all ingestion batches must have the same Arrow schema"))
      else
        let rows := usize_saturating_add rows (num_rows batch) in
        let bytes := usize_saturating_add bytes (batch_bytes batch) in
        if (MAX_INGEST_ROWS <? rows) || (MAX_INGEST_BYTES <? bytes)
        then ([], Some (Status_new CResourceExhausted
                          "ingestion exceeds the 1,000,000-row or 64-MiB request limit"))
        else if negb (alive k) then ([], None)
        else
          let '(sent, stop) :=
            feed alive (S k) rows bytes
              (Some (match schema with Some s => s | None => batch_schema batch end)) items in
          (batch :: sent, stop)
  end.

Definition ingest_request (q : StatementIngest) (create : bool) (exists_ : IngestTableExists) :
    IngestRequest :=
  {| ig_session_id := EmptyString; ig_session_version := 0; ig_target := EmptyString;
     ig_engine := EmptyString; ig_properties := ∅; ig_catalog := si_catalog q;
     ig_schema := si_schema q; ig_table := si_table q; create_if_missing := create;
     if_exists := exists_; temporary := si_temporary q; ig_options := si_options q |}.

(** [if owns_session { self.gateway.close_session(..).ok(); }]. *)
Definition close_if (owned : bool) (p : AuthenticatedPrincipal) (session_id : string)
    (ca : ClusterCall) : Handler unit :=
  if owned then
    _ ← gateway_result (locally (close_session p session_id (ca_now ca))); mret tt
  else mret tt.

(** [panicked]: the message of the ingestion task's [JoinError], if it ends
    with a panic. *)
Definition do_put_statement_ingest (r : FlightRequest) (q : StatementIngest)
    (items : list (result RecordBatch Status)) (alive : nat → bool) (panicked : option string)
    (c : nat → ClusterCall) : Handler Z :=
  _ ← reject_if (match si_transaction_id q with Some _ => true | None => false end)
        (Status_new CUnimplemented "transactional ingestion is not supported");
  definition ← of_result (ok_or (si_definition q)
    (Status_new CInvalidArgument "ingestion table definition options are required"));
  create ← of_result (create_option definition.1);
  exists_ ← of_result (exists_option definition.2);
  p ← of_result (required_principal r);
  contextual ← session_from_request r p (c 0%nat);
  _ ← reject_if (si_temporary q && match contextual with None => true | Some _ => false end)
        (Status_new CFailedPrecondition "temporary ingestion requires a Flight session");
  session ←
    match contextual with
    | Some session => mret (sp_session session, false)
    | None =>
        target ← of_result (target_required r);
        session ← gateway (locally (create_session p target ∅ (ca_ambient (c 1%nat))));
        mret (snap_id session, true)
    end;
  let '(session_id, owns_session) := session in
  let '(sent, stop) := feed alive 0 0 0 None items in
  result_ ← gateway_result (locally (service_ingest p session_id (ingest_request q create exists_)
                                       sent (ca_ambient (c 2%nat))));
  match stop with
  | Some status =>
      _ ← close_if owns_session p session_id (c 3%nat);
      fail status
  | None =>
      match panicked with
      | Some error => fail (Status_new CInternal ("ingestion task failed: " +:+ error))
      | None =>
          _ ← close_if owns_session p session_id (c 3%nat);
          of_result (map_err service_error_status result_)
      end
  end.
End Handlers.
End Flight.
