(* ===== verification/FlightFacts.v ===== *)
(** * The Flight SQL gateway: who a call acts for

    On a standalone node whatever a call does is a sequence of the changes its
    principal is entitled to, and a call without a principal does nothing. *)
From S2P Require Import Prelude Text Arrow DriverApi Auth Config Core Cluster Metadata.
From S2P Require Import ServiceData Results Service ServiceSpec ServiceCluster NodeSteps.
From S2P Require Import Headers ArrowTypes Chars FlightTypes FlightPolicy Flight.
From Stdlib Require Import Ascii.
Import Core.Sessions Core.Queries.

Section FlightFacts.
Context `{ipc : ArrowIpc}.
Context {St : Type} `{!ClusterStateStore St}.
Context {Ob : Type} `{!ResultObjectStore Bytes Ob}.
Context `{!Serde SharedSession} `{!Serde SharedQuery} `{!Serde SharedPrepared}.
Variable b64_encode : string → string.
Variable b64_decode : string → option string.
Variable hmac : string → string → string.
Variable json_text : Value → string.
Variable json_parse : string → option Value.
Context {F64 : Type}.
Variable is_finite : F64 → bool.
Variable f64_text : F64 → string.
Variable hash_properties : gmap string string → Z.
Variable hash_hex : string → string.
Variable schema_message : Schema → result string string.
Variable table_schema_message : ArrowSchema → result string string.
Variable ticket_bytes : string → string.
Variable ticket_message : string → option (option string).

Abbreviation Node := (Node (St:=St) (Ob:=Ob)).
Abbreviation Handler := (M Node Status).
Abbreviation Waiting := (Waiting (St:=St) (Ob:=Ob)).

(** Every handler that reaches the service. *)
Inductive FlightCmd :=
| CmdAction (type : string) (options : option (list (string * option (OptionValue (F64:=F64)))))
    (empty_ok : bool)
| CmdSqlInfo
| CmdCatalogs
| CmdSchemas (catalog : option string)
| CmdTables (catalog : option string) (include_schema : bool)
| CmdTableTypes
| CmdTypeInfo
| CmdKeys (schema : ArrowSchema) (catalog db_schema : option string)
| CmdStatement (sql : string)
| CmdPrepared (handle : string)
| CmdFetch (handle : string)
| CmdFetchPrepared (handle : string)
| CmdBind (handle : string) (batches : result (list RecordBatch) Status)
| CmdPreparedUpdate (handle : string)
| CmdUpdate (sql : string)
| CmdIngest (q : StatementIngest) (items : list (result RecordBatch Status))
    (alive : nat → bool) (panicked : option string)
| CmdPrepare (transaction_id : option string) (sql : string)
| CmdClosePrepared (handle : string)
| CmdCancel (info : option (list (option string))).

(** The effect of a handler. *)
Definition effect {A} (m : Handler A) : Handler unit := _ ← m; mret tt.

Definition run_cmd (svc : QcliFlightSql) (r : FlightRequest) (cmd : FlightCmd)
    (c : nat → ClusterCall) (w1 w2 : Waiting) : Handler unit :=
  match cmd with
  | CmdAction type options ok =>
      effect (do_action_fallback b64_encode b64_decode hmac json_text json_parse is_finite
                f64_text svc r type options ok c)
  | CmdSqlInfo => effect (do_get_sql_info b64_decode hmac json_parse svc r c)
  | CmdCatalogs => effect (do_get_catalogs b64_decode hmac json_parse hash_properties svc r c)
  | CmdSchemas catalog =>
      effect (do_get_schemas b64_decode hmac json_parse hash_properties svc r catalog c)
  | CmdTables catalog inc =>
      effect (do_get_tables b64_decode hmac json_parse hash_properties table_schema_message svc r
                catalog inc c)
  | CmdTableTypes => effect (do_get_table_types b64_decode hmac json_parse hash_properties svc r c)
  | CmdTypeInfo => effect (do_get_xdbc_type_info b64_decode hmac json_parse svc r c)
  | CmdKeys schema catalog db =>
      effect (do_get_keys b64_decode hmac json_parse svc schema r catalog db c)
  | CmdStatement sql =>
      effect (get_flight_info_statement b64_encode b64_decode hmac json_text json_parse
                schema_message ticket_bytes svc r sql c w1 w2)
  | CmdPrepared h =>
      effect (get_flight_info_prepared_statement b64_encode hmac json_text schema_message
                ticket_bytes svc r h c)
  | CmdFetch h => effect (do_get_statement b64_decode hmac json_parse svc r h c w1)
  | CmdFetchPrepared h => effect (do_get_prepared_statement r h c w1)
  | CmdBind h batches => effect (do_put_prepared_statement_query hash_hex r h batches c)
  | CmdPreparedUpdate h => effect (do_put_prepared_statement_update r h c)
  | CmdUpdate sql => effect (do_put_statement_update b64_decode hmac json_parse svc r sql c)
  | CmdIngest q items alive panicked =>
      effect (do_put_statement_ingest b64_decode hmac json_parse svc r q items alive panicked c)
  | CmdPrepare txn sql =>
      effect (do_action_create_prepared_statement b64_decode hmac json_parse schema_message svc r
                txn sql c)
  | CmdClosePrepared h => effect (do_action_close_prepared_statement r h c)
  | CmdCancel info =>
      effect (do_action_cancel_query b64_decode hmac json_parse ticket_message svc r info c)
  end.

(** ** Handlers as steps *)

Section Steps.
Context (svc : QcliFlightSql) (p : AuthenticatedPrincipal) (ca : ClusterCall).
Context (doomed : gset string).
Abbreviation am := (ca_ambient ca).
Abbreviation stepwise := (alone (St:=St) (Ob:=Ob) am doomed (rtc (step p am doomed))).
Abbreviation evolving := (alone (St:=St) (Ob:=Ob) am doomed (evolution p am doomed)).

(** A wait during which nothing else happens. *)
Definition idle (looks : nat) : Waiting :=
  {| w_looks := looks; w_calls := λ _, ca; w_elapsed := λ _ n, n |}.

Lemma stepwise_reject b (e : Status) : stepwise (reject_if b e).
Proof. apply stepwise_quiet. intros n. by destruct b. Qed.
Lemma stepwise_fail {A} (e : Status) : stepwise (fail (A:=A) e).
Proof. by apply stepwise_quiet. Qed.
Lemma stepwise_gets {A} (f : Node → A) : stepwise (gets (E:=Status) f).
Proof. by apply stepwise_quiet. Qed.
Lemma alone_gateway {A} R (m : M Node ServiceError A) :
  alone am doomed R m → alone am doomed R (gateway m).
Proof. apply alone_on. Qed.
Lemma alone_result {A} R (m : M Node ServiceError A) :
  alone am doomed R m → alone am doomed R (gateway_result m).
Proof.
  intros Hm n Hc Hp. specialize (Hm n Hc Hp). unfold gateway_result. by destruct (m n) as [r n'].
Qed.

(** Discovery changes the cache of the metadata only. *)
Definition keeps_md {A} (m : M MetadataService DriverError A) : Prop :=
  ∀ s, md_adapters (m s).2 = md_adapters s.

Lemma discover_keeps {A} key (unwrap : CachedValue → option A) wrap fetch e now done :
  keeps_md (discover key unwrap wrap fetch e now done).
Proof.
  intros s. unfold discover, fetch_and_store, md_adapter, cached, cache_insert. unfold_M.
  repeat (case_match; simpl in *; simplify_eq); done.
Qed.

Lemma stepwise_discovery {A} (m : M MetadataService DriverError A) :
  keeps_md m → stepwise (discovery m).
Proof.
  intros Hm n Hc Hp. specialize (Hm (st_metadata (nd_service n))). unfold discovery, on.
  destruct (m _) as [r s]. split_and!; [done..|]. apply rtc_once. by apply step_discover.
Qed.

Lemma stepwise_session_from r : stepwise (session_from_request b64_decode hmac json_parse svc r p ca).
Proof.
  unfold session_from_request. destruct (cookie _ _); [|apply stepwise_ret].
  apply stepwise_bind; [apply stepwise_result|intros payload].
  apply stepwise_bind; [apply alone_gateway, stepwise_session|intros snap].
  apply stepwise_bind; [apply stepwise_reject|intros _; apply stepwise_ret].
Qed.

Lemma stepwise_metadata_request r cat sch :
  stepwise (flight_metadata_request b64_decode hmac json_parse svc r p cat sch (λ _, ca)).
Proof.
  apply stepwise_bind; [apply stepwise_session_from|]. intros [session|].
  - apply alone_gateway, stepwise_local, evolves_session_metadata.
  - apply stepwise_bind; [apply stepwise_result|intros target].
    apply alone_gateway, stepwise_local, evolves_target_metadata.
Qed.

Lemma stepwise_table_rows inc request l : ∀ k,
  stepwise (table_rows hash_properties table_schema_message inc request k l (λ _, ca)).
Proof.
  induction l as [|o l IH]; intros k; [apply stepwise_ret|]. cbn [table_rows].
  apply stepwise_bind.
  - destruct inc; [|apply stepwise_ret].
    apply stepwise_bind; [apply stepwise_discovery, discover_keeps|intros columns].
    apply stepwise_bind; [apply stepwise_result|intros; apply stepwise_ret].
  - intros schema. apply stepwise_bind; [apply IH|intros; apply stepwise_ret].
Qed.

Lemma stepwise_schema_loop id n : ∀ looks k, stepwise (schema_loop (idle n) p id looks k).
Proof.
  induction looks as [|looks IH]; intros k; [apply stepwise_fail|]. cbn [schema_loop].
  apply stepwise_bind.
  { apply alone_result, stepwise_local.
    apply evolves_bind; [apply evolves_owned|intros; apply evolves_of_result]. }
  intros [sch|e].
  - apply alone_gateway, stepwise_local, evolves_query.
  - destruct (still_running e); [|apply stepwise_fail].
    apply stepwise_bind; [by apply stepwise_quiet|intros _; apply IH].
Qed.

Lemma stepwise_terminal_loop id n : ∀ looks k, stepwise (terminal_loop (idle n) p id looks k).
Proof.
  induction looks as [|looks IH]; intros k; [apply stepwise_fail|]. cbn [terminal_loop].
  apply stepwise_bind; [apply alone_gateway, stepwise_query|]. intros status.
  destruct (one_of _ _); [apply stepwise_ret|].
  apply stepwise_bind; [by apply stepwise_quiet|intros _; apply IH].
Qed.

Lemma evolves_schema id : evolves p am doomed (query_schema p id (am_now am)).
Proof. apply evolves_bind; [apply evolves_owned|intros; apply evolves_of_result]. Qed.

Lemma stepwise_close_if owned id : stepwise (close_if owned p id ca).
Proof.
  unfold close_if. destruct owned; [|apply stepwise_ret].
  apply stepwise_bind; [apply alone_result, stepwise_local, evolves_close|].
  intros; apply stepwise_ret.
Qed.

Lemma alone_principal {A} R r (f : AuthenticatedPrincipal → Handler A) :
  fr_principal r = Some p → alone am doomed R (f p) →
  alone am doomed R (mbind f (of_result (required_principal r))).
Proof. intros Hr Hf. unfold required_principal. rewrite Hr. exact Hf. Qed.

Ltac service_op :=
  first [ apply stepwise_session | apply stepwise_mutate | apply stepwise_create
        | apply stepwise_close | apply stepwise_query | apply stepwise_reader
        | apply stepwise_partition | apply stepwise_prepared | apply stepwise_create_prepared
        | apply stepwise_bind_prepared | apply stepwise_prepared_update
        | apply stepwise_close_prepared
        | apply stepwise_local; first
            [ apply evolves_schema | apply evolves_query | apply evolves_session
            | apply evolves_cancel | apply evolves_session_update | apply evolves_ingest
            | apply evolves_create | apply evolves_stateless_prepared
            | apply (evolves_read p am doomed _ (λ r fs, _)) ] ].
Ltac flight_step :=
  first [ apply stepwise_result | apply stepwise_ret | apply stepwise_fail | apply stepwise_reject
        | apply stepwise_gets | apply stepwise_session_from | apply stepwise_metadata_request
        | apply stepwise_close_if | apply stepwise_table_rows | apply stepwise_schema_loop
        | apply stepwise_terminal_loop
        | apply stepwise_discovery, discover_keeps
        | apply alone_gateway; service_op | apply alone_result; service_op
        | apply alone_principal; [done|]
        | apply stepwise_bind; [|intros ?] ].
Ltac flight_steps :=
  repeat first [ flight_step
               | match goal with |- alone _ _ _ (match ?x with _ => _ end) => destruct x end ].

Lemma evolving_effect {A} (m : Handler A) : evolving m → evolving (effect m).
Proof. intros Hm. by apply evolving_then. Qed.

Lemma stepwise_ingest r q items alive panicked :
  fr_principal r = Some p →
  stepwise (do_put_statement_ingest b64_decode hmac json_parse svc r q items alive panicked
              (λ _, ca)).
Proof. intros Hr. unfold do_put_statement_ingest. flight_steps. Qed.

Lemma evolving_statement r sql n1 n2 :
  fr_principal r = Some p →
  evolving (get_flight_info_statement b64_encode b64_decode hmac json_text json_parse
              schema_message ticket_bytes svc r sql (λ _, ca) (idle n1) (idle n2)).
Proof.
  intros Hr. unfold get_flight_info_statement. apply alone_principal; [done|].
  apply evolving_bind; [apply stepwise_result|intros requested].
  apply evolving_bind; [apply stepwise_session_from|intros current].
  apply evolving_steps.
  - destruct current as [session|].
    + apply alone_gateway, alone_locally. intros s Hs. by apply submits_submit_session.
    + apply evolving_bind; [apply stepwise_result|intros target].
      apply alone_gateway, evolving_submit_stateless.
  - intros status. unfold wait_for_schema, wait_for_terminal. flight_steps.
Qed.

(** Every call takes the service through changes its principal may make. *)
Lemma evolving_cmd r cmd n1 n2 :
  fr_principal r = Some p → evolving (run_cmd svc r cmd (λ _, ca) (idle n1) (idle n2)).
Proof.
  intros Hr. destruct cmd; apply evolving_effect.
  9: by apply evolving_statement.
  9: { unfold get_flight_info_prepared_statement. apply alone_principal; [done|].
       do 2 (apply evolving_bind; [flight_step|intros ?]).
       apply evolving_steps; [|intros; flight_step].
       apply alone_gateway, evolving_execute_prepared. }
  10: { unfold do_get_prepared_statement, wait_for_terminal. apply alone_principal; [done|].
        apply evolving_bind; [flight_step|intros ?].
        apply evolving_steps; [|intros; flight_steps].
        apply alone_gateway, evolving_execute_prepared. }
  all: apply stepwise_evolving.
  13: by apply stepwise_ingest.
  all: unfold do_action_fallback, set_session_options, get_session_options, flight_close_session,
    do_get_sql_info, do_get_catalogs, do_get_schemas, do_get_tables, do_get_table_types,
    do_get_xdbc_type_info, do_get_keys, do_get_statement, wait_for_terminal,
    do_put_prepared_statement_query, do_put_prepared_statement_update, do_put_statement_update,
    do_action_create_prepared_statement, do_action_close_prepared_statement,
    do_action_cancel_query; flight_steps.
Qed.
End Steps.

(** Without a principal a handler stops before it reaches the service. *)
Lemma no_principal_quiet svc r cmd c w1 w2 (n : Node) :
  fr_principal r = None → (run_cmd svc r cmd c w1 w2 n).2 = n.
Proof.
  intros Hr.
  assert (∀ A (f : _ → Handler A), (mbind f (of_result (required_principal r)) n).2 = n) as Hreq
    by (intros; unfold required_principal; by rewrite Hr).
  assert (∀ A b e (m : Handler A), (m n).2 = n → (mbind (λ _, m) (reject_if b e) n).2 = n)
    as Hrej by (intros A b e m Hm; by destruct b).
  assert (∀ A B x (f : B → Handler A), (∀ b, (f b n).2 = n) → (mbind f (of_result x) n).2 = n)
    as Hres by (intros A B [b|e] f Hf; [apply Hf|done]).
  assert (∀ A B (m : Handler A) (f : A → Handler B), (m n).2 = n →
    (∀ a, (f a n).2 = n) → (mbind f m n).2 = n) as Hbind.
  { intros A B m f Hm Hf. unfold mbind, M_bind. destruct (m n) as [[a|e] n1]; simpl in *; subst;
      [apply Hf|done]. }
  destruct cmd; cbn [run_cmd]; (apply Hbind; [|done]);
    unfold do_action_fallback, set_session_options, get_session_options, flight_close_session;
    try (repeat case_match); repeat first [apply Hreq | apply Hrej | apply Hres; intros ? | done
      | apply Hbind; [|done] ].
Qed.

End FlightFacts.
