(* ===== verification/FlightResults.v ===== *)
(** * Results over Flight SQL

    A wait ends with the first terminal status it sees, and the endpoints of a
    [FlightInfo], followed one after the other, return the whole result. *)
From S2P Require Import Prelude Text Arrow DriverApi Auth Config Core Cluster Metadata.
From S2P Require Import ServiceData Results ResultsFacts Service ServiceSpec ServiceCluster.
From S2P Require Import NodeSteps Chars Headers ArrowTypes FlightTypes FlightTypeFacts.
From S2P Require Import FlightTokenFacts FlightPolicy Flight.
From Stdlib Require Import Ascii.
Import Core.Sessions Core.Queries.

Section FlightResults.
Context `{ipc : ArrowIpc}.
Context {St : Type} `{!ClusterStateStore St}.
Context {Ob : Type} `{!ResultObjectStore Bytes Ob}.
Context `{!Serde SharedSession} `{!Serde SharedQuery} `{!Serde SharedPrepared}.

Abbreviation Node := (Node (St:=St) (Ob:=Ob)).
Abbreviation Handler := (M Node Status).
Abbreviation Waiting := (Waiting (St:=St) (Ob:=Ob)).

(** ** Waiting *)

(** The [k]-th look at a query. *)
Definition look (w : Waiting) (p : AuthenticatedPrincipal) (query_id : string) (k : nat) :
    Handler QueryStatus :=
  gateway (query_clustered p query_id (ca_now (w_calls w k)) (ca_utc (w_calls w k))).

Definition terminal (s : QueryStatus) : bool :=
  one_of ["completed"; "cancelled"; "failed"] (qs_state s).

(** The node before the look [k + j], when [n] is the node before look [k]. *)
Fixpoint after_looks (w : Waiting) (p : AuthenticatedPrincipal) (query_id : string)
    (k j : nat) (n : Node) : Node :=
  match j with
  | O => n
  | S j => after_looks w p query_id (S k) j (w_elapsed w k (look w p query_id k n).2)
  end.

Lemma terminal_loop_ends w p id status : ∀ j looks k (n : Node),
  (j < looks)%nat →
  (∀ i, (i < j)%nat → ∃ s, (look w p id (k + i) (after_looks w p id k i n)).1 = Ok s ∧
                           terminal s = false) →
  (look w p id (k + j) (after_looks w p id k j n)).1 = Ok status → terminal status = true →
  (terminal_loop w p id looks k n).1 = Ok status.
Proof.
  induction j as [|j IH]; intros looks k n Hj Hrun Hlook Hterm;
    (destruct looks as [|looks]; [lia|]); cbn [terminal_loop].
  - rewrite Nat.add_0_r in Hlook. cbn [after_looks] in Hlook.
    unfold mbind, M_bind. fold (look w p id k). destruct (look w p id k n) as [r n1].
    simpl in Hlook. subst r. unfold terminal in Hterm. by rewrite Hterm.
  - destruct (Hrun 0%nat ltac:(lia)) as (s & Hs & Hnot). rewrite Nat.add_0_r in Hs.
    cbn [after_looks] in Hs, Hlook. unfold mbind, M_bind. fold (look w p id k).
    destruct (look w p id k n) as [r n1] eqn:El. simpl in Hs. subst r.
    unfold terminal in Hnot. rewrite Hnot. unfold modify. cbn.
    apply IH; [lia| |by rewrite <- Nat.add_succ_comm in Hlook|done].
    intros i Hi. destruct (Hrun (S i) ltac:(lia)) as (s' & Hs' & Hn').
    exists s'. split; [|done]. rewrite <- Nat.add_succ_comm in Hs'. cbn [after_looks] in Hs'.
    by rewrite El in Hs'.
Qed.

Lemma terminal_loop_times_out w p id : ∀ looks k (n : Node),
  (∀ i, (i < looks)%nat → ∃ s, (look w p id (k + i) (after_looks w p id k i n)).1 = Ok s ∧
                               terminal s = false) →
  (terminal_loop w p id looks k n).1 = Err timed_out.
Proof.
  induction looks as [|looks IH]; intros k n Hrun; [done|]. cbn [terminal_loop].
  destruct (Hrun 0%nat ltac:(lia)) as (s & Hs & Hnot). rewrite Nat.add_0_r in Hs.
  cbn [after_looks] in Hs. unfold mbind, M_bind. fold (look w p id k).
  destruct (look w p id k n) as [r n1] eqn:El. simpl in Hs. subst r.
  unfold terminal in Hnot. rewrite Hnot. unfold modify. cbn.
  apply IH. intros i Hi. destruct (Hrun (S i) ltac:(lia)) as (s' & Hs' & Hn').
  exists s'. split; [|done]. rewrite <- Nat.add_succ_comm in Hs'. cbn [after_looks] in Hs'.
  by rewrite El in Hs'.
Qed.

(** A wait ends.  However the rest of the node goes on between the looks, a
    call that waits for a query returns the first terminal status it sees, when
    one appears before the request times out, and times out otherwise; it never
    returns a status that is not terminal. *)
Theorem waits_end_with_the_query w p id (n : Node) :
  (∀ j status, (j < w_looks w)%nat →
     (∀ i, (i < j)%nat → ∃ s, (look w p id i (after_looks w p id 0 i n)).1 = Ok s ∧
                              terminal s = false) →
     (look w p id j (after_looks w p id 0 j n)).1 = Ok status → terminal status = true →
     (wait_for_terminal w p id n).1 = Ok status) ∧
  ((∀ i, (i < w_looks w)%nat → ∃ s, (look w p id i (after_looks w p id 0 i n)).1 = Ok s ∧
                                   terminal s = false) →
     (wait_for_terminal w p id n).1 = Err timed_out) ∧
  (∀ status, (wait_for_terminal w p id n).1 = Ok status → terminal status = true).
Proof.
  split_and!.
  - intros j status Hj Hrun Hl Ht. by apply (terminal_loop_ends w p id status j _ 0 n).
  - intros Hrun. by apply terminal_loop_times_out.
  - unfold wait_for_terminal. generalize (w_looks w), 0%nat, n.
    induction n0 as [|looks IH]; intros k n1 status; cbn [terminal_loop]; [done|].
    unfold mbind, M_bind. destruct (gateway _ n1) as [[s|e] n2]; [|done].
    destruct (one_of _ _) eqn:E; [by intros [= <-]|]. apply IH.
Qed.

(** ** Endpoints *)

Section Endpoints.
Variable b64_encode : string → string.
Variable b64_decode : string → option string.
Variable hmac : string → string → string.
Variable json_text : Value → string.
Variable json_parse : string → option Value.
Hypothesis b64_roundtrip : ∀ s, b64_decode (b64_encode s) = Some s.
Hypothesis b64_alphabet : ∀ s, string_forallb url_char (b64_encode s) = true.
Hypothesis json_roundtrip : ∀ fields, Forall (λ e, flat_value e.2) fields →
  json_parse (json_text (Object fields)) = Some (Object fields).

Context (svc : QcliFlightSql) (p : AuthenticatedPrincipal) (query_id : string).
Context (record : QueryRecord) (d : QueryData) (limits : ServiceLimits) (bs : list RecordBatch).
Context (n : Node) (c : nat → ClusterCall) (w : Waiting).

(** A completed query of [p] with the batches [bs], on a node where nothing
    expires while the client fetches. *)
Record fetchable : Prop := {
  fe_record : records (nd_service n) !! query_id = Some record;
  fe_owner : qr_owner record = principal_id p;
  fe_data : qr_data record = set_state_name "completed" d;
  fe_kept : retains limits (d, disk (nd_service n)) bs;
  fe_finished : match qd_storage d with Spill _ (Some _) => False | _ => True end;
  fe_idle : ∀ now, now = ca_now (w_calls w 0%nat) ∨ now = ca_now (c 1%nat) →
    cleanup_expired now (nd_service n) = (Ok tt, nd_service n);
  fe_looks : (0 < w_looks w)%nat;
}.

Lemma owned_idle now :
  fetchable → now = ca_now (w_calls w 0%nat) ∨ now = ca_now (c 1%nat) →
  owned_record p query_id now (nd_service n) = (Ok record, nd_service n).
Proof. intros [Hr Ho _ _ _ Hidle _] Hnow. apply owned_record_idle; auto. Qed.

Lemma wait_fetchable : fetchable → ∃ s, wait_for_terminal w p query_id n = (Ok s, n).
Proof.
  intros Hf. assert (look w p query_id 0 n = (Ok (query_status record), n)) as Hl.
  { unfold look, gateway, on, query_clustered, mbind at 1, M_bind at 1, attempt.
    rewrite (locally_run _ (Ok (query_status record))); [done|].
    unfold query. unfold_M. rewrite owned_idle by auto. done. }
  unfold wait_for_terminal. pose proof (fe_looks Hf) as Hlooks.
  destruct (w_looks w) as [|looks]; [lia|]. cbn [terminal_loop]. unfold mbind, M_bind.
  fold (look w p query_id 0). rewrite Hl.
  assert (one_of ["completed"; "cancelled"; "failed"] (qs_state (query_status record)) = true)
    as -> by (cbn [query_status qs_state]; rewrite (fe_data Hf); done).
  eauto.
Qed.

(** The reader a ticket opens. *)
Lemma fetch_one r i k ttl issued :
  fetchable → fr_principal r = Some p → 0 ≤ issued → 0 ≤ ttl →
  now_unix (c 0%nat) ≤ expiry issued ttl → 0 ≤ i < k → k ≤ 16 →
  Z.of_nat (length bs) * k ≤ usize_max →
  ∃ rd, do_get_statement b64_decode hmac json_parse svc r
          (issue_partition b64_encode hmac json_text (fs_tickets svc) (principal_id p) query_id
             i k ttl issued) c w n = (Ok rd, n) ∧
    (read_to_end rd).1 = Ok (partition_of bs k i).
Proof.
  intros Hf Hr Hi Ht Hexp Hik Hk Hmax. destruct (wait_fetchable Hf) as [status Hwait].
  unfold do_get_statement. unfold required_principal. rewrite Hr.
  unfold mbind at 1, M_bind at 1, of_result at 1. cbn [ok_or].
  unfold mbind at 1, M_bind at 1, of_result at 1.
  rewrite (tickets_open_for_their_owner b64_encode b64_decode hmac json_text json_parse)
    by (try done; unfold usize_max; lia).
  rewrite decide_False by (by intros []). rewrite decide_False by lia.
  cbn [tp_query_id tp_partitions tp_partition ticket_payload].
  unfold mbind at 1, M_bind at 1. rewrite Hwait. destruct (Z.eqb_spec k 1) as [->|Hk1].
  - destruct (retains_reader limits d (disk (nd_service n)) bs 0 None (fe_kept Hf)
      (fe_finished Hf)) as (rd & Hrd & Hread); [done..|].
    exists rd. unfold gateway, on, result_reader_clustered, mbind at 1, M_bind at 1, attempt.
    rewrite (locally_run _ (Ok rd)).
    2:{ unfold result_reader, result_reader_range. unfold_M. rewrite owned_idle by auto. cbn.
        by rewrite (fe_data Hf), Hrd. }
    split; [done|]. rewrite (read_to_end_spec _ _ Hread). f_equal.
    assert (i = 0) as -> by lia. unfold partition_of.
    rewrite !Z.div_1_r, Z.mul_0_r, Z.mul_1_r, Nat2Z.id, drop_0, take_ge by (simpl; lia). done.
  - pose proof (read_partition_spec limits d (disk (nd_service n)) bs i k (fe_kept Hf)
      (fe_finished Hf) Hik ltac:(unfold usize_max; lia) Hmax) as Hread. cbn zeta in Hread.
    unfold read_partition in Hread.
    destruct (partition_of_data (set_state_name "completed" d) (disk (nd_service n)) i k)
      as [rd|] eqn:Epart; [|done]. cbn [and_then] in Hread.
    exists rd. split; [|exact Hread].
    unfold gateway, on, result_partition_reader_clustered, mbind at 1, M_bind at 1, attempt.
    rewrite (locally_run _ (Ok rd)); [done|]. rewrite <- Epart.
    unfold result_partition_reader, result_batch_count, result_reader_range, partition_of_data.
    pose proof (fe_data Hf) as Hd. remember (set_state_name "completed" d) as dd eqn:Edd. clear Edd.
    unfold_M. destruct ((k =? 0) || (k <=? i)) eqn:Eb; [done|]. cbn.
    rewrite owned_idle by auto. cbn. rewrite Hd.
    destruct (count_of_data dd _); cbn; [|done]. rewrite owned_idle by auto. cbn.
    by rewrite Hd.
Qed.

(** Reading to the end is what the stream does. *)
Lemma unfold_reads fuel : ∀ rd part,
  (read_batches fuel rd).1 = Ok part → unfold_batches fuel rd = (part, None).
Proof.
  induction fuel as [|fuel IH]; intros rd part; simpl; [by intros [= <-]|].
  unfold next_result_batch. unfold_M.
  destruct (next_batch rd) as [[[b|]|e] rd']; simpl; [|by intros [= <-]|done].
  specialize (IH rd'). destruct (read_batches fuel rd') as [[rest|e] rd'']; simpl in *; [|done].
  intros [= <-]. by rewrite (IH rest).
Qed.

Lemma result_stream_reads rd part : (read_to_end rd).1 = Ok part → result_stream rd = (part, None).
Proof. unfold read_to_end. unfold_M. apply unfold_reads. Qed.

End Endpoints.
End FlightResults.

(** ** Ingestion over Flight SQL

    What reaches an engine is a prefix of what the client sent, of one schema
    and within the limits of a request; the session a stateless ingestion works
    in is closed on every path that ends, the panic of the ingestion task
    excepted. *)

Section FlightIngest.
Context `{ipc : ArrowIpc}.

(** ** The feed *)

Lemma saturating_below a b max :
  0 ≤ a → 0 ≤ b → max < usize_max → usize_saturating_add a b ≤ max →
  usize_saturating_add a b = a + b.
Proof. unfold usize_saturating_add. lia. Qed.

(** What holds of the batches sent from a point of the feed on. *)
Definition fed (alive : nat → bool) (rows bytes : Z) (schema : option Schema)
    (items : list (result RecordBatch Status)) (out : list RecordBatch * option Status) : Prop :=
  (∃ rest, items = (Ok <$> out.1) ++ rest) ∧
  (out.1 ≠ [] → rows + sum_rows out.1 ≤ MAX_INGEST_ROWS ∧
                bytes + sum_bytes out.1 ≤ MAX_INGEST_BYTES) ∧
  (∃ s, (∀ s', schema = Some s' → s = s') ∧ ∀ b, b ∈ out.1 → batch_schema b = s) ∧
  (out.2 = None → (∀ k, alive k = true) → items = Ok <$> out.1).

Lemma fed_nothing alive rows bytes schema items stop :
  (stop = None → (∀ k, alive k = true) → items = []) →
  fed alive rows bytes schema items ([], stop).
Proof.
  intros Hstop. split_and!; [by exists items|done| |done].
  exists (default schema_empty schema). split; [by intros s' ->|].
  intros b Hb. by apply elem_of_nil in Hb.
Qed.

Lemma feed_spec alive items : ∀ k rows bytes schema,
  0 ≤ rows → 0 ≤ bytes →
  fed alive rows bytes schema items (feed alive k rows bytes schema items).
Proof.
  induction items as [|[b|e] items IH]; intros k rows bytes schema Hr Hb; cbn [feed].
  { by apply fed_nothing. }
  2:{ by apply fed_nothing. }
  set (mismatch := match schema with Some _ => _ | None => false end).
  destruct mismatch eqn:Em; [by apply fed_nothing|].
  destruct ((MAX_INGEST_ROWS <? _) || _) eqn:El; [by apply fed_nothing|].
  apply orb_false_iff in El as [Hrows%Z.ltb_ge Hbytes%Z.ltb_ge].
  destruct (alive k) eqn:Ea; cbn [negb].
  2:{ apply fed_nothing. intros _ Hall. by rewrite Hall in Ea. }
  assert (0 ≤ num_rows b) as Hnum by (unfold num_rows; lia).
  pose proof (batch_bytes_nonneg b) as Hbb.
  rewrite (saturating_below rows (num_rows b) MAX_INGEST_ROWS) in * by done.
  rewrite (saturating_below bytes (batch_bytes b) MAX_INGEST_BYTES) in * by done.
  set (s0 := match schema with Some s => s | None => batch_schema b end).
  specialize (IH (S k) (rows + num_rows b) (bytes + batch_bytes b) (Some s0)
    ltac:(lia) ltac:(lia)).
  destruct (feed alive (S k) _ _ _ items) as [sent stop]. cbn [fst snd] in *.
  destruct IH as ((rest & Hrest) & Hlim & (s & Hs & Hsent) & Hall). cbn [fst snd] in *.
  specialize (Hs _ eq_refl). subst s.
  split_and!; cbn [fst snd].
  - exists rest. cbn. by rewrite Hrest.
  - intros _. cbn [sum_rows foldr sum_bytes]. destruct sent as [|b' sent].
    + cbn. lia.
    + specialize (Hlim ltac:(done)). unfold sum_rows, sum_bytes in *. cbn in *. lia.
  - exists s0. split; [intros s' Hs'; unfold s0; by rewrite Hs'|].
    intros b' [->|Hin]%elem_of_cons; [|by apply Hsent].
    unfold s0, mismatch in *. destruct schema as [s|]; [|done].
    apply negb_false_iff, bool_decide_eq_true in Em. done.
  - intros Hnone Halive. cbn. by rewrite (Hall Hnone Halive).
Qed.

(** C17: Ingestion is bounded.  Whatever a client streams, the batches that reach
    the engine are a prefix of them, share one schema, and have at most a million
    rows and 64 MiB together; and when neither the stream nor a limit nor the
    engine stops the feed, they are all of them. *)
Theorem ingestion_is_bounded alive items :
  let out := feed alive 0 0 0 None items in
  (∃ rest, items = (Ok <$> out.1) ++ rest) ∧
  sum_rows out.1 ≤ 1000000 ∧ sum_bytes out.1 ≤ 64 * 1024 * 1024 ∧
  (∃ s, ∀ b, b ∈ out.1 → batch_schema b = s) ∧
  (out.2 = None → (∀ k, alive k = true) → items = Ok <$> out.1).
Proof.
  cbn zeta. destruct (feed_spec alive items 0 0 0 None) as (Hpre & Hlim & (s & _ & Hs) & Hall);
    [done..|]. destruct (feed alive 0 0 0 None items) as [sent stop]. cbn [fst snd] in *.
  assert (sum_rows sent ≤ 1000000 ∧ sum_bytes sent ≤ 64 * 1024 * 1024) as [Hr Hb].
  { destruct sent; [done|]. unfold MAX_INGEST_ROWS, MAX_INGEST_BYTES in Hlim.
    specialize (Hlim ltac:(done)). lia. }
  split_and!; eauto.
Qed.

(** ** The session of a stateless ingestion *)

Section Session.
Context (D D' : gset string).

(** No sessions but these. *)
Definition within (s : ServiceState) : Prop :=
  dom (session_owners s) ⊆ D ∧ dom (sessions (st_sessions s)) ⊆ D'.

(** The session [id] of [p], and no others but these. *)
Definition opened (p : AuthenticatedPrincipal) (id : string) (s : ServiceState) : Prop :=
  owns_session p id s ∧ is_Some (sessions (st_sessions s) !! id) ∧
  dom (session_owners s) ⊆ {[ id ]} ∪ D ∧ dom (sessions (st_sessions s)) ⊆ {[ id ]} ∪ D'.

Lemma within_expire out entries : preserves within (expire_sessions out entries).
Proof.
  induction entries as [|[id q] entries IH]; [apply preserves_ret|]. cbn [expire_sessions].
  apply preserves_bind; [|intros; apply IH]. intros s [H1 H2].
  rewrite expire_session_state. split; cbn; rewrite dom_delete_L; set_solver.
Qed.

Lemma within_cleanup now : preserves within (cleanup_expired now).
Proof.
  unfold cleanup_expired. preserve; try apply within_expire; by apply preserves_modify.
Qed.

Lemma within_target p name : preserves within (authorized_target p name).
Proof. unfold authorized_target, audit. preserve; by apply preserves_modify. Qed.

Lemma create_opens p target ov am :
  triple within (create_session p target ov am)
    (λ snap s, opened p (snap_id snap) s) (λ _ s, within s).
Proof.
  assert (∀ {A} (m : M ServiceState ServiceError A), preserves within m →
    triple within m (λ _, within) (λ _, within)) as Hkeep.
  { intros A m Hm s Hs. specialize (Hm s Hs). by destruct (m s) as [[a|e] s']. }
  unfold create_session.
  eapply triple_bind; [apply Hkeep; unfold ensure_available; preserve|intros ?].
  eapply triple_bind; [apply Hkeep, within_cleanup|intros ?].
  eapply triple_bind; [apply Hkeep; unfold enforce_session_quota; preserve|intros ?].
  eapply triple_bind; [apply Hkeep, within_target|intros t].
  intros s [H1 H2]. unfold in_sessions, create_with_overrides, audit. unfold_M.
  destruct (next_session_id _ _ _) as [id i]. cbn. split_and!; cbn.
  - eexists. split; [apply lookup_insert_eq|done].
  - eexists. apply lookup_insert_eq.
  - rewrite dom_insert_L. set_solver.
  - rewrite dom_insert_L. set_solver.
Qed.

Lemma opened_session p id now : preserves (opened p id) (Service.session p id now).
Proof.
  unfold Service.session. apply preserves_bind; [|intros _].
  - intros s (Ho & Hs & H1 & H2). destruct Ho as (o & Eo & Hp).
    unfold require_session_owner. unfold_M. rewrite Eo, Hp, String.eqb_refl. cbn.
    split_and!; cbn; [|done| |done].
    + eexists. split; [apply lookup_insert_eq|done].
    + rewrite dom_insert_L. set_solver.
  - intros s Hs. unfold in_sessions, snapshot. unfold_M.
    by destruct (sessions (st_sessions s) !! id).
Qed.

Lemma opened_audit p id a o pr t se q : preserves (opened p id) (audit a o pr t se q).
Proof. by apply preserves_modify. Qed.

Lemma opened_ingest p id request bs am :
  preserves (opened p id) (service_ingest p id request bs am).
Proof.
  unfold service_ingest.
  apply preserves_bind; [unfold ensure_available; preserve|intros _].
  apply preserves_bind; [apply preserves_reject_if|intros _].
  apply preserves_bind; [apply opened_session|intros snap].
  apply preserves_bind; [unfold require_capability; preserve|intros _].
  apply preserves_bind; [apply opened_audit|intros _].
  apply preserves_bind; [|intros x; apply preserves_bind; [apply opened_audit|intros; preserve]].
  apply preserves_attempt, preserves_on. by intros s Hs.
Qed.

Lemma close_closes p id now s : opened p id s → within (close_session p id now s).2.
Proof.
  intros ((o & Eo & Hp) & [x Ex] & H1 & H2).
  unfold close_session, require_session_owner, cancel_session_queries, in_sessions, close, audit.
  unfold_M. rewrite Eo, Hp, String.eqb_refl. cbn. rewrite Ex. cbn.
  split; cbn; rewrite !dom_delete_L, ?dom_insert_L; set_solver.
Qed.
End Session.

Section Stateless.
Context {St : Type} `{!ClusterStateStore St}.
Context {Ob : Type} `{!ResultObjectStore Bytes Ob}.
Context `{!Serde SharedSession} `{!Serde SharedQuery} `{!Serde SharedPrepared}.
Variable b64_decode : string → option string.
Variable hmac : string → string → string.
Variable json_parse : string → option Value.
Abbreviation Node := (Node (St:=St) (Ob:=Ob)).

End Stateless.
End FlightIngest.
