(* ===== verification/FlightPolicyFacts.v ===== *)
(** * Facts about who and what the Flight SQL gateway lets in

    The interceptor, the identity a client certificate gives, and the options of
    a session. *)
From S2P Require Import Prelude Text Arrow DriverApi Auth Config ServiceData Headers ArrowTypes.
From S2P Require Import Chars FlightTypes FlightTypeFacts FlightPolicy.
From Stdlib Require Import Ascii.

(** ** The interceptor *)

Section Interceptor.
Variable sha256_hex : string → string.
Context {Au : Type}.

(** C15: Calls are authenticated.  A call gets through the interceptor only with a
    bearer credential the authenticator accepts; it acts for that principal, with
    its targets and quotas, under an identity bound to the connection's
    certificate where client certificates are required; and on a listener that is
    reachable from outside without TLS it must have come through a proxy that
    reports HTTPS. *)
Theorem calls_are_authenticated config (auth : Authenticator Au) m certs now a p a' :
  interceptor sha256_hex config auth m certs now a = (Ok p, a') →
  ∃ credential p0,
    get_str "authorization" m = Some ("Bearer " +:+ credential) ∧ credential ≠ EmptyString ∧
    auth credential now a = (Ok p0, a') ∧
    allowed_targets p = allowed_targets p0 ∧ max_sessions p = max_sessions p0 ∧
    max_concurrent_queries p = max_concurrent_queries p0 ∧
    (if require_client_certificate config
     then ∃ der, head certs = Some der ∧
            principal_id p = mtls_bound_principal_id sha256_hex (principal_id p0) der
     else principal_id p = principal_id p0) ∧
    (bind_flight false config = Ok tt → fl_tls config = None →
       get_str "x-forwarded-proto" m = Some "https").
Proof.
  unfold interceptor. unfold mbind at 1, M_bind at 1, of_result at 1.
  destruct (enforce_proxy_policy m (fl_trusted_proxy config)) as [[]|e] eqn:Epol; [|done].
  unfold mbind at 1, M_bind at 1, of_result at 1, bearer.
  destruct (get_str "authorization" m) as [value|] eqn:Eauth; [|done]. cbn [mbind option_bind].
  destruct (strip_prefix "Bearer " value) as [credential|] eqn:Estrip; [|done].
  cbn [mbind option_bind]. apply strip_prefix_Some in Estrip as ->.
  destruct (is_empty credential) eqn:Eempty; [done|]. cbn [ok_or].
  unfold mbind at 1, M_bind at 1, on. destruct (auth credential now a) as [[p0|e] a1] eqn:Ea; [|done].
  intros Hrun. exists credential, p0. split; [done|]. split; [by destruct credential|].
  assert (bind_flight false config = Ok tt → fl_tls config = None →
    get_str "x-forwarded-proto" m = Some "https") as Hproxy.
  { unfold bind_flight. intros Hbind Htls. rewrite Htls in Hbind.
    destruct (fl_trusted_proxy config) eqn:Eproxy; cbn in Hbind; [|done].
    unfold enforce_proxy_policy in Epol. rewrite andb_false_r in Epol. cbn in Epol.
    by case_bool_decide. }
  destruct (require_client_certificate config).
  - destruct (head certs) as [der|]; [|done]. cbn in Hrun. injection Hrun as <- <-.
    split_and!; try done. by exists der.
  - cbn in Hrun. injection Hrun as <- <-. done.
Qed.

(** Identities bound to certificates: neither another principal nor another
    certificate has the same one. *)
Lemma mtls_identities_are_distinct id id' der der' :
  (∀ s, String.length (sha256_hex s) = 64%nat) →
  mtls_bound_principal_id sha256_hex id der = mtls_bound_principal_id sha256_hex id' der' →
  id = id' ∧ sha256_hex der = sha256_hex der'.
Proof.
  intros Hlen. unfold mtls_bound_principal_id.
  assert (∀ a a' b b', String.length b = String.length b' → a +:+ b = a' +:+ b' → a = a' ∧ b = b')
    as Hsplit.
  { induction a as [|c a IH]; intros a' b b' Hl E.
    - destruct a' as [|c' a']; [done|]. exfalso. cbn in E. subst b. cbn in Hl.
      rewrite string_length_app in Hl. lia.
    - destruct a' as [|c' a'].
      + exfalso. cbn in E. subst b'. cbn in Hl. rewrite string_length_app in Hl. lia.
      + injection E as -> E. destruct (IH a' b b' Hl E) as [-> ->]. done. }
  intros E. apply Hsplit in E as [-> E].
  - split; [done|]. by apply string_app_inv_l in E.
  - by rewrite !string_length_app, !Hlen.
Qed.
End Interceptor.

(** ** Session options *)

Section Options.
Context {F64 : Type}.
Variable is_finite : F64 → bool.
Variable f64_text : F64 → string.
Variable json_text : Value → string.
Abbreviation OptionValue := (OptionValue (F64:=F64)).
Abbreviation Entry := (string * option OptionValue)%type.
Abbreviation parse := (parse_set_session_options is_finite f64_text json_text).
Abbreviation parse_one := (parse_option is_finite f64_text json_text).

(** What an option asks for. *)
Inductive Effect :=
| Bad (e : SetSessionOptionErrorValue)
| Target (t : string)
| Override (property : string) (value : option string).

Definition classify (entry : Entry) : Effect :=
  let '(name, value) := entry in
  if one_of ["qcli.version"; "qcli.session_id"] name then Bad InvalidName
  else
    match session_option_string is_finite f64_text json_text value with
    | None => Bad InvalidValue
    | Some value =>
        if String.eqb name "qcli.target" then
          match value with
          | ParsedValue v => if is_empty v then Bad InvalidValue else Target v
          | Unset => Bad InvalidValue
          end
        else
          match session_property_name name with
          | Some property =>
              Override property match value with Unset => None | ParsedValue v => Some v end
          | None => Bad InvalidName
          end
    end.

Definition property_of (entry : Entry) : option string :=
  match classify entry with Override property _ => Some property | _ => None end.

(** The loop applies the effect of each option. *)
Lemma parse_one_spec p name value :
  parse_one p (name, value)
  = match classify (name, value) with
    | Bad e => with_error name e p
    | Target t => {| po_target := Some t; po_overrides := po_overrides p; po_errors := po_errors p |}
    | Override property v =>
        {| po_target := po_target p; po_overrides := <[property := v]> (po_overrides p);
           po_errors := po_errors p |}
    end.
Proof. unfold parse_option, classify. by repeat case_match. Qed.

Lemma target_name_only entry t : classify entry = Target t → entry.1 = "qcli.target".
Proof.
  destruct entry as [name value]. unfold classify. cbn [fst].
  repeat case_match; try done. intros _. by apply String.eqb_eq.
Qed.

(** No two options set the same property. *)
Definition unaliased (l : list Entry) : Prop := NoDup l.*1 ∧ NoDup (omap property_of l).

Lemma unaliased_snoc l e : unaliased (l ++ [e]) →
  unaliased l ∧ (e.1 ∉ l.*1) ∧
  ∀ property, property_of e = Some property → property ∉ (omap property_of l).
Proof.
  unfold unaliased. rewrite fmap_app, omap_app. intros [H1 H2].
  apply NoDup_app in H1 as (? & Hn & _), H2 as (? & Hp & _). split_and!; [done..| |].
  - intros Hin. apply (Hn _ Hin). by left.
  - intros property He Hin. apply (Hp _ Hin). cbn. rewrite He. by left.
Qed.

Lemma parse_spec l : unaliased l →
  (∀ property v, po_overrides (parse l) !! property = Some v ↔
     ∃ e, e ∈ l ∧ classify e = Override property v) ∧
  (∀ name er, po_errors (parse l) !! name = Some er ↔
     ∃ v, (name, v) ∈ l ∧ classify (name, v) = Bad er) ∧
  (∀ t, po_target (parse l) = Some t ↔ ∃ e, e ∈ l ∧ classify e = Target t).
Proof.
  induction l as [|[name value] l IH] using rev_ind; intros Hl.
  { cbn. split_and!; intros; split; try done; intros (? & Hin & _); by apply elem_of_nil in Hin. }
  apply unaliased_snoc in Hl as (Hl & Hname & Hprop). specialize (IH Hl) as (IHo & IHe & IHt).
  unfold parse_set_session_options in *. rewrite foldl_app. cbn [foldl]. rewrite parse_one_spec.
  set (p := foldl parse_one _ l) in *.
  assert (∀ (P : Entry → Prop), (∃ e, e ∈ l ++ [(name, value)] ∧ P e) ↔
    (∃ e, e ∈ l ∧ P e) ∨ P (name, value)) as Hsnoc.
  { intros P. setoid_rewrite elem_of_app. setoid_rewrite list_elem_of_singleton. naive_solver. }
  assert (∀ x (P : option OptionValue → Prop), (∃ v, (x, v) ∈ l ++ [(name, value)] ∧ P v) ↔
    (∃ v, (x, v) ∈ l ∧ P v) ∨ (x = name ∧ P value)) as Hsnoc'.
  { intros x P. setoid_rewrite elem_of_app. setoid_rewrite list_elem_of_singleton. naive_solver. }
  assert (∀ v, (name, v) ∉ l) as Hfresh.
  { intros v Hin. apply Hname, list_elem_of_fmap. by exists (name, v). }
  unfold property_of in Hprop. split_and!.
  - intros property v. rewrite Hsnoc, <- IHo.
    destruct (classify (name, value)) as [e|t|property' v'] eqn:Ec; cbn [po_overrides with_error].
    1,2: naive_solver.
    rewrite lookup_insert_Some. split; [naive_solver|].
    intros [Hp|[= -> ->]]; [|naive_solver]. right. split; [|done]. intros ->.
    apply IHo in Hp as (e & Hin & He). apply (Hprop property eq_refl).
    apply list_elem_of_omap. exists e. split; [done|]. unfold property_of. by rewrite He.
  - intros x er. rewrite (Hsnoc' x (λ v, classify (x, v) = Bad er)), <- IHe.
    destruct (classify (name, value)) as [e|t|property' v'] eqn:Ec; cbn [po_errors with_error].
    + rewrite lookup_insert_Some. split; [intros [[<- <-]|[? ?]]; [by right|by left]|].
      intros [Hp|[-> Hx]]; [|left; split; [done|congruence]].
      right. split; [|done]. intros ->. apply IHe in Hp as (v & Hin & _). by apply Hfresh in Hin.
    + split; [by left|]. intros [?|[-> Hx]]; [done|congruence].
    + split; [by left|]. intros [?|[-> Hx]]; [done|congruence].
  - intros t. rewrite Hsnoc, <- IHt.
    destruct (classify (name, value)) as [e|t'|property' v'] eqn:Ec; cbn [po_target with_error].
    1,3: naive_solver.
    split; [intros [= ->]; by right|]. intros [Hp|[= ->]]; [|done]. exfalso.
    apply IHt in Hp as ([name' v'] & Hin & He). apply target_name_only in He as Hn'.
    apply target_name_only in Ec. cbn in Hn', Ec. subst. by apply Hfresh in Hin.
Qed.

(** Options do not depend on their order.  The request's options come out of
    a hash map in an order nobody controls; unless two of them set the same
    property, the session they describe and the errors they report are the same
    in every order. *)
Theorem options_do_not_depend_on_order l l' :
  unaliased l → l ≡ₚ l' → parse l = parse l'.
Proof.
  intros Hl Hperm. assert (unaliased l') as Hl'.
  { destruct Hl as [H1 H2]. split; [by rewrite <- Hperm|].
    assert (omap property_of l ≡ₚ omap property_of l') as <-; [|done].
    clear -Hperm. induction Hperm; cbn; try done.
    - by case_match; [f_equiv|].
    - repeat case_match; try done; constructor.
    - by etrans. }
  destruct (parse_spec l Hl) as (Ho & He & Ht), (parse_spec l' Hl') as (Ho' & He' & Ht').
  destruct (parse l) as [t o e] eqn:E, (parse l') as [t' o' e'] eqn:E'. cbn in *. f_equal.
  - apply option_eq. intros x. rewrite Ht, Ht'. by setoid_rewrite Hperm.
  - apply map_eq. intros k. apply option_eq. intros x. rewrite Ho, Ho'. by setoid_rewrite Hperm.
  - apply map_eq. intros k. apply option_eq. intros x. rewrite He, He'. by setoid_rewrite Hperm.
Qed.

(** [catalog] and [engine.catalog] set the same property, and the order decides. *)
Lemma aliases_depend_on_order a b :
  a ≠ b →
  parse [("catalog", Some (StringValue a)); ("engine.catalog", Some (StringValue b))]
  ≠ parse [("engine.catalog", Some (StringValue b)); ("catalog", Some (StringValue a))].
Proof.
  intros Hab H. apply (f_equal (λ p, po_overrides p !! "catalog")) in H. cbn in H.
  rewrite !lookup_insert_eq in H. congruence.
Qed.

(** ** What is reported can be set *)

Abbreviation reported := (reported_options (F64:=F64)).

Lemma option_name_cases name :
  (name ∈ ["catalog"; "schema"; "timeout"] ∧ session_option_name name = name) ∨
  ((name ∉ ["catalog"; "schema"; "timeout"]) ∧ session_option_name name = "engine." +:+ name).
Proof.
  unfold session_option_name. destruct (one_of _ name) eqn:E.
  - left. split; [|done]. apply existsb_exists in E as (x & Hx & ->%String.eqb_eq).
    by apply list_elem_of_In.
  - right. split; [|done]. intros Hin%list_elem_of_In. apply not_true_iff_false in E. apply E.
    apply existsb_exists. exists name. split; [done|]. apply String.eqb_refl.
Qed.

Lemma classify_option name value :
  name ≠ EmptyString →
  classify (session_option_name name, Some (StringValue value)) = Override name (Some value).
Proof.
  intros Hne. destruct (option_name_cases name) as [[Hin ->]|[Hout ->]].
  - rewrite !elem_of_cons, elem_of_nil in Hin. by destruct Hin as [->|[->|[->|[]]]].
  - assert (session_property_name ("engine." +:+ name) = Some name) as E.
    { unfold session_property_name.
      change (one_of ["catalog"; "schema"; "timeout"] ("engine." +:+ name)) with false. cbn iota.
      rewrite strip_prefix_app. cbn [mbind option_bind]. by destruct name. }
    unfold classify. rewrite E. done.
Qed.

Lemma option_name_inj a b : session_option_name a = session_option_name b → a = b.
Proof.
  intros E. destruct (option_name_cases a) as [[Ha Ea]|[Ha Ea]], (option_name_cases b) as [[Hb Eb]|[Hb Eb]];
    rewrite Ea, Eb in E.
  - done.
  - rewrite !elem_of_cons, elem_of_nil in Ha. by destruct Ha as [->|[->|[->|[]]]].
  - rewrite !elem_of_cons, elem_of_nil in Hb. by destruct Hb as [->|[->|[->|[]]]].
  - by apply string_app_inv_l in E.
Qed.

Lemma option_name_foreign name x :
  x ∈ ["qcli.target"; "qcli.session_id"; "qcli.version"] → session_option_name name ≠ x.
Proof.
  intros Hx E. rewrite !elem_of_cons, elem_of_nil in Hx.
  destruct (option_name_cases name) as [[Ha Ea]|[Ha Ea]]; rewrite Ea in E.
  - rewrite !elem_of_cons, elem_of_nil in Ha.
    destruct Ha as [->|[->|[->|[]]]], Hx as [->|[->|[->|[]]]]; done.
  - destruct Hx as [->|[->|[->|[]]]]; done.
Qed.

Lemma reported_spec target id version overrides k v :
  reported target id version overrides !! k = Some v ↔
  (∃ name value, overrides !! name = Some value ∧ k = session_option_name name ∧
                 v = StringValue value) ∨
  (k = "qcli.target" ∧ v = StringValue target) ∨ (k = "qcli.session_id" ∧ v = StringValue id) ∨
  (k = "qcli.version" ∧ v = int_session_option version).
Proof.
  unfold reported_options. revert k v. apply (map_fold_weak_ind (λ r m, ∀ k v, r !! k = Some v ↔
    (∃ name value, m !! name = Some value ∧ k = session_option_name name ∧ v = StringValue value) ∨
    (k = "qcli.target" ∧ v = StringValue target) ∨ (k = "qcli.session_id" ∧ v = StringValue id) ∨
    (k = "qcli.version" ∧ v = int_session_option version))).
  - intros k v. rewrite !lookup_insert_Some, lookup_singleton_Some. split; [naive_solver|].
    intros [(? & ? & Hl & _)|H]; [by rewrite lookup_empty in Hl|].
    destruct H as [[-> ->]|[[-> ->]|[-> ->]]]; naive_solver.
  - intros name value m r Hfresh IH k v. rewrite lookup_insert_Some, IH. split.
    + intros [[<- <-]|[Hne [(n' & v' & Hl & -> & ->)|Hrest]]]; [| |by right].
      * left. exists name, value. by rewrite lookup_insert_eq.
      * left. exists n', v'. split; [|done]. rewrite lookup_insert_ne; [done|]. by intros ->.
    + intros [(n' & v' & Hl & -> & ->)|Hrest].
      * apply lookup_insert_Some in Hl as [[-> ->]|[Hne Hl]]; [by left|].
        right. split; [by intros ?%option_name_inj|]. left. eauto.
      * right. split; [|by right]. apply option_name_foreign. rewrite !elem_of_cons. naive_solver.
Qed.

Lemma unaliased_named l :
  NoDup l.*1 →
  (∀ e property, e ∈ l → property_of e = Some property → e.1 = session_option_name property) →
  unaliased l.
Proof.
  intros Hl Hnamed. split; [done|]. induction l as [|e l IH]; [constructor|].
  cbn in Hl. apply NoDup_cons in Hl as [He Hl].
  assert (NoDup (omap property_of l)) as Hrest by (apply IH; [done|]; intros; apply Hnamed; [by right|done]).
  cbn. destruct (property_of e) as [q|] eqn:Eq; [|done]. apply NoDup_cons. split; [|done].
  intros (e' & Hin & Eq')%list_elem_of_omap. apply He, list_elem_of_fmap. exists e'.
  split; [|done]. rewrite (Hnamed e' q), (Hnamed e q); try done; [by left|by right].
Qed.

(** C19: Reported options can be set again.  Sending back every option that
    [GetSessionOptions] reports asks for exactly the target and the overrides the
    session has; only the two read-only ones are refused, by name. *)
Theorem session_options_round_trip target id version overrides :
  target ≠ EmptyString → overrides !! EmptyString = None →
  let parsed := parse (map_to_list (Some <$> reported target id version overrides)) in
  po_target parsed = Some target ∧ po_overrides parsed = Some <$> overrides ∧
  po_errors parsed = {[ "qcli.session_id" := InvalidName; "qcli.version" := InvalidName ]}.
Proof.
  intros Htarget Hempty. cbn zeta. set (l := map_to_list _).
  assert (∀ k o, (k, o) ∈ l ↔ ∃ v, o = Some v ∧
    ((∃ name value, overrides !! name = Some value ∧ k = session_option_name name ∧
                    v = StringValue value) ∨
     (k = "qcli.target" ∧ v = StringValue target) ∨ (k = "qcli.session_id" ∧ v = StringValue id) ∨
     (k = "qcli.version" ∧ v = int_session_option version))) as Hin.
  { intros k o. unfold l. rewrite elem_of_map_to_list, lookup_fmap, fmap_Some.
    setoid_rewrite reported_spec. naive_solver. }
  assert (∀ name value, overrides !! name = Some value →
    classify (session_option_name name, Some (StringValue value)) = Override name (Some value)) as Hc.
  { intros name value Hl. apply classify_option. by intros ->; rewrite Hempty in Hl. }
  assert (classify ("qcli.target", Some (StringValue target)) = Target target) as Ht
    by (cbn; by destruct target).
  assert (∀ k o, (k, o) ∈ l → ∀ x, classify (k, o) = x →
    (∃ name value, overrides !! name = Some value ∧ k = session_option_name name ∧
       x = Override name (Some value)) ∨ (k = "qcli.target" ∧ x = Target target) ∨
    (k = "qcli.session_id" ∧ x = Bad InvalidName) ∨ (k = "qcli.version" ∧ x = Bad InvalidName)) as Hcase.
  { intros k o (v & -> & H)%Hin x <-.
    destruct H as [(name & value & Hl & -> & ->)|[[-> ->]|[[-> ->]|[-> ->]]]]; [|naive_solver..].
    left. exists name, value. by rewrite Hc. }
  destruct (parse_spec l) as (Ho & He & Htt).
  { apply unaliased_named; [apply NoDup_fst_map_to_list|]. intros [k o] q Hel Hq.
    unfold property_of in Hq. destruct (Hcase k o Hel _ eq_refl)
      as [(name & value & _ & -> & E)|[[-> E]|[[-> E]|[-> E]]]]; rewrite E in Hq; naive_solver. }
  split_and!.
  - apply Htt. exists ("qcli.target", Some (StringValue target)). split; [|done].
    apply Hin. naive_solver.
  - apply map_eq. intros name. apply option_eq. intros o. rewrite Ho, lookup_fmap, fmap_Some. split.
    + intros ([k v] & Hel & Hcl). destruct (Hcase k v Hel _ Hcl)
        as [(n' & value & Hl & -> & E)|[[-> E]|[[-> E]|[-> E]]]]; [|done..]. naive_solver.
    + intros (value & Hl & ->). exists (session_option_name name, Some (StringValue value)).
      split; [apply Hin; naive_solver|by apply Hc].
  - apply map_eq. intros name. apply option_eq. intros er. rewrite He.
    rewrite lookup_insert_Some, lookup_singleton_Some. split.
    + intros (v & Hel & Hcl). destruct (Hcase name v Hel _ Hcl)
        as [(n' & value & Hl & -> & E)|[[-> E]|[[-> E]|[-> E]]]]; naive_solver.
    + intros [[<- <-]|[_ [<- <-]]]; eexists; (split; [apply Hin; naive_solver|done]).
Qed.
End Options.
