(* ===== verification/FlightExamples.v ===== *)
(** * The Flight SQL gateway on concrete calls

    A codec with the laws the tokens rely on, a gateway over it, and the theorems
    on types, tokens, cookies, options, waits, endpoints and ingestion applied to
    it. *)
From S2P Require Import Prelude Text Arrow DriverApi Auth Config Core Cluster Metadata.
From S2P Require Import ServiceData Results ResultsFacts Service ServiceSpec ServiceCluster.
From S2P Require Import HttpExamples Collect NodeSteps Headers ArrowTypes Chars FlightTypes.
From S2P Require Import FlightTypeFacts FlightTokenFacts FlightPolicy FlightPolicyFacts Flight.
From S2P Require Import FlightFacts FlightResults GatewayExamples ClusterNodeExamples.
From Stdlib Require Import Ascii.
Import Core.Sessions Core.Queries Arrow.Concrete.

#[local] Existing Instance ClusterNodeExamples.clock.
#[local] Existing Instance serde_session.
#[local] Existing Instance serde_query.
#[local] Existing Instance ClusterNodeExamples.objects.
#[local] Instance no_prepared : Serde SharedPrepared :=
  {| to_value _ := Err "not shared"; from_value _ := Err "not shared" |}.

(** ** A codec *)

(** A text for flat documents, the bits of an enumeration of them; base64 is the
    hexadecimal of HttpExamples.v. *)
Fixpoint bits_text (p : positive) : string :=
  match p with
  | xH => EmptyString
  | xO p => String "0" (bits_text p)
  | xI p => String "1" (bits_text p)
  end.
Fixpoint text_bits (s : string) : positive :=
  match s with
  | EmptyString => xH
  | String c s => if Ascii.eqb c "0"%char then xO (text_bits s) else xI (text_bits s)
  end.
Lemma bits_roundtrip p : text_bits (bits_text p) = p.
Proof. induction p as [p IH|p IH|]; cbn; by rewrite ?IH. Qed.

Definition flat (v : Value) : string + Z :=
  match v with VString s => inl s | Number n => inr n | _ => inr (-1) end.
Definition unflat (x : string + Z) : Value :=
  match x with inl s => VString s | inr n => Number n end.
Definition example_text (v : Value) : string :=
  match v with
  | Object fields => bits_text (encode ((λ e, (e.1, flat e.2)) <$> fields))
  | _ => EmptyString
  end.
Definition example_parse (s : string) : option Value :=
  (λ l : list (string * (string + Z)), Object ((λ e, (e.1, unflat e.2)) <$> l))
    <$> decode (text_bits s).

Lemma example_roundtrip fields :
  Forall (λ e, flat_value e.2) fields →
  example_parse (example_text (Object fields)) = Some (Object fields).
Proof.
  intros Hf. unfold example_parse, example_text. rewrite bits_roundtrip, countable.decode_encode. cbn.
  do 2 f_equal. rewrite <- list_fmap_compose.
  induction Hf as [|[k v] l Hv Hl IH]; [done|]. cbn. rewrite IH. by destruct v.
Qed.

Definition example_hmac (key message : string) : string := key +:+ message.

Definition flight : QcliFlightSql :=
  with_shared_signing_key "secret"
    (with_limits (from_secs 900) (from_secs 1800) (16 * 1024 * 1024) "" "" "" "").

(** ** Types, tokens, cookies *)

Lemma types_witness :
  arrow_type "map<varchar, array(decimal(10,2))>"
  = ArrowTypes.map_of Utf8 (List (new_list_field (Decimal128 10 2) true)) true.
Proof.
  apply (type_expressions_denote
    (MapOf true (Bare "varchar" Utf8) (ArrayOf false (Exact "decimal" 10 2)))).
  cbn [native_ok simple_types bare_types decimal_names app].
  split; [|split; [|lia]]; repeat first [left | right].
Defined.

Definition ada_ticket : TicketPayload := ticket_payload "ada" "qcli_a" 0 1 (from_secs 900) 1000.
Definition ada_token : SessionTokenPayload :=
  session_payload "ada" ada_session 1 (from_secs 1800) 1000.


Example tickets_are_not_session_tokens :
  (verify_ticket hex_decode example_hmac example_parse "secret"
     (sign_payload hex_encode example_hmac example_text "secret" (ticket_value ada_ticket))
     "ada" 1500 = Ok ada_ticket) ∧
  (verify_session hex_decode example_hmac example_parse "secret"
     (sign_payload hex_encode example_hmac example_text "secret" (ticket_value ada_ticket))
     "ada" 1500 = Err (Status_new CInvalidArgument "session token payload is invalid")).
Proof. vm_compute. done. Qed.

Lemma cookies_witness :
  cookie [("cookie", "theme=dark; arrow_flight_session_id=abc; lang=en")] SESSION_COOKIE
  = Some "abc".
Proof.
  apply (cookies_are_found [("theme", "dark"); ("arrow_flight_session_id", "abc"); ("lang", "en")]).
  - repeat constructor; by vm_compute.
  - done.
Defined.

(** ** Policy and options *)

Definition mtls_config : FlightServerConfig :=
  {| fl_trusted_proxy := false; max_message_bytes := 16 * 1024 * 1024;
     request_timeout := from_secs 60; keepalive_interval := from_secs 30;
     keepalive_timeout := from_secs 10; fl_ticket_ttl := from_secs 900;
     fl_session_ttl := from_secs 1800; max_concurrent_streams := 64;
     max_connection_age := from_secs 1800; max_connection_age_grace := from_secs 60;
     fl_tls := Some {| tls_certificate := "cert.pem"; tls_private_key := "key.pem";
                       tls_client_ca := Some "ca.pem" |};
     shared_signing_key := None |}.

Definition flight_auth : Authenticator unit := λ bearer _ s,
  if String.eqb bearer "ada-token" then (Ok ada, s) else (Err AuthenticationError_invalid, s).

Lemma authenticated_witness :
  ∃ credential p0,
    get_str "authorization" [("authorization", "Bearer ada-token")]
      = Some ("Bearer " +:+ credential) ∧ credential ≠ EmptyString ∧
    flight_auth credential 5 tt = (Ok p0, tt) ∧
    allowed_targets ada = allowed_targets p0 ∧ max_sessions ada = max_sessions p0 ∧
    max_concurrent_queries ada = max_concurrent_queries p0 ∧
    (∃ der, head ["DER"] = Some der ∧
       "ada@mtls:d1" = mtls_bound_principal_id (λ _, "d1") (principal_id p0) der) ∧
    (bind_flight false mtls_config = Ok tt → fl_tls mtls_config = None →
       get_str "x-forwarded-proto" [("authorization", "Bearer ada-token")] = Some "https").
Proof.
  exact (calls_are_authenticated (λ _, "d1") mtls_config flight_auth
    [("authorization", "Bearer ada-token")] ["DER"] 5 tt
    (with_principal_id "ada@mtls:d1" ada) tt eq_refl).
Defined.

Abbreviation example_options := (parse_set_session_options (λ _ : unit, true) (λ _, "0.5")
  example_text).

Definition two_options : list (string * option (OptionValue (F64:=unit))) :=
  [("catalog", Some (StringValue "tpch")); ("qcli.target", Some (StringValue "warehouse"))].

Lemma option_order_witness :
  example_options two_options = example_options (reverse two_options).
Proof.
  apply options_do_not_depend_on_order; [|by rewrite reverse_Permutation].
  split; cbn; repeat constructor; set_solver.
Defined.

Lemma option_round_trip_witness :
  let parsed := example_options (map_to_list
    (Some <$> reported_options "warehouse" ada_session 3 {["catalog" := "tpch"; "ssl" := "true"]})) in
  po_target parsed = Some "warehouse" ∧
  po_overrides parsed = Some <$> {["catalog" := "tpch"; "ssl" := "true"]} ∧
  po_errors parsed = {[ "qcli.session_id" := InvalidName; "qcli.version" := InvalidName ]}.
Proof. apply session_options_round_trip; [done|by vm_compute]. Defined.

(** ** A gateway *)

Abbreviation ExampleNode := (Node (St:=Memory.MemoryState) (Ob:=gmap string Bytes)).
Definition alone_node (s : ServiceState) : ExampleNode :=
  {| nd_service := s; nd_cluster := None; nd_store := Memory.MemoryState_default;
     nd_objects := ∅; nd_publishers := [] |}.

Definition as_ada (m : FlightTypes.Metadata) : FlightRequest :=
  {| fr_metadata := m; fr_principal := Some ada |}.

Definition flight_call (now : Z) (uuid : string) : ClusterCall :=
  {| ca_ambient := at_time now "202401010000" uuid; ca_utc := from_secs (1000 + now);
     ca_permit := "permit_" +:+ uuid |}.

Abbreviation example_cmd := (run_cmd hex_encode hex_decode example_hmac example_text example_parse
  (λ _ : unit, true) (λ _, "0.5") (λ _, 0) digest (λ _, Ok "schema") (λ _, Ok "schema")
  (λ t, t) (λ t, Some (Some t))).


(** A session made with [SetSessionOptions] is found by the cookie it comes
    with. *)
Definition made : result (FlightResponse (gmap string SetSessionOptionErrorValue)) Status
    * ExampleNode :=
  set_session_options hex_encode hex_decode example_hmac example_text example_parse
    (λ _ : unit, true) (λ _, "0.5") flight (as_ada []) (Some two_options)
    (λ _, flight_call 1 "u1") (alone_node (gw_state start)).
Definition cookie_of {A} (r : result (FlightResponse A) Status) : string :=
  match r with
  | Ok response =>
      match split_once ";" (default "" (fl_cookie response)) with Some (c, _) => c | None => "" end
  | Err _ => ""
  end.

Example sessions_are_resumed :
  match (get_session_options hex_encode hex_decode example_hmac example_text example_parse flight
           (as_ada [("cookie", cookie_of made.1)]) true (λ _, flight_call 2 "u2") made.2).1 with
  | Ok response => fl_body response !! "catalog"
  | Err _ => None
  end = Some (StringValue (F64:=unit) "tpch").
Proof. vm_compute. reflexivity. Qed.

(** ** Endpoints *)

Definition one_look : Waiting (St:=Memory.MemoryState) (Ob:=gmap string Bytes) :=
  {| w_looks := 1; w_calls := λ _, flight_call 30 "c"; w_elapsed := λ _ n, n |}.

Lemma ada_fetchable :
  fetchable ada "qcli_a" fetched (qr_data fetched) limits fetched_batches
    (alone_node (gw_state finished)) (λ _, flight_call 30 "c") one_look.
Proof.
  split; [vm_compute; reflexivity..|exact fetched_kept|exact I| |exact (le_n 1)].
  intros now [->| ->]; vm_compute; reflexivity.
Qed.


(** ** Ingestion *)

Definition ingestion : StatementIngest :=
  {| si_transaction_id := None; si_definition := Some (1, 2); si_temporary := false;
     si_catalog := None; si_schema := None; si_table := "t"; si_options := ∅ |}.

Abbreviation example_ingest := (do_put_statement_ingest hex_decode example_hmac example_parse flight
  (as_ada [("qcli-target", "warehouse")]) ingestion [Ok (GatewayExamples.batch [1])] (λ _, true)).


(** When the ingestion task panics, the [?] on its result returns before the
    session is closed: the session the call had created stays. *)
Example panicking_ingestion_leaks_its_session :
  size (session_owners (gw_state start)) = 0%nat ∧
  size (session_owners (nd_service
    (example_ingest (Some "panic") (λ k, flight_call (Z.of_nat k) "i")
       (alone_node (gw_state start))).2)) = 1%nat.
Proof. vm_compute. done. Qed.

(** ** A cluster *)

(** The collectors of the node run to the end while a call sleeps. *)
Definition collected_service (s : ServiceState) : ServiceState :=
  gw_state (default {| gw_state := s; gw_collectors := [] |}
    (performs policy ((λ n, Collect "/tmp/a" (10 + Z.of_nat n)) <$> seq 0 7)
       {| gw_state := s; gw_collectors := [] |})).
Definition collecting_wait (looks : nat) : Waiting (St:=Memory.MemoryState) (Ob:=gmap string Bytes) :=
  {| w_looks := looks; w_calls := λ _, call 20 "202401010000" "w";
     w_elapsed := λ _ n, with_service (collected_service (nd_service n)) n |}.

Definition with_session : FlightRequest :=
  as_ada [("cookie", SESSION_COOKIE +:+ "=" +:+
    issue_session hex_encode example_hmac example_text "secret" "ada" ada_session 1
      (from_secs 1800) 0)].

Abbreviation example_statement := (get_flight_info_statement hex_encode hex_decode example_hmac
  example_text example_parse (λ _, Ok "schema") (λ t, t) flight).
Definition first_ticket (r : result (FlightResponse FlightInfo) Status) : string :=
  match r with
  | Ok response => default "" (mjoin (head (fi_tickets (fl_body response))))
  | Err _ => ""
  end.

(** A statement of a session, and a stateless one, on node [a] of the cluster. *)
Definition in_session : result (FlightResponse FlightInfo) Status * ExampleNode :=
  example_statement with_session "select 1" (λ _, call 2 "202401010000" "q")
    (collecting_wait 2) (collecting_wait 2) opened_a.
Definition stateless : result (FlightResponse FlightInfo) Status * ExampleNode :=
  example_statement (as_ada [("qcli-target", "warehouse")]) "select 1"
    (λ _, call 2 "202401010000" "q") (collecting_wait 2) (collecting_wait 2) opened_a.

(** Whether a ticket opens on another node over the same stores. *)
Definition opens_elsewhere (ticket : string) (a : ExampleNode) :
    result ResultBatchReader Status :=
  (do_get_statement hex_decode example_hmac example_parse flight (as_ada []) ticket
     (λ _, call 30 "202401010000" "f") (collecting_wait 2)
     (node "b" fresh_service (nd_store a) (nd_objects a))).1.
Definition shared_a (n : ExampleNode) : ExampleNode :=
  foldl (λ n p, (publish_turn digest p 30 1030 n).2) n (nd_publishers n).

(** A stateless query is published and its ticket opens on another node; a query
    of a session goes through the local [submit_session_query], is never
    published, and its ticket is good on the node that ran it only. *)
Example session_tickets_are_node_bound :
  is_ok (opens_elsewhere (first_ticket stateless.1) (shared_a stateless.2)) = true ∧
  (is_ok in_session.1 = true ∧ nd_publishers in_session.2 = [] ∧
   match opens_elsewhere (first_ticket in_session.1) (shared_a in_session.2) with
   | Err e => status_code e = CNotFound
   | Ok _ => False
   end ∧
   is_ok (do_get_statement hex_decode example_hmac example_parse flight (as_ada [])
            (first_ticket in_session.1) (λ _, call 30 "202401010000" "f") (collecting_wait 2)
            in_session.2).1 = true).
Proof. vm_compute. done. Qed.
