(* ===== verification/ArrowBuild.v ===== *)
(** * Building record batches

    What the engine adapters use of [arrow_array] to build batches: arrays of
    three types, [RecordBatch::try_new] and its checks.  The class states the
    documented behaviour; [Cells] is an instance that evaluates, whose rows are
    the cells of the columns. *)
From S2P Require Import Prelude Text Arrow ArrowTypes.

(** An [ArrayRef]: the arrays the adapters build, and any other one as the type,
    length and nulls [try_new] checks. *)
Inductive ArrayRef :=
| Int64Array (values : list Z)
| StringArray (values : list (option string))
| Decimal128Array (values : list (option Z)) (precision scale : Z)
| OtherArray (type : DataType) (length_ : nat) (nulls : bool) (content : string).

Definition array_len (a : ArrayRef) : nat :=
  match a with
  | Int64Array l => length l
  | StringArray l => length l
  | Decimal128Array l _ _ => length l
  | OtherArray _ n _ _ => n
  end.

Definition array_type (a : ArrayRef) : DataType :=
  match a with
  | Int64Array _ => Int64
  | StringArray _ => Utf8
  | Decimal128Array _ p s => Decimal128 p s
  | OtherArray t _ _ _ => t
  end.

Definition has_nulls (a : ArrayRef) : bool :=
  match a with
  | Int64Array _ => false
  | StringArray l => existsb (λ v, bool_decide (v = None)) l
  | Decimal128Array l _ _ => existsb (λ v, bool_decide (v = None)) l
  | OtherArray _ _ b _ => b
  end.

(** ** Equality of types *)

#[global] Instance TimeUnit_eq_dec : EqDecision TimeUnit.
Proof. solve_decision. Defined.

Definition DataType_dec : ∀ x y : DataType, {x = y} + {x ≠ y}.
Proof.
  fix IH 1. intros [] []; try (right; discriminate); try (left; reflexivity).
  - destruct (decide (unit = unit0)) as [->|]; [by left|right; congruence].
  - destruct (decide ((unit, timezone) = (unit0, timezone0))) as [[= -> ->]|];
      [by left|right; congruence].
  - destruct (decide ((precision, scale) = (precision0, scale0))) as [[= -> ->]|];
      [by left|right; congruence].
  - destruct item as [n t b m], item0 as [n' t' b' m'].
    destruct (IH t t') as [->|]; [|right; congruence].
    destruct (decide ((n, b, m) = (n', b', m'))) as [[= -> -> ->]|]; [by left|right; congruence].
  - destruct entries as [n t b m], entries0 as [n' t' b' m'].
    destruct (IH t t') as [->|]; [|right; congruence].
    destruct (decide ((n, b, m, sorted) = (n', b', m', sorted0))) as [[= -> -> -> ->]|];
      [by left|right; congruence].
  - assert ({fields = fields0} + {fields ≠ fields0}) as [->|]; [|by left|right; congruence].
    revert fields0. induction fields as [|[n t b m] fields IHf]; intros [|[n' t' b' m'] fields'];
      try (right; discriminate); [by left|].
    destruct (IH t t') as [->|]; [|right; congruence].
    destruct (decide ((n, b, m) = (n', b', m'))) as [[= -> -> ->]|]; [|right; congruence].
    destruct (IHf fields') as [->|]; [by left|right; congruence].
Defined.

#[global] Instance DataType_eq_dec : EqDecision DataType := DataType_dec.
#[global] Instance Field_eq_dec : EqDecision Field.
Proof.
  intros [n t b m] [n' t' b' m'].
  destruct (decide ((n, t, b, m) = (n', t', b', m'))) as [[= -> -> -> ->]|];
    [by left|right; congruence].
Defined.

(** ** [RecordBatch::try_new] *)

(** The rows of a batch with these columns. *)
Definition row_count (columns : list ArrayRef) : option nat := array_len <$> head columns.

(** One column per field, of its type and without nulls unless it allows them,
    all of one length; at least one column. *)
Definition field_fits (rows : nat) (f : Field) (a : ArrayRef) : bool :=
  bool_decide (array_len a = rows) && bool_decide (array_type a = field_type f)
  && (field_nullable f || negb (has_nulls a)).
Definition columns_fit (fields : ArrowSchema) (columns : list ArrayRef) : bool :=
  match row_count columns with
  | Some rows =>
      bool_decide (length fields = length columns)
      && forallb (λ fc, field_fits rows fc.1 fc.2) (zip fields columns)
  | None => false
  end.

Class ArrowBuild `{Arrow} := {
  schema_of : ArrowSchema → Schema;
  schema_fields : Schema → ArrowSchema;
  batch_columns : RecordBatch → list ArrayRef;
  try_new : ArrowSchema → list ArrayRef → result RecordBatch string;
  (** [Decimal128Array::from(values).with_precision_and_scale(..)]. *)
  with_precision_and_scale : list (option Z) → Z → Z → result ArrayRef string;
}.

Class ArrowBuildLaws `{ArrowBuild} : Prop := {
  schema_fields_of fields : schema_fields (schema_of fields) = fields;
  try_new_accepts fields columns :
    columns_fit fields columns = true → is_ok (try_new fields columns) = true;
  try_new_built fields columns b :
    try_new fields columns = Ok b →
    batch_schema b = schema_of fields ∧ batch_columns b = columns ∧
    num_columns b = Z.of_nat (length columns) ∧
    row_count columns = Some (length (batch_rows b));
  with_precision_and_scale_valid values p s :
    1 ≤ p ≤ 38 → 0 ≤ s ≤ p →
    with_precision_and_scale values p s = Ok (Decimal128Array values p s);
}.

(** A built batch has as many rows as each of its columns. *)
Lemma try_new_rows `{ArrowBuildLaws} fields columns b :
  try_new fields columns = Ok b → row_count columns = Some (length (batch_rows b)).
Proof. intros Hb. by apply try_new_built in Hb as (_ & _ & _ & ?). Qed.

Lemma try_new_fits `{ArrowBuildLaws} fields columns :
  columns_fit fields columns = true → ∃ b, try_new fields columns = Ok b.
Proof.
  intros Hf%try_new_accepts. destruct (try_new fields columns) as [b|e]; [by exists b|done].
Qed.

(** ** A concrete implementation *)
Module Cells.
(** The text of a cell. *)
Definition cell (a : ArrayRef) (i : nat) : option string :=
  match a with
  | Int64Array l => pretty <$> l !! i
  | StringArray l => mjoin (l !! i)
  | Decimal128Array l _ _ => pretty <$> mjoin (l !! i)
  | OtherArray _ _ _ c => Some c
  end.

Record batch := {
  fields : ArrowSchema;
  columns : list ArrayRef;
  rows : list (list (option string));
}.

Definition cut (b : batch) (offset length_ : Z) : batch :=
  {| fields := fields b; columns := columns b;
     rows := take (Z.to_nat length_) (drop (Z.to_nat offset) (rows b)) |}.

(** Sixteen bytes a value. *)
Definition sizes (b : batch) : list Z := (λ _, 16 * Z.of_nat (length (rows b))) <$> columns b.

Lemma cell_sizes_nonneg b : Forall (λ n, 0 ≤ n) (sizes b).
Proof. apply Forall_fmap, Forall_true. intros. simpl. lia. Qed.

Definition arrow : Arrow := {|
  Schema := ArrowSchema;
  schema_empty := [];
  Row := list (option string);
  RecordBatch := batch;
  batch_schema := fields;
  batch_rows := rows;
  num_columns b := Z.of_nat (length (columns b));
  column_sizes := sizes;
  slice := cut;
  column_sizes_nonneg := cell_sizes_nonneg;
  slice_rows _ _ _ _ _ _ := eq_refl;
|}.

Definition build_batch (fs : ArrowSchema) (cs : list ArrayRef) : result batch string :=
  if columns_fit fs cs then
    Ok {| fields := fs; columns := cs;
          rows := (λ i, (λ a, cell a i) <$> cs) <$> seq 0 (default 0%nat (row_count cs)) |}
  else Err "columns do not fit the schema".

Definition decimals (values : list (option Z)) (p s : Z) : result ArrayRef string :=
  if (1 <=? p) && (p <=? 38) && (s <=? p) then Ok (Decimal128Array values p s)
  else Err "invalid precision or scale".

Definition build : @ArrowBuild arrow := {|
  schema_of (fs : ArrowSchema) := fs : @Schema arrow;
  schema_fields (fs : @Schema arrow) := fs;
  batch_columns := columns;
  try_new := build_batch;
  with_precision_and_scale := decimals;
|}.

Lemma build_laws : @ArrowBuildLaws arrow build.
Proof.
  constructor.
  - done.
  - intros fs cs E. simpl. unfold build_batch. by rewrite E.
  - intros fs cs b. simpl. unfold build_batch. destruct (columns_fit fs cs) eqn:E; [|done].
    intros [= <-]. simpl. rewrite length_fmap, length_seq. unfold columns_fit in E.
    by destruct (row_count cs).
  - intros values p s Hp Hs. simpl. unfold decimals.
    destruct (Z.leb_spec 1 p), (Z.leb_spec p 38), (Z.leb_spec s p); simpl; (done || lia).
Qed.
End Cells.
