(* ===== verification/Sink.v ===== *)
(** * What an adapter sends while it executes

    [QuerySink] as the adapters use it: blocking sends of events and batches,
    [try_send], and polls of the cancellation signal, recorded in sending order.
    The engine an adapter talks to is a state of its own ([W]).  [Conforming] is
    what every adapter of this program promises its callers about an execution;
    the command line, the conformance harness and the query service rely on
    it. *)
From S2P Require Import Prelude Text Arrow DriverApi Core.
Import Core.Queries.

Section Sink.
Context `{Arrow} {W : Type}.

(** The other end of the channels: whether the [k]-th batch is taken (the
    receiver is not dropped) and whether there is room for the [k]-th
    [try_send]. *)
Record Channel := { takes : nat → bool; has_room : nat → bool }.

(** An execution under way: what it has sent, how often it polled, offered and
    tried, and the engine. *)
Record Run := {
  sent : list QueryItem;
  polls : nat;
  offered : nat;
  tried : nat;
  world : W;
}.

Definition Run_start (w : W) : Run :=
  {| sent := []; polls := 0; offered := 0; tried := 0; world := w |}.

Definition put_item (x : QueryItem) (s : Run) : Run :=
  {| sent := sent s ++ [x]; polls := polls s; offered := offered s; tried := tried s;
     world := world s |}.
Definition put_world (w : W) (s : Run) : Run :=
  {| sent := sent s; polls := polls s; offered := offered s; tried := tried s; world := w |}.

Definition Step (A : Type) : Type := M Run DriverError A.

(** [sink.events.send(e).await.ok()]. *)
Definition emit (e : QueryEvent) : Step unit := modify (put_item (Event e)).

(** [sink.events.try_send(e).ok()]. *)
Definition try_emit (ch : Channel) (e : QueryEvent) : Step unit := λ s,
  let s' := {| sent := sent s; polls := polls s; offered := offered s; tried := S (tried s);
               world := world s |} in
  (Ok tt, if has_room ch (tried s) then put_item (Event e) s' else s').

Definition consumer_closed : DriverError :=
  DriverError_new "consumer_closed" "result consumer closed".

(** [sink.batches.send(b).await.map_err(..)?]. *)
Definition offer (ch : Channel) (b : RecordBatch) : Step unit := λ s,
  let s' := {| sent := sent s; polls := polls s; offered := S (offered s); tried := tried s;
               world := world s |} in
  if takes ch (offered s) then (Ok tt, put_item (Batch b) s') else (Err consumer_closed, s').

(** [sink.cancellation.is_cancelled()]. *)
Definition poll_cancelled (i : Invocation) : Step bool := λ s,
  (Ok (poll i (polls s)),
   {| sent := sent s; polls := S (polls s); offered := offered s; tried := tried s;
      world := world s |}).

(** A request to the engine. *)
Definition ask {E A} (f : E → DriverError) (m : M W E A) : Step A := on world put_world f m.

(** A loop: [body] goes round again with the state it returns on the left, or
    leaves with a value on the right.  [inl] after [fuel] rounds: still running. *)
Fixpoint iterate {S E A B} (body : A → M S E (A + B)) (fuel : nat) (a : A) : M S E (A + B) :=
  match fuel with
  | O => mret (inl a)
  | S fuel =>
      r ← body a;
      match r with
      | inl a' => iterate body fuel a'
      | inr b => mret (inr b)
      end
  end.

(** The execution of [m] once it has ended; [None] while it is still running. *)
Definition execution_of {A} (m : Step (A + unit)) (w : W) : option Execution :=
  match m (Run_start w) with
  | (Ok (inl _), _) => None
  | (Ok (inr _), s) => Some {| ex_items := sent s; ex_result := Ok tt |}
  | (Err e, s) => Some {| ex_items := sent s; ex_result := Err e |}
  end.

Definition execution (m : Step unit) (w : W) : Execution :=
  let '(r, s) := m (Run_start w) in {| ex_items := sent s; ex_result := r |}.
End Sink.
Arguments Run : clear implicits.
Arguments Run {_} _.
Arguments Step : clear implicits.
Arguments Step {_} _ _.

Lemma bind_Ok {S E A B} (m : M S E A) (f : A → M S E B) s b s' :
  mbind f m s = (Ok b, s') → ∃ a s1, m s = (Ok a, s1) ∧ f a s1 = (Ok b, s').
Proof. unfold_M. destruct (m s) as [[a|e] s1]; [by exists a, s1|done]. Qed.

Lemma bind_step {S E A B} (m : M S E A) (f : A → M S E B) s a s1 :
  m s = (Ok a, s1) → mbind f m s = f a s1.
Proof. intros E1. unfold_M. by rewrite E1. Qed.

(** A loop whose rounds decrease a measure ends within that many. *)
Lemma iterate_ends {S E A B} (body : A → M S E (A + B)) (measure : A → nat) (I : A → Prop) fuel :
  (∀ a s a' s', I a → body a s = (Ok (inl a'), s') → I a' ∧ (measure a' < measure a)%nat) →
  ∀ a s a' s', I a → (measure a < fuel)%nat → iterate body fuel a s ≠ (Ok (inl a'), s').
Proof.
  intros Hb. induction fuel as [|fuel IH]; intros a s a' s' Ha Hm; [lia|].
  simpl. unfold_M. destruct (body a s) as [[[a1|b]|e] s1] eqn:Hs; [|done..].
  destruct (Hb _ _ _ _ Ha Hs) as [Ha1 Hm1]. apply IH; [done|lia].
Qed.

(** [m] is never still running when it returns. *)
Definition ends {S E A B} (m : M S E (A + B)) : Prop := ∀ s a s', m s ≠ (Ok (inl a), s').

Lemma ends_bind {S E A B C} (m : M S E C) (f : C → M S E (A + B)) :
  (∀ c, ends (f c)) → ends (mbind f m).
Proof. intros Hf s a s'. unfold_M. destruct (m s) as [[c|e] s1]; [apply Hf|done]. Qed.
Lemma ends_of_result {S E A B C} (r : result C E) (f : C → M S E (A + B)) :
  (∀ c, r = Ok c → ends (f c)) → ends (mbind f (of_result r)).
Proof. intros Hf s a s'. unfold_M. destruct r as [c|e]; [by apply Hf|done]. Qed.
Lemma ends_inr {S E A B} (b : B) : ends (S:=S) (E:=E) (A:=A) (mret (inr b)).
Proof. done. Qed.
Lemma ends_then {S E A B C} (m : M S E (A + B)) (f : B → M S E (A + C)) :
  ends m → (∀ b, ends (f b)) →
  ends (r ← m; match r with inl a => mret (inl a) | inr b => f b end).
Proof.
  intros Hm Hf s a s'. unfold_M. destruct (m s) as [[[a1|b]|e] s1] eqn:Hs; [|by apply Hf|done].
  by apply Hm in Hs.
Qed.

Lemma ends_execution `{Arrow} {W A} (m : Step W (A + unit)) w : ends m → execution_of m w ≠ None.
Proof.
  intros Hm. unfold execution_of. destruct (m (Run_start w)) as [[[a|[]]|e] s] eqn:Hs; [|done..].
  by apply Hm in Hs.
Qed.

(** ** What adapters promise *)

Section Contract.
Context `{Arrow}.

(** The states an adapter may report: the terminal ones and [Submitted] belong to
    the query service. *)
Definition reportable (st : QueryState) : bool :=
  match st with Running | ProducingResults | Cancelling => true | _ => false end.

(** Anything but a report of rows and a state that is not the adapter's. *)
Definition quiet (x : QueryItem) : bool :=
  match x with
  | Event (RowsProduced _) => false
  | Event (State st) => reportable st
  | _ => true
  end.

(** Every batch comes after the announcement that results are produced. *)
Definition announced (items : list QueryItem) : Prop :=
  ∀ a b c, items = a ++ Batch b :: c → Event (State ProducingResults) ∈ a.

(** Rows are counted in [usize]. *)
Definition counted (items : list QueryItem) : Z := sum_rows (batches_of items) mod 2 ^ 64.

Record Conforming (x : Execution) : Prop := {
  conforming_starts :
    match ex_items x with
    | [] => is_ok (ex_result x) = false
    | i :: _ => i = Event (State Running)
    end;
  conforming_announces : announced (ex_items x);
  (** The command line reads the events of a query after its batches, from a
      channel of eight. *)
  conforming_fits : (length (events_of (ex_items x)) ≤ 6)%nat;
  conforming_reports :
    match ex_result x with
    | Ok _ => ∃ items, ex_items x = items ++ [Event (RowsProduced (counted items))] ∧
                       Forall quiet items
    | Err _ => Forall quiet (ex_items x)
    end;
}.

(** The promise of a runner: every execution that ends conforms. *)
Class Conforms {R} (run : R → option Execution) : Prop :=
  conforms r x : run r = Some x → Conforming x.

(** ** Proving it

    [on_track n total producing items]: [items] are the start of a conforming
    execution with at most [n] events besides the announcement, [total] rows so
    far, announced if [producing]. *)
Record on_track (n : nat) (total : Z) (producing : bool) (items : list QueryItem) : Prop := {
  track_head : head items = Some (Event (State Running));
  track_quiet : Forall quiet items;
  track_announced : announced items;
  track_producing : producing = true → Event (State ProducingResults) ∈ items;
  track_count : (length (events_of items) ≤ n + if producing then 1 else 0)%nat;
  track_total : total = counted items;
}.

Lemma events_of_snoc items x :
  events_of (items ++ [x]) = events_of items ++ match x with Event e => [e] | Batch _ => [] end.
Proof. unfold events_of. rewrite omap_app. by destruct x. Qed.
Lemma batches_of_snoc items x :
  batches_of (items ++ [x]) = batches_of items ++ match x with Batch b => [b] | Event _ => [] end.
Proof. unfold batches_of. rewrite omap_app. by destruct x. Qed.

Lemma announced_snoc items x :
  announced items →
  match x with Batch _ => Event (State ProducingResults) ∈ items | Event _ => True end →
  announced (items ++ [x]).
Proof.
  intros Ha Hx a b c E. destruct c as [|y c _] using rev_ind.
  - apply app_inj_tail in E as [-> ->]. done.
  - rewrite app_comm_cons, app_assoc in E. apply app_inj_tail in E as [-> _]. by eapply Ha.
Qed.

Lemma head_snoc {A} (l : list A) x y : head l = Some y → head (l ++ [x]) = Some y.
Proof. by destruct l. Qed.

Lemma counted_event items e : counted (items ++ [Event e]) = counted items.
Proof. unfold counted. by rewrite batches_of_snoc, app_nil_r. Qed.
Lemma counted_batch items b :
  counted (items ++ [Batch b]) = usize_add (counted items) (num_rows b).
Proof.
  unfold counted, usize_add. rewrite batches_of_snoc, sum_rows_app. simpl.
  rewrite Z.add_0_r. by rewrite Zplus_mod_idemp_l.
Qed.

Lemma on_track_start : on_track 1 0 false [Event (State Running)].
Proof.
  constructor; try done.
  - by repeat constructor.
  - apply (announced_snoc []); [|done]. by intros [|??].
Qed.

Lemma on_track_event n total producing items e :
  quiet (Event e) → on_track n total producing items →
  on_track (S n) total producing (items ++ [Event e]).
Proof.
  intros He []. constructor.
  - by apply head_snoc.
  - apply Forall_app. by repeat constructor.
  - by apply announced_snoc.
  - set_solver.
  - rewrite events_of_snoc, length_app. simpl. lia.
  - by rewrite counted_event.
Qed.

Lemma on_track_producing n total items :
  on_track n total false items →
  on_track n total true (items ++ [Event (State ProducingResults)]).
Proof.
  intros []. constructor.
  - by apply head_snoc.
  - apply Forall_app. by repeat constructor.
  - by apply announced_snoc.
  - set_solver.
  - rewrite events_of_snoc, length_app. simpl in *. lia.
  - by rewrite counted_event.
Qed.

Lemma on_track_batch n total items b :
  on_track n total true items →
  on_track n (usize_add total (num_rows b)) true (items ++ [Batch b]).
Proof.
  intros []. constructor.
  - by apply head_snoc.
  - apply Forall_app. by repeat constructor.
  - apply announced_snoc; auto.
  - set_solver.
  - rewrite events_of_snoc, length_app. simpl in *. lia.
  - rewrite counted_batch. by f_equal.
Qed.

Lemma on_track_weaken n m total producing items :
  (n ≤ m)%nat → on_track n total producing items → on_track m total producing items.
Proof. intros Hle []. constructor; try done. lia. Qed.

Lemma conforming_done n total producing items :
  (n ≤ 4)%nat → on_track n total producing items →
  Conforming {| ex_items := items ++ [Event (RowsProduced total)]; ex_result := Ok tt |}.
Proof.
  intros Hn []. constructor; simpl.
  - destruct items; naive_solver.
  - by apply announced_snoc.
  - rewrite events_of_snoc, length_app. simpl. destruct producing; lia.
  - exists items. by rewrite track_total0.
Qed.

Lemma conforming_failed n total producing items e :
  (n ≤ 5)%nat → on_track n total producing items →
  Conforming {| ex_items := items; ex_result := Err e |}.
Proof.
  intros Hn []. constructor; simpl.
  - destruct items; naive_solver.
  - done.
  - destruct producing; lia.
  - done.
Qed.

(** An execution that fails before it has sent anything. *)
Lemma conforming_refused e : Conforming (no_output e).
Proof. constructor; simpl; [done|by intros [|??]|lia|by constructor]. Qed.

(** ** Steps of an execution *)

Context {W : Type}.
Implicit Types (s : Run W).

(** After [m] the execution is on track; if [m] fails it was so before. *)
Definition tracks {A} (P : list QueryItem → Prop) (m : Step W A)
    (Q : A → list QueryItem → Prop) : Prop :=
  triple (λ s, P (sent s)) m (λ a s, Q a (sent s))
    (λ _ s, ∃ n total producing, (n ≤ 5)%nat ∧ on_track n total producing (sent s)).

Lemma tracks_bind {A B} P (m : Step W A) (f : A → Step W B) Q Q' :
  tracks P m Q → (∀ a, tracks (Q a) (f a) Q') → tracks P (mbind f m) Q'.
Proof. apply triple_bind. Qed.

Lemma tracks_pure {A} (φ : Prop) (P : list QueryItem → Prop) (m : Step W A) Q :
  (φ → tracks P m Q) → tracks (λ items, φ ∧ P items) m Q.
Proof. intros Hm s [Hφ HP]. by apply Hm. Qed.

Lemma tracks_exists {A B} (P : B → list QueryItem → Prop) (m : Step W A) Q :
  (∀ b, tracks (P b) m Q) → tracks (λ items, ∃ b, P b items) m Q.
Proof. intros Hm s [b HP]. by apply (Hm b). Qed.

Lemma tracks_ret {A} (P : list QueryItem → Prop) (a : A) (Q : A → list QueryItem → Prop) :
  (∀ items, P items → Q a items) → tracks P (mret a) Q.
Proof. intros HQ s. apply HQ. Qed.

Lemma tracks_fail {A} n total producing e (Q : A → list QueryItem → Prop) :
  (n ≤ 5)%nat → tracks (on_track n total producing) (fail e) Q.
Proof. intros Hn s Hs. simpl. by exists n, total, producing. Qed.

(** [let a = r?;]. *)
Lemma tracks_result {A B} n total producing (r : result A DriverError) (f : A → Step W B) Q :
  (n ≤ 5)%nat → (∀ a, r = Ok a → tracks (on_track n total producing) (f a) Q) →
  tracks (on_track n total producing) (mbind f (of_result r)) Q.
Proof.
  intros Hn Hf s Hs. unfold_M. destruct r as [a|e]; [by apply Hf|by exists n, total, producing].
Qed.

Lemma tracks_emit (P Q : list QueryItem → Prop) e :
  (∀ items, P items → Q (items ++ [Event e])) → tracks P (emit e) (λ _, Q).
Proof. intros HQ s Hs. by apply HQ. Qed.

Lemma tracks_try_emit n total producing ch e :
  quiet (Event e) →
  tracks (on_track n total producing) (try_emit ch e) (λ _, on_track (S n) total producing).
Proof.
  intros He s Hs. simpl. destruct (has_room ch (tried s)); simpl.
  - by apply on_track_event.
  - apply (on_track_weaken n); [lia|done].
Qed.

Lemma tracks_offer n total ch b :
  (n ≤ 5)%nat →
  tracks (on_track n total true) (offer ch b)
    (λ _, on_track n (usize_add total (num_rows b)) true).
Proof.
  intros Hn s Hs. unfold offer. destruct (takes ch (offered s)); simpl.
  - by apply on_track_batch.
  - by exists n, total, true.
Qed.

Lemma tracks_poll (P : list QueryItem → Prop) i : tracks P (poll_cancelled i) (λ _, P).
Proof. by intros s. Qed.

Lemma tracks_ask {E A} n total producing (f : E → DriverError) (m : M W E A) :
  (n ≤ 5)%nat →
  tracks (on_track n total producing) (ask f m) (λ _, on_track n total producing).
Proof.
  intros Hn s Hs. unfold ask, on. destruct (m (world s)) as [[a|e] w]; simpl; [done|].
  by exists n, total, producing.
Qed.

(** Nobody cancels, and the consumer takes every batch. *)
Definition undisturbed (ch : Channel) (i : Invocation) : Prop :=
  (∀ k, takes ch k = true) ∧ (∀ k, poll i k = false).

Lemma offer_taken ch i b s :
  undisturbed ch i →
  ∃ s', offer ch b s = (Ok tt, s') ∧ sent s' = sent s ++ [Batch b] ∧ world s' = world s.
Proof. intros [Ht _]. unfold offer. rewrite Ht. eauto. Qed.

Lemma poll_undisturbed ch i s :
  undisturbed ch i →
  ∃ s', poll_cancelled i s = (Ok false, s') ∧ sent s' = sent s ∧ world s' = world s.
Proof. intros [_ Hp]. unfold poll_cancelled. rewrite Hp. eauto. Qed.

(** A loop keeps its invariant. *)
Lemma tracks_iterate {A B} (P : A → list QueryItem → Prop) (body : A → Step W (A + B)) Q fuel :
  (∀ a, tracks (P a) (body a) (λ r, match r with inl a' => P a' | inr b => Q b end)) →
  ∀ a, tracks (P a) (iterate body fuel a) (λ r, match r with inl a' => P a' | inr b => Q b end).
Proof.
  intros Hb. induction fuel as [|fuel IH]; intros a; [by apply tracks_ret|]. simpl.
  eapply tracks_bind; [apply Hb|]. intros [a'|b]; [apply IH|by apply tracks_ret].
Qed.

(** An execution whose steps are on track from its first event conforms. *)
Definition finished (items : list QueryItem) : Prop :=
  ∃ n total producing items', (n ≤ 4)%nat ∧ on_track n total producing items' ∧
    items = items' ++ [Event (RowsProduced total)].

Lemma tracks_report n total producing :
  (n ≤ 4)%nat →
  tracks (on_track n total producing) (emit (RowsProduced total)) (λ _, finished).
Proof. intros Hn. apply tracks_emit. intros items Ht. by exists n, total, producing, items. Qed.

Lemma tracks_execution {A} P (m : Step W (A + unit)) (Q : A → list QueryItem → Prop) w x :
  tracks P m (λ r, match r with inl a => Q a | inr _ => finished end) → P [] →
  execution_of m w = Some x → Conforming x.
Proof.
  intros Hm HP. unfold execution_of. specialize (Hm (Run_start w) HP).
  destruct (m (Run_start w)) as [[[a|[]]|e] s]; [done|..]; intros [= <-].
  - destruct Hm as (n & total & p & items & Hn & Ht & ->). by eapply conforming_done.
  - destruct Hm as (n & total & p & Hn & Ht). by eapply conforming_failed.
Qed.
End Contract.

#[export] Hint Resolve tracks_ret tracks_try_emit tracks_offer tracks_poll tracks_ask
  on_track_event on_track_producing : gateway.

(** ** The conformance harness (crates/qcli-driver-conformance/src/lib.rs)

    [run_query] drains both channels of one execution; the assertions are the
    conditions under which they do not panic.  For an adapter that keeps the
    promise of [Conforming], the portable assertion can fail only because the
    query failed or had no rows. *)

Section Conformance.
Context `{Arrow}.

Record QueryOutcome := {
  oc_events : list QueryEvent;
  oc_batches : list RecordBatch;
  oc_result : result unit DriverError;
}.

(** [batches.iter().map(RecordBatch::num_rows).sum()]. *)
Definition outcome_row_count (o : QueryOutcome) : Z := sum_rows (oc_batches o) mod 2 ^ 64.

Fixpoint find_map {A B} (f : A → option B) (l : list A) : option B :=
  match l with
  | [] => None
  | a :: l => match f a with Some b => Some b | None => find_map f l end
  end.

Definition outcome_engine_query_id (o : QueryOutcome) : option string :=
  find_map (λ e, match e with EngineQueryId id => Some id | _ => None end) (oc_events o).

Definition conformance_request (engine_ target : string) (properties : gmap string string)
    (sql : string) : QueryRequest :=
  {| qcli_query_id := "conformance-query-1"; rq_session_id := "conformance-session-1";
     rq_session_version := 1; rq_target := target; rq_engine := engine_; rq_sql := sql;
     rq_properties := properties |}.

(** What draining both channels to their end collects of an execution. *)
Definition outcome_of (x : Execution) : QueryOutcome :=
  {| oc_events := events_of (ex_items x); oc_batches := batches_of (ex_items x);
     oc_result := ex_result x |}.

Definition run_query (adapter : EngineAdapter) (target : string)
    (properties : gmap string string) (sql : string) (i : Invocation) : QueryOutcome :=
  outcome_of (execute adapter (conformance_request (engine adapter) target properties sql) i).

Definition required_capabilities : list AdapterCapability :=
  [StreamResults; ListCatalogs; ListSchemas; ListObjects; DescribeObject].

Definition assert_common_capabilities (c : AdapterCapabilities) : bool :=
  forallb (supports c) required_capabilities.

Definition reported_rows (o : QueryOutcome) : option Z :=
  find_map (λ e, match e with RowsProduced rows => Some rows | _ => None end)
    (rev (oc_events o)).

Definition assert_portable_query (o : QueryOutcome) : bool :=
  is_ok (oc_result o) && (0 <? outcome_row_count o)
  && match reported_rows o with
     | Some reported => reported =? outcome_row_count o
     | None => true
     end.

(** ** Conforming adapters *)

(** The harness measures what it means to.  For an execution that keeps the
    promise of the adapters, [assert_portable_query] holds exactly when the query
    succeeded with at least one row: the count an adapter reports always agrees
    with the rows it sent. *)
Theorem conforming_executions_pass x :
  Conforming x →
  assert_portable_query (outcome_of x)
  = is_ok (ex_result x) && (0 <? outcome_row_count (outcome_of x)).
Proof.
  intros [_ _ _ Hr]. unfold assert_portable_query. simpl.
  destruct (ex_result x) as [[]|e]; [|done]. simpl.
  destruct Hr as (items & Hi & _). unfold reported_rows, outcome_row_count. simpl. rewrite Hi.
  rewrite events_of_snoc, batches_of_snoc, app_nil_r, rev_app_distr. simpl.
  unfold counted. rewrite Z.eqb_refl. apply andb_true_r.
Qed.
End Conformance.
