(* ===== verification/Demo.v ===== *)
(** * The demo adapter (crates/qcli-driver-demo/src/lib.rs)

    The whole [EngineAdapter] of the deterministic engine.  Its only state is the
    process-wide table of ingested batches ([ingested_tables]), which [ingest]
    changes and [execute] reads; [DemoAdapter] is the adapter over a given
    table. *)
From S2P Require Import Prelude Text Chars Config Arrow ArrowTypes ArrowBuild DriverApi Core.
From S2P Require Import Sink.
From Stdlib Require Import Ascii.
Import Core.Queries.

(** ** Statements *)

Definition parse_session_update (sql : string) : result (option (string * string)) DriverError :=
  match strip_prefix "set-session " sql with
  | None => Ok None
  | Some value =>
      let? (name, value) := ok_or (split_once "=" value)
        (DriverError_new "invalid_session_update" "set-session requires name=value") in
      if is_empty name || is_empty value
      then Err (DriverError_new "invalid_session_update"
                  "set-session requires non-empty name and value")
      else Ok (Some (name, value))
  end.

Definition demo_glob_matches (pattern : option string) (value : string) : bool :=
  match pattern with
  | None => true
  | Some pattern =>
      match strip_suffix "*" pattern with
      | Some prefix => starts_with prefix value
      | None => String.eqb value pattern
      end
  end.

(** [str::parse::<usize>()]. *)
Definition parse_usize : string → option Z := parse_u64.

Definition parse_generate (sql : string) : result (option Z) DriverError :=
  let required := DriverError_new "invalid_generate" "generate requires a non-negative row count" in
  match split_whitespace sql with
  | word :: words =>
      if eq_ignore_ascii_case word "generate" then
        match words with
        | [] => Err required
        | [value] => map_err (λ _, required) (let? n := ok_or (parse_usize value) tt in Ok (Some n))
        | _ => Err (DriverError_new "invalid_generate" "generate accepts exactly one row count")
        end
      else Ok None
  | [] => Ok None
  end.

Definition selected_table (statement : string) : option string :=
  match split_ascii_whitespace (trim_end_matches ";"%char statement) with
  | [w0; w1; w2; w3] =>
      if eq_ignore_ascii_case w0 "select" && String.eqb w1 "*" && eq_ignore_ascii_case w2 "from"
      then Some (to_ascii_lowercase w3) else None
  | _ => None
  end.

(** What [execute] reads of the text it is given. *)
Definition statement_text (sql : string) : string :=
  trim_end (trim_end_matches ";"%char (trim sql)).

Section Demo.
Context `{bu : ArrowBuild}.

Definition arrow_error (error : string) : DriverError := DriverError_new "arrow" error.

Definition i64_max : Z := 2 ^ 63 - 1.

(** [i64::try_from(value).unwrap_or(i64::MAX)]. *)
Definition to_i64 (value : Z) : Z := if value <=? i64_max then value else i64_max.

Definition demo_fields (amount_nullable : bool) : ArrowSchema :=
  [Field_new "id" Int64 false; Field_new "name" Utf8 false;
   Field_new "amount" (Decimal128 18 6) amount_nullable].

Definition generated_batch (offset rows : Z) : result RecordBatch DriverError :=
  let ids := to_i64 <$> seqZ offset rows in
  let names := (λ value, "row-" +:+ pretty value) <$> ids in
  let amounts := (λ value, value * 1000001) <$> ids in
  let? amount := map_err arrow_error (with_precision_and_scale (Some <$> amounts) 18 6) in
  map_err arrow_error
    (try_new (demo_fields false) [Int64Array ids; StringArray (Some <$> names); amount]).

Definition sample_batch : result RecordBatch DriverError :=
  let? amount := map_err arrow_error (with_precision_and_scale [Some 123456789; None] 18 6) in
  map_err arrow_error
    (try_new (demo_fields true)
       [Int64Array [1; 2]; StringArray [Some "alpha"; Some "beta-name-that-can-be-truncated"];
        amount]).

(** ** [execute] *)

(** [ingested_tables()]. *)
Definition DemoTables := gmap string (list RecordBatch).

Definition was_cancelled : DriverError := DriverError_new "cancelled" "query was cancelled".

Section Execute.
Context (ch : Channel) (i : Invocation).

Definition reject_cancelled : Step DemoTables unit :=
  cancelled ← poll_cancelled i; reject_if cancelled was_cancelled.

(** [for _ in 0..n { .. }]. *)
Fixpoint wait_for_cancel (n : nat) : Step DemoTables unit :=
  match n with
  | O => mret tt
  | S n => _ ← reject_cancelled; wait_for_cancel n
  end.

(** The batches of an ingested table; returns the rows. *)
Fixpoint send_all (rows : Z) (batches : list RecordBatch) : Step DemoTables Z :=
  match batches with
  | [] => mret rows
  | b :: batches => _ ← offer ch b; send_all (usize_add rows (num_rows b)) batches
  end.

(** One turn of the loop of [generate]. *)
Definition generate_turn (total rows : Z) : Step DemoTables (Z + Z) :=
  if rows <? total then
    _ ← reject_cancelled;
    let batch_rows := Z.min (total - rows) 1024 in
    b ← of_result (generated_batch rows batch_rows);
    _ ← offer ch b;
    mret (inl (usize_add rows batch_rows))
  else mret (inr rows).

(** What is sent, and how many rows; [inl] while [generate] still runs. *)
Definition produce (statement : string) (generated : option Z) (tables : DemoTables) (fuel : nat) :
    Step DemoTables (Z + Z) :=
  match selected_table statement ≫= λ table, tables !! table with
  | Some batches => rows ← send_all 0 batches; mret (inr rows)
  | None =>
      match generated with
      | Some total => iterate (generate_turn total) fuel 0
      | None =>
          b ← of_result sample_batch;
          _ ← offer ch b;
          mret (inr (num_rows b))
      end
  end.

Definition demo_run (request : QueryRequest) (fuel : nat) : Step DemoTables (Z + unit) :=
  _ ← emit (State Running);
  _ ← emit (EngineQueryId ("demo-" +:+ qcli_query_id request));
  let statement := statement_text (rq_sql request) in
  _ ← reject_if (eq_ignore_ascii_case statement "fail")
        (DriverError_new "demo_failure" "requested deterministic failure");
  _ ← (if eq_ignore_ascii_case statement "wait-for-cancel" then wait_for_cancel 1000
       else mret tt);
  _ ← reject_cancelled;
  update ← of_result (parse_session_update statement);
  _ ← match update with
      | Some (name, value) => emit (SessionProperties {[ name := value ]})
      | None => mret tt
      end;
  _ ← emit (State ProducingResults);
  generated ← of_result (parse_generate statement);
  tables ← gets world;
  r ← produce statement generated tables fuel;
  match r with
  | inl rows => mret (inl rows)
  | inr rows => _ ← emit (RowsProduced rows); mret (inr tt)
  end.

(** The batches a statement can need: one per 1,024 rows, and a turn to stop. *)
Definition demo_fuel (request : QueryRequest) : nat :=
  match parse_generate (statement_text (rq_sql request)) with
  | Ok (Some total) => S (Z.to_nat (total `div` 1024 + 1))
  | _ => 1
  end.

Definition demo_execute (tables : DemoTables) (request : QueryRequest) : option Execution :=
  execution_of (demo_run request (demo_fuel request)) tables.
End Execute.

(** ** Prepared statements and updates *)

Definition parameter_count (request : QueryRequest) : nat := count_char "?" (rq_sql request).

Definition demo_prepare (request : QueryRequest) :
    result PreparedStatementMetadata DriverError :=
  let n := parameter_count request in
  let parameters :=
    (λ index : nat, Field_new ("parameter_" +:+ pretty (Z.of_nat index)) Utf8 true) <$> seq 0 n in
  let? dataset :=
    if (0 <? n)%nat then Ok (schema_of parameters)
    else if starts_with "select" (to_ascii_lowercase (trim_start (rq_sql request)))
            || eq_ignore_ascii_case (trim (rq_sql request)) "wait-for-cancel"
    then let? b := sample_batch in Ok (batch_schema b)
    else Ok schema_empty in
  Ok {| dataset_schema := dataset; parameter_schema := schema_of parameters |}.

(** The fields of bound parameters, by position. *)
Definition named_parameters (b : RecordBatch) : ArrowSchema :=
  imap (λ index f, Field_new ("parameter_" +:+ pretty (Z.of_nat index)) (field_type f)
                     (field_nullable f)) (schema_fields (batch_schema b)).

Definition bind_parameters (count : nat) (b : RecordBatch) : result RecordBatch DriverError :=
  if (0 <? count)%nat && (Z.of_nat count =? num_columns b) then
    map_err (λ error, DriverError_new "demo_schema" ("could not name parameters: " +:+ error))
      (try_new (named_parameters b) (batch_columns b))
  else Ok b.

Fixpoint echo_parameters (ch : Channel) (count : nat) (rows : Z) (parameters : list RecordBatch) :
    Step DemoTables Z :=
  match parameters with
  | [] => mret rows
  | b :: parameters =>
      b' ← of_result (bind_parameters count b);
      _ ← offer ch b';
      echo_parameters ch count (usize_add rows (num_rows b')) parameters
  end.

Definition demo_execute_prepared (ch : Channel) (tables : DemoTables) (request : QueryRequest)
    (parameters : list RecordBatch) (i : Invocation) : option Execution :=
  if all_without_columns parameters then demo_execute ch i tables request
  else
    Some (execution
      (_ ← emit (State Running);
       rows ← echo_parameters ch (parameter_count request) 0 parameters;
       emit (RowsProduced rows)) tables).

Definition demo_execute_update (_ : QueryRequest) : result Z DriverError := Ok 1.

Definition usize_sum (l : list Z) : Z := foldl usize_add 0 l.

Definition demo_execute_prepared_update (parameters : list RecordBatch) : result Z DriverError :=
  Ok (to_i64 (Z.max (usize_sum (num_rows <$> parameters)) 1)).

(** ** Ingestion *)

Definition ingestion_cancelled : DriverError :=
  DriverError_new "cancelled" "ingestion was cancelled".

(** The loop over the source: every batch is followed by a poll of the signal.
    Returns the number of polls and of rows. *)
Fixpoint receive (i : Invocation) (polls : nat) (schema : option Schema) (row_count : Z)
    (batches : list RecordBatch) : result (nat * Z) DriverError :=
  match batches with
  | [] => Ok (polls, row_count)
  | b :: batches =>
      if poll i polls then Err ingestion_cancelled
      else if match schema with
              | Some expected => negb (bool_decide (expected = batch_schema b))
              | None => false
              end
      then Err (DriverError_new "ingest_schema_mismatch"
                  "all ingestion batches must have the same Arrow schema")
      else receive i (S polls) (Some (default (batch_schema b) schema))
             (Z.min (row_count + to_i64 (num_rows b)) i64_max) batches
  end.

(** What [ingest] does to the tables once everything has arrived. *)
Definition store_table (request : IngestRequest) (incoming : list RecordBatch) :
    M DemoTables DriverError unit :=
  let key := to_ascii_lowercase (ig_table request) in
  tables ← get_state;
  match tables !! key with
  | None =>
      if create_if_missing request then modify (<[key := incoming]>)
      else fail (DriverError_new "ingest_table_not_found" "ingestion target does not exist")
  | Some existing =>
      match if_exists request with
      | Fail => fail (DriverError_new "ingest_table_exists" "ingestion target already exists")
      | Append =>
          if match head existing, head incoming with
             | Some e, Some n => negb (bool_decide (batch_schema e = batch_schema n))
             | _, _ => false
             end
          then fail (DriverError_new "ingest_schema_mismatch"
                       "append schema does not match the ingestion target")
          else modify (<[key := existing ++ incoming]>)
      | Replace => modify (<[key := incoming]>)
      end
  end.

Definition demo_ingest (request : IngestRequest) (batches : list RecordBatch) (i : Invocation) :
    M DemoTables DriverError Z :=
  _ ← reject_if (temporary request)
        (DriverError_new "unsupported_ingest_mode"
           "the demo adapter does not support temporary ingestion");
  '(polls, row_count) ← of_result (receive i 0 None 0 batches);
  _ ← reject_if (poll i polls) ingestion_cancelled;
  _ ← store_table request batches;
  mret row_count.

(** ** Metadata *)

Definition demo_list_catalogs (_ : MetadataRequest) : result (list CatalogMetadata) DriverError :=
  Ok [{| cat_name := "demo" |}].

Definition demo_list_schemas (request : MetadataRequest) :
    result (list SchemaMetadata) DriverError :=
  Ok [{| sm_catalog := Some (default "demo" (mr_catalog request)); sm_name := "public" |}].

Definition demo_list_objects (request : MetadataRequest) :
    result (list ObjectMetadata) DriverError :=
  Ok (filter (λ o, demo_glob_matches (mr_pattern request) (om_name o))
    [{| om_catalog := mr_catalog request; om_schema := mr_schema request;
        om_name := "events"; om_kind := Table |};
     {| om_catalog := mr_catalog request; om_schema := mr_schema request;
        om_name := "event_summary"; om_kind := View |}]).

Definition demo_describe_object (object : string) : result (list ColumnMetadata) DriverError :=
  if negb (String.eqb object "events") && negb (String.eqb object "event_summary")
  then Err (DriverError_new "object_not_found" ("object '" +:+ object +:+ "' does not exist"))
  else
    Ok [{| cm_name := "event_id"; cm_data_type := "bigint"; cm_nullable := Some false;
           cm_comment := None |};
        {| cm_name := "event_name"; cm_data_type := "varchar"; cm_nullable := Some true;
           cm_comment := Some "display name" |}].

(** ** The adapter *)

Definition demo_capabilities : AdapterCapabilities :=
  from_supported
    [StreamResults; CancelQuery; ListCatalogs; ListSchemas; ListObjects; DescribeObject;
     PreparedStatements; TypedParameters; StatementUpdates; BulkIngest].

(** An execution always ends ([demo_execute_ends]). *)
Definition ended (x : option Execution) : Execution :=
  default (no_output (DriverError_new EmptyString EmptyString)) x.

Definition DemoAdapter (ch : Channel) (tables : DemoTables) : EngineAdapter :=
  {| engine := "demo";
     capabilities := demo_capabilities;
     identifier_capabilities := IdentifierCapabilities_default;
     execute request i := ended (demo_execute ch i tables request);
     prepare request _ := demo_prepare request;
     execute_prepared request parameters i :=
       ended (demo_execute_prepared ch tables request parameters i);
     execute_update request _ := demo_execute_update request;
     execute_prepared_update _ parameters _ := demo_execute_prepared_update parameters;
     ingest request batches i := (demo_ingest request batches i tables).1;
     list_catalogs request _ := demo_list_catalogs request;
     list_schemas request _ := demo_list_schemas request;
     list_objects request _ := demo_list_objects request;
     describe_object _ object _ := demo_describe_object object |}.
End Demo.
