(* ===== verification/DemoFacts.v ===== *)
(** * Facts about the demo adapter

    Its executions end and conform, generated rows count up from zero, what is
    ingested is what a select returns, and a refused ingestion changes
    nothing. *)
From S2P Require Import Prelude Text Chars Config Arrow ArrowTypes ArrowBuild DriverApi Core.
From S2P Require Import Sink Demo.
Import Core.Queries.

Lemma parse_digits_bound s : ∀ acc n,
  0 ≤ acc ≤ u64_max → parse_digits acc s = Some n → 0 ≤ n ≤ u64_max.
Proof.
  induction s as [|c s IH]; intros acc n Ha; simpl; [by intros [= <-]|].
  destruct (is_ascii_digit c) eqn:Ec; [|done]. case_match eqn:Hle; [|done].
  apply IH. apply Z.leb_le in Hle. split; [|done].
  unfold is_ascii_digit, in_range in Ec. apply andb_true_iff in Ec as [Ec _].
  apply N.leb_le in Ec. lia.
Qed.

Lemma parse_u64_bound s n : parse_u64 s = Some n → 0 ≤ n ≤ u64_max.
Proof.
  unfold parse_u64. case_match; [done|]. apply parse_digits_bound. unfold u64_max. lia.
Qed.

Lemma parse_generate_bound sql total :
  parse_generate sql = Ok (Some total) → 0 ≤ total ≤ usize_max.
Proof.
  unfold parse_generate. repeat (case_match; try done). unfold parse_usize.
  destruct (parse_u64 _) eqn:E; [|done]. intros [= <-]. by apply parse_u64_bound in E.
Qed.

Lemma no_nulls_Some {A} `{EqDecision A} (l : list A) :
  existsb (λ v, bool_decide (v = None)) (Some <$> l) = false.
Proof. by induction l. Qed.

Section Facts.
Context `{bu : ArrowBuild}.
Context (ch : Channel) (i : Invocation).

(** ** Executions end *)

Definition turns (total rows : Z) : nat := Z.to_nat ((total - rows + 1023) `div` 1024).

Lemma generate_turn_progress total rows s rows' s' :
  0 ≤ rows ∧ 0 ≤ total ≤ usize_max →
  generate_turn ch i total rows s = (Ok (inl rows'), s') →
  (0 ≤ rows' ∧ 0 ≤ total ≤ usize_max) ∧ (turns total rows' < turns total rows)%nat.
Proof.
  intros [Hr Ht]. unfold generate_turn. destruct (Z.ltb_spec rows total) as [Hlt|]; [|done].
  intros E. assert (rows' = usize_add rows (Z.min (total - rows) 1024)) as ->.
  { apply bind_Ok in E as (? & ? & _ & (? & ? & _ & (? & ? & _ & [= <- _])%bind_Ok)%bind_Ok). done. }
  rewrite usize_add_small by lia. split; [lia|]. unfold turns.
  apply Z2Nat.inj_lt; [apply Z.div_pos; lia|apply Z.div_pos; lia|].
  destruct (Z.min_spec (total - rows) 1024) as [[? ->]|[? ->]].
  - replace (total - (rows + (total - rows)) + 1023) with 1023 by lia.
    change (1023 `div` 1024) with 0. apply Z.div_str_pos. lia.
  - replace (total - rows + 1023) with (total - (rows + 1024) + 1023 + 1 * 1024) by lia.
    rewrite Z.div_add by lia. lia.
Qed.

Lemma generate_ends total fuel s rows' s' :
  0 ≤ total ≤ usize_max → (Z.to_nat (total `div` 1024 + 1) < fuel)%nat →
  iterate (generate_turn ch i total) fuel 0 s ≠ (Ok (inl rows'), s').
Proof.
  intros Ht Hf. apply (iterate_ends _ (turns total) (λ rows, 0 ≤ rows ∧ 0 ≤ total ≤ usize_max)).
  - intros a ? ? ?. apply generate_turn_progress.
  - split; [lia|done].
  - eapply Nat.le_lt_trans; [|exact Hf]. unfold turns. apply Z2Nat.inj_le; [apply Z.div_pos; lia| |].
    + pose proof (Z.div_pos total 1024). lia.
    + rewrite Z.sub_0_r. apply Z.lt_succ_r, Z.div_lt_upper_bound; [lia|].
      pose proof (Z.div_mod total 1024). pose proof (Z.mod_pos_bound total 1024). lia.
Qed.

Lemma produce_ends statement generated tables fuel :
  (∀ total, generated = Some total →
     0 ≤ total ≤ usize_max ∧ (Z.to_nat (total `div` 1024 + 1) < fuel)%nat) →
  ends (produce ch i statement generated tables fuel).
Proof.
  intros Hg. unfold produce. destruct (selected_table statement ≫= _).
  { apply ends_bind. intros rows. apply ends_inr. }
  destruct generated as [total|].
  - destruct (Hg total) as [Ht Hf]; [done|]. intros s a s'. by apply generate_ends.
  - repeat (apply ends_bind; intros ?). apply ends_inr.
Qed.

(** Every execution ends, however many rows it generates. *)
Lemma demo_execute_ends tables request : demo_execute ch i tables request ≠ None.
Proof.
  apply ends_execution. unfold demo_run.
  do 2 (apply ends_bind; intros _). cbv zeta. do 3 (apply ends_bind; intros _).
  apply ends_bind. intros update. do 2 (apply ends_bind; intros _).
  apply ends_of_result. intros generated Hg. apply ends_bind. intros tables'.
  apply ends_then.
  - apply produce_ends. intros total ->. split; [by eapply parse_generate_bound|].
    unfold demo_fuel. rewrite Hg. lia.
  - intros rows. apply ends_bind. intros _. apply ends_inr.
Qed.

(** ** Executions conform *)

Lemma tracks_reject_cancelled n total producing :
  (n ≤ 5)%nat →
  tracks (on_track n total producing) (reject_cancelled i) (λ _, on_track n total producing).
Proof.
  intros Hn. eapply tracks_bind; [apply tracks_poll|]. intros [].
  - by apply tracks_fail.
  - by apply tracks_ret.
Qed.

Lemma tracks_wait_for_cancel n total producing k :
  (n ≤ 5)%nat →
  tracks (on_track n total producing) (wait_for_cancel i k) (λ _, on_track n total producing).
Proof.
  intros Hn. induction k as [|k IH]; [by apply tracks_ret|].
  eapply tracks_bind; [by apply tracks_reject_cancelled|]. intros ?. apply IH.
Qed.

Lemma tracks_send_all n batches : (n ≤ 5)%nat → ∀ total,
  tracks (on_track n total true) (send_all ch total batches) (λ rows, on_track n rows true).
Proof.
  intros Hn. induction batches as [|b batches IH]; intros total; [by apply tracks_ret|].
  eapply tracks_bind; [by apply tracks_offer|]. intros ?. apply IH.
Qed.
End Facts.

Section Laws.
Context `{bl : ArrowBuildLaws}.
Context (ch : Channel) (i : Invocation).

Lemma generated_batch_rows offset rows b :
  0 ≤ rows → generated_batch offset rows = Ok b → num_rows b = rows.
Proof.
  intros Hr. unfold generated_batch. rewrite with_precision_and_scale_valid by lia. simpl.
  destruct (try_new _ _) as [b'|] eqn:E; [|done]. intros [= ->].
  apply try_new_rows in E. injection E as E. unfold num_rows. rewrite <- E.
  rewrite length_fmap, length_seqZ. lia.
Qed.

Lemma tracks_generate n total rows :
  (n ≤ 5)%nat →
  tracks (on_track n rows true) (generate_turn ch i total rows)
    (λ r, match r with inl rows => on_track n rows true | inr rows => on_track n rows true end).
Proof.
  intros Hn. unfold generate_turn. destruct (Z.ltb_spec rows total); [|by apply tracks_ret].
  eapply tracks_bind; [by apply tracks_reject_cancelled|]. intros ?. cbv zeta.
  apply tracks_result; [done|]. intros b Hb.
  rewrite <- (generated_batch_rows rows (Z.min (total - rows) 1024) b) by (done || lia).
  eapply tracks_bind; [by apply tracks_offer|]. intros ?. by apply tracks_ret.
Qed.

Lemma sample_batch_rows b : sample_batch = Ok b → num_rows b = 2.
Proof.
  unfold sample_batch. rewrite with_precision_and_scale_valid by lia. simpl.
  destruct (try_new _ _) as [b'|] eqn:E; [|done]. intros [= ->].
  apply try_new_rows in E. unfold num_rows. by injection E as <-.
Qed.

Lemma tracks_produce n statement generated tables fuel :
  (n ≤ 5)%nat →
  tracks (on_track n 0 true) (produce ch i statement generated tables fuel)
    (λ r, match r with inl rows => on_track n rows true | inr rows => on_track n rows true end).
Proof.
  intros Hn. unfold produce. destruct (selected_table statement ≫= _) as [batches|].
  { eapply tracks_bind; [by apply tracks_send_all|]. intros rows. by apply tracks_ret. }
  destruct generated as [total|].
  { apply (tracks_iterate (λ rows, on_track n rows true)). intros rows. by apply tracks_generate. }
  apply tracks_result; [done|]. intros b Hb.
  eapply tracks_bind; [by apply tracks_offer|]. intros ?. apply tracks_ret.
  unfold usize_add. rewrite (sample_batch_rows b Hb). done.
Qed.

(** The promise of the demo adapter. *)
#[global] Instance demo_conforms :
  Conforms (λ '(tables, request), demo_execute ch i tables request).
Proof.
  intros [tables request] x. apply (tracks_execution (λ items, items = []) _ (λ _ _, True));
    [|done]. unfold demo_run.
  eapply tracks_bind; [apply (tracks_emit _ (on_track 1 0 false)); intros ? ->; apply on_track_start|].
  intros ?. eapply tracks_bind; [apply tracks_emit; intros ?; by apply on_track_event|].
  intros ?. cbv zeta. eapply tracks_bind.
  { instantiate (1 := λ _, on_track 2 0 false). unfold reject_if. case_match;
      [by apply tracks_fail; lia|by apply tracks_ret]. }
  intros ?. eapply tracks_bind.
  { instantiate (1 := λ _, on_track 2 0 false). case_match; [|by apply tracks_ret].
    apply tracks_wait_for_cancel. lia. }
  intros ?. eapply tracks_bind; [apply tracks_reject_cancelled; lia|]. intros ?.
  apply tracks_result; [lia|]. intros update _.
  eapply (tracks_bind _ _ _ (λ _, on_track 3 0 false)).
  { destruct update as [[name value]|].
    - apply tracks_emit. intros ?. by apply on_track_event.
    - apply tracks_ret. intros ?. apply on_track_weaken. lia. }
  intros ?. eapply tracks_bind; [apply tracks_emit; intros ?; apply on_track_producing|].
  intros ?. apply tracks_result; [lia|]. intros g _.
  apply (tracks_bind _ _ _ (λ _, on_track 3 0 true)); [by intros s|]. intros tables'.
  eapply tracks_bind; [apply tracks_produce; lia|]. intros [rows|rows].
  - by apply tracks_ret.
  - eapply tracks_bind; [apply tracks_report; lia|]. intros ?. by apply tracks_ret.
Qed.

(** ** What a statement returns *)

Abbreviation undisturbed := (undisturbed ch i).

(** A statement that neither fails, nor waits, nor sets a property. *)
Definition plain (statement : string) : Prop :=
  eq_ignore_ascii_case statement "fail" = false ∧
  eq_ignore_ascii_case statement "wait-for-cancel" = false ∧
  parse_session_update statement = Ok None.

Lemma reject_cancelled_passes (s : Run DemoTables) :
  undisturbed → ∃ s', reject_cancelled i s = (Ok tt, s') ∧ sent s' = sent s.
Proof. intros [_ Hp]. unfold reject_cancelled, poll_cancelled. unfold_M. rewrite Hp. eauto. Qed.

(** A plain statement sends its preamble, then what [produce] sends. *)
Lemma demo_execute_plain tables request generated rows bs :
  undisturbed → plain (statement_text (rq_sql request)) →
  parse_generate (statement_text (rq_sql request)) = Ok generated →
  (∀ s, ∃ s', produce ch i (statement_text (rq_sql request)) generated tables (demo_fuel request) s
              = (Ok (inr rows), s') ∧ sent s' = sent s ++ (Batch <$> bs)) →
  demo_execute ch i tables request =
    Some {| ex_items :=
              [Event (State Running); Event (EngineQueryId ("demo-" +:+ qcli_query_id request));
               Event (State ProducingResults)] ++ (Batch <$> bs) ++ [Event (RowsProduced rows)];
            ex_result := Ok tt |}.
Proof.
  intros [_ Hp] (Hf & Hw & Hu) Hg Hprod. unfold demo_execute, execution_of, demo_run.
  unfold mbind at 1, M_bind at 1. cbv zeta. rewrite Hf, Hw, Hu, Hg.
  unfold reject_cancelled, poll_cancelled. unfold_M. simpl. rewrite Hp. simpl.
  match goal with |- context [produce _ _ _ _ _ _ ?s0] => destruct (Hprod s0) as (s' & E & Hs) end.
  rewrite E. simpl. rewrite Hs. simpl. done.
Qed.

Definition ids_of (b : RecordBatch) : list Z :=
  match batch_columns b with Int64Array l :: _ => l | _ => [] end.

Lemma generated_batch_ok offset rows :
  0 ≤ rows →
  ∃ b, generated_batch offset rows = Ok b ∧ num_rows b = rows ∧
       ids_of b = to_i64 <$> seqZ offset rows.
Proof.
  intros Hr. unfold generated_batch. rewrite with_precision_and_scale_valid by lia. simpl.
  edestruct try_new_fits as [b Hb]; [|rewrite Hb; simpl; exists b].
  { unfold columns_fit, field_fits. simpl. rewrite !length_fmap.
    rewrite !bool_decide_eq_true_2 by done. simpl.
    by rewrite !no_nulls_Some. }
  apply try_new_built in Hb as (_ & Hc & _ & Hn). split; [done|].
  injection Hn as Hn. unfold num_rows, ids_of. rewrite <- Hn, Hc, length_fmap, length_seqZ.
  split; [lia|done].
Qed.

Lemma generate_turn_next total rows b (s : Run DemoTables) :
  undisturbed → 0 ≤ rows < total → total ≤ usize_max →
  generated_batch rows (Z.min (total - rows) 1024) = Ok b →
  ∃ s', generate_turn ch i total rows s = (Ok (inl (rows + Z.min (total - rows) 1024)), s') ∧
        sent s' = sent s ++ [Batch b].
Proof.
  intros Hu Hr Ht Hb. destruct (reject_cancelled_passes s Hu) as (s1 & E1 & Hs1).
  destruct (offer_taken ch i b s1 Hu) as (s2 & E2 & Hs2 & _). exists s2. rewrite Hs2, Hs1. split; [|done].
  unfold generate_turn. destruct (Z.ltb_spec rows total); [|lia].
  unfold mbind, M_bind. rewrite E1. unfold of_result. rewrite Hb, E2.
  by rewrite usize_add_small by lia.
Qed.

Lemma generate_batches total fuel rows :
  undisturbed → 0 ≤ rows ≤ total → total ≤ usize_max → (turns total rows < fuel)%nat →
  ∃ bs, Forall (λ b, num_rows b ≤ 1024) bs ∧
    bs ≫= ids_of = to_i64 <$> seqZ rows (total - rows) ∧
    ∀ s, ∃ s', iterate (generate_turn ch i total) fuel rows s = (Ok (inr total), s') ∧
      sent s' = sent s ++ (Batch <$> bs).
Proof.
  intros Hu. revert rows. induction fuel as [|fuel IH]; intros rows Hr Ht Hf; [lia|].
  destruct (Z.ltb_spec rows total) as [Hlt|Hge].
  - set (k := Z.min (total - rows) 1024).
    destruct (generated_batch_ok rows k) as (b & Hb & Hn & Hids); [lia|].
    pose proof (λ s, generate_turn_next total rows b s Hu ltac:(lia) Ht Hb) as Hturn.
    destruct (Hturn (Run_start ∅)) as (s0 & E0 & _).
    pose proof (generate_turn_progress ch i total rows _ _ _ ltac:(lia) E0) as [_ Hm].
    destruct (IH (rows + k)) as (bs & Hmax & Hall & Hrun); [unfold k in *; lia..|].
    exists (b :: bs). csimpl. rewrite Hall, Hids, <- fmap_app. split_and!.
    + constructor; [lia|done].
    + f_equal. replace (total - rows) with (k + (total - (rows + k))) by lia.
      by rewrite seqZ_app by lia.
    + intros s. destruct (Hturn s) as (s1 & E1 & Hs1). destruct (Hrun s1) as (s' & E' & Hs').
      exists s'. unfold mbind at 1, M_bind at 1. rewrite E1. fold k. split; [done|].
      by rewrite Hs', Hs1, <- app_assoc.
  - exists []. replace (total - rows) with 0 by lia. split_and!; [done..|]. intros s. exists s.
    cbn [iterate]. unfold mbind at 1, M_bind at 1, generate_turn. apply Z.ltb_ge in Hge as Hb.
    rewrite Hb, app_nil_r. simpl. by replace rows with total by lia.
Qed.

(** [generate n] counts up.  Undisturbed, it ends successfully and returns
    exactly the ids from zero to [n], in order and without gaps, in batches of at
    most 1,024 rows, and reports their number. *)
Theorem generate_counts_up tables request total :
  let st := statement_text (rq_sql request) in
  undisturbed → plain st → parse_generate st = Ok (Some total) → selected_table st = None →
  ∃ bs,
    demo_execute ch i tables request =
      Some {| ex_items :=
                [Event (State Running); Event (EngineQueryId ("demo-" +:+ qcli_query_id request));
                 Event (State ProducingResults)]
                ++ (Batch <$> bs) ++ [Event (RowsProduced total)];
              ex_result := Ok tt |} ∧
    Forall (λ b, num_rows b ≤ 1024) bs ∧ bs ≫= ids_of = to_i64 <$> seqZ 0 total.
Proof.
  intros st Hu Hp Hg Hs. pose proof (parse_generate_bound _ _ Hg) as Hb.
  assert (turns total 0 < demo_fuel request)%nat as Hf.
  { unfold demo_fuel. fold st. rewrite Hg. unfold turns. rewrite Z.sub_0_r.
    apply Nat.lt_succ_r, Z2Nat.inj_le; [apply Z.div_pos; lia|pose proof (Z.div_pos total 1024); lia|].
    apply Z.lt_succ_r, Z.div_lt_upper_bound; [lia|].
    pose proof (Z.div_mod total 1024). pose proof (Z.mod_pos_bound total 1024). lia. }
  destruct (generate_batches total (demo_fuel request) 0) as (bs & Hmax & Hids & Hrun);
    [done|lia..|].
  rewrite Z.sub_0_r in Hids. exists bs. split; [|done].
  apply demo_execute_plain with (generated := Some total); [done..|].
  intros s. unfold produce. fold st. rewrite Hs. apply Hrun.
Qed.

(** ** Ingestion *)

Lemma store_table_refused request incoming tables e tables' :
  store_table request incoming tables = (Err e, tables') → tables' = tables.
Proof. unfold store_table. unfold_M. repeat (case_match; simplify_eq; try done). all: by intros [= _ ->]. Qed.

(** What the table holds after [incoming] was stored in it. *)
Definition stored (request : IngestRequest) (existing : option (list RecordBatch))
    (incoming : list RecordBatch) : list RecordBatch :=
  match existing, if_exists request with
  | Some batches, Append => batches ++ incoming
  | _, _ => incoming
  end.

Lemma store_table_stored request incoming tables tables' :
  let key := to_ascii_lowercase (ig_table request) in
  store_table request incoming tables = (Ok tt, tables') →
  tables' = <[key := stored request (tables !! key) incoming]> tables.
Proof.
  intros key. unfold store_table, stored. fold key. unfold_M.
  repeat (case_match; simplify_eq; try done). all: by intros [= <-].
Qed.

Lemma demo_ingest_stored request batches tables n tables' :
  demo_ingest request batches i tables = (Ok n, tables') →
  store_table request batches tables = (Ok tt, tables').
Proof.
  unfold demo_ingest. intros ([] & s1 & E1 & H1)%bind_Ok.
  apply bind_Ok in H1 as ([p c] & s2 & E2 & H2). apply bind_Ok in H2 as ([] & s3 & E3 & H3).
  apply bind_Ok in H3 as ([] & s4 & E4 & E).
  assert (s1 = tables ∧ s2 = s1 ∧ s3 = s2) as (-> & -> & ->).
  { unfold reject_if, of_result, fail, mret, M_ret in *. by repeat case_match; simplify_eq/=. }
  by injection E as _ <-.
Qed.

Lemma send_all_sends batches rows (s : Run DemoTables) :
  undisturbed →
  ∃ s', send_all ch rows batches s
        = (Ok (foldl (λ n b, usize_add n (num_rows b)) rows batches), s') ∧
    sent s' = sent s ++ (Batch <$> batches).
Proof.
  intros Hu. revert rows s. induction batches as [|b batches IH]; intros rows s.
  { exists s. by rewrite app_nil_r. }
  destruct (offer_taken ch i b s Hu) as (s1 & E1 & Hs1 & _).
  destruct (IH (usize_add rows (num_rows b)) s1) as (s2 & E2 & Hs2). exists s2.
  simpl. unfold mbind, M_bind. rewrite E1, E2, Hs2, Hs1, <- app_assoc. done.
Qed.

(** Ingestion is all or nothing, and what was ingested is what is selected.  A
    refused ingestion leaves every table as it was; an accepted one changes only
    its own table, and an undisturbed [select *] from it then returns the batches
    it had, if they were appended to, and the new ones, in order. *)
Theorem ingested_batches_are_selected request batches tables :
  match demo_ingest request batches i tables with
  | (Err _, tables') => tables' = tables
  | (Ok _, tables') =>
      let key := to_ascii_lowercase (ig_table request) in
      delete key tables' = delete key tables ∧
      ∀ query, undisturbed →
        plain (statement_text (rq_sql query)) →
        parse_generate (statement_text (rq_sql query)) = Ok None →
        selected_table (statement_text (rq_sql query)) = Some key →
        ∃ x, demo_execute ch i tables' query = Some x ∧ ex_result x = Ok tt ∧
             batches_of (ex_items x) = stored request (tables !! key) batches
  end.
Proof.
  destruct (demo_ingest request batches i tables) as [[n|e] tables'] eqn:E.
  - apply demo_ingest_stored, store_table_stored in E as ->. cbv zeta.
    set (key := to_ascii_lowercase (ig_table request)). split; [apply (delete_insert_eq (M:=gmap string))|].
    intros query Hu Hp Hg Hs. set (all := stored _ _ _).
    eexists. split; [apply demo_execute_plain with (generated := None) (bs := all); [done..|]|].
    + intros s. unfold produce. rewrite Hs. cbn [mbind option_bind].
      pose proof (lookup_insert_eq (M:=gmap string) tables key all) as El. unfold DemoTables in *.
      rewrite El.
      destruct (send_all_sends all 0 s Hu) as (s' & E' & Hs'). exists s'.
      unfold mbind, M_bind. by rewrite E'.
    + simpl. split; [done|]. unfold batches_of. rewrite omap_app. simpl. rewrite app_nil_r.
      induction all as [|b l IH]; simpl; [done|]. by f_equal.
  - revert E. unfold demo_ingest, reject_if. unfold_M.
    destruct (temporary request); [by intros [= _ ->]|].
    destruct (receive _ _ _ _ _) as [[p c]|]; [|by intros [= _ ->]].
    destruct (poll i p); [by intros [= _ ->]|].
    destruct (store_table request batches tables) as [[[]|e'] t] eqn:Et; [done|].
    apply store_table_refused in Et as ->. by intros [= _ ->].
Qed.
End Laws.

(** What the query service gets from the adapter. *)
Lemma demo_adapter_conforms `{ArrowBuildLaws} ch tables request i :
  Conforming (execute (DemoAdapter ch tables) request i).
Proof.
  simpl. unfold ended. pose proof (demo_execute_ends ch i tables request) as He.
  destruct (demo_execute ch i tables request) as [x|] eqn:Ex; [|done]. simpl.
  by apply (demo_conforms ch i (tables, request)).
Qed.
