(* ===== verification/Sql.v ===== *)
(** * SQL text of the metadata statements

    The helpers by which the Trino, Databricks and Snowflake adapters put names
    into SQL text ([identifier], [literal], [glob_to_like], the joining of
    qualified names), and a reading of SQL text as tokens against which they are
    proved: whatever a name contains, the statement that is sent has exactly the
    fixed tokens of the adapter and the name. *)
From S2P Require Import Prelude Text Config Chars Output ReplText.
From Stdlib Require Import Ascii.

Definition double_quote_char : ascii := ascii_of_N 34.
Definition single_quote_char : ascii := ascii_of_N 39.
Definition backtick_char : ascii := ascii_of_N 96.
Definition of_char (c : ascii) : string := String c EmptyString.

(** [format!("{q}{}{q}", value.replace(q, "{q}{q}"))]. *)
Definition doubled (q : ascii) (value : string) : string :=
  replace_char q (String q (of_char q)) value.
Definition delimited (q : ascii) (value : string) : string :=
  String q (doubled q value +:+ of_char q).

(** [identifier] of the Trino and Snowflake adapters. *)
Definition identifier (value : string) : string := delimited double_quote_char value.
(** [identifier] of the Databricks adapter. *)
Definition backtick_identifier (value : string) : string := delimited backtick_char value.
(** [literal] of the Trino adapter: the text between the quotes. *)
Definition literal (value : string) : string := doubled single_quote_char value.

(** [glob_to_like]. *)
Definition like_char (ch : string) : list string :=
  if String.eqb ch "*" then ["%"]
  else if String.eqb ch "?" then ["_"]
  else if one_of ["%"; "_"; "$"] ch then ["$"; ch]
  else [ch].
Definition glob_to_like (pattern : string) : string := unchars (chars pattern ≫= like_char).

(** [glob_matches] of the Databricks and Snowflake adapters: a trailing star is a
    prefix, nothing else a wildcard. *)
Definition prefix_glob_matches (pattern : option string) (value : string) : bool :=
  match pattern with
  | None => true
  | Some p => match strip_suffix "*" p with
              | Some prefix => starts_with prefix value
              | None => String.eqb p value
              end
  end.

(** ** Reading SQL *)

Inductive Token :=
| Raw (c : ascii)
| Ident (name : string)
| Str (text : string).

Definition tok (c : ascii) (text : string) : Token :=
  if Ascii.eqb c single_quote_char then Str text else Ident text.

(** [q] delimits identifiers; [mode] is the open delimiter with what it has
    enclosed so far; [None] for text that ends inside one. *)
Fixpoint lex (q : ascii) (mode : option (ascii * string)) (s : string) : option (list Token) :=
  match mode, s with
  | None, EmptyString => Some []
  | Some _, EmptyString => None
  | None, String a s =>
      if Ascii.eqb a q || Ascii.eqb a single_quote_char then lex q (Some (a, EmptyString)) s
      else cons (Raw a) <$> lex q None s
  | Some (c, acc), String a s =>
      if Ascii.eqb a c then
        match s with
        | String b s' =>
            if Ascii.eqb b c then lex q (Some (c, acc +:+ of_char c)) s'
            else cons (tok c acc) <$> lex q None s
        | EmptyString => cons (tok c acc) <$> lex q None s
        end
      else lex q (Some (c, acc +:+ of_char a)) s
  end.

Definition tokens (q : ascii) (s : string) : option (list Token) := lex q None s.

(** Text without quotes, as tokens. *)
Fixpoint raw (s : string) : list Token :=
  match s with EmptyString => [] | String c s => Raw c :: raw s end.

Definition unquoted_text (q : ascii) (s : string) : bool :=
  string_forallb (λ c, negb (Ascii.eqb c q || Ascii.eqb c single_quote_char)) s.

Lemma tokens_raw q s rest :
  unquoted_text q s = true → tokens q (s +:+ rest) = app (raw s) <$> tokens q rest.
Proof.
  unfold tokens. induction s as [|c s IH]; cbn [unquoted_text string_forallb String.append lex raw].
  { intros _. by destruct (lex q None rest). }
  intros [Hc Hs]%andb_true_iff. apply negb_true_iff in Hc. rewrite Hc, (IH Hs).
  by destruct (lex q None rest).
Qed.

(** The text after a name does not go on with another delimiter. *)
Definition closed (c : ascii) (rest : string) : bool :=
  match rest with String d _ => negb (Ascii.eqb d c) | EmptyString => true end.

Lemma lex_doubled q c v rest : ∀ acc,
  closed c rest = true →
  lex q (Some (c, acc)) (doubled c v +:+ String c rest)
  = cons (tok c (acc +:+ v)) <$> lex q None rest.
Proof.
  unfold doubled. induction v as [|a v IH]; intros acc Hr.
  - cbn [replace_char String.append lex]. rewrite Ascii.eqb_refl, string_app_nil_r.
    destruct rest as [|d rest]; [done|]. simpl in Hr. apply negb_true_iff in Hr. by rewrite Hr.
  - cbn [replace_char]. destruct (Ascii.eqb_spec a c) as [->|Hne].
    + cbn [of_char String.append lex]. rewrite !Ascii.eqb_refl, (IH _ Hr), string_app_assoc. done.
    + cbn [String.append lex]. apply Ascii.eqb_neq in Hne as ->.
      rewrite (IH _ Hr), string_app_assoc. done.
Qed.

(** A delimited name is one token, whatever is in it. *)
Lemma tokens_delimited q c v rest :
  c = q ∨ c = single_quote_char → closed c rest = true →
  tokens q (delimited c v +:+ rest) = cons (tok c v) <$> tokens q rest.
Proof.
  intros Hc Hr. unfold tokens, delimited. cbn [String.append lex].
  replace (Ascii.eqb c q || Ascii.eqb c single_quote_char) with true
    by (destruct Hc as [->| ->]; rewrite Ascii.eqb_refl; by rewrite ?orb_true_r).
  rewrite string_app_assoc. cbn [of_char String.append]. by rewrite lex_doubled.
Qed.

(** Names joined by dots. *)
Fixpoint dotted (q : ascii) (parts : list string) : list Token :=
  match parts with
  | [] => []
  | [p] => [tok q p]
  | p :: rest => tok q p :: Raw "."%char :: dotted q rest
  end.

Lemma tokens_dotted q parts rest :
  Ascii.eqb q "."%char = false → Ascii.eqb q single_quote_char = false →
  closed q rest = true →
  tokens q (join "." (delimited q <$> parts) +:+ rest) = app (dotted q parts) <$> tokens q rest.
Proof.
  intros Hd Hs Hr. induction parts as [|p [|p' parts] IH].
  - simpl. by destruct (tokens q rest).
  - cbn [fmap list_fmap join dotted]. rewrite tokens_delimited by auto.
    by destruct (tokens q rest).
  - change (join "." (delimited q <$> p :: p' :: parts))
      with (delimited q p +:+ "." +:+ join "." (delimited q <$> p' :: parts)).
    rewrite !string_app_assoc, tokens_delimited; [|by left|].
    2:{ cbn [String.append closed]. by rewrite Ascii.eqb_sym, Hd. }
    rewrite (tokens_raw q "."); [|].
    2:{ unfold unquoted_text. cbn [string_forallb]. by rewrite Ascii.eqb_sym, Hd. }
    rewrite IH. by destruct (tokens q rest).
Qed.

(** ** What the text of metadata statements means

    The pattern [glob_to_like] makes of a glob matches the same names under the
    rules of LIKE with the escape character the adapter declares. *)

(** [value LIKE pattern ESCAPE '$'], character by character. *)
Inductive like : list string → list string → Prop :=
| like_nil : like [] []
| like_percent p v1 v2 : like p v2 → like ("%" :: p) (v1 ++ v2)
| like_underscore p c v : like p v → like ("_" :: p) (c :: v)
| like_escaped p c v : c ∈ ["%"; "_"; "$"] → like p v → like ("$" :: c :: p) (c :: v)
| like_same p c v : c ∉ ["%"; "_"; "$"] → like p v → like (c :: p) (c :: v).

Lemma like_char_chars ch : is_char ch → Forall is_char (like_char ch).
Proof.
  intros Hc. unfold like_char. repeat case_match; repeat constructor; done.
Qed.

Lemma glob_to_like_chars pattern :
  at_boundary pattern = true → chars (glob_to_like pattern) = (chars pattern ≫= like_char).
Proof.
  intros Hp%chars_is_char. unfold glob_to_like. apply chars_unchars.
  induction Hp as [|ch l Hch _ IH]; csimpl; [constructor|].
  apply Forall_app. split; [by apply like_char_chars|done].
Qed.

(** The cases of [like_char]. *)
Lemma like_char_spec ch :
  (ch = "*" ∧ like_char ch = ["%"]) ∨ (ch = "?" ∧ like_char ch = ["_"]) ∨
  (ch ≠ "*" ∧ ch ≠ "?" ∧ ch ∈ ["%"; "_"; "$"] ∧ like_char ch = ["$"; ch]) ∨
  (ch ≠ "*" ∧ ch ≠ "?" ∧ ch ∉ ["%"; "_"; "$"] ∧ like_char ch = [ch]).
Proof.
  unfold like_char. destruct (String.eqb_spec ch "*"); [by left|].
  destruct (String.eqb_spec ch "?"); [by right; left|]. right. right.
  unfold one_of. simpl.
  destruct (String.eqb_spec ch "%"), (String.eqb_spec ch "_"), (String.eqb_spec ch "$"); simpl;
    (left; by repeat split; set_solver) || (right; repeat split; set_solver).
Qed.

Lemma like_of_glob p v : glob p v → like (p ≫= like_char) v.
Proof.
  induction 1 as [|p v1 v2 _ IH|p c v _ IH|p c v Hc _ IH]; csimpl.
  - constructor.
  - by constructor.
  - by constructor.
  - destruct (like_char_spec c) as [[-> _]|[[-> ->]|[(_ & _ & Hin & ->)|(_ & _ & Hin & ->)]]];
      csimpl; [done|by constructor..].
Qed.

Lemma special_percent : "%" ∈ ["%"; "_"; "$"].
Proof. by constructor. Qed.
Lemma special_underscore : "_" ∈ ["%"; "_"; "$"].
Proof. by repeat constructor. Qed.
Lemma special_dollar : "$" ∈ ["%"; "_"; "$"].
Proof. by repeat constructor. Qed.

Lemma glob_of_like p : ∀ v, like (p ≫= like_char) v → glob p v.
Proof.
  pose proof special_percent. pose proof special_underscore. pose proof special_dollar.
  induction p as [|c p IH]; csimpl; intros v Hl; [inversion Hl; constructor|].
  destruct (like_char_spec c) as [[-> E]|[[-> E]|[(H2 & H3 & Hin & E)|(H2 & H3 & Hin & E)]]];
    rewrite E in Hl; simpl in Hl; inversion Hl; subst; try contradiction;
    try (constructor; by auto).
Qed.

(** C33: Trino lists what the pattern describes.  The LIKE pattern the adapter sends
    for a glob, with the escape character it declares, matches exactly the names
    the glob describes: wildcards keep their meaning and every other character,
    LIKE's own wildcards included, matches itself. *)
Theorem like_pattern_means_the_glob pattern name :
  at_boundary pattern = true →
  like (chars (glob_to_like pattern)) (chars name) ↔ glob (chars pattern) (chars name).
Proof.
  intros Hp. rewrite (glob_to_like_chars _ Hp).
  split; [apply glob_of_like|apply like_of_glob].
Qed.

Lemma like_pattern_witness :
  at_boundary "a_*" = true ∧
  (like (chars (glob_to_like "a_*")) (chars "a_table") ↔ glob (chars "a_*") (chars "a_table")).
Proof. split; [done|]. by apply like_pattern_means_the_glob. Defined.
