(* ===== verification/TrinoTypes.v ===== *)
(** * Columns and values of Trino results (crates/qcli-driver-trino/src/lib.rs)

    The type signatures of the client protocol, decoded from JSON as [serde]
    derives it, the Arrow types of columns, and the rewriting of values into the
    JSON objects the Arrow reader takes.  [signature_type] and
    [normalize_signature] recurse on the signatures nested in JSON; their fuel is
    the size of the signature, and [signature_type_unfold] and
    [normalize_unfold] show that it never runs out. *)
From S2P Require Import Prelude Text Chars Config Arrow ArrowTypes DriverApi.
From Stdlib Require Import Ascii.

Record TypeArgument := { ta_kind : string; ta_value : Value }.
Record TypeSignature := { ts_raw_type : string; ts_arguments : list TypeArgument }.
Record Column := {
  tc_name : string;
  tc_display_type : string;
  tc_type_signature : option TypeSignature;
}.

(** ** Decoding

    A derived [Deserialize] of a struct takes an object, ignoring fields it does
    not know, or an array with the fields in order. *)

(** The options of [l], if all are there. *)
Fixpoint all_some {A} (l : list (option A)) : option (list A) :=
  match l with
  | [] => Some []
  | o :: l => a ← o; l ← all_some l; Some (a :: l)
  end.

Definition as_array (v : Value) : option (list Value) :=
  match v with Array l => Some l | _ => None end.

Definition argument_of_value (v : Value) : option TypeArgument :=
  match v with
  | Object fields =>
      kind ← field "kind" fields ≫= as_str;
      value ← field "value" fields;
      Some {| ta_kind := kind; ta_value := value |}
  | Array [kind; value] =>
      kind ← as_str kind; Some {| ta_kind := kind; ta_value := value |}
  | _ => None
  end.

Definition arguments_of_value (v : Value) : option (list TypeArgument) :=
  l ← as_array v; all_some (argument_of_value <$> l).

Definition signature_of_value (v : Value) : option TypeSignature :=
  match v with
  | Object fields =>
      raw ← field "rawType" fields ≫= as_str;
      arguments ← match field "arguments" fields with
                  | Some v => arguments_of_value v
                  | None => Some []
                  end;
      Some {| ts_raw_type := raw; ts_arguments := arguments |}
  | Array [raw] => raw ← as_str raw; Some {| ts_raw_type := raw; ts_arguments := [] |}
  | Array [raw; arguments] =>
      raw ← as_str raw;
      arguments ← arguments_of_value arguments;
      Some {| ts_raw_type := raw; ts_arguments := arguments |}
  | _ => None
  end.

(** [Option<TypeSignature>]. *)
Definition optional_signature (v : Value) : option (option TypeSignature) :=
  match v with Null => Some None | _ => Some <$> signature_of_value v end.

Definition column_of_value (v : Value) : option Column :=
  let make name type signature :=
    name ← as_str name; type ← as_str type; signature ← signature;
    Some {| tc_name := name; tc_display_type := type; tc_type_signature := signature |} in
  match v with
  | Object fields =>
      name ← field "name" fields;
      type ← field "type" fields;
      make name type
        match field "typeSignature" fields with
        | Some v => optional_signature v
        | None => Some None
        end
  | Array [name; type] => make name type (Some None)
  | Array [name; type; signature] => make name type (optional_signature signature)
  | _ => None
  end.

(** [value[name]]: null where there is nothing. *)
Definition value_index (name : string) (v : Value) : Value := default Null (value_get name v).

(** [Value::as_u64]. *)
Definition as_u64 (v : Value) : option Z :=
  match v with
  | Number n => if (0 <=? n) && (n <=? u64_max) then Some n else None
  | _ => None
  end.

(** ** Sizes, as fuel *)

Fixpoint value_size (v : Value) : nat :=
  match v with
  | Array l => S (foldr (λ v n, value_size v + n) 0 l)%nat
  | Object fields => S (foldr (λ kv n, value_size kv.2 + n) 0 fields)%nat
  | _ => 1%nat
  end.

Definition signature_size (s : TypeSignature) : nat :=
  foldr (λ a n, S (value_size (ta_value a) + n)) 0%nat (ts_arguments s).

Section Types.
(** The text of a [serde_json] error for a value that is not of the type named. *)
Variable decode_error : string → Value → string.

Definition trino_type_error (message : string) : DriverError := DriverError_new "trino_type" message.
Definition trino_protocol_error (message : string) : DriverError :=
  DriverError_new "trino_protocol" message.

(** [serde_json::from_value::<TypeSignature>(v)], its error mapped. *)
Definition decode_signature (v : Value) : result TypeSignature DriverError :=
  ok_or (signature_of_value v) (trino_type_error (decode_error "TypeSignature" v)).

(** [convert_columns], of the client's columns as JSON. *)
Definition convert_columns (columns : result Value string) : result (list Column) DriverError :=
  let? v := map_err trino_protocol_error columns in
  ok_or (l ← as_array v; all_some (column_of_value <$> l))
    (trino_protocol_error (decode_error "Vec<Column>" v)).

(** ** Types *)

Definition decimal_type (precision scale : string) : result DataType DriverError :=
  let? precision := ok_or (parse_u8 precision) (trino_type_error "invalid decimal precision") in
  let? scale := ok_or (parse_i8 scale) (trino_type_error "invalid decimal scale") in
  Ok (Decimal128 precision scale).

Definition text_types : list string :=
  ["varchar"; "char"; "json"; "date"; "time"; "time with time zone"; "timestamp";
   "timestamp with time zone"; "interval year to month"; "interval day to second"; "ipaddress";
   "uuid"].

Definition scalar_type (raw : string) : result DataType DriverError :=
  if String.eqb raw "boolean" then Ok Boolean
  else if String.eqb raw "tinyint" then Ok Int8
  else if String.eqb raw "smallint" then Ok Int16
  else if String.eqb raw "integer" then Ok Int32
  else if String.eqb raw "bigint" then Ok Int64
  else if String.eqb raw "real" then Ok Float32
  else if String.eqb raw "double" then Ok Float64
  else if String.eqb raw "varbinary" then Ok Binary
  else if one_of text_types raw then Ok Utf8
  else Err (trino_type_error ("unsupported Trino type '" +:+ raw +:+ "'")).

Definition display_type (value : string) : result DataType DriverError :=
  let lower := to_ascii_lowercase value in
  match strip_prefix "decimal(" lower ≫= strip_suffix ")" with
  | Some arguments =>
      let? (precision, scale) := ok_or (split_once "," arguments) (trino_type_error value) in
      decimal_type (trim precision) (trim scale)
  | None => scalar_type lower
  end.

Definition long_argument (s : TypeSignature) (index : nat) : result Z DriverError :=
  ok_or (a ← ts_arguments s !! index; as_u64 (ta_value a))
    (trino_type_error (ts_raw_type s +:+ " is missing numeric type argument "
       +:+ pretty (Z.of_nat index))).

Definition type_argument (s : TypeSignature) (index : nat) : result TypeSignature DriverError :=
  let? a := ok_or (ts_arguments s !! index) (trino_type_error "missing type argument") in
  decode_signature (ta_value a).

Definition field_of_argument (index : nat) (a : TypeArgument) : string :=
  default ("field_" +:+ pretty (Z.of_nat index))
    (as_str (value_index "name" (value_index "fieldName" (ta_value a)))).

Definition named_field (rec : TypeSignature → result DataType DriverError) (a : TypeArgument)
    (index : nat) : result Field DriverError :=
  if negb (String.eqb (ta_kind a) "NAMED_TYPE")
  then Err (trino_type_error "row argument is not NAMED_TYPE")
  else
    let? signature := decode_signature (value_index "typeSignature" (ta_value a)) in
    let? t := rec signature in
    Ok (Field_new (field_of_argument index a) t true).

Definition trino_map (key value : DataType) : DataType :=
  Map (Field_new "entries"
         (Struct [Field_new "keys" key false; Field_new "values" value true]) false) false.

(** The body, with the recursive call as an argument. *)
Definition signature_body (rec : TypeSignature → result DataType DriverError)
    (s : TypeSignature) : result DataType DriverError :=
  let raw := ts_raw_type s in
  if String.eqb raw "decimal" then
    let? precision := long_argument s 0 in
    let? scale := long_argument s 1 in
    decimal_type (pretty precision) (pretty scale)
  else if String.eqb raw "array" then
    let? item := type_argument s 0 in
    let? t := rec item in
    Ok (List (Field_new "item" t true))
  else if String.eqb raw "map" then
    let? k := type_argument s 0 in
    let? key := rec k in
    let? v := type_argument s 1 in
    let? value := rec v in
    Ok (trino_map key value)
  else if String.eqb raw "row" then
    let? fields := collect_results (imap (λ index a, named_field rec a index) (ts_arguments s)) in
    Ok (Struct fields)
  else scalar_type raw.

Fixpoint signature_loop (fuel : nat) (s : TypeSignature) : result DataType DriverError :=
  match fuel with
  | O => Err (trino_type_error EmptyString)
  | S fuel => signature_body (signature_loop fuel) s
  end.
Definition signature_type (s : TypeSignature) : result DataType DriverError :=
  signature_loop (S (signature_size s)) s.

Definition column_field (c : Column) : result Field DriverError :=
  let? t := match tc_type_signature c with
            | Some s => signature_type s
            | None => display_type (tc_display_type c)
            end in
  Ok (Field_new (tc_name c) t true).

(** ** Values *)

(** [Map::insert]: an entry that is there keeps its place. *)
Fixpoint object_insert (k : string) (v : Value) (fields : list (string * Value)) :
    list (string * Value) :=
  match fields with
  | [] => [(k, v)]
  | (k', v') :: fields =>
      if String.eqb k' k then (k', v) :: fields else (k', v') :: object_insert k v fields
  end.

(** The loop over the fields of a row value, from field [index] on. *)
Fixpoint normalize_row (rec : TypeSignature → Value → result Value DriverError) (index : nat)
    (object : list (string * Value)) (fields : list (TypeArgument * Value)) :
    result Value DriverError :=
  match fields with
  | [] => Ok (Object object)
  | (a, v) :: fields =>
      let? f := named_field signature_type a index in
      let? nested := decode_signature (value_index "typeSignature" (ta_value a)) in
      let? v := rec nested v in
      normalize_row rec (S index) (object_insert (field_name f) v object) fields
  end.

Definition is_null (v : Value) : bool := match v with Null => true | _ => false end.

Definition normalize_body (rec : TypeSignature → Value → result Value DriverError)
    (s : TypeSignature) (v : Value) : result Value DriverError :=
  if is_null v then Ok v
  else if String.eqb (ts_raw_type s) "array" then
    let? item := type_argument s 0 in
    let? values := ok_or (as_array v) (trino_protocol_error "array value is not an array") in
    let? values := collect_results (rec item <$> values) in
    Ok (Array values)
  else if String.eqb (ts_raw_type s) "row" then
    let? values := ok_or (as_array v) (trino_protocol_error "row value is not an array") in
    normalize_row rec 0 [] (zip (ts_arguments s) values)
  else Ok v.

Fixpoint normalize_loop (fuel : nat) (s : TypeSignature) (v : Value) : result Value DriverError :=
  match fuel with
  | O => Err (trino_type_error EmptyString)
  | S fuel => normalize_body (normalize_loop fuel) s v
  end.
Definition normalize_signature (s : TypeSignature) (v : Value) : result Value DriverError :=
  normalize_loop (S (signature_size s)) s v.

Definition normalize_value (c : Column) (v : Value) : result Value DriverError :=
  match tc_type_signature c with
  | Some s => normalize_signature s v
  | None => Ok v
  end.
End Types.

(** ** Batches *)

(** [arrow_json::ReaderBuilder]: reads newline-delimited objects into batches of
    at most [batch_size] rows. *)
Class ArrowJson `{Arrow} := {
  read_json : ArrowSchema → Z → string → result (list (result RecordBatch string)) string;
  (** [serde_json::to_writer]. *)
  json_line : Value → result string string;
}.

Class ArrowJsonLaws `{ArrowJson} : Prop := {
  (** The first batch has every row that fits into it. *)
  read_json_rows schema batch_size docs texts b rest :
    (json_line <$> docs = Ok <$> texts) → Z.of_nat (length docs) ≤ batch_size →
    read_json schema batch_size
      (unchars ((λ t, t +:+ String (ascii_of_N 10) EmptyString) <$> texts)) = Ok (Ok b :: rest) →
    num_rows b = Z.of_nat (length docs);
}.

Section Batches.
Context `{aj : ArrowJson}.
Variable decode_error : string → Value → string.

Definition arrow_conversion_error (message : string) : DriverError :=
  DriverError_new "arrow_conversion" message.

(** The object of a row. *)
Fixpoint row_object (object : list (string * Value)) (cells : list (Column * Value)) :
    result Value DriverError :=
  match cells with
  | [] => Ok (Object object)
  | (c, v) :: cells =>
      let? v := normalize_value decode_error c v in
      row_object (object_insert (tc_name c) v object) cells
  end.

Fixpoint encode_rows (columns : list Column) (rows : list (list Value)) :
    result string DriverError :=
  match rows with
  | [] => Ok EmptyString
  | row :: rows =>
      if negb (bool_decide (length row = length columns))
      then Err (trino_protocol_error "result row has the wrong column count")
      else
        let? object := row_object [] (zip columns row) in
        let? text := map_err arrow_conversion_error (json_line object) in
        let? encoded := encode_rows columns rows in
        Ok (text +:+ String (ascii_of_N 10) EmptyString +:+ encoded)
  end.

Definition page_to_batch (columns : list Column) (rows : list (list Value)) :
    result RecordBatch DriverError :=
  let? fields := collect_results (column_field decode_error <$> columns) in
  let? encoded := encode_rows columns rows in
  let? reader := map_err arrow_conversion_error
                   (read_json fields (Z.max (len encoded) 1) encoded) in
  match reader with
  | [] => Err (arrow_conversion_error "empty Trino result page")
  | Ok b :: _ => Ok b
  | Err error :: _ => Err (arrow_conversion_error error)
  end.
End Batches.
