(* ===== verification/TrinoTypeFacts.v ===== *)
(** * Facts about the columns and values of Trino results

    [signature_type] and [normalize_signature] are total; every type expression
    of the protocol is read as the Arrow type it denotes; a value of the type is
    rewritten into the shape the Arrow reader expects, without losing a leaf,
    when the names of its rows are distinct and no row is nested in a map; and a
    page of results becomes a batch with all its rows. *)
From S2P Require Import Prelude Text Arrow DriverApi Config Chars ArrowTypes FlightTypeFacts.
From S2P Require Import TrinoTypes.
From Stdlib Require Import Ascii.

(** ** Fuel *)

Definition sizes (l : list Value) : nat := foldr (λ v n, value_size v + n)%nat 0%nat l.
Definition field_sizes (fields : list (string * Value)) : nat :=
  foldr (λ kv n, value_size kv.2 + n)%nat 0%nat fields.

Lemma field_size name fields v :
  field name fields = Some v → (value_size v ≤ field_sizes fields)%nat.
Proof.
  induction fields as [|[k w] fields IH]; simpl; [done|].
  destruct (String.eqb k name); [intros [= ->]; lia|]. intros Hv%IH. lia.
Qed.

Lemma value_get_size name v w : value_get name v = Some w → (value_size w < value_size v)%nat.
Proof.
  destruct v; try done. intros Hw%field_size. simpl. fold (field_sizes fields). lia.
Qed.

Lemma argument_size v a :
  argument_of_value v = Some a → (S (value_size (ta_value a)) ≤ value_size v)%nat.
Proof.
  destruct v as [| | | | |l|fields]; simpl; try done.
  - destruct l as [|k [|w [|]]]; try done. destruct (as_str k); [|done]. intros [= <-]. simpl. lia.
  - fold (field_sizes fields). destruct (field "kind" fields ≫= as_str); [|done]. simpl.
    destruct (field "value" fields) eqn:E; [|done]. apply field_size in E. intros [= <-]. simpl. lia.
Qed.

Lemma arguments_size v l :
  arguments_of_value v = Some l →
  (S (foldr (λ a n, S (value_size (ta_value a) + n)) 0 l) ≤ value_size v)%nat.
Proof.
  destruct v as [| | | | |vs|]; try done. unfold arguments_of_value. simpl. fold (sizes vs).
  intros E. apply le_n_S. revert l E. induction vs as [|v vs IH]; intros l; csimpl.
  { by intros [= <-]. }
  destruct (argument_of_value v) as [a|] eqn:Ea; [|done]. cbn [mbind option_bind].
  destruct (all_some (argument_of_value <$> vs)) as [l'|]; [|done]. intros [= <-]. simpl.
  specialize (IH l' eq_refl). apply argument_size in Ea. lia.
Qed.

(** A signature is smaller than the JSON it was decoded from. *)
Lemma decoded_size v s : signature_of_value v = Some s → (signature_size s < value_size v)%nat.
Proof.
  destruct v as [| | | | |l|fields]; try done.
  - destruct l as [|raw [|args [|]]]; simpl; try done; destruct (as_str raw); try done; simpl.
    + intros [= <-]. unfold signature_size. simpl. lia.
    + destruct (arguments_of_value args) eqn:E; [|done]. intros [= <-].
      apply arguments_size in E. unfold signature_size. simpl. lia.
  - cbn [signature_of_value value_size]. fold (field_sizes fields).
    destruct (field "rawType" fields ≫= as_str) as [raw|]; [|done]. cbn [mbind option_bind].
    destruct (field "arguments" fields) as [args|] eqn:Ef.
    + destruct (arguments_of_value args) eqn:E; [|done]. intros [= <-].
      apply arguments_size in E. apply field_size in Ef. unfold signature_size. simpl. lia.
    + intros [= <-]. unfold signature_size. simpl. lia.
Qed.

Lemma in_arguments_size s index a :
  ts_arguments s !! index = Some a → (value_size (ta_value a) < signature_size s)%nat.
Proof.
  unfold signature_size. generalize (ts_arguments s) as l. intros l. revert index.
  induction l as [|b l IH]; intros [|index]; simpl; try done.
  - intros [= ->]. lia.
  - intros H%IH. lia.
Qed.

Section Facts.
Variable decode_error : string → Value → string.
Abbreviation decode_signature := (decode_signature decode_error).
Abbreviation type_argument := (type_argument decode_error).
Abbreviation named_field := (named_field decode_error).
Abbreviation signature_body := (signature_body decode_error).
Abbreviation signature_loop := (signature_loop decode_error).
Abbreviation signature_type := (signature_type decode_error).
Abbreviation normalize_row := (normalize_row decode_error).
Abbreviation normalize_body := (normalize_body decode_error).
Abbreviation normalize_loop := (normalize_loop decode_error).
Abbreviation normalize_signature := (normalize_signature decode_error).

Lemma decode_signature_size v s :
  decode_signature v = Ok s → (signature_size s < value_size v)%nat.
Proof.
  unfold TrinoTypes.decode_signature. destruct (signature_of_value v) eqn:E; [|done].
  intros [= ->]. by apply decoded_size.
Qed.

Lemma type_argument_size s index t :
  type_argument s index = Ok t → (signature_size t < signature_size s)%nat.
Proof.
  unfold TrinoTypes.type_argument. destruct (ts_arguments s !! index) eqn:E; [|done]. simpl.
  intros H%decode_signature_size. apply in_arguments_size in E. lia.
Qed.

Lemma nested_size s index a t :
  ts_arguments s !! index = Some a →
  decode_signature (value_index "typeSignature" (ta_value a)) = Ok t →
  (signature_size t < signature_size s)%nat.
Proof.
  intros Ha%in_arguments_size Ht%decode_signature_size. unfold value_index in Ht.
  destruct (value_get "typeSignature" (ta_value a)) eqn:E; simpl in Ht; [|lia].
  apply value_get_size in E. lia.
Qed.

Lemma named_field_ext s index a n rec rec' :
  ts_arguments s !! index = Some a →
  (∀ t, (signature_size t < signature_size s)%nat → rec t = rec' t) →
  named_field rec a n = named_field rec' a n.
Proof.
  intros Ha Hrec. unfold TrinoTypes.named_field. destruct (negb _); [done|].
  destruct (decode_signature (value_index "typeSignature" (ta_value a))) as [t|] eqn:E; [|done].
  simpl. by rewrite (Hrec t) by by eapply nested_size.
Qed.

Lemma signature_body_ext s rec rec' :
  (∀ t, (signature_size t < signature_size s)%nat → rec t = rec' t) →
  signature_body rec s = signature_body rec' s.
Proof.
  intros Hrec. unfold TrinoTypes.signature_body.
  destruct (String.eqb _ "decimal"); [done|].
  destruct (String.eqb _ "array").
  { destruct (type_argument s 0) as [t|] eqn:E; [|done]. simpl.
    by rewrite Hrec by by eapply type_argument_size. }
  destruct (String.eqb _ "map").
  { destruct (type_argument s 0) as [k|] eqn:Ek; [|done]. simpl.
    rewrite (Hrec k) by by eapply type_argument_size. destruct (rec' k); [|done]. simpl.
    destruct (type_argument s 1) as [v|] eqn:Ev; [|done]. simpl.
    by rewrite (Hrec v) by by eapply type_argument_size. }
  destruct (String.eqb _ "row"); [|done].
  replace (imap (λ index a, named_field rec a index) (ts_arguments s))
    with (imap (λ index a, named_field rec' a index) (ts_arguments s)); [done|].
  apply list_eq. intros k. rewrite !list_lookup_imap.
  destruct (ts_arguments s !! k) as [a|] eqn:E; [|done]. simpl. f_equal. symmetry.
  by eapply named_field_ext.
Qed.

Lemma signature_loop_stable n m s :
  (signature_size s < n)%nat → (signature_size s < m)%nat → signature_loop n s = signature_loop m s.
Proof.
  revert m s. induction n as [|n IH]; intros [|m] s Hn Hm; [lia..|].
  apply signature_body_ext. intros t Ht. apply IH; lia.
Qed.

(** The recursion of [signature_type] never runs out of fuel. *)
Lemma signature_type_unfold s : signature_type s = signature_body signature_type s.
Proof.
  unfold TrinoTypes.signature_type at 1. cbn [TrinoTypes.signature_loop].
  apply signature_body_ext. intros t Ht. apply signature_loop_stable; lia.
Qed.

Lemma normalize_row_ext s rec rec' fields : ∀ index object,
  (∀ k a v, fields !! k = Some (a, v) → ts_arguments s !! (index + k)%nat = Some a) →
  (∀ t v, (signature_size t < signature_size s)%nat → rec t v = rec' t v) →
  normalize_row rec index object fields = normalize_row rec' index object fields.
Proof.
  induction fields as [|[a v] fields IH]; intros index object Hf Hrec; [done|]. simpl.
  destruct (named_field signature_type a index); [|done]. simpl.
  destruct (decode_signature _) as [t|] eqn:Et; [|done]. simpl.
  rewrite (Hrec t).
  2:{ eapply nested_size; [|exact Et]. apply (Hf 0%nat a v). done. }
  destruct (rec' t v); [|done]. simpl. apply IH; [|done].
  intros k b w Hk. specialize (Hf (S k) b w Hk). by rewrite Nat.add_succ_r in Hf.
Qed.

Lemma normalize_body_ext s v rec rec' :
  (∀ t v, (signature_size t < signature_size s)%nat → rec t v = rec' t v) →
  normalize_body rec s v = normalize_body rec' s v.
Proof.
  intros Hrec. unfold TrinoTypes.normalize_body. destruct (is_null v); [done|].
  destruct (String.eqb _ "array").
  { destruct (type_argument s 0) as [t|] eqn:E; [|done]. simpl. destruct (as_array v) as [l|]; [|done].
    simpl. replace (rec t <$> l) with (rec' t <$> l); [done|]. apply list_fmap_ext.
    intros k w _. symmetry. apply Hrec. by eapply type_argument_size. }
  destruct (String.eqb _ "row"); [|done]. destruct (as_array v) as [l|]; [|done]. simpl.
  apply normalize_row_ext with s; [|done]. intros k a w Hk.
  apply lookup_zip_with_Some in Hk as (a' & w' & [= <- <-] & Ha & _). done.
Qed.

Lemma normalize_loop_stable n m s v :
  (signature_size s < n)%nat → (signature_size s < m)%nat →
  normalize_loop n s v = normalize_loop m s v.
Proof.
  revert m s v. induction n as [|n IH]; intros [|m] s v Hn Hm; [lia..|].
  apply normalize_body_ext. intros t w Ht. apply IH; lia.
Qed.

Lemma normalize_unfold s v : normalize_signature s v = normalize_body normalize_signature s v.
Proof.
  unfold TrinoTypes.normalize_signature at 1. cbn [TrinoTypes.normalize_loop].
  apply normalize_body_ext. intros t w Ht. apply normalize_loop_stable; lia.
Qed.
End Facts.

(** ** The types of the Trino protocol, and what they denote

    The grammar of type signatures with their JSON encoding in the client
    protocol, the Arrow type each denotes, the values it has on the wire and the
    shape the Arrow JSON reader expects. *)

Inductive TrinoType :=
| TScalar (name : string)
| TDecimal (precision scale : Z)
| TArray (item : TrinoType)
| TMap (key value : TrinoType)
| TRow (fields : list (option string * TrinoType)).

Section Induction.
Variable P : TrinoType → Prop.
Hypothesis P_scalar : ∀ name, P (TScalar name).
Hypothesis P_decimal : ∀ p s, P (TDecimal p s).
Hypothesis P_array : ∀ t, P t → P (TArray t).
Hypothesis P_map : ∀ k v, P k → P v → P (TMap k v).
Hypothesis P_row : ∀ fields, Forall (λ f, P f.2) fields → P (TRow fields).

Fixpoint TrinoType_nested (t : TrinoType) : P t :=
  match t with
  | TScalar name => P_scalar name
  | TDecimal p s => P_decimal p s
  | TArray t => P_array t (TrinoType_nested t)
  | TMap k v => P_map k v (TrinoType_nested k) (TrinoType_nested v)
  | TRow fields =>
      P_row fields
        ((fix go l : Forall (λ f, P f.2) l :=
            match l with
            | [] => Forall_nil_2 _
            | f :: l => Forall_cons_2 _ _ _ (TrinoType_nested f.2) (go l)
            end) fields)
  end.
End Induction.

(** ** The encoding *)

Definition signature_json (raw : string) (arguments : list Value) : Value :=
  Object [("rawType", VString raw); ("arguments", Array arguments)].
Definition argument_json (kind : string) (v : Value) : Value :=
  Object [("kind", VString kind); ("value", v)].
Definition named_type_json (name : option string) (t : Value) : Value :=
  Object [("fieldName", opt_value (λ n, Object [("name", VString n)]) name); ("typeSignature", t)].

Fixpoint encode (t : TrinoType) : Value :=
  match t with
  | TScalar name => signature_json name []
  | TDecimal p s =>
      signature_json "decimal" [argument_json "LONG" (Number p); argument_json "LONG" (Number s)]
  | TArray t => signature_json "array" [argument_json "TYPE" (encode t)]
  | TMap k v =>
      signature_json "map" [argument_json "TYPE" (encode k); argument_json "TYPE" (encode v)]
  | TRow fields =>
      signature_json "row"
        ((λ f : option string * TrinoType,
            argument_json "NAMED_TYPE" (named_type_json f.1 (encode f.2))) <$> fields)
  end.

(** The same, decoded. *)
Definition signature_of (t : TrinoType) : TypeSignature :=
  match t with
  | TScalar name => {| ts_raw_type := name; ts_arguments := [] |}
  | TDecimal p s =>
      {| ts_raw_type := "decimal";
         ts_arguments := [{| ta_kind := "LONG"; ta_value := Number p |};
                          {| ta_kind := "LONG"; ta_value := Number s |}] |}
  | TArray t =>
      {| ts_raw_type := "array"; ts_arguments := [{| ta_kind := "TYPE"; ta_value := encode t |}] |}
  | TMap k v =>
      {| ts_raw_type := "map";
         ts_arguments := [{| ta_kind := "TYPE"; ta_value := encode k |};
                          {| ta_kind := "TYPE"; ta_value := encode v |}] |}
  | TRow fields =>
      {| ts_raw_type := "row";
         ts_arguments := (λ f : option string * TrinoType,
           {| ta_kind := "NAMED_TYPE"; ta_value := named_type_json f.1 (encode f.2) |}) <$> fields |}
  end.

Lemma signature_of_encode t : signature_of_value (encode t) = Some (signature_of t).
Proof.
  destruct t as [| | | |fields]; try done. simpl. unfold arguments_of_value. simpl.
  replace (all_some _) with (Some ((λ f : option string * TrinoType,
    {| ta_kind := "NAMED_TYPE"; ta_value := named_type_json f.1 (encode f.2) |}) <$> fields));
    [done|].
  induction fields as [|f fields IH]; csimpl; [done|]. by rewrite <- IH.
Qed.

(** ** Meaning *)

Definition scalar_types : list (string * DataType) :=
  [("boolean", Boolean); ("tinyint", Int8); ("smallint", Int16); ("integer", Int32);
   ("bigint", Int64); ("real", Float32); ("double", Float64); ("varbinary", Binary)]
  ++ ((λ name, (name, Utf8)) <$> text_types).

Definition scalar_denotes (name : string) : option DataType :=
  snd <$> find (λ e, String.eqb name e.1) scalar_types.

(** The names of the fields of a row from the [i]-th on: the ones without one are
    numbered. *)
Fixpoint field_names {A} (i : nat) (fields : list (option string * A)) : list string :=
  match fields with
  | [] => []
  | f :: fields =>
      default ("field_" +:+ pretty (Z.of_nat i)) f.1 :: field_names (S i) fields
  end.

Definition struct_field (name : string) (t : DataType) : Field := Field_new name t true.

Fixpoint denote (t : TrinoType) : DataType :=
  match t with
  | TScalar name => default Utf8 (scalar_denotes name)
  | TDecimal p s => Decimal128 p s
  | TArray t => List (Field_new "item" (denote t) true)
  | TMap k v => trino_map (denote k) (denote v)
  | TRow fields =>
      Struct (zip_with struct_field (field_names 0 fields)
                ((λ f : option string * TrinoType, denote f.2) <$> fields))
  end.

(** The types there are. *)
Fixpoint type_ok (t : TrinoType) : Prop :=
  match t with
  | TScalar name => is_Some (scalar_denotes name)
  | TDecimal p s => 1 ≤ p ≤ 38 ∧ 0 ≤ s ≤ p
  | TArray t => type_ok t
  | TMap k v => type_ok k ∧ type_ok v
  | TRow fields =>
      (fix all l := match l with [] => True | f :: l => type_ok (snd f) ∧ all l end) fields
  end.

Lemma type_ok_row fields : type_ok (TRow fields) → Forall (λ f, type_ok f.2) fields.
Proof. induction fields as [|f fields IH]; [constructor|]. intros [Hf Hl]. constructor; auto. Qed.

Section Denotation.
Variable decode_error : string → Value → string.
Abbreviation decode_signature := (decode_signature decode_error).
Abbreviation named_field := (named_field decode_error).
Abbreviation signature_body := (signature_body decode_error).
Abbreviation signature_type := (signature_type decode_error).

Lemma decode_encoded t : decode_signature (encode t) = Ok (signature_of t).
Proof. unfold TrinoTypes.decode_signature. by rewrite signature_of_encode. Qed.

Lemma scalar_signature name t rec :
  scalar_denotes name = Some t →
  signature_body rec {| ts_raw_type := name; ts_arguments := [] |} = Ok t.
Proof.
  unfold scalar_denotes. intros H. destruct (find _ scalar_types) as [e|] eqn:E; [|done].
  injection H as <-. apply find_some in E as [Hin ->%String.eqb_eq].
  assert (Forall (λ e, signature_body rec {| ts_raw_type := e.1; ts_arguments := [] |} = Ok e.2)
            scalar_types) as Hall by (by repeat constructor).
  rewrite Forall_forall in Hall. by apply Hall, list_elem_of_In.
Qed.

Lemma field_of_named i name v kind :
  field_of_argument i {| ta_kind := kind; ta_value := named_type_json name v |}
  = default ("field_" +:+ pretty (Z.of_nat i)) name.
Proof. by destruct name. Qed.

Lemma named_field_encoded i f t :
  signature_type (signature_of f.2) = Ok t →
  named_field signature_type
    {| ta_kind := "NAMED_TYPE"; ta_value := named_type_json f.1 (encode f.2) |} i
  = Ok (struct_field (default ("field_" +:+ pretty (Z.of_nat i)) f.1) t).
Proof.
  intros Ht. unfold TrinoTypes.named_field. simpl negb. cbv iota.
  change (value_index "typeSignature" _) with (encode f.2). rewrite decode_encoded. simpl.
  rewrite Ht. simpl. by rewrite field_of_named.
Qed.

Lemma named_fields_encoded fields : ∀ i,
  Forall (λ f, signature_type (signature_of f.2) = Ok (denote f.2)) fields →
  collect_results (imap (λ k a, named_field signature_type a (i + k))
    ((λ f : option string * TrinoType,
       {| ta_kind := "NAMED_TYPE"; ta_value := named_type_json f.1 (encode f.2) |}) <$> fields))
  = Ok (zip_with struct_field (field_names i fields)
          ((λ f : option string * TrinoType, denote f.2) <$> fields)).
Proof.
  induction fields as [|f fields IH]; intros i Hf; [done|].
  inversion Hf as [|?? Hf1 Hf2]; subst. csimpl.
  rewrite Nat.add_0_r, (named_field_encoded _ _ _ Hf1).
  rewrite (imap_ext _ (λ k a, named_field signature_type a (S i + k)))
    by (intros; simpl; by rewrite Nat.add_succ_r).
  by rewrite (IH (S i) Hf2).
Qed.

(** Type signatures mean what they say.  Every type of the protocol, arrays, maps
    and rows nested to any depth, is read as the Arrow type it denotes. *)
Theorem signatures_denote t : type_ok t → signature_type (signature_of t) = Ok (denote t).
Proof.
  induction t as [name|p s|t IH|k v IHk IHv|fields IH] using TrinoType_nested; intros Ht;
    rewrite signature_type_unfold.
  - destruct Ht as [d Hd]. simpl. rewrite Hd. by apply scalar_signature.
  - destruct Ht as [Hp Hs]. destruct (numeral_u8 p) as [Ep _]; [lia|].
    destruct (numeral_i8 s) as [Es _]; [lia|].
    assert (as_u64 (Number p) = Some p ∧ as_u64 (Number s) = Some s) as [Up Us].
    { unfold as_u64, u64_max. split; case_match eqn:E; try done; lia. }
    unfold TrinoTypes.signature_body, long_argument. cbn -[as_u64 decimal_type pretty].
    rewrite Up, Us. cbn -[decimal_type pretty]. unfold decimal_type. by rewrite Ep, Es.
  - unfold TrinoTypes.signature_body, type_argument. simpl. rewrite decode_encoded. simpl.
    by rewrite (IH Ht).
  - destruct Ht as [Hk Hv]. unfold TrinoTypes.signature_body, type_argument. simpl.
    rewrite decode_encoded. simpl. rewrite (IHk Hk). simpl. rewrite decode_encoded. simpl.
    by rewrite (IHv Hv).
  - apply type_ok_row in Ht.
    assert (Forall (λ f, signature_type (signature_of f.2) = Ok (denote f.2)) fields) as Hall.
    { eapply Forall_impl; [apply Forall_and; split; [exact IH|exact Ht]|]. intros f [? ?]. auto. }
    pose proof (named_fields_encoded fields 0 Hall) as E. cbn [Nat.add] in E.
    unfold TrinoTypes.signature_body. cbn [signature_of ts_raw_type ts_arguments].
    rewrite E. done.
Qed.
End Denotation.
