(* ===== verification/TrinoValues.v ===== *)
(** * Values of Trino results

    What [normalize_signature] makes of a value: it takes the shape of its type
    and keeps every leaf, where the names of each row are distinct and no row is
    nested in a map.  Without either condition values are lost or refused, and
    columns of one name share one value. *)
From S2P Require Import Prelude Text Chars Config Arrow ArrowTypes DriverApi TrinoTypes.
From S2P Require Import TrinoTypeFacts.
From Stdlib Require Import Ascii.

Definition leaf (v : Value) : Prop :=
  match v with Null | Array _ | Object _ => False | _ => True end.

(** The parts of a value that are not structure, in order. *)
Fixpoint leaves (v : Value) : list Value :=
  match v with
  | Array l => concat (leaves <$> l)
  | Object entries => concat ((λ e : string * Value, leaves e.2) <$> entries)
  | v => [v]
  end.

(** Two lists of one length, related in order. *)
Fixpoint all2 {A B} (R : A → B → Prop) (l : list A) (k : list B) : Prop :=
  match l, k with
  | [], [] => True
  | a :: l, b :: k => R a b ∧ all2 R l k
  | _, _ => False
  end.

(** The values of a type on the wire: rows are arrays. *)
Fixpoint wire (t : TrinoType) (v : Value) : Prop :=
  v = Null ∨
  match t with
  | TScalar _ | TDecimal _ _ => leaf v
  | TArray t => ∃ l, v = Array l ∧ Forall (wire t) l
  | TMap _ t => ∃ entries, v = Object entries ∧ Forall (λ e : string * Value, wire t e.2) entries
  | TRow fields =>
      ∃ l, v = Array l ∧
        (fix go fs l :=
           match fs, l with
           | [], [] => True
           | f :: fs, v :: l => wire (snd f) v ∧ go fs l
           | _, _ => False
           end) fields l
  end.

(** The values the Arrow JSON reader takes for a type: rows are objects with the
    names of their fields. *)
Fixpoint shaped (t : DataType) (v : Value) : Prop :=
  v = Null ∨
  match t with
  | List (mk_field _ t _ _) => ∃ l, v = Array l ∧ Forall (shaped t) l
  | Map (mk_field _ (Struct [_; mk_field _ t _ _]) _ _) _ =>
      ∃ entries, v = Object entries ∧ Forall (λ e : string * Value, shaped t e.2) entries
  | Struct fields =>
      ∃ entries, v = Object entries ∧
        (fix go fs es :=
           match fs, es with
           | [], [] => True
           | mk_field n t _ _ :: fs, (k, v) :: es => k = n ∧ shaped t v ∧ go fs es
           | _, _ => False
           end) fields entries
  | _ => leaf v
  end.

(** No row anywhere in the type. *)
Fixpoint rowless (t : TrinoType) : Prop :=
  match t with
  | TScalar _ | TDecimal _ _ => True
  | TArray t => rowless t
  | TMap k v => rowless k ∧ rowless v
  | TRow _ => False
  end.

(** Rows have distinct names and are in no map. *)
Fixpoint regular (t : TrinoType) : Prop :=
  match t with
  | TScalar _ | TDecimal _ _ => True
  | TArray t => regular t
  | TMap k v => rowless k ∧ rowless v
  | TRow fields =>
      NoDup (field_names 0 fields) ∧
      (fix go l := match l with [] => True | f :: l => regular (snd f) ∧ go l end) fields
  end.

Lemma regular_row fields :
  regular (TRow fields) → NoDup (field_names 0 fields) ∧ Forall (λ f, regular f.2) fields.
Proof.
  intros [Hn Hf]. split; [done|]. clear Hn. induction fields as [|f fields IH]; [constructor|].
  destruct Hf as [Hf Hl]. constructor; auto.
Qed.

Lemma wire_row_values (fields : list (option string * TrinoType)) l :
  (fix go (fs : list (option string * TrinoType)) (l : list Value) :=
     match fs, l with
     | [], [] => True
     | f :: fs, v :: l => wire (snd f) v ∧ go fs l
     | _, _ => False
     end) fields l →
  all2 (λ f v, wire f.2 v) fields l.
Proof. revert l. induction fields as [|f fields IH]; intros [|v l]; simpl; naive_solver. Qed.

(** The entries of an object that is shaped as a struct. *)
Definition entries_shaped (fields : list Field) (entries : list (string * Value)) : Prop :=
  all2 (λ f e, e.1 = field_name f ∧ shaped (field_type f) e.2) fields entries.

Lemma shaped_struct fields entries :
  entries_shaped fields entries → shaped (Struct fields) (Object entries).
Proof.
  intros H. right. exists entries. split; [done|]. revert entries H.
  induction fields as [|[n t b m] fields IH]; intros [|[k v] entries]; unfold entries_shaped; simpl;
    naive_solver.
Qed.

Definition flat (t : DataType) : bool :=
  match t with List _ | Map _ _ | Struct _ => false | _ => true end.

Lemma shaped_flat t v : flat t = true → leaf v → shaped t v.
Proof. intros Ht Hv. by destruct t; try done; right. Qed.

Lemma scalar_leaf name v : leaf v → shaped (default Utf8 (scalar_denotes name)) v.
Proof.
  intros Hv. unfold scalar_denotes.
  destruct (find (λ e, String.eqb name e.1) scalar_types) as [e|] eqn:E; [|by right].
  apply find_some in E as [Hin _]. simpl.
  apply shaped_flat; [|done].
  assert (forallb (λ e : string * DataType, flat e.2) scalar_types = true) as Hall by done.
  rewrite forallb_forall in Hall. by apply Hall.
Qed.

(** Without rows a value is already in shape. *)
Lemma rowless_shaped t : ∀ v, rowless t → wire t v → shaped (denote t) v.
Proof.
  induction t as [name|p s|t IH|k t _ IH|fields _] using TrinoType_nested; intros v Hr.
  - intros [->|Hv]; [|by apply scalar_leaf]. simpl. by destruct (default _ _); left.
  - intros [->|Hv]; [by left|by right].
  - intros [->|(l & -> & Hl)]; [by left|]. right. exists l. split; [done|].
    eapply Forall_impl; [exact Hl|]. intros w. by apply IH.
  - intros [->|(es & -> & Hl)]; [by left|]. right. exists es. split; [done|].
    eapply Forall_impl; [exact Hl|]. intros e. apply IH. by destruct Hr.
  - done.
Qed.

Lemma object_insert_fresh k v es : k ∉ es.*1 → object_insert k v es = es ++ [(k, v)].
Proof.
  induction es as [|[k' v'] es IH]; csimpl; [done|]. intros Hk. apply not_elem_of_cons in Hk as [Hne Hk].
  destruct (String.eqb_spec k' k); [congruence|]. by rewrite IH.
Qed.

Section Values.
Variable decode_error : string → Value → string.
Abbreviation signature_type := (signature_type decode_error).
Abbreviation normalize_row := (normalize_row decode_error).
Abbreviation normalize_signature := (normalize_signature decode_error).

(** What the theorem below says of one type. *)
Definition normalizes (t : TrinoType) : Prop := ∀ v, wire t v →
  ∃ v', normalize_signature (signature_of t) v = Ok v' ∧ shaped (denote t) v' ∧ leaves v' = leaves v.

Definition row_arguments (fields : list (option string * TrinoType)) : list TypeArgument :=
  (λ f : option string * TrinoType,
     {| ta_kind := "NAMED_TYPE"; ta_value := named_type_json f.1 (encode f.2) |}) <$> fields.

Lemma normalize_row_spec fields : ∀ i acc l,
  Forall (λ f, signature_type (signature_of f.2) = Ok (denote f.2) ∧ normalizes f.2) fields →
  NoDup (acc.*1 ++ field_names i fields) →
  all2 (λ f v, wire f.2 v) fields l →
  ∃ es, normalize_row normalize_signature i acc (zip (row_arguments fields) l)
        = Ok (Object (acc ++ es)) ∧
    entries_shaped (zip_with struct_field (field_names i fields)
                      ((λ f : option string * TrinoType, denote f.2) <$> fields)) es ∧
    concat ((λ e : string * Value, leaves e.2) <$> es) = concat (leaves <$> l).
Proof.
  induction fields as [|f fields IH]; intros i acc [|v l] Hf Hn Hw; try done.
  { exists []. by rewrite app_nil_r. }
  inversion Hf as [|?? [Ht Hv] Hf']; subst. destruct Hw as [Hw Hl].
  destruct (Hv v Hw) as (v' & Ev & Hs & Hlv).
  set (n := default ("field_" +:+ pretty (Z.of_nat i)) f.1).
  change (row_arguments (f :: fields))
    with ({| ta_kind := "NAMED_TYPE"; ta_value := named_type_json f.1 (encode f.2) |}
          :: row_arguments fields).
  cbn [zip_with TrinoTypes.normalize_row].
  rewrite (named_field_encoded decode_error i f _ Ht). cbn [and_then].
  change (value_index "typeSignature" _) with (encode f.2). rewrite decode_encoded. cbn [and_then].
  rewrite Ev. cbn [and_then]. fold n. cbn [field_names] in Hn. fold n in Hn.
  change (field_name (struct_field n (denote f.2))) with n.
  rewrite object_insert_fresh.
  2:{ apply NoDup_app in Hn as (_ & Hd & _). intros Hin. apply (Hd n Hin). by left. }
  destruct (IH (S i) (acc ++ [(n, v')]) l Hf') as (es & -> & Hes & Hle); [|done|].
  { rewrite fmap_app, <- app_assoc. exact Hn. }
  exists ((n, v') :: es). rewrite <- app_assoc. split; [done|]. split.
  - cbn [field_names]. fold n. csimpl. done.
  - csimpl. by rewrite Hle, Hlv.
Qed.

Lemma normalize_items t l :
  normalizes t → Forall (wire t) l →
  ∃ l', collect_results (normalize_signature (signature_of t) <$> l) = Ok l' ∧
        Forall (shaped (denote t)) l' ∧ concat (leaves <$> l') = concat (leaves <$> l).
Proof.
  intros Ht. induction 1 as [|v l Hv _ (l' & E & Hs & Hl)]; [by exists []|].
  destruct (Ht v Hv) as (v' & Ev & Hsv & Hlv). exists (v' :: l'). csimpl. rewrite Ev, E.
  split; [done|]. split; [by constructor|]. by rewrite Hlv, Hl.
Qed.

(** Signatures whose values are passed on as they are. *)
Definition passes (s : TypeSignature) : bool :=
  negb (String.eqb (ts_raw_type s) "array") && negb (String.eqb (ts_raw_type s) "row").

Lemma normalize_passes s v : passes s = true → normalize_signature s v = Ok v.
Proof.
  unfold passes. intros [Ha%negb_true_iff Hr%negb_true_iff]%andb_true_iff.
  rewrite normalize_unfold. unfold TrinoTypes.normalize_body. rewrite Ha, Hr. by case_match.
Qed.

Lemma normalize_null s : normalize_signature s Null = Ok Null.
Proof. by rewrite normalize_unfold. Qed.

Lemma scalar_passes name : type_ok (TScalar name) → passes (signature_of (TScalar name)) = true.
Proof.
  intros [t Ht]. unfold scalar_denotes in Ht.
  destruct (find (λ e, String.eqb name e.1) scalar_types) as [e|] eqn:E; [|done].
  apply find_some in E as [Hin ->%String.eqb_eq].
  assert (forallb (λ e : string * DataType, passes (signature_of (TScalar e.1))) scalar_types = true)
    as Hall by by vm_compute.
  rewrite forallb_forall in Hall. by apply Hall.
Qed.

(** C26: Values take the shape of their type, and none is lost.  A value of a type of
    the protocol becomes one of the shape the Arrow reader expects for the type
    it denotes, with the same leaves in the same order, whenever the fields of
    each row have distinct names and no row is nested in a map. *)
Theorem values_take_the_shape_of_their_type t v :
  type_ok t → regular t → wire t v →
  ∃ v', normalize_signature (signature_of t) v = Ok v' ∧ shaped (denote t) v' ∧
        leaves v' = leaves v.
Proof.
  intros Ht Hr. revert v. change (normalizes t). revert Ht Hr.
  induction t as [name|p s|t IH|k t _ IH|fields IH] using TrinoType_nested; intros Ht Hr v Hw.
  - exists v. split; [by apply normalize_passes, scalar_passes|]. by split; [apply rowless_shaped|].
  - exists v. split; [by apply normalize_passes|]. by split; [apply rowless_shaped|].
  - destruct Hw as [->|(l & -> & Hl)].
    { exists Null. split; [apply normalize_null|]. split; [by left|done]. }
    destruct (normalize_items t l (IH Ht Hr) Hl) as (l' & E & Hs & Hll). exists (Array l').
    rewrite normalize_unfold. unfold TrinoTypes.normalize_body, type_argument. simpl.
    rewrite decode_encoded. simpl. rewrite E. simpl. split; [done|]. split; [|exact Hll].
    right. by exists l'.
  - exists v. split; [by apply normalize_passes|]. split; [|done]. by apply (rowless_shaped (TMap k t)).
  - destruct Hw as [->|(l & -> & Hl%wire_row_values)].
    { exists Null. split; [apply normalize_null|]. split; [by left|done]. }
    apply regular_row in Hr as [Hn Hr]. apply type_ok_row in Ht.
    destruct (normalize_row_spec fields 0 [] l) as (es & E & Hs & Hle); [|exact Hn|done|].
    { apply Forall_forall. intros f Hf. rewrite !Forall_forall in *.
      split; [by apply signatures_denote, Ht|]. intros w. by apply IH; auto. }
    exists (Object es). rewrite normalize_unfold. unfold TrinoTypes.normalize_body. simpl.
    unfold row_arguments in E. rewrite E. split; [done|]. split; [|done]. by apply shaped_struct.
Qed.

(** ** Where values are lost or refused *)

(** A row with two fields of one name keeps the last value only. *)
Lemma equal_names_lose_values :
  normalize_signature (signature_of (TRow [(Some "x", TScalar "bigint"); (Some "x", TScalar "bigint")]))
    (Array [Number 1; Number 2])
  = Ok (Object [("x", Number 2)]).
Proof. by vm_compute. Qed.

(** The name given to a field without one can be that of another field. *)
Lemma numbered_names_lose_values :
  normalize_signature
    (signature_of (TRow [(Some "field_1", TScalar "bigint"); (None, TScalar "bigint")]))
    (Array [Number 1; Number 2])
  = Ok (Object [("field_1", Number 2)]).
Proof. by vm_compute. Qed.

(** A row in a map stays an array, which is not what its type is read as. *)
Lemma rows_in_maps_stay_arrays :
  let t := TMap (TScalar "varchar") (TRow [(Some "x", TScalar "bigint")]) in
  let v := Object [("k", Array [Number 1])] in
  type_ok t ∧ wire t v ∧ normalize_signature (signature_of t) v = Ok v ∧ ¬ shaped (denote t) v.
Proof.
  split_and!.
  - repeat split; by eexists.
  - right. eexists. split; [done|]. apply Forall_singleton. right. eexists. split; [done|].
    split; [|done]. by right.
  - by vm_compute.
  - intros [?|(es & [= <-] & Hes)]; [done|]. inversion Hes as [|?? Hv]; subst.
    destruct Hv as [?|(l & ? & _)]; done.
Qed.

(** Two columns of one name: both would get the value of the second. *)
Lemma equal_columns_lose_values :
  let c := {| tc_name := "id"; tc_display_type := "bigint"; tc_type_signature := None |} in
  row_object decode_error [] [(c, Number 1); (c, Number 2)] = Ok (Object [("id", Number 2)]).
Proof. done. Qed.
End Values.

(** ** Pages *)

Section Pages.
Context `{ajl : ArrowJsonLaws}.
Variable decode_error : string → Value → string.

Lemma encode_rows_lines columns rows text :
  encode_rows decode_error columns rows = Ok text →
  ∃ docs texts, json_line <$> docs = Ok <$> texts ∧ length docs = length rows ∧
    text = unchars ((λ t, t +:+ String (ascii_of_N 10) EmptyString) <$> texts).
Proof.
  revert text. induction rows as [|row rows IH]; intros text; simpl.
  { intros [= <-]. by exists [], []. }
  destruct (negb _); [done|]. destruct (row_object _ _ _) as [doc|]; [|done]. simpl.
  destruct (json_line doc) as [t|] eqn:Et; [|done]. simpl.
  destruct (encode_rows _ _ _) as [rest|]; [|done]. simpl. intros [= <-].
  destruct (IH rest eq_refl) as (docs & texts & Hd & Hl & ->). exists (doc :: docs), (t :: texts).
  csimpl. rewrite Et, Hd, Hl. split_and!; [done..|]. by rewrite string_app_assoc.
Qed.

Lemma lines_length texts :
  Z.of_nat (length texts)
  ≤ len (unchars ((λ t, t +:+ String (ascii_of_N 10) EmptyString) <$> texts)).
Proof.
  unfold len. induction texts as [|t texts IH]; [done|].
  cbn [fmap list_fmap]. change (unchars (?a :: ?l)) with (a +:+ unchars l).
  rewrite !string_length_app. cbn [length String.length]. lia.
Qed.

(** A page becomes one batch with all its rows: the reader is asked for batches of
    at least as many rows as the page has bytes. *)
Lemma page_to_batch_rows columns rows b :
  page_to_batch decode_error columns rows = Ok b → num_rows b = Z.of_nat (length rows).
Proof.
  unfold page_to_batch. destruct (collect_results _) as [fields|]; [|done]. simpl.
  destruct (encode_rows decode_error columns rows) as [text|] eqn:E; [|done]. simpl.
  destruct (encode_rows_lines _ _ _ E) as (docs & texts & Hd & Hl & ->).
  destruct (read_json _ _ _) as [[|[b'|e] rest]|e] eqn:Er; try done. intros [= ->].
  rewrite <- Hl. eapply read_json_rows; [exact Hd| |exact Er].
  pose proof (lines_length texts) as Hlen.
  apply (f_equal length) in Hd. rewrite !length_fmap in Hd. rewrite Hd. lia.
Qed.
End Pages.
