(* ===== verification/Trino.v ===== *)
(** * The Trino adapter (crates/qcli-driver-trino/src/lib.rs)

    [execute] as the loop that follows the pages of the client protocol, with
    retries and cancellation; metadata discovery; and the client configuration.
    [trino_rust_client] is the record [Client] of its calls over a state of its
    own (the engine and the network); [Url::parse] is a parameter. *)
From S2P Require Import Prelude Text Chars Config Arrow ArrowTypes ArrowBuild DriverApi Core.
From S2P Require Import Sink Sql TrinoTypes.
From Stdlib Require Import Ascii.
Import Core.Queries.

(** ** The client's data *)

Record Stat := {
  st_state : string;
  st_scheduled : bool;
  st_completed_splits : Z;
  st_total_splits : Z;
  st_processed_rows : Z;
  st_processed_bytes : Z;
  st_elapsed_time_millis : Z;
}.

Record TrinoQueryError := { tq_name : string; tq_type : string; tq_message : string }.

Inductive QueryResultData := Direct (rows : list (list Value)) | Spooled.

(** [QueryResult<Row>]; the columns as the JSON they serialize to. *)
Record Page := {
  pg_id : string;
  pg_next_uri : option string;
  pg_stats : Stat;
  pg_error : option TrinoQueryError;
  pg_columns : option (result Value string);
  pg_data : option QueryResultData;
}.

(** [TrinoClientError], with its [Display] text. *)
Inductive ClientErrorKind :=
| BasicAuthWithHttp | Forbidden | HttpError (timeout : bool) | HttpNotOk (status : Z)
| QueryFailed (e : TrinoQueryError) | Decode | Protocol | InconsistentData | Tls | OtherError.
Record ClientError := { ce_kind : ClientErrorKind; ce_text : string }.

Definition map_client_error (error : ClientError) : DriverError :=
  match ce_kind error with
  | BasicAuthWithHttp => DriverError_new "insecure_authentication" (ce_text error)
  | Forbidden => DriverError_new "authentication" (ce_text error)
  | HttpError true => DriverError_new "timeout" "Trino request timed out"
  | HttpError false => DriverError_new "connection" (ce_text error)
  | HttpNotOk status =>
      if (status =? 401) || (status =? 403)
      then DriverError_new "authentication" (ce_text error)
      else DriverError_new "trino_http" (ce_text error)
  | QueryFailed e => DriverError_new (tq_name e) (tq_type e +:+ ": " +:+ tq_message e)
  | Decode | Protocol | InconsistentData => DriverError_new "trino_protocol" (ce_text error)
  | Tls => DriverError_new "tls" (ce_text error)
  | OtherError => DriverError_new "trino_client" (ce_text error)
  end.

(** The client's calls; [client_abandon] is what becomes of the engine when a
    request is dropped while it is under way. *)
Record Client (W : Type) := {
  client_get : string → M W ClientError Page;
  client_get_next : string → M W ClientError Page;
  client_cancel : string → M W ClientError unit;
  client_abandon : string → bool → W → W;
}.
Arguments client_get {W}.
Arguments client_get_next {W}.
Arguments client_cancel {W}.
Arguments client_abandon {W}.

Definition progress (s : Stat) : QueryProgress :=
  {| progress_state := Some (st_state s); progress_scheduled := Some (st_scheduled s);
     completed_splits := Some (st_completed_splits s); total_splits := Some (st_total_splits s);
     processed_rows := Some (st_processed_rows s); processed_bytes := Some (st_processed_bytes s);
     elapsed_millis := Some (st_elapsed_time_millis s) |}.

Definition query_error (e : TrinoQueryError) : DriverError :=
  DriverError_new (tq_name e) (tq_type e +:+ ": " +:+ tq_message e).

Definition direct_rows (data : QueryResultData) : result (list (list Value)) DriverError :=
  match data with
  | Direct rows => Ok rows
  | Spooled =>
      Err (DriverError_new "trino_spooling"
        "Trino returned spooled results; qcli currently requires the direct protocol")
  end.

(** ** Session updates *)

Definition unquote_identifier (value : string) : string :=
  default value (strip_prefix dquote value ≫= strip_suffix dquote).

(** [statement.get(..3)] and [get(3..)]: nothing inside a character. *)
Definition split_three (s : string) : option (string * string) :=
  match s with
  | String a (String b (String c rest)) =>
      if at_boundary rest then Some (String a (String b (of_char c)), rest) else None
  | _ => None
  end.

Definition use_session_update (sql : string) : option (gmap string string) :=
  let statement := trim (trim_end_matches ";"%char (trim sql)) in
  '(prefix, remainder) ← split_three statement;
  if negb (eq_ignore_ascii_case prefix "use")
     || negb (match chars remainder with ch :: _ => is_whitespace ch | [] => false end)
  then None
  else
    let context := trim remainder in
    if is_empty context || existsb is_whitespace (chars context) then None
    else
      match unquote_identifier <$> split "."%char context with
      | [schema] => Some {[ "schema" := schema ]}
      | [catalog; schema] => Some {[ "catalog" := catalog; "schema" := schema ]}
      | _ => None
      end.

Section Trino.
Context `{aj : ArrowJson}.
Variable decode_error : string → Value → string.
(** [Value::to_string]. *)
Variable value_text : Value → string.

(** ** Requests *)

Section Requests.
Context {W : Type} (client : Client W) (ch : Channel) (i : Invocation).

Definition transient {A} (r : result A ClientError) : bool :=
  match r with
  | Err e =>
      match ce_kind e with
      | HttpNotOk status => existsb (Z.eqb status) [429; 502; 503; 504]
      | _ => false
      end
  | Ok _ => false
  end.

(** [page_with_retry], with [more] attempts after this one. *)
Fixpoint page_attempts (more : nat) (value : string) (next : bool) : M W DriverError Page := λ w,
  let '(r, w') := (if next then client_get_next client value else client_get client value) w in
  match more with
  | S more =>
      if transient r then page_attempts more value next w' else (map_err map_client_error r, w')
  | O => (map_err map_client_error r, w')
  end.
Definition page_with_retry (value : string) (next : bool) : M W DriverError Page :=
  page_attempts 3 value next.

(** The branch of [get_or_cancel] for a query that is being cancelled. *)
Definition cancel_query (value : string) (query_id : option string) : Step W Page :=
  _ ← modify (λ s, put_world (client_abandon client value
                                (match query_id with Some _ => true | None => false end) (world s)) s);
  _ ← emit (State Cancelling);
  id ← of_result (ok_or query_id (DriverError_new "cancel_unconfirmed"
         "query was cancelled before Trino returned its query ID"));
  _ ← ask (λ error, DriverError_new "cancel_unconfirmed"
             ("Trino cancellation request failed: " +:+ ce_text error))
        (client_cancel client id);
  fail (DriverError_new "cancelled" "query cancellation was confirmed by Trino").

(** [tokio::select!]: a poll tells which branch is taken. *)
Definition get_or_cancel (value : string) (query_id : option string) : Step W Page :=
  cancelled ← poll_cancelled i;
  if (cancelled : bool) then cancel_query value query_id
  else ask id (page_with_retry value (match query_id with Some _ => true | None => false end)).

(** ** [execute] *)

(** The variables of the loop. *)
Record Following := {
  fo_next_uri : option string;
  fo_query_id : option string;
  fo_columns : option (list Column);
  fo_total_rows : Z;
  fo_producing : bool;
}.

Definition Following_start : Following :=
  {| fo_next_uri := None; fo_query_id := None; fo_columns := None; fo_total_rows := 0;
     fo_producing := false |}.

(** The batch of a page, sent on; returns the rows so far and whether results
    have been announced. *)
Definition send_page (columns : option (list Column)) (total : Z) (producing : bool)
    (data : QueryResultData) : Step W (Z * bool) :=
  rows ← of_result (direct_rows data);
  match rows with
  | [] => mret (total, producing)
  | _ =>
      columns ← of_result (ok_or columns
        (trino_protocol_error "result data arrived without columns"));
      b ← of_result (page_to_batch decode_error columns rows);
      let total' := usize_add total (num_rows b) in
      if 0 <? num_rows b then
        _ ← (if producing then mret tt else emit (State ProducingResults));
        _ ← offer ch b;
        mret (total', true)
      else mret (total', producing)
  end.

(** What follows the last page. *)
Definition conclude_query (sql : string) (total : Z) : Step W (Following + unit) :=
  _ ← match use_session_update sql with
      | Some properties => emit (SessionProperties properties)
      | None => mret tt
      end;
  _ ← emit (RowsProduced total);
  mret (inr tt).

(** One turn of the loop. *)
Definition follow_page (sql : string) (f : Following) : Step W (Following + unit) :=
  page ← match fo_next_uri f with
         | Some uri => get_or_cancel uri (fo_query_id f)
         | None => get_or_cancel sql None
         end;
  query_id ← match fo_query_id f with
             | Some id => mret id
             | None => _ ← emit (EngineQueryId (pg_id page)); mret (pg_id page)
             end;
  _ ← match pg_next_uri page with
      | None => try_emit ch (Progress (progress (pg_stats page)))
      | Some _ => mret tt
      end;
  _ ← match pg_error page with
      | Some error => fail (query_error error)
      | None => mret tt
      end;
  columns ← match pg_columns page with
            | Some columns =>
                of_result (let? c := convert_columns decode_error columns in Ok (Some c))
            | None => mret (fo_columns f)
            end;
  '(total, producing) ← match pg_data page with
                        | Some data => send_page columns (fo_total_rows f) (fo_producing f) data
                        | None => mret (fo_total_rows f, fo_producing f)
                        end;
  match pg_next_uri page with
  | Some uri =>
      mret (inl {| fo_next_uri := Some uri; fo_query_id := Some query_id; fo_columns := columns;
                   fo_total_rows := total; fo_producing := producing |})
  | None => conclude_query sql total
  end.

Definition follow (sql : string) (fuel : nat) : Step W (Following + unit) :=
  iterate (follow_page sql) fuel Following_start.

(** [execute] with the client it has built; [inl] while it is following pages. *)
Definition trino_run (sql : string) (fuel : nat) : Step W (Following + unit) :=
  _ ← emit (State Running);
  follow sql fuel.
End Requests.

(** ** Metadata *)

Section Discovery.
Context {W : Type} (client : Client W).

(** One turn of the loop of [metadata_rows]. *)
Definition metadata_turn (state : Page * list (list Value)) :
    M W DriverError (Page * list (list Value) + list (list Value)) :=
  let '(page, rows) := state in
  _ ← match pg_error page with
      | Some error => fail (query_error error)
      | None => mret tt
      end;
  rows ← match pg_data page with
         | Some data => of_result (let? more := direct_rows data in Ok (rows ++ more))
         | None => mret rows
         end;
  match pg_next_uri page with
  | None => mret (inr rows)
  | Some next =>
      page ← on (λ w : W, w) (λ w _, w) map_client_error (client_get_next client next);
      mret (inl (page, rows))
  end.

(** [metadata_rows]; [inl] while it is following pages. *)
Definition metadata_rows (sql : string) (fuel : nat) :
    M W DriverError (Page * list (list Value) + list (list Value)) :=
  page ← on (λ w : W, w) (λ w _, w) map_client_error (client_get client sql);
  iterate metadata_turn fuel (page, []).
End Discovery.

Definition row_string (row : list Value) (index : nat) : option string :=
  v ← row !! index;
  match v with
  | VString s => Some s
  | Null => None
  | v => Some (value_text v)
  end.

Definition schemas_sql (request : MetadataRequest) : string :=
  match mr_catalog request with
  | None => "SHOW SCHEMAS"
  | Some catalog => "SHOW SCHEMAS FROM " +:+ identifier catalog
  end.

(** [request.catalog.or(properties.get(name))] of a request. *)
Definition selected (request : MetadataRequest) (field_ : option string) (name : string) :
    option string :=
  match field_ with Some v => Some v | None => mr_properties request !! name end.

Definition quote_mark : string := of_char single_quote_char.

Definition objects_sql (catalog schema pattern : string) : string :=
  "SELECT table_catalog, table_schema, table_name, table_type FROM " +:+ identifier catalog
  +:+ ".information_schema.tables WHERE table_schema = " +:+ quote_mark +:+ literal schema
  +:+ quote_mark +:+ " AND table_name LIKE " +:+ quote_mark +:+ literal pattern +:+ quote_mark
  +:+ " ESCAPE '$' ORDER BY table_name".

Definition trino_objects_sql (request : MetadataRequest) : result string DriverError :=
  let? catalog := ok_or (selected request (mr_catalog request) "catalog")
    (DriverError_new "missing_context" "table discovery requires a catalog") in
  let? schema := ok_or (selected request (mr_schema request) "schema")
    (DriverError_new "missing_context" "table discovery requires a schema") in
  let pattern := match mr_pattern request with Some p => glob_to_like p | None => "%" end in
  Ok (objects_sql catalog schema pattern).

Definition qualify_object (request : MetadataRequest) (object : string) : string :=
  if contains "." object then join "." (identifier <$> split "."%char object)
  else
    join "." (identifier <$> omap id
      [selected request (mr_catalog request) "catalog";
       selected request (mr_schema request) "schema"; Some object]).

Definition describe_sql (request : MetadataRequest) (object : string) : string :=
  "DESCRIBE " +:+ qualify_object request object.

Definition catalogs_of (rows : list (list Value)) : list CatalogMetadata :=
  omap (λ row, name ← row_string row 0; Some {| cat_name := name |}) rows.

Definition schemas_of (request : MetadataRequest) (rows : list (list Value)) :
    list SchemaMetadata :=
  omap (λ row, name ← row_string row 0;
               Some {| sm_catalog := mr_catalog request; sm_name := name |}) rows.

Definition objects_of (rows : list (list Value)) : list ObjectMetadata :=
  omap (λ row,
    name ← row_string row 2;
    kind ← row_string row 3;
    let kind := to_ascii_uppercase kind in
    Some {| om_catalog := row_string row 0; om_schema := row_string row 1; om_name := name;
            om_kind := if String.eqb kind "BASE TABLE" then Table
                       else if String.eqb kind "VIEW" then View else Other |}) rows.

Definition columns_of (rows : list (list Value)) : list ColumnMetadata :=
  omap (λ row,
    name ← row_string row 0;
    data_type ← row_string row 1;
    Some {| cm_name := name; cm_data_type := data_type; cm_nullable := None;
            cm_comment := comment ← row_string row 3;
                          if is_empty comment then None else Some comment |}) rows.
End Trino.

(** ** The client configuration *)

(** [Url], as far as it is read. *)
Record Url := { url_host : option string; url_scheme : string; url_port : option Z }.

Inductive ClientAuth := Jwt (token : string) | Basic (user : string) (password : option string).

Record ClientConfig := {
  cc_user : string;
  cc_host : string;
  cc_port : Z;
  cc_secure : bool;
  cc_source : string;
  cc_no_verify : bool;
  cc_max_attempt : Z;
  cc_catalog : option string;
  cc_schema : option string;
  cc_client_tags : list string;
  cc_properties : gmap string string;
  cc_request_timeout : option Z;
  cc_auth : option ClientAuth;
}.

Definition required (properties : gmap string string) (name : string) :
    result string DriverError :=
  ok_or (v ← properties !! name; if is_empty v then None else Some v)
    (DriverError_new "configuration" ("Trino requires property '" +:+ name +:+ "'")).

Definition boolean (properties : gmap string string) (name : string) (fallback : bool) :
    result bool DriverError :=
  match properties !! name with
  | None => Ok fallback
  | Some value =>
      if String.eqb value "true" then Ok true
      else if String.eqb value "false" then Ok false
      else Err (DriverError_new "configuration"
                  ("property '" +:+ name +:+ "' requires true or false"))
  end.

(** [parse_duration], in milliseconds. *)
Definition parse_duration (name value : string) : result Z DriverError :=
  let invalid := DriverError_new "configuration"
                   ("property '" +:+ name +:+ "' has invalid duration") in
  let number_and_multiplier :=
    match strip_suffix "ms" value with
    | Some number => Some (number, 1)
    | None =>
        match strip_suffix "s" value with
        | Some number => Some (number, 1000)
        | None =>
            match strip_suffix "m" value with
            | Some number => Some (number, 60000)
            | None =>
                match strip_suffix "h" value with
                | Some number => Some (number, 3600000)
                | None => None
                end
            end
        end
    end in
  let? (number, multiplier) := ok_or number_and_multiplier invalid in
  let? number := ok_or (parse_u64 number) invalid in
  Ok (Z.min (number * multiplier) u64_max).

Definition duration (properties : gmap string string) (name : string) :
    result (option Z) DriverError :=
  match properties !! name with
  | Some value => let? d := parse_duration name value in Ok (Some d)
  | None => Ok None
  end.

Definition client_tags (value : string) : list string :=
  filter (λ tag, is_empty tag = false) (trim <$> split ","%char value).

(** The properties whose name starts with [session.], without that prefix. *)
Definition session_properties (properties : gmap string string) : gmap string string :=
  list_to_map (omap (λ kv : string * string, name ← strip_prefix "session." kv.1; Some (name, kv.2))
                 (map_to_list properties)).

Section Configuration.
Variable url_parse : string → result Url string.
(** [ClientBuilder::build]. *)
Variable client_build : ClientConfig → result unit ClientError.

Definition client_config (properties : gmap string string) : result ClientConfig DriverError :=
  let? text := required properties "url" in
  let? url := map_err (λ error, DriverError_new "configuration" ("invalid Trino URL: " +:+ error))
                (url_parse text) in
  let? host := ok_or (url_host url) (DriverError_new "configuration" "Trino URL requires a host") in
  let? user := required properties "user" in
  let password := properties !! "password" in
  let token := properties !! "token" in
  let given {A} (o : option A) := match o with Some _ => true | None => false end in
  if given password && given token then
    Err (DriverError_new "configuration"
           "configure either Trino password or token authentication, not both")
  else if (given password || given token) && negb (String.eqb (url_scheme url) "https") then
    Err (DriverError_new "insecure_authentication"
           "qcli refuses to send Trino credentials over plain HTTP")
  else
    let? tls_verify := boolean properties "tls_verify" true in
    let? query_timeout := duration properties "query_timeout" in
    let? connect_timeout := duration properties "connect_timeout" in
    Ok {| cc_user := user; cc_host := host; cc_port := default 8080 (url_port url);
          cc_secure := String.eqb (url_scheme url) "https";
          cc_source := default "qcli" (properties !! "source");
          cc_no_verify := negb tls_verify; cc_max_attempt := 4;
          cc_catalog := properties !! "catalog"; cc_schema := properties !! "schema";
          cc_client_tags := match properties !! "client_tags" with
                            | Some value => client_tags value
                            | None => []
                            end;
          cc_properties := session_properties properties;
          cc_request_timeout := match query_timeout with
                                | Some t => Some t
                                | None => connect_timeout
                                end;
          cc_auth := match token, password with
                     | Some token, _ => Some (Jwt token)
                     | None, Some password => Some (Basic user (Some password))
                     | None, None => None
                     end |}.

Definition build_client (properties : gmap string string) : result ClientConfig DriverError :=
  let? config := client_config properties in
  let? _ := map_err map_client_error (client_build config) in
  Ok config.
End Configuration.

Definition trino_capabilities : AdapterCapabilities :=
  from_supported
    [StreamResults; CancelQuery; ListCatalogs; ListSchemas; ListObjects; DescribeObject;
     PreparedStatements].

(** ** The operations *)

Section Adapter.
Context `{aj : ArrowJson} {W : Type}.
Variable decode_error : string → Value → string.
Variable value_text : Value → string.
Variable url_parse : string → result Url string.
Variable client_build : ClientConfig → result unit ClientError.
(** The calls of a client with this configuration. *)
Variable connect : ClientConfig → Client W.

(** [None] while the pages of the query are being followed. *)
Definition trino_execute (ch : Channel) (i : Invocation) (fuel : nat) (request : QueryRequest)
    (w : W) : option Execution :=
  match build_client url_parse client_build (rq_properties request) with
  | Err e => Some (no_output e)
  | Ok config =>
      execution_of (trino_run decode_error (connect config) ch i (rq_sql request) fuel) w
  end.

(** [metadata_rows(&build_client(..)?, sql)] and what is made of its rows; [None]
    while its pages are being followed. *)
Definition trino_discover {A} (properties : gmap string string) (sql : string)
    (f : list (list Value) → A) (fuel : nat) : M W DriverError (option A) :=
  config ← of_result (build_client url_parse client_build properties);
  r ← metadata_rows (connect config) sql fuel;
  mret (match r with inr rows => Some (f rows) | inl _ => None end).

Definition trino_list_catalogs (request : MetadataRequest) :
    nat → M W DriverError (option (list CatalogMetadata)) :=
  trino_discover (mr_properties request) "SHOW CATALOGS" (catalogs_of value_text).

Definition trino_list_schemas (request : MetadataRequest) :
    nat → M W DriverError (option (list SchemaMetadata)) :=
  trino_discover (mr_properties request) (schemas_sql request) (schemas_of value_text request).

Definition trino_list_objects (request : MetadataRequest) (fuel : nat) :
    M W DriverError (option (list ObjectMetadata)) :=
  sql ← of_result (trino_objects_sql request);
  trino_discover (mr_properties request) sql (objects_of value_text) fuel.

Definition trino_describe_object (request : MetadataRequest) (object : string) :
    nat → M W DriverError (option (list ColumnMetadata)) :=
  trino_discover (mr_properties request) (describe_sql request object) (columns_of value_text).
End Adapter.
