(* ===== verification/TrinoFacts.v ===== *)
(** * Facts about the Trino adapter

    Its executions conform and follow every page; a request is tried at most four
    times; a cancellation is reported as such only when the engine confirmed it;
    and credentials leave only over HTTPS. *)
From S2P Require Import Prelude Text Arrow DriverApi Config Core Chars ArrowTypes ArrowBuild.
From S2P Require Import Sink Sql TrinoTypes TrinoTypeFacts TrinoValues Trino.
From Stdlib Require Import Ascii.
Import Core.Queries.

Section Conforms.
Context `{aj : ArrowJson} {W : Type}.
Variable decode_error : string → Value → string.
Variable client : Client W.
Context (ch : Channel) (i : Invocation).

Lemma on_track_add_zero n total producing items :
  on_track n total producing items → on_track n (usize_add total 0) producing items.
Proof.
  intros Ht. replace (usize_add total 0) with total; [done|]. rewrite (track_total _ _ _ _ Ht).
  unfold usize_add, counted. by rewrite Z.add_0_r, Zmod_mod.
Qed.

Lemma tracks_get_or_cancel n total producing value query_id :
  (n ≤ 4)%nat →
  tracks (on_track n total producing) (get_or_cancel client i value query_id)
    (λ _, on_track n total producing).
Proof.
  intros Hn. eapply tracks_bind; [apply tracks_poll|]. intros []; [|apply tracks_ask; lia].
  unfold cancel_query. apply (tracks_bind _ _ _ (λ _, on_track n total producing)); [by intros s|].
  intros ?. eapply tracks_bind; [apply tracks_emit; intros ?; by apply on_track_event|].
  intros ?. apply tracks_result; [lia|]. intros id _.
  eapply tracks_bind; [apply tracks_ask; lia|]. intros ?. apply tracks_fail. lia.
Qed.

Lemma tracks_send_page n columns total producing data :
  (n ≤ 5)%nat →
  tracks (on_track n total producing)
    (send_page (W:=W) decode_error ch columns total producing data)
    (λ r, on_track n r.1 r.2).
Proof.
  intros Hn. apply tracks_result; [done|]. intros rows _.
  destruct rows as [|row rows]; [by apply tracks_ret|].
  apply tracks_result; [done|]. intros cs _.
  apply tracks_result; [done|]. intros b _. cbv zeta.
  destruct (Z.ltb_spec 0 (num_rows b)).
  - eapply (tracks_bind _ _ _ (λ _, on_track n total true)).
    { destruct producing; [by apply tracks_ret|]. apply tracks_emit. apply on_track_producing. }
    intros ?. eapply tracks_bind; [by apply tracks_offer|]. intros ?. by apply tracks_ret.
  - apply tracks_ret. intros items Ht. replace (num_rows b) with 0 by (unfold num_rows in *; lia).
    by apply on_track_add_zero.
Qed.

Definition following (f : Following) : list QueryItem → Prop :=
  on_track (match fo_query_id f with Some _ => 2 | None => 1 end) (fo_total_rows f)
    (fo_producing f).

Lemma tracks_conclude n sql total producing :
  (n ≤ 3)%nat →
  tracks (on_track n total producing) (conclude_query (W:=W) sql total)
    (λ r, match r with inl f => following f | inr _ => finished end).
Proof.
  intros Hn. unfold conclude_query.
  eapply (tracks_bind _ _ _ (λ _, on_track (S n) total producing)).
  { destruct (use_session_update sql).
    - apply tracks_emit. intros ?. by apply on_track_event.
    - apply tracks_ret. intros ?. apply on_track_weaken. lia. }
  intros ?. eapply tracks_bind; [apply tracks_report; lia|]. intros ?. by apply tracks_ret.
Qed.

Lemma tracks_follow_page sql f :
  tracks (following f) (follow_page decode_error client ch i sql f)
    (λ r, match r with inl f' => following f' | inr _ => finished end).
Proof.
  unfold follow_page. eapply (tracks_bind _ _ _ (λ _, following f)).
  { unfold following. destruct (fo_next_uri f); apply tracks_get_or_cancel; case_match; lia. }
  intros page. eapply (tracks_bind _ _ _ (λ _, on_track 2 (fo_total_rows f) (fo_producing f))).
  { unfold following. destruct (fo_query_id f); [by apply tracks_ret|].
    eapply tracks_bind; [apply tracks_emit; intros ?; by apply on_track_event|].
    intros ?. by apply tracks_ret. }
  intros query_id.
  set (n := match pg_next_uri page with Some _ => 2%nat | None => 3%nat end).
  assert (n ≤ 3)%nat as Hn by (unfold n; case_match; lia).
  eapply (tracks_bind _ _ _ (λ _, on_track n (fo_total_rows f) (fo_producing f))).
  { unfold n. destruct (pg_next_uri page); [by apply tracks_ret|by apply tracks_try_emit]. }
  intros ?. eapply (tracks_bind _ _ _ (λ _, on_track n (fo_total_rows f) (fo_producing f))).
  { destruct (pg_error page); [apply tracks_fail; lia|by apply tracks_ret]. }
  intros ?. eapply (tracks_bind _ _ _ (λ _, on_track n (fo_total_rows f) (fo_producing f))).
  { destruct (pg_columns page); [|by apply tracks_ret].
    intros s Hs. unfold of_result. case_match; [done|]. exists n, (fo_total_rows f), (fo_producing f).
    split; [lia|done]. }
  intros columns. eapply (tracks_bind _ _ _ (λ r, on_track n r.1 r.2)).
  { destruct (pg_data page); [apply tracks_send_page; lia|by apply tracks_ret]. }
  intros [total producing]. unfold n. destruct (pg_next_uri page).
  - by apply tracks_ret.
  - by apply tracks_conclude.
Qed.
End Conforms.

Section Adapter.
Context `{aj : ArrowJson} {W : Type}.
Variable decode_error : string → Value → string.
Variable url_parse : string → result Url string.
Variable client_build : ClientConfig → result unit ClientError.
Variable connect : ClientConfig → Client W.
Abbreviation trino_execute := (trino_execute decode_error url_parse client_build connect).

(** The promise of the Trino adapter, whatever the engine answers. *)
#[global] Instance trino_conforms ch i fuel :
  Conforms (λ '(request, w), trino_execute ch i fuel request w).
Proof.
  intros [request w] x. unfold Trino.trino_execute.
  destruct (build_client _ _ _) as [config|e]; [|intros [= <-]; apply conforming_refused].
  apply (tracks_execution (λ items, items = []) _ following); [|done].
  apply (tracks_bind _ _ _ (λ _, following Following_start)).
  - apply (tracks_emit _ (following Following_start)). intros ? ->. apply on_track_start.
  - intros ?. apply (tracks_iterate following _ (λ _, finished)). apply tracks_follow_page.
Qed.
End Adapter.

(** ** Requests *)

Section Requests.
Context `{aj : ArrowJson} {W : Type}.
Variable client : Client W.
Context (i : Invocation).

Definition call (value : string) (next : bool) : M W ClientError Page :=
  if next then client_get_next client value else client_get client value.

(** The engine after [k] calls. *)
Fixpoint after_calls (value : string) (next : bool) (k : nat) (w : W) : W :=
  match k with
  | O => w
  | S k => after_calls value next k (call value next w).2
  end.

Lemma page_attempts_spec value next more : ∀ w,
  ∃ k, (k ≤ more)%nat ∧
    (∀ j, (j < k)%nat → transient (call value next (after_calls value next j w)).1 = true) ∧
    ((k < more)%nat → transient (call value next (after_calls value next k w)).1 = false) ∧
    page_attempts client more value next w
    = (map_err map_client_error (call value next (after_calls value next k w)).1,
       after_calls value next (S k) w).
Proof.
  induction more as [|more IH]; intros w.
  - exists 0%nat. split_and!; [lia..|]. cbn [page_attempts after_calls]. fold (call value next).
    by destruct (call value next w).
  - simpl. change ((if next then client_get_next client value else client_get client value) w)
      with (call value next w).
    destruct (call value next w) as [r w'] eqn:E. destruct (transient r) eqn:Et.
    + destruct (IH w') as (k & Hk & Hj & Hn & Heq). exists (S k).
      assert (∀ m, after_calls value next (S m) w = after_calls value next m w') as Hafter
        by (intros m; simpl; by rewrite E).
      rewrite !Hafter. split_and!; [lia| |intros ?; apply Hn; lia|done].
      intros [|j] Hlt; [simpl; by rewrite E|]. rewrite Hafter. apply Hj. lia.
    + exists 0%nat. simpl. rewrite E. split_and!; [lia|lia|done|done].
Qed.

(** Retries are bounded and stop at the first answer.  A page is requested at
    most four times; the calls before the last one were all refused as transient,
    and the answer is that of the last, which is not transient unless it is the
    fourth. *)
Theorem requests_are_retried_boundedly value next w :
  ∃ k, (k ≤ 3)%nat ∧
    (∀ j, (j < k)%nat → transient (call value next (after_calls value next j w)).1 = true) ∧
    ((k < 3)%nat → transient (call value next (after_calls value next k w)).1 = false) ∧
    page_with_retry client value next w
    = (map_err map_client_error (call value next (after_calls value next k w)).1,
       after_calls value next (S k) w).
Proof. apply page_attempts_spec. Qed.

(** C30: Cancellations are reported as the engine confirmed them.  A request that is
    cancelled sends the state and fails: as [cancelled] exactly when the engine is
    known by a query id and confirmed, as [cancel_unconfirmed] otherwise. *)
Theorem cancellations_are_confirmed value query_id (s : Run W) :
  poll i (polls s) = true →
  ∃ e s', get_or_cancel client i value query_id s = (Err e, s') ∧
    sent s' = sent s ++ [Event (State Cancelling)] ∧
    (de_code e = "cancelled" ∨ de_code e = "cancel_unconfirmed") ∧
    (de_code e = "cancelled" ↔
     ∃ id w', query_id = Some id ∧
       client_cancel client id (client_abandon client value true (world s)) = (Ok tt, w')).
Proof.
  intros Hp. unfold get_or_cancel, poll_cancelled, mbind at 1, M_bind at 1. rewrite Hp.
  unfold cancel_query, emit, ask. unfold_M. simpl. destruct query_id as [id|].
  - simpl. destruct (client_cancel client id _) as [[[]|e] w'] eqn:E.
    + eexists _, _. split; [done|]. simpl. split; [done|]. split; [by left|]. split; [|done].
      intros _. by exists id, w'.
    + eexists _, _. split; [done|]. simpl. split; [done|]. split; [by right|]. split; [done|].
      intros (id' & w2 & [= <-] & E2). by rewrite E in E2.
  - eexists _, _. split; [done|]. simpl. split; [done|]. split; [by right|]. split; [done|].
    by intros (? & ? & ? & _).
Qed.
End Requests.

(** ** Credentials *)

Section Credentials.
Variable url_parse : string → result Url string.
Variable client_build : ClientConfig → result unit ClientError.

(** Credentials leave only over HTTPS.  A client that authenticates with a
    password or a token is configured for TLS, to the host of its URL, and only
    one of the two was configured. *)
Theorem credentials_need_https properties config :
  build_client url_parse client_build properties = Ok config → is_Some (cc_auth config) →
  cc_secure config = true ∧ (properties !! "password" = None ∨ properties !! "token" = None) ∧
  ∃ url text, properties !! "url" = Some text ∧ url_parse text = Ok url ∧
              url_scheme url = "https" ∧ url_host url = Some (cc_host config).
Proof.
  unfold build_client, client_config. intros H Ha. revert H.
  unfold required. destruct (properties !! "url") as [text|] eqn:Eu; [|done]. simpl.
  destruct (is_empty text); [done|]. simpl.
  destruct (url_parse text) as [url|] eqn:Ep; [|done]. simpl.
  destruct (url_host url) as [host|] eqn:Eh; [|done]. simpl.
  destruct (ok_or _ _) as [user|]; [|done]. simpl.
  destruct (properties !! "password") as [pw|], (properties !! "token") as [tk|]; simpl; [done|..].
  all: destruct (String.eqb_spec (url_scheme url) "https") as [Es|]; simpl; try done.
  all: destruct (boolean _ _ _); [|done]; simpl.
  all: destruct (duration properties "query_timeout"); [|done]; simpl.
  all: destruct (duration properties "connect_timeout"); [|done]; simpl.
  all: destruct (client_build _); [|done]; simpl; intros [= <-]; simpl in *.
  all: try (by destruct Ha).
  all: (split; [done|]); (split; [by auto|]); by exists url, text.
Qed.
End Credentials.

(** ** Results over the Trino protocol

    An undisturbed execution follows the pages the engine serves to the last one,
    and sends every row of them once and in order. *)

Section Pages.
Context `{ajl : ArrowJsonLaws} {W : Type}.
Variable decode_error : string → Value → string.
Variable client : Client W.
Context (ch : Channel) (i : Invocation).
Hypothesis calm : undisturbed ch i.

(** The pages the engine serves from this request on, to the last. *)
Inductive serves : string → bool → W → list Page → Prop :=
| serves_last value next w p w' :
    page_with_retry client value next w = (Ok p, w') → pg_next_uri p = None →
    serves value next w [p]
| serves_more value next w p w' uri ps :
    page_with_retry client value next w = (Ok p, w') → pg_next_uri p = Some uri →
    serves uri true w' ps → serves value next w (p :: ps).

(** The rows of a page. *)
Definition page_rows (p : Page) : list (list Value) :=
  match pg_data p with Some (Direct rows) => rows | _ => [] end.

(** What a page makes of the columns known so far and the batch it carries;
    [None] for a page that fails the query. *)
Definition page_outcome (columns : option (list Column)) (p : Page) :
    option (option (list Column) * list RecordBatch) :=
  match pg_error p with
  | Some _ => None
  | None =>
      columns ← match pg_columns p with
                | Some c => Some <$> ok_of (convert_columns decode_error c)
                | None => Some columns
                end;
      match pg_data p with
      | None | Some (Direct []) => Some (columns, [])
      | Some Spooled => None
      | Some (Direct rows) =>
          cs ← columns; b ← ok_of (page_to_batch decode_error cs rows); Some (columns, [b])
      end
  end.

Fixpoint outcome (columns : option (list Column)) (ps : list Page) : option (list RecordBatch) :=
  match ps with
  | [] => Some []
  | p :: ps =>
      '(columns, bs) ← page_outcome columns p;
      rest ← outcome columns ps;
      Some (bs ++ rest)
  end.

Lemma page_outcome_rows columns p columns' bs :
  page_outcome columns p = Some (columns', bs) → sum_rows bs = Z.of_nat (length (page_rows p)).
Proof.
  unfold page_outcome, page_rows. destruct (pg_error p); [done|].
  destruct (match pg_columns p with Some _ => _ | None => _ end) as [cs|]; [|done]. simpl.
  destruct (pg_data p) as [[[|row rows]|]|]; [by intros [= _ <-]| |done|by intros [= _ <-]].
  destruct cs as [cs|]; [|done]. simpl.
  destruct (page_to_batch decode_error cs (row :: rows)) as [b|] eqn:E; [|done].
  intros [= _ <-]. apply page_to_batch_rows in E. simpl in *. lia.
Qed.

Lemma outcome_rows ps : ∀ columns bs,
  outcome columns ps = Some bs → sum_rows bs = Z.of_nat (length (ps ≫= page_rows)).
Proof.
  induction ps as [|p ps IH]; intros columns bs; csimpl; [by intros [= <-]|].
  destruct (page_outcome columns p) as [[cs b]|] eqn:E; [|done]. simpl.
  destruct (outcome cs ps) as [rest|] eqn:Er; [|done]. intros [= <-].
  rewrite sum_rows_app, length_app, (page_outcome_rows _ _ _ _ E), (IH _ _ Er). lia.
Qed.

Lemma get_undisturbed value query_id (s : Run W) p w' :
  page_with_retry client value (match query_id with Some _ => true | None => false end) (world s)
  = (Ok p, w') →
  ∃ s', get_or_cancel client i value query_id s = (Ok p, s') ∧ sent s' = sent s ∧ world s' = w'.
Proof.
  intros Hp. destruct (poll_undisturbed ch i s calm) as (s1 & E1 & Hs1 & Hw1).
  unfold get_or_cancel, mbind, M_bind. rewrite E1. unfold ask, on. rewrite Hw1, Hp.
  eexists. split; [done|]. by rewrite <- Hs1.
Qed.

(** The batch of a page is sent, if it carries one. *)
Lemma send_page_sends columns total producing data bs (s : Run W) :
  match data with
  | Direct [] => Some (columns, [])
  | Spooled => None
  | Direct rows =>
      cs ← columns; b ← ok_of (page_to_batch decode_error cs rows); Some (columns, [b])
  end = Some (columns, bs) →
  ∃ r s', send_page decode_error ch columns total producing data s = (Ok r, s') ∧
    batches_of (sent s') = batches_of (sent s) ++ bs ∧ world s' = world s.
Proof.
  unfold send_page. destruct data as [[|row rows]|]; [| |done].
  { intros [= <-]. eexists _, s. split; [done|]. by rewrite app_nil_r. }
  destruct columns as [cs|]; [|done]. simpl.
  destruct (page_to_batch decode_error cs (row :: rows)) as [b|] eqn:E; [|done].
  intros [= <-]. pose proof (page_to_batch_rows _ _ _ _ E) as Hb. simpl in Hb.
  unfold mbind, M_bind, of_result, ok_or. cbn [direct_rows].
  rewrite E. destruct (Z.ltb_spec 0 (num_rows b)); [|lia].
  set (s1 := if producing then s else put_item (Event (State ProducingResults)) s).
  destruct (offer_taken ch i b s1 calm) as (s2 & E2 & Hs2 & Hw2).
  eexists _, s2. split.
  - unfold emit, modify, mret, M_ret. destruct producing; subst s1; rewrite E2; done.
  - rewrite Hs2, Hw2, batches_of_snoc. subst s1. destruct producing; [done|]. simpl.
    by rewrite batches_of_snoc, app_nil_r.
Qed.

(** The state of the loop before a request. *)
Definition at_request (f : Following) (sql value : string) (next : bool) : Prop :=
  (fo_next_uri f = None ∧ fo_query_id f = None ∧ value = sql ∧ next = false) ∨
  (fo_next_uri f = Some value ∧ is_Some (fo_query_id f) ∧ next = true).

(** What one turn does: it sends the batch of its page and goes on to the next. *)
Definition turned (s s' : Run W) (bs : list RecordBatch) (w' : W) : Prop :=
  batches_of (sent s') = batches_of (sent s) ++ bs ∧ world s' = w'.

Lemma emit_turned e (s : Run W) : turned s (emit e s).2 [] (world s).
Proof. split; [|done]. simpl. by rewrite batches_of_snoc. Qed.

Lemma request_step sql f value next (s : Run W) p w' :
  at_request f sql value next → page_with_retry client value next (world s) = (Ok p, w') →
  ∃ s', match fo_next_uri f with
        | Some uri => get_or_cancel client i uri (fo_query_id f)
        | None => get_or_cancel client i sql None
        end s = (Ok p, s') ∧ turned s s' [] w'.
Proof.
  intros Hat Hp.
  assert (∃ s', match fo_next_uri f with
                | Some uri => get_or_cancel client i uri (fo_query_id f)
                | None => get_or_cancel client i sql None
                end s = (Ok p, s') ∧ sent s' = sent s ∧ world s' = w') as (s' & E & Hs & Hw).
  { destruct Hat as [(-> & _ & -> & ->)|(-> & [id ->] & ->)]; by apply get_undisturbed. }
  exists s'. split; [done|]. split; [|done]. by rewrite Hs, app_nil_r.
Qed.

Lemma announce_step f p (s : Run W) :
  ∃ id s', match fo_query_id f with
           | Some id => mret id
           | None => _ ← emit (EngineQueryId (pg_id p)); mret (pg_id p)
           end s = (Ok id, s') ∧ turned s s' [] (world s).
Proof.
  destruct (fo_query_id f) as [id|].
  - exists id, s. split; [done|]. split; [by rewrite app_nil_r|done].
  - eexists _, _. split; [done|]. apply emit_turned.
Qed.

Lemma progress_step p (s : Run W) :
  ∃ s', match pg_next_uri p with
        | None => try_emit ch (Progress (progress (pg_stats p)))
        | Some _ => mret tt
        end s = (Ok tt, s') ∧ turned s s' [] (world s).
Proof.
  destruct (pg_next_uri p).
  - exists s. split; [done|]. split; [by rewrite app_nil_r|done].
  - eexists. split; [done|]. unfold turned. destruct (has_room ch (tried s)); simpl.
    + by rewrite batches_of_snoc.
    + by rewrite app_nil_r.
Qed.

Lemma turned_trans s1 s2 s3 a b w1 w2 :
  turned s1 s2 a w1 → turned s2 s3 b w2 → turned s1 s3 (a ++ b) w2.
Proof. intros [Ha _] [Hb Hw]. split; [|done]. by rewrite Hb, Ha, app_assoc. Qed.

Lemma follow_page_turn sql f value next (s : Run W) p w' columns bs :
  at_request f sql value next → page_with_retry client value next (world s) = (Ok p, w') →
  page_outcome (fo_columns f) p = Some (columns, bs) →
  ∃ r s', follow_page decode_error client ch i sql f s = (Ok r, s') ∧ turned s s' bs w' ∧
    match pg_next_uri p with
    | None => r = inr tt
    | Some uri => ∃ f', r = inl f' ∧ at_request f' sql uri true ∧ fo_columns f' = columns
    end.
Proof.
  intros Hat Hp Ho. destruct (request_step sql f value next s p w' Hat Hp) as (s1 & E1 & T1).
  destruct (announce_step f p s1) as (id & s2 & E2 & T2).
  destruct (progress_step p s2) as (s3 & E3 & T3).
  assert (turned s s3 [] w') as T.
  { destruct T1 as [B1 W1], T2 as [B2 W2], T3 as [B3 W3]. split; [|congruence].
    by rewrite B3, B2, B1, !app_nil_r. }
  unfold follow_page. rewrite (bind_step _ _ _ _ _ E1), (bind_step _ _ _ _ _ E2),
    (bind_step _ _ _ _ _ E3). clear E1 E2 E3 T1 T2 T3.
  unfold page_outcome in Ho. destruct (pg_error p) as [|]; [done|].
  unfold mbind at 1, M_bind at 1, mret at 1, M_ret at 1. cbv beta iota.
  assert (∃ cs, match pg_columns p with
                | Some c => of_result (let? c := convert_columns decode_error c in Ok (Some c))
                | None => mret (fo_columns f)
                end s3 = (Ok cs, s3) ∧
          match pg_data p with
          | None => Some (cs, [])
          | Some data => match data with
                         | Direct [] => Some (cs, [])
                         | Spooled => None
                         | Direct rows => c ← cs; b ← ok_of (page_to_batch decode_error c rows);
                                          Some (cs, [b])
                         end
          end = Some (columns, bs)) as (cs & Ec & Hd).
  { destruct (pg_columns p) as [c|].
    - destruct (convert_columns decode_error c) as [l|]; [|done]. simpl in Ho. exists (Some l).
      split; [done|]. by destruct (pg_data p) as [[[]|]|].
    - simpl in Ho. exists (fo_columns f). split; [done|]. by destruct (pg_data p) as [[[]|]|]. }
  rewrite (bind_step _ _ _ _ _ Ec). clear Ec Ho. cbv beta.
  assert (cs = columns) as ->.
  { destruct (pg_data p) as [[[|row rows]|]|]; simplify_eq/=; try done.
    destruct cs; [|done]. simpl in Hd. destruct (ok_of _); by simplify_eq/=. }
  assert (∃ r s4, match pg_data p with
                  | Some data => send_page decode_error ch columns (fo_total_rows f) (fo_producing f)
                                   data
                  | None => mret (fo_total_rows f, fo_producing f)
                  end s3 = (Ok r, s4) ∧ turned s s4 bs w') as ([total producing] & s4 & E4 & T4).
  { destruct (pg_data p) as [data|].
    - destruct (send_page_sends columns (fo_total_rows f) (fo_producing f) data bs s3 Hd)
        as (r & s4 & E4 & B4 & W4).
      exists r, s4. split; [done|]. destruct T as [B W']. split; [|congruence].
      by rewrite B4, B, app_nil_r.
    - injection Hd as <-. eexists _, s3. done. }
  rewrite (bind_step _ _ _ _ _ E4). destruct (pg_next_uri p) as [uri|].
  - eexists _, s4. split; [done|]. split; [done|]. eexists. split; [done|]. split; [|done].
    right. simpl. by split; [|split; [eexists|]].
  - unfold conclude_query. destruct (use_session_update sql).
    + eexists _, _. split; [done|]. split; [|done]. destruct T4 as [B W4]. split; [|done].
      simpl. by rewrite !batches_of_snoc, !app_nil_r.
    + eexists _, _. split; [done|]. split; [|done]. destruct T4 as [B W4]. split; [|done].
      simpl. by rewrite !batches_of_snoc, !app_nil_r.
Qed.

Lemma follow_pages sql value next w ps :
  serves value next w ps → ∀ f (s : Run W) bs fuel,
  at_request f sql value next → world s = w → outcome (fo_columns f) ps = Some bs →
  (length ps ≤ fuel)%nat →
  ∃ s', iterate (follow_page decode_error client ch i sql) fuel f s = (Ok (inr tt), s') ∧
        batches_of (sent s') = batches_of (sent s) ++ bs.
Proof.
  induction 1 as [value next w p w' Hp Hn|value next w p w' uri ps Hp Hn _ IH];
    intros f s bs [|fuel] Hat <- Ho Hf; simpl in Hf; try lia.
  all: cbn [outcome] in Ho; destruct (page_outcome (fo_columns f) p) as [[cs b]|] eqn:Eo; [|done];
    simpl in Ho.
  all: destruct (follow_page_turn sql f value next s p w' cs b Hat Hp Eo)
    as (r & s1 & E1 & [B1 W1] & Hr); rewrite Hn in Hr; cbn [iterate];
    rewrite (bind_step _ _ _ _ _ E1).
  - subst r. injection Ho as <-. exists s1. by rewrite app_nil_r.
  - destruct Hr as (f' & -> & Hat' & <-). destruct (outcome (fo_columns f') ps) as [rest|] eqn:Er; [|done].
    injection Ho as <-. destruct (IH f' s1 rest fuel Hat' W1 Er) as (s2 & E2 & B2); [lia|].
    exists s2. split; [done|]. by rewrite B2, B1, app_assoc.
Qed.
End Pages.

Section Adapter.
Context `{ajl : ArrowJsonLaws} {W : Type}.
Variable decode_error : string → Value → string.
Variable url_parse : string → result Url string.
Variable client_build : ClientConfig → result unit ClientError.
Variable connect : ClientConfig → Client W.

(** C25: Every page is followed, every row is sent.  When the engine serves the pages
    of a query to the last one, none of which fails it, an undisturbed execution
    ends successfully within as many turns, having sent the batches of the pages
    in order, with as many rows as the pages have. *)
Theorem every_page_is_followed ch i request w config ps bs fuel :
  undisturbed ch i →
  build_client url_parse client_build (rq_properties request) = Ok config →
  serves (connect config) (rq_sql request) false w ps →
  outcome decode_error None ps = Some bs → (length ps ≤ fuel)%nat →
  ∃ x, trino_execute decode_error url_parse client_build connect ch i fuel request w = Some x ∧
    ex_result x = Ok tt ∧ batches_of (ex_items x) = bs ∧
    sum_rows bs = Z.of_nat (length (ps ≫= page_rows)).
Proof.
  intros Hu Hb Hs Ho Hf. unfold trino_execute. rewrite Hb. unfold execution_of, trino_run, follow.
  set (s0 := put_item (Event (State Running)) (Run_start w)).
  destruct (follow_pages decode_error (connect config) ch i Hu (rq_sql request) _ _ _ _ Hs
              Following_start s0 bs fuel) as (s' & E & B); [by left|done|done|done|].
  rewrite (bind_step (emit (State Running)) _ (Run_start w) tt s0 eq_refl), E. eexists. split; [done|]. split; [done|].
  split; [exact B|]. by eapply outcome_rows.
Qed.
End Adapter.
