(* ===== verification/Databricks.v ===== *)
(** * The Databricks adapter (crates/qcli-driver-databricks/src/lib.rs)

    [execute] over the Statement Execution API: submitting, polling until the
    statement has ended, reading its chunks; metadata discovery; the connection
    and its requests.  [reqwest] is a call [http] over a state of its own, and the
    decoding of [serde_json] a parameter. *)
From S2P Require Import Prelude Text Chars Config Arrow ArrowTypes ArrowBuild DriverApi Core.
From S2P Require Import Sink Sql.
From Stdlib Require Import Ascii.
Import Core.Queries.

(** ** The API's data *)

Record StatementError := { se_error_code : option string; se_message : option string }.
Record StatementStatus := { ss_state : string; ss_error : option StatementError }.
Record DbColumn := { dc_name : string; dc_type_text : string }.
Record ResultData := {
  rd_data_array : list (list (option Value));
  rd_next_chunk_internal_link : option string;
}.
Record StatementResponse := {
  sr_statement_id : option string;
  sr_status : option StatementStatus;
  (** [manifest.schema.columns], where there is a manifest with a schema. *)
  sr_columns : option (list DbColumn);
  sr_result : option ResultData;
}.

Definition protocol_error (message : string) : DriverError :=
  DriverError_new "databricks_protocol" message.

Definition statement_state (r : StatementResponse) : result string DriverError :=
  ok_or (ss_state <$> sr_status r) (protocol_error "response did not contain statement state").

Definition statement_columns (r : StatementResponse) : list DbColumn := default [] (sr_columns r).

Definition execution_error (r : StatementResponse) : DriverError :=
  let error := sr_status r ≫= ss_error in
  DriverError_new (default "databricks_query" (error ≫= se_error_code))
    (default "Databricks statement failed" (error ≫= se_message)).

(** ** The connection *)

Record Connection := {
  cn_host : string;
  cn_warehouse_id : string;
  cn_catalog : option string;
  cn_schema : option string;
  cn_connect_timeout : Z;
  cn_token : string;
}.

Definition db_required (properties : gmap string string) (name : string) :
    result string DriverError :=
  ok_or (v ← properties !! name; if is_empty v then None else Some v)
    (DriverError_new "configuration" ("Databricks target requires '" +:+ name +:+ "'")).

(** [parse_duration], in milliseconds. *)
Definition db_parse_duration (value : string) : option Z :=
  match strip_suffix "ms" value ≫= parse_u64 with
  | Some n => Some n
  | None => n ← strip_suffix "s" value ≫= parse_u64; Some (n * 1000)
  end.

Definition trusted_host (host : string) : bool :=
  starts_with "https://" host || starts_with "http://127.0.0.1" host
  || starts_with "http://localhost" host.

(** [http_path.trim_end_matches('/').rsplit('/').next()]. *)
Definition last_segment (http_path : string) : string :=
  default EmptyString (last (split "/"%char (trim_end_matches "/"%char http_path))).

(** [http_error]: [timeout] is [error.is_timeout()]. *)
Record HttpFailure := { hf_timeout : bool; hf_text : string }.
Definition http_error (error : HttpFailure) : DriverError :=
  if hf_timeout error then DriverError_new "timeout" "Databricks request timed out"
  else DriverError_new "connection" (hf_text error).

Section Connection.
(** [Client::builder().connect_timeout(..).build()]. *)
Variable http_build : Z → result unit HttpFailure.

Definition from_properties (properties : gmap string string) : result Connection DriverError :=
  let auth_type := default "pat" (properties !! "auth_type") in
  if negb (String.eqb auth_type "pat") then
    Err (DriverError_new "authentication"
      ("Databricks authentication method '" +:+ auth_type +:+ "' is not supported yet"))
  else
    let? host := db_required properties "host" in
    let host := trim_end_matches "/"%char host in
    if negb (trusted_host host) then
      Err (DriverError_new "insecure_authentication" "Databricks credentials require HTTPS")
    else
      let? http_path := db_required properties "http_path" in
      let? warehouse_id :=
        if is_empty (last_segment http_path)
        then Err (DriverError_new "configuration" "http_path does not contain a warehouse ID")
        else Ok (last_segment http_path) in
      let? token := db_required properties "token" in
      let timeout := default 10000 (properties !! "connect_timeout" ≫= db_parse_duration) in
      let? _ := map_err http_error (http_build timeout) in
      Ok {| cn_host := host; cn_warehouse_id := warehouse_id;
            cn_catalog := properties !! "catalog"; cn_schema := properties !! "schema";
            cn_connect_timeout := timeout; cn_token := token |}.
End Connection.

(** ** Requests *)

Record HttpResponse := { hr_status : Z; hr_body : string }.

(** What [reqwest] sends: method, URL, bearer token and JSON body. *)
Record HttpRequest := {
  hq_method : string;
  hq_url : string;
  hq_token : string;
  hq_body : option Value;
}.

(** [SubmitRequest]: absent names are skipped. *)
Definition submit_body (c : Connection) (statement : string) : Value :=
  Object ([("statement", VString statement); ("warehouse_id", VString (cn_warehouse_id c))]
    ++ match cn_catalog c with Some v => [("catalog", VString v)] | None => [] end
    ++ match cn_schema c with Some v => [("schema", VString v)] | None => [] end
    ++ [("wait_timeout", VString "10s"); ("on_wait_timeout", VString "CONTINUE");
        ("disposition", VString "INLINE"); ("format", VString "JSON_ARRAY")]).

Definition statements_path : string := "/api/2.0/sql/statements".

Section Requests.
Context {W : Type}.
Variable http : HttpRequest → M W HttpFailure HttpResponse.
(** [serde_json::from_slice], at the types the adapter decodes; [inl] is an error's text. *)
Variable decode_response : string → result StatementResponse string.
Variable decode_chunk : string → result ResultData string.
Variable decode_value : string → result Value string.
(** [from_slice::<ApiError>(..).ok().and_then(|e| e.message)]. *)
Variable api_message : string → option string.
Variable canonical_reason : Z → option string.

Definition http_success (status : Z) : bool := (200 <=? status) && (status <? 300).

(** [Connection::request]. *)
Definition send_request {R} (decode : string → result R string) (c : Connection) (method path : string)
    (body : option Value) : M W DriverError R :=
  response ← on (λ w : W, w) (λ w _, w) http_error
    (http {| hq_method := method; hq_url := cn_host c +:+ path; hq_token := cn_token c;
             hq_body := body |});
  if negb (http_success (hr_status response)) then
    let message := default (default "request failed" (canonical_reason (hr_status response)))
                     (api_message (hr_body response)) in
    let code := if (hr_status response =? 401) || (hr_status response =? 403)
                then "authentication" else "databricks_http" in
    fail (DriverError_new code message)
  else of_result (map_err protocol_error (decode (hr_body response))).

Definition submit_statement (c : Connection) (statement : string) :=
  send_request decode_response c "POST" statements_path (Some (submit_body c statement)).
Definition statement_status (c : Connection) (id : string) :=
  send_request decode_response c "GET" (statements_path +:+ "/" +:+ id) None.
Definition fetch_chunk (c : Connection) (link : string) :=
  send_request decode_chunk c "GET" link None.
Definition cancel_statement (c : Connection) (id : string) : M W DriverError unit :=
  _ ← send_request decode_value c "POST" (statements_path +:+ "/" +:+ id +:+ "/cancel") None;
  mret tt.

(** ** Batches *)

Section Execute.
Context `{bu : ArrowBuild}.
(** [Value::to_string]. *)
Variable value_text : Value → string.

Definition display_json (v : Value) : string :=
  match v with VString s => s | v => value_text v end.

Definition db_field (columns : list DbColumn) (index : nat) : Field :=
  match columns !! index with
  | Some c => with_metadata {[ "databricks.type" := dc_type_text c ]} (Field_new (dc_name c) Utf8 true)
  | None => Field_new ("column_" +:+ pretty (Z.of_nat (S index))) Utf8 true
  end.

(** [row.get(index).and_then(Option::as_ref).map(display_value)]. *)
Definition db_cell (row : list (option Value)) (index : nat) : option string :=
  v ← mjoin (row !! index); Some (display_json v).

Definition result_width (columns : list DbColumn) (rows : list (list (option Value))) : nat :=
  Nat.max (length columns) (match rows with row :: _ => length row | [] => 0 end).

Definition result_batch (columns : list DbColumn) (rows : list (list (option Value))) :
    result RecordBatch DriverError :=
  let width := result_width columns rows in
  map_err (DriverError_new "databricks_type")
    (try_new (db_field columns <$> seq 0 width)
       ((λ index, StringArray ((λ row, db_cell row index) <$> rows)) <$> seq 0 width)).

(** ** Session updates *)

Definition clean_identifier (value : string) : string :=
  trim_matches [backtick_char; double_quote_char; single_quote_char] value.

Definition db_session_update (sql : string) : option (gmap string string) :=
  match split_whitespace (trim (trim_end_matches ";"%char (trim sql))) with
  | [use_word; kind; value] =>
      if eq_ignore_ascii_case use_word "use" && eq_ignore_ascii_case kind "catalog"
      then Some {[ "catalog" := clean_identifier value; "schema" := "default" ]}
      else if eq_ignore_ascii_case use_word "use" && eq_ignore_ascii_case kind "schema"
      then Some {[ "schema" := clean_identifier value ]}
      else if eq_ignore_ascii_case use_word "use" && eq_ignore_ascii_case kind "database"
      then Some match split_once "." value with
                | Some (catalog, schema) =>
                    {[ "catalog" := clean_identifier catalog; "schema" := clean_identifier schema ]}
                | None => {[ "schema" := clean_identifier value ]}
                end
      else None
  | _ => None
  end.

(** ** [execute] *)

(** Where the two loops of [execute] are: waiting for the statement to end, or
    reading the chunks of its result. *)
Inductive Progressing :=
| Polling (r : StatementResponse)
| Reading (columns : list DbColumn) (chunk : ResultData) (rows : Z) (producing : bool).

Context (c : Connection) (ch : Channel) (i : Invocation).

(** What follows the last chunk. *)
Definition succeed (sql : string) (rows : Z) : Step W (Progressing + unit) :=
  _ ← match db_session_update sql with
      | Some properties => emit (SessionProperties properties)
      | None => mret tt
      end;
  _ ← emit (RowsProduced rows);
  mret (inr tt).

Definition send_chunk (columns : list DbColumn) (chunk : ResultData) (rows : Z) (producing : bool) :
    Step W (Z * bool) :=
  match rd_data_array chunk with
  | [] => mret (rows, producing)
  | data =>
      _ ← (if producing then mret tt else emit (State ProducingResults));
      b ← of_result (result_batch columns data);
      _ ← offer ch b;
      mret (usize_add rows (num_rows b), true)
  end.

Definition db_cancelled : DriverError := DriverError_new "cancelled" "query was cancelled".

(** One turn of either loop. *)
Definition db_turn (sql id_ : string) (state : Progressing) : Step W (Progressing + unit) :=
  match state with
  | Polling r =>
      cancelled ← poll_cancelled i;
      _ ← (if (cancelled : bool) then
             _ ← ask id (cancel_statement c id_); fail db_cancelled
           else mret tt);
      name ← of_result (statement_state r);
      if one_of ["PENDING"; "RUNNING"] name then
        r ← ask id (statement_status c id_); mret (inl (Polling r))
      else if String.eqb name "SUCCEEDED" then
        match sr_result r with
        | Some chunk => mret (inl (Reading (statement_columns r) chunk 0 false))
        | None => succeed sql 0
        end
      else if one_of ["CANCELED"; "CLOSED"] name then fail db_cancelled
      else if String.eqb name "FAILED" then fail (execution_error r)
      else fail (protocol_error ("unknown statement state '" +:+ name +:+ "'"))
  | Reading columns chunk rows producing =>
      '(rows, producing) ← send_chunk columns chunk rows producing;
      match rd_next_chunk_internal_link chunk with
      | None => succeed sql rows
      | Some link =>
          chunk ← ask id (fetch_chunk c link);
          mret (inl (Reading columns chunk rows producing))
      end
  end.

Definition db_run (sql : string) (fuel : nat) : Step W (Progressing + unit) :=
  _ ← emit (State Running);
  r ← ask id (submit_statement c sql);
  id_ ← of_result (ok_or (sr_statement_id r)
         (protocol_error "response did not contain a statement ID"));
  _ ← emit (EngineQueryId id_);
  iterate (db_turn sql id_) fuel (Polling r).

End Execute.

(** ** Metadata *)

Context (c : Connection).

(** One turn of either loop of [metadata_rows]. *)
Definition db_metadata_turn (id_ : string)
    (state : StatementResponse + ResultData * list (list (option Value))) :
    M W DriverError
      (StatementResponse + ResultData * list (list (option Value)) + list (list (option Value))) :=
  match state with
  | inl r =>
      name ← of_result (statement_state r);
      if one_of ["PENDING"; "RUNNING"] name then
        r ← statement_status c id_; mret (inl (inl r))
      else if String.eqb name "SUCCEEDED" then
        match sr_result r with
        | Some chunk => mret (inl (inr (chunk, [])))
        | None => mret (inr [])
        end
      else if String.eqb name "FAILED" then fail (execution_error r)
      else fail (DriverError_new "databricks_query"
                   ("metadata statement ended in state '" +:+ name +:+ "'"))
  | inr (chunk, rows) =>
      let rows := rows ++ rd_data_array chunk in
      match rd_next_chunk_internal_link chunk with
      | None => mret (inr rows)
      | Some link => chunk ← fetch_chunk c link; mret (inl (inr (chunk, rows)))
      end
  end.

(** [metadata_rows] over its connection; [inl] while it is waiting or reading. *)
Definition db_metadata_rows (sql : string) (fuel : nat) :=
  r ← submit_statement c sql;
  id_ ← of_result (ok_or (sr_statement_id r)
         (protocol_error "metadata response omitted statement ID"));
  iterate (db_metadata_turn id_) fuel (inl r).
End Requests.

Definition db_qualified (request : MetadataRequest) (object : string) : string :=
  join "." (backtick_identifier <$> omap id
    [mr_catalog request; mr_schema request; Some object]).

Definition db_context (request : MetadataRequest) (name : string) : result string DriverError :=
  let or_property (selected : option string) :=
    match selected with Some v => Some v | None => mr_properties request !! name end in
  ok_or (if String.eqb name "catalog" then or_property (mr_catalog request)
         else if String.eqb name "schema" then or_property (mr_schema request)
         else None)
    (DriverError_new "missing_context" ("metadata discovery requires a " +:+ name)).

Definition db_schemas_sql (request : MetadataRequest) : string :=
  match mr_catalog request with
  | None => "SHOW SCHEMAS"
  | Some catalog => "SHOW SCHEMAS IN " +:+ backtick_identifier catalog
  end.
Definition db_objects_sql (catalog schema : string) : string :=
  "SHOW TABLES IN " +:+ backtick_identifier catalog +:+ "." +:+ backtick_identifier schema.
Definition db_describe_sql (request : MetadataRequest) (object : string) : string :=
  "DESCRIBE " +:+ db_qualified request object.

Section Rows.
Variable value_text : Value → string.

Definition db_catalogs_of (rows : list (list (option Value))) : list CatalogMetadata :=
  (λ name, {| cat_name := name |}) <$> omap (λ row, db_cell value_text row 0) rows.

Definition db_schemas_of (request : MetadataRequest) (rows : list (list (option Value))) :
    list SchemaMetadata :=
  (λ name, {| sm_catalog := mr_catalog request; sm_name := name |})
    <$> omap (λ row, db_cell value_text row 0) rows.

Definition db_objects_of (catalog schema : string) (pattern : option string)
    (rows : list (list (option Value))) : list ObjectMetadata :=
  omap (λ row,
    name ← match db_cell value_text row 1 with
           | Some name => Some name
           | None => db_cell value_text row 0
           end;
    if prefix_glob_matches pattern name then
      Some {| om_catalog := Some catalog; om_schema := Some schema; om_name := name;
              om_kind := Table |}
    else None) rows.

Definition db_columns_of (rows : list (list (option Value))) : list ColumnMetadata :=
  omap (λ row,
    name ← db_cell value_text row 0;
    Some {| cm_name := name; cm_data_type := default "unknown" (db_cell value_text row 1);
            cm_nullable := None; cm_comment := db_cell value_text row 2 |}) rows.
End Rows.

Definition db_capabilities : AdapterCapabilities :=
  from_supported
    [StreamResults; CancelQuery; ListCatalogs; ListSchemas; ListObjects; DescribeObject;
     PreparedStatements].

(** ** The operations *)

Section Adapter.
Context `{bu : ArrowBuild} {W : Type}.
Variable http : HttpRequest → M W HttpFailure HttpResponse.
Variable decode_response : string → result StatementResponse string.
Variable decode_chunk : string → result ResultData string.
Variable decode_value : string → result Value string.
Variable api_message : string → option string.
Variable canonical_reason : Z → option string.
Variable value_text : Value → string.
Variable http_build : Z → result unit HttpFailure.

(** [None] while the statement is running or its chunks are being read. *)
Definition db_execute (ch : Channel) (i : Invocation) (fuel : nat) (request : QueryRequest)
    (w : W) : option Execution :=
  match from_properties http_build (rq_properties request) with
  | Err e => Some (no_output e)
  | Ok c =>
      execution_of (db_run http decode_response decode_chunk decode_value api_message
                      canonical_reason value_text c ch i (rq_sql request) fuel) w
  end.

(** [metadata_rows] and what is made of its rows. *)
Definition db_discover {A} (request : MetadataRequest) (sql : string)
    (f : list (list (option Value)) → A) (fuel : nat) : M W DriverError (option A) :=
  c ← of_result (from_properties http_build (mr_properties request));
  r ← db_metadata_rows http decode_response decode_chunk api_message canonical_reason c sql fuel;
  mret (match r with inr rows => Some (f rows) | inl _ => None end).

Definition db_list_catalogs (request : MetadataRequest) :
    nat → M W DriverError (option (list CatalogMetadata)) :=
  db_discover request "SHOW CATALOGS" (db_catalogs_of value_text).

Definition db_list_schemas (request : MetadataRequest) :
    nat → M W DriverError (option (list SchemaMetadata)) :=
  db_discover request (db_schemas_sql request) (db_schemas_of value_text request).

Definition db_list_objects (request : MetadataRequest) (fuel : nat) :
    M W DriverError (option (list ObjectMetadata)) :=
  catalog ← of_result (db_context request "catalog");
  schema ← of_result (db_context request "schema");
  db_discover request (db_objects_sql catalog schema)
    (db_objects_of value_text catalog schema (mr_pattern request)) fuel.

Definition db_describe_object (request : MetadataRequest) (object : string) :
    nat → M W DriverError (option (list ColumnMetadata)) :=
  db_discover request (db_describe_sql request object) (db_columns_of value_text).
End Adapter.
