(* ===== verification/DatabricksFacts.v ===== *)
(** * Facts about the Databricks adapter

    Its executions conform; a statement that succeeds is read to its last chunk,
    cell by cell; a cancellation is reported only after the engine accepted it;
    and where its token is sent. *)
From S2P Require Import Prelude Text Chars Config Arrow ArrowTypes ArrowBuild DriverApi Core.
From S2P Require Import Sink Sql Databricks.
From Stdlib Require Import Ascii.
Import Core.Queries.

(** ** The promise of the adapter *)

Section Conforms.
Context `{bu : ArrowBuild} {W : Type}.
Variable http : HttpRequest → M W HttpFailure HttpResponse.
Variable decode_response : string → result StatementResponse string.
Variable decode_chunk : string → result ResultData string.
Variable decode_value : string → result Value string.
Variable api_message : string → option string.
Variable canonical_reason : Z → option string.
Variable value_text : Value → string.
Variable http_build : Z → result unit HttpFailure.
Context (c : Connection) (ch : Channel) (i : Invocation).

Definition reading (state : Progressing) : list QueryItem → Prop :=
  match state with
  | Polling _ => on_track 2 0 false
  | Reading _ _ rows producing => on_track 2 rows producing
  end.

Lemma tracks_succeed n sql total producing :
  (n ≤ 3)%nat →
  tracks (on_track n total producing) (succeed (W:=W) sql total)
    (λ r, match r with inl f => reading f | inr _ => finished end).
Proof.
  intros Hn. unfold succeed. eapply (tracks_bind _ _ _ (λ _, on_track (S n) total producing)).
  { destruct (db_session_update sql).
    - apply tracks_emit. intros ?. by apply on_track_event.
    - apply tracks_ret. intros ?. apply on_track_weaken. lia. }
  intros ?. eapply tracks_bind; [apply tracks_report; lia|]. intros ?. by apply tracks_ret.
Qed.

Lemma tracks_send_chunk n columns chunk total producing :
  (n ≤ 5)%nat →
  tracks (on_track n total producing)
    (send_chunk (W:=W) value_text ch columns chunk total producing) (λ r, on_track n r.1 r.2).
Proof.
  intros Hn. unfold send_chunk. destruct (rd_data_array chunk) as [|row rows];
    [by apply tracks_ret|].
  eapply (tracks_bind _ _ _ (λ _, on_track n total true)).
  { destruct producing; [by apply tracks_ret|]. apply tracks_emit. apply on_track_producing. }
  intros ?. apply tracks_result; [done|]. intros b _.
  eapply tracks_bind; [by apply tracks_offer|]. intros ?. by apply tracks_ret.
Qed.

Lemma tracks_db_turn sql id_ state :
  tracks (reading state)
    (db_turn http decode_response decode_chunk decode_value api_message canonical_reason value_text
       c ch i sql id_ state)
    (λ r, match r with inl state' => reading state' | inr _ => finished end).
Proof.
  destruct state as [r|columns chunk rows producing]; unfold reading at 1; cbn [db_turn].
  - eapply tracks_bind; [apply tracks_poll|]. intros cancelled.
    eapply (tracks_bind _ _ _ (λ _, on_track 2 0 false)).
    { destruct cancelled; [|by apply tracks_ret].
      eapply tracks_bind; [apply tracks_ask; lia|]. intros ?. apply tracks_fail. lia. }
    intros ?. apply tracks_result; [lia|]. intros name _.
    repeat case_match; try (apply tracks_fail; lia).
    + eapply tracks_bind; [apply tracks_ask; lia|]. intros ?. by apply tracks_ret.
    + by apply tracks_ret.
    + apply tracks_succeed. lia.
  - eapply tracks_bind; [apply tracks_send_chunk; lia|]. intros [rows' producing'].
    destruct (rd_next_chunk_internal_link chunk).
    + eapply tracks_bind; [apply tracks_ask; lia|]. intros ?. by apply tracks_ret.
    + apply tracks_succeed. simpl. lia.
Qed.
End Conforms.

Section Adapter.
Context `{bu : ArrowBuild} {W : Type}.
Variable http : HttpRequest → M W HttpFailure HttpResponse.
Variable decode_response : string → result StatementResponse string.
Variable decode_chunk : string → result ResultData string.
Variable decode_value : string → result Value string.
Variable api_message : string → option string.
Variable canonical_reason : Z → option string.
Variable value_text : Value → string.
Variable http_build : Z → result unit HttpFailure.
Abbreviation db_execute := (db_execute http decode_response decode_chunk decode_value api_message
  canonical_reason value_text http_build).

(** The promise of the Databricks adapter, whatever the service answers. *)
#[global] Instance db_conforms ch i fuel :
  Conforms (λ '(request, w), db_execute ch i fuel request w).
Proof.
  intros [request w] x. unfold Databricks.db_execute.
  destruct (from_properties _ _) as [c|e]; [|intros [= <-]; apply conforming_refused].
  apply (tracks_execution (λ items, items = []) _ reading); [|done].
  apply (tracks_bind _ _ _ (λ _, on_track 1 0 false)).
  { apply (tracks_emit _ (on_track 1 0 false)). intros ? ->. apply on_track_start. }
  intros ?. eapply tracks_bind; [apply tracks_ask; lia|]. intros r.
  apply tracks_result; [lia|]. intros id_ _.
  apply (tracks_bind _ _ _ (λ _, reading (Polling r))).
  - apply (tracks_emit _ (reading (Polling r))). intros ?. by apply on_track_event.
  - intros ?. apply (tracks_iterate reading _ (λ _, finished)). apply tracks_db_turn.
Qed.
End Adapter.

(** ** Batches *)

Section Batches.
Context `{bl : ArrowBuildLaws}.
Variable value_text : Value → string.
Abbreviation cell := (db_cell value_text).
Abbreviation result_batch := (result_batch value_text).

(** The columns of the batch of a chunk. *)
Definition chunk_columns (columns : list DbColumn) (rows : list (list (option Value))) :
    list ArrayRef :=
  (λ j, StringArray ((λ row, cell row j) <$> rows)) <$> seq 0 (result_width columns rows).

Lemma db_field_nullable columns j :
  field_type (db_field columns j) = Utf8 ∧ field_nullable (db_field columns j) = true.
Proof. unfold db_field. by destruct (columns !! j). Qed.

Lemma chunk_columns_fit columns rows :
  (0 < result_width columns rows)%nat →
  columns_fit (db_field columns <$> seq 0 (result_width columns rows)) (chunk_columns columns rows)
  = true.
Proof.
  intros Hw. unfold columns_fit, chunk_columns.
  assert (row_count ((λ j, StringArray ((λ row, cell row j) <$> rows))
            <$> seq 0 (result_width columns rows)) = Some (length rows)) as ->.
  { destruct (result_width columns rows); [lia|]. unfold row_count. simpl. by rewrite length_fmap. }
  rewrite !length_fmap, bool_decide_true by done. simpl.
  induction (seq 0 _) as [|j l IH]; [done|]. csimpl. rewrite IH, andb_true_r.
  destruct (db_field_nullable columns j) as [Ht Hn].
  unfold field_fits. simpl. by rewrite Ht, Hn, length_fmap, !bool_decide_true.
Qed.

(** A chunk whose result has columns becomes a batch: one row per row, every cell
    its text. *)
Lemma result_batch_built columns rows :
  (0 < result_width columns rows)%nat →
  ∃ b, result_batch columns rows = Ok b ∧ batch_columns b = chunk_columns columns rows ∧
       num_rows b = Z.of_nat (length rows).
Proof.
  intros Hw. unfold Databricks.result_batch. fold (chunk_columns columns rows).
  destruct (try_new_fits _ _ (chunk_columns_fit columns rows Hw)) as [b Hb]. rewrite Hb.
  exists b. apply try_new_built in Hb as (_ & Hc & _ & Hr). split; [done|]. split; [done|].
  unfold chunk_columns in Hr. destruct (result_width columns rows); [lia|].
  unfold row_count in Hr. simpl in Hr. rewrite length_fmap in Hr. unfold num_rows.
  injection Hr. intros <-. done.
Qed.
End Batches.

(** ** Results *)

Section Chunks.
Context `{bl : ArrowBuildLaws} {W : Type}.
Variable http : HttpRequest → M W HttpFailure HttpResponse.
Variable decode_response : string → result StatementResponse string.
Variable decode_chunk : string → result ResultData string.
Variable decode_value : string → result Value string.
Variable api_message : string → option string.
Variable canonical_reason : Z → option string.
Variable value_text : Value → string.
Variable http_build : Z → result unit HttpFailure.
Context (c : Connection) (ch : Channel) (i : Invocation).
Abbreviation fetch := (fetch_chunk http decode_chunk api_message canonical_reason c).
Abbreviation status := (statement_status http decode_response api_message canonical_reason c).
Abbreviation submit := (submit_statement http decode_response api_message canonical_reason c).
Abbreviation turn := (db_turn http decode_response decode_chunk decode_value api_message
  canonical_reason value_text c ch i).

(** The chunks linked from this one on. *)
Inductive linked : ResultData → W → list ResultData → Prop :=
| linked_last chunk w : rd_next_chunk_internal_link chunk = None → linked chunk w [chunk]
| linked_more chunk w link chunk' w' rest :
    rd_next_chunk_internal_link chunk = Some link → fetch link w = (Ok chunk', w') →
    linked chunk' w' rest → linked chunk w (chunk :: rest).

(** The service reports the statement as unfinished [n] times, then as succeeded
    with these columns and chunks. *)
Inductive succeeds (id_ : string) :
    nat → StatementResponse → W → list DbColumn → list ResultData → Prop :=
| succeeds_waiting n r w name r' w' columns chunks :
    statement_state r = Ok name → one_of ["PENDING"; "RUNNING"] name = true →
    status id_ w = (Ok r', w') → succeeds id_ n r' w' columns chunks →
    succeeds id_ (S n) r w columns chunks
| succeeds_empty r w :
    statement_state r = Ok "SUCCEEDED" → sr_result r = None →
    succeeds id_ 0 r w (statement_columns r) []
| succeeds_result r w chunk chunks :
    statement_state r = Ok "SUCCEEDED" → sr_result r = Some chunk → linked chunk w chunks →
    succeeds id_ 0 r w (statement_columns r) chunks.

(** The batches of chunks: one per chunk that has rows. *)
Definition batch_of (columns : list DbColumn) (b : RecordBatch) (rows : list (list (option Value))) :
    Prop :=
  batch_columns b = chunk_columns value_text columns rows ∧ num_rows b = Z.of_nat (length rows).
Definition chunk_rows (chunks : list ResultData) : list (list (list (option Value))) :=
  filter (λ rows, rows ≠ []) (rd_data_array <$> chunks).

(** [s'] follows [s] and has sent these batches. *)
Definition delivered (s s' : Run W) (bs : list RecordBatch) : Prop :=
  batches_of (sent s') = batches_of (sent s) ++ bs.

Hypothesis calm : undisturbed ch i.

Lemma succeed_delivers sql rows (s : Run W) :
  ∃ s', succeed sql rows s = (Ok (inr tt), s') ∧ delivered s s' [].
Proof.
  unfold succeed, delivered. destruct (db_session_update sql).
  all: eexists; split; [done|]; simpl; by rewrite !batches_of_snoc, !app_nil_r.
Qed.

Lemma send_chunk_delivers columns chunk rows producing (s : Run W) :
  columns ≠ [] →
  ∃ r s' bs, send_chunk value_text ch columns chunk rows producing s = (Ok r, s') ∧
    delivered s s' bs ∧ world s' = world s ∧ Forall2 (batch_of columns) bs (chunk_rows [chunk]).
Proof.
  intros Hc. unfold send_chunk, chunk_rows. csimpl. destruct (rd_data_array chunk) as [|row data].
  { eexists _, s, []. unfold delivered. rewrite app_nil_r. split_and!; done || constructor. }
  rewrite filter_cons_True by done. rewrite filter_nil.
  destruct (result_batch_built value_text columns (row :: data)) as (b & Eb & Hb & Hn).
  { unfold result_width. destruct columns; [done|]. simpl. lia. }
  set (s1 := if producing then s else put_item (Event (State ProducingResults)) s).
  destruct (offer_taken ch i b s1 calm) as (s2 & E2 & Hs2 & Hw2).
  eexists _, s2, [b]. split_and!.
  - unfold mbind, M_bind, of_result, emit, modify, mret, M_ret. rewrite Eb.
    destruct producing; subst s1; rewrite E2; done.
  - unfold delivered. rewrite Hs2, batches_of_snoc. subst s1. destruct producing; [done|]. simpl.
    by rewrite batches_of_snoc, app_nil_r.
  - rewrite Hw2. subst s1. by destruct producing.
  - by repeat constructor.
Qed.

Lemma delivered_trans s1 s2 s3 a b :
  delivered s1 s2 a → delivered s2 s3 b → delivered s1 s3 (a ++ b).
Proof. unfold delivered. intros E1 E2. by rewrite E2, E1, app_assoc. Qed.

Lemma chunk_rows_cons chunk chunks :
  chunk_rows (chunk :: chunks) = chunk_rows [chunk] ++ chunk_rows chunks.
Proof. unfold chunk_rows. rewrite <- filter_app. done. Qed.

Lemma chunks_delivered sql id_ columns chunk w chunks :
  columns ≠ [] → linked chunk w chunks → ∀ rows producing (s : Run W) fuel,
  world s = w → (length chunks ≤ fuel)%nat →
  ∃ s' bs, iterate (turn sql id_) fuel (Reading columns chunk rows producing) s
           = (Ok (inr tt), s') ∧ delivered s s' bs ∧
           Forall2 (batch_of columns) bs (chunk_rows chunks).
Proof.
  intros Hc. induction 1 as [chunk w Hl|chunk w link chunk' w' rest Hl Hf _ IH];
    intros rows producing s [|fuel] <- Hn; simpl in Hn; try lia.
  all: destruct (send_chunk_delivers columns chunk rows producing s Hc)
         as ([rows' producing'] & s1 & bs & E1 & D1 & W1 & F1).
  all: cbn [iterate]; unfold mbind at 1, M_bind at 1; cbn [db_turn];
    rewrite (bind_step _ _ _ _ _ E1), Hl.
  - destruct (succeed_delivers sql rows' s1) as (s2 & -> & D2). exists s2, bs.
    split; [done|]. split; [|done]. rewrite <- (app_nil_r bs). by eapply delivered_trans.
  - unfold ask, on, mbind at 1, M_bind at 1. rewrite W1, Hf.
    destruct (IH rows' producing' (put_world w' s1) fuel) as (s2 & bs2 & E2 & D2 & F2); [done|lia|].
    exists s2, (bs ++ bs2). split; [exact E2|]. split; [by eapply delivered_trans|].
    rewrite chunk_rows_cons. by apply Forall2_app.
Qed.

Lemma statement_delivered sql id_ n r w columns chunks :
  columns ≠ [] → succeeds id_ n r w columns chunks → ∀ (s : Run W) fuel,
  world s = w → (n + 1 + length chunks ≤ fuel)%nat →
  ∃ s' bs, iterate (turn sql id_) fuel (Polling r) s = (Ok (inr tt), s') ∧ delivered s s' bs ∧
           Forall2 (batch_of columns) bs (chunk_rows chunks).
Proof.
  intros Hc. induction 1 as [n r w name r' w' columns chunks Hs Hw He _ IH|r w Hs Hr
                            |r w chunk chunks Hs Hr Hl];
    intros s [|fuel] <- Hn; simpl in Hn; try lia.
  all: destruct (poll_undisturbed ch i s calm) as (s1 & E1 & Hs1 & Hw1).
  all: cbn [iterate]; unfold mbind at 1, M_bind at 1; cbn [db_turn];
    rewrite (bind_step _ _ _ _ _ E1); unfold mbind at 1, M_bind at 1, mret at 1, M_ret at 1;
    rewrite Hs; unfold of_result, mbind at 1, M_bind at 1.
  - rewrite Hw. unfold ask, on, mbind at 1, M_bind at 1. rewrite Hw1, He.
    destruct (IH Hc (put_world w' s1) fuel) as (s2 & bs & E2 & D2 & F2); [done|lia|].
    exists s2, bs. split; [exact E2|]. split; [|done]. revert D2. unfold delivered. simpl.
    by rewrite Hs1.
  - cbn -[iterate]. rewrite Hr. destruct (succeed_delivers sql 0 s1) as (s2 & -> & D2).
    exists s2, []. split; [done|]. split; [|constructor]. revert D2. unfold delivered. by rewrite Hs1.
  - cbn -[iterate]. rewrite Hr.
    destruct (chunks_delivered sql id_ _ _ _ _ Hc Hl 0 false s1 fuel) as (s2 & bs & E2 & D2 & F2);
      [done|lia|].
    exists s2, bs. split; [exact E2|]. split; [|done]. revert D2. unfold delivered. by rewrite Hs1.
Qed.
End Chunks.

Section Statements.
Context `{bl : ArrowBuildLaws} {W : Type}.
Variable http : HttpRequest → M W HttpFailure HttpResponse.
Variable decode_response : string → result StatementResponse string.
Variable decode_chunk : string → result ResultData string.
Variable decode_value : string → result Value string.
Variable api_message : string → option string.
Variable canonical_reason : Z → option string.
Variable value_text : Value → string.
Variable http_build : Z → result unit HttpFailure.
Abbreviation submit := (submit_statement http decode_response api_message canonical_reason).
Abbreviation cancel := (cancel_statement http decode_value api_message canonical_reason).
Abbreviation succeeds := (succeeds http decode_response decode_chunk api_message canonical_reason).
Abbreviation turn := (db_turn http decode_response decode_chunk decode_value api_message
  canonical_reason value_text).
Abbreviation db_execute := (db_execute http decode_response decode_chunk decode_value api_message
  canonical_reason value_text http_build).

(** C27: A statement that succeeds is read to its last chunk.  When the service
    accepts the statement, reports it as unfinished any number of times and then
    as succeeded, and serves the chunks its result links, an undisturbed execution
    ends successfully within as many turns; it has sent one batch per chunk that
    has rows, in order, each with the text of every cell under the columns of the
    result. *)
Theorem every_chunk_is_sent ch i request w c r w1 id_ n columns chunks fuel :
  undisturbed ch i →
  from_properties http_build (rq_properties request) = Ok c →
  submit c (rq_sql request) w = (Ok r, w1) → sr_statement_id r = Some id_ →
  succeeds c id_ n r w1 columns chunks → columns ≠ [] →
  (n + 1 + length chunks ≤ fuel)%nat →
  ∃ x, db_execute ch i fuel request w = Some x ∧ ex_result x = Ok tt ∧
    Forall2 (batch_of value_text columns) (batches_of (ex_items x)) (chunk_rows chunks).
Proof.
  intros Hu Hp Hr Hid Hs Hc Hf. unfold Databricks.db_execute. rewrite Hp.
  unfold execution_of, db_run.
  set (s0 := put_item (Event (State Running)) (Run_start w)).
  rewrite (bind_step (emit (State Running)) _ (Run_start w) tt s0 eq_refl).
  assert (ask id (submit c (rq_sql request)) s0 = (Ok r, put_world w1 s0)) as E.
  { unfold ask, on. simpl. by rewrite Hr. }
  rewrite (bind_step _ _ _ _ _ E), Hid.
  set (s1 := put_item (Event (EngineQueryId id_)) (put_world w1 s0)).
  destruct (statement_delivered http decode_response decode_chunk decode_value api_message
    canonical_reason value_text c ch i Hu (rq_sql request) id_ n r w1 columns chunks Hc Hs s1 fuel
    eq_refl Hf) as (s2 & bs & E2 & D2 & F2).
  unfold of_result, ok_or, mbind at 1, M_bind at 1.
  rewrite (bind_step (emit (EngineQueryId id_)) _ _ tt s1 eq_refl), E2.
  eexists. split; [done|]. split; [done|]. simpl. rewrite D2. exact F2.
Qed.

(** A cancelled statement has been cancelled.  A turn that sees the cancellation
    asks the service to cancel the statement and fails: as [cancelled] if that
    request succeeded, with the error of the request if not. *)
Lemma statements_are_cancelled c ch i sql id_ r (s : Run W) :
  poll i (polls s) = true →
  ∃ s', turn c ch i sql id_ (Polling r) s
        = (Err match (cancel c id_ (world s)).1 with Ok _ => db_cancelled | Err e => e end, s') ∧
        sent s' = sent s ∧ world s' = (cancel c id_ (world s)).2.
Proof.
  intros Hp. cbn [db_turn]. unfold poll_cancelled, mbind at 1, M_bind at 1. rewrite Hp.
  unfold ask, on, mbind, M_bind. simpl.
  destruct (cancel_statement _ _ _ _ _ _ _) as [[[]|e] w']; by eexists.
Qed.
End Statements.

(** ** Where the token goes *)

(** A connection is made only to a host that passes the check. *)
Lemma connections_are_checked http_build properties c :
  from_properties http_build properties = Ok c → trusted_host (cn_host c) = true.
Proof.
  unfold from_properties. destruct (negb _); [done|].
  destruct (db_required properties "host") as [host|]; [|done]. simpl.
  destruct (trusted_host (trim_end_matches "/"%char host)) eqn:Et; [|done]. simpl.
  destruct (db_required properties "http_path"); [|done]. simpl.
  destruct (is_empty (last_segment _)); [done|]. simpl.
  destruct (db_required properties "token"); [|done]. simpl.
  destruct (http_build _); [|done]. by intros [= <-].
Qed.

(** But that is a check of its first characters. *)
Definition attacker_target : gmap string string :=
  {[ "host" := "http://localhost.example.net"; "http_path" := "/sql/1.0/warehouses/w";
     "token" := "secret" ]}.

(** A name that goes on after [localhost] passes, and gets the token over plain HTTP. *)
Example plain_http_is_accepted :
  ∃ c, from_properties (λ _, Ok tt) attacker_target = Ok c ∧
       cn_host c = "http://localhost.example.net" ∧ cn_token c = "secret".
Proof. eexists. split; [vm_compute; reflexivity|done]. Qed.
