(* ===== verification/Snowflake.v ===== *)
(** * The Snowflake adapter (crates/qcli-driver-snowflake/src/lib.rs)

    [execute] over the row stream of [snowflakedb_rs]: batches of a thousand rows,
    a check of their number; metadata discovery; the connection.  The client is a
    parameter: opening a connection, executing a statement, fetching its rows. *)
From S2P Require Import Prelude Text Chars Config Arrow ArrowTypes ArrowBuild DriverApi Core.
From S2P Require Import Sink Sql.
From Stdlib Require Import Ascii.
Import Core.Queries.

(** [sf_error]: of an error's text. *)
Definition sf_error (message : string) : DriverError :=
  let code :=
    if contains "auth" (to_ascii_lowercase message) || contains "password" (to_ascii_lowercase message)
    then "authentication" else "snowflake" in
  DriverError_new code message.

(** ** The connection *)

Definition sf_required (properties : gmap string string) (name : string) :
    result string DriverError :=
  ok_or (v ← properties !! name; if is_empty v then None else Some v)
    (DriverError_new "configuration" ("Snowflake target requires '" +:+ name +:+ "'")).

(** What [SnowflakeConnectionOptsBuilder] is given. *)
Record SfOptions := {
  so_pool_size : Z;
  so_account_id : string;
  so_username : string;
  so_password : string;
  so_download_chunks_in_parallel : Z;
  so_download_chunks_in_order : bool;
  so_warehouse : option string;
  so_database : option string;
  so_schema : option string;
  so_role : option string;
}.

Definition sf_options (properties : gmap string string) : result SfOptions DriverError :=
  let auth_type := default "password" (properties !! "auth_type") in
  if negb (String.eqb auth_type "password") then
    Err (DriverError_new "authentication"
      ("Snowflake authentication method '" +:+ auth_type +:+ "' is not supported yet"))
  else
    let? user := sf_required properties "user" in
    let? password := sf_required properties "password" in
    let? account := sf_required properties "account" in
    Ok {| so_pool_size := 1; so_account_id := account; so_username := user;
          so_password := password; so_download_chunks_in_parallel := 4;
          so_download_chunks_in_order := true; so_warehouse := properties !! "warehouse";
          so_database := properties !! "database"; so_schema := properties !! "schema";
          so_role := properties !! "role" |}.

(** ** The client *)

Record SfColumn := {
  sc_name : string;
  sc_type : string;
  sc_precision : option Z;
  sc_scale : option Z;
  sc_nullable : bool;
}.

(** A row: its cells, each a text, a null or a value that cannot be read. *)
Definition SfRow : Type := list (result (option string) string).

(** The result of a statement, with the rows of its stream. *)
Record SfResult := {
  sr_expected_result_length : Z;
  sr_columns : list SfColumn;
  sr_rows : list (result SfRow string);
}.

(** Calls of the client; errors as their texts. *)
Record SfClient (W C : Type) := {
  sf_build : SfOptions → result unit string;
  sf_open : SfOptions → M W string C;
  sf_query : C → string → M W string SfResult;
  sf_fetch_all : C → string → M W string (list SfRow);
}.
Arguments sf_build {_ _}. Arguments sf_open {_ _}. Arguments sf_query {_ _}.
Arguments sf_fetch_all {_ _}.

Section Connect.
Context {W C : Type} (client : SfClient W C).

Definition sf_connect (properties : gmap string string) : M W DriverError C :=
  options ← of_result (sf_options properties);
  _ ← of_result (map_err (DriverError_new "configuration") (sf_build client options));
  on (λ w : W, w) (λ w _, w) sf_error (sf_open client options).
End Connect.

(** ** Batches *)

Definition BATCH_ROWS : Z := 1000.

Definition validate_row_count (expected actual : Z) : result unit DriverError :=
  if expected <? 0 then
    Err (DriverError_new "snowflake_result"
      ("Snowflake returned invalid expected row count " +:+ pretty expected))
  else if negb (expected =? actual) then
    Err (DriverError_new "snowflake_result"
      ("Snowflake reported " +:+ pretty expected +:+ " rows but the driver decoded "
       +:+ pretty actual))
  else Ok tt.

Definition sf_field (c : SfColumn) : Field :=
  let metadata : gmap string string := {[ "snowflake.type" := sc_type c ]} in
  let metadata := match sc_precision c with
                  | Some p => <["snowflake.precision" := pretty p]> metadata
                  | None => metadata
                  end in
  let metadata := match sc_scale c with
                  | Some s => <["snowflake.scale" := pretty s]> metadata
                  | None => metadata
                  end in
  with_metadata metadata (Field_new (sc_name c) Utf8 (sc_nullable c)).

(** [values[index]] out of range: the panic, as an error that ends the execution. *)
Definition out_of_bounds : DriverError := DriverError_new "panic" "index out of bounds".

(** The inner loop of [rows_to_batch], from column [index] on. *)
Fixpoint push_row (index : nat) (values : list (list (option string))) (row : SfRow) :
    result (list (list (option string))) DriverError :=
  match row with
  | [] => Ok values
  | cell :: row =>
      let? value := map_err sf_error cell in
      match values !! index with
      | Some column => push_row (S index) (<[index := column ++ [value]]> values) row
      | None => Err out_of_bounds
      end
  end.

Fixpoint push_rows (values : list (list (option string))) (rows : list SfRow) :
    result (list (list (option string))) DriverError :=
  match rows with
  | [] => Ok values
  | row :: rows => let? values := push_row 0 values row in push_rows values rows
  end.

Section Execute.
Context `{bu : ArrowBuild} {W C : Type} (client : SfClient W C) (ch : Channel) (i : Invocation).

Definition rows_to_batch (columns : list SfColumn) (rows : list SfRow) :
    result RecordBatch DriverError :=
  let? values := push_rows (replicate (length columns) []) rows in
  map_err (DriverError_new "snowflake_type")
    (try_new (sf_field <$> columns) (StringArray <$> values)).

Definition sf_send_batch (columns : list SfColumn) (rows : list SfRow) (producing : bool) :
    Step W bool :=
  _ ← (if producing then mret tt else emit (State ProducingResults));
  b ← of_result (rows_to_batch columns rows);
  _ ← offer ch b;
  mret true.

Definition cancellation_unavailable : DriverError :=
  DriverError_new "cancellation_unavailable"
    "Snowflake cancellation requires upstream query-ID support".

(** The loop over the stream. *)
Fixpoint read_stream (columns : list SfColumn) (stream : list (result SfRow string))
    (buffered : list SfRow) (total : Z) (producing : bool) : Step W (list SfRow * Z * bool) :=
  match stream with
  | [] => mret (buffered, total, producing)
  | row :: stream =>
      cancelled ← poll_cancelled i;
      _ ← (if (cancelled : bool) then fail cancellation_unavailable else mret tt);
      row ← of_result (map_err sf_error row);
      let buffered := buffered ++ [row] in
      if Z.of_nat (length buffered) =? BATCH_ROWS then
        producing ← sf_send_batch columns buffered producing;
        read_stream columns stream [] (usize_add total BATCH_ROWS) producing
      else read_stream columns stream buffered total producing
  end.

Definition sf_session_update (sql : string) : option (gmap string string) :=
  match split_whitespace (trim_end_matches ";"%char (trim sql)) with
  | [use_word; kind; value] =>
      if negb (eq_ignore_ascii_case use_word "use") then None
      else
        property ← (if eq_ignore_ascii_case kind "database" then Some "database"
                    else if eq_ignore_ascii_case kind "schema" then Some "schema"
                    else if eq_ignore_ascii_case kind "warehouse" then Some "warehouse"
                    else if eq_ignore_ascii_case kind "role" then Some "role"
                    else None);
        Some {[ property := trim_matches [double_quote_char] value ]}
  | _ => None
  end.

(** [execute] over its connection. *)
Definition sf_run (conn : C) (sql : string) : Step W unit :=
  _ ← emit (State Running);
  result ← ask sf_error (sf_query client conn sql);
  '(buffered, total, producing) ← read_stream (sr_columns result) (sr_rows result) [] 0 false;
  total ← match buffered with
          | [] => mret total
          | _ => _ ← sf_send_batch (sr_columns result) buffered producing;
                 mret (usize_add total (Z.of_nat (length buffered)))
          end;
  _ ← of_result (validate_row_count (sr_expected_result_length result) total);
  _ ← match sf_session_update sql with
      | Some properties => emit (SessionProperties properties)
      | None => mret tt
      end;
  emit (RowsProduced total).

Definition sf_execute (request : QueryRequest) (w : W) : Execution :=
  match sf_connect client (rq_properties request) w with
  | (Err e, _) => no_output e
  | (Ok conn, w) => execution (sf_run conn (rq_sql request)) w
  end.

(** ** Metadata *)

Definition sf_metadata_rows (properties : gmap string string) (sql : string) :
    M W DriverError (list SfRow) :=
  conn ← sf_connect client properties;
  on (λ w : W, w) (λ w _, w) sf_error (sf_fetch_all client conn sql).

Definition sf_cell (row : SfRow) (index : nat) : option string :=
  match row !! index with Some (Ok v) => v | _ => None end.

(** [cell(&row, a).or_else(|| cell(&row, b))]. *)
Definition sf_cell_or (row : SfRow) (a b : nat) : option string :=
  match sf_cell row a with Some v => Some v | None => sf_cell row b end.

Definition sf_context (request : MetadataRequest) (property : string) (selected : option string) :
    result string DriverError :=
  ok_or (match selected with Some v => Some v | None => mr_properties request !! property end)
    (DriverError_new "missing_context" ("metadata discovery requires a " +:+ property)).

Definition sf_qualified (request : MetadataRequest) (object : string) : string :=
  join "." (identifier <$> omap id
    [match mr_catalog request with
     | Some v => Some v
     | None => mr_properties request !! "database"
     end;
     match mr_schema request with
     | Some v => Some v
     | None => mr_properties request !! "schema"
     end; Some object]).

Definition sf_schemas_sql (request : MetadataRequest) : string :=
  match mr_catalog request with
  | None => "SHOW SCHEMAS"
  | Some catalog => "SHOW SCHEMAS IN DATABASE " +:+ identifier catalog
  end.
Definition sf_objects_sql (database schema : string) : string :=
  "SHOW TERSE OBJECTS IN SCHEMA " +:+ identifier database +:+ "." +:+ identifier schema.
Definition sf_describe_sql (request : MetadataRequest) (object : string) : string :=
  "DESCRIBE TABLE " +:+ sf_qualified request object.

Definition sf_list_catalogs (request : MetadataRequest) : M W DriverError (list CatalogMetadata) :=
  rows ← sf_metadata_rows (mr_properties request) "SHOW DATABASES";
  mret ((λ name, {| cat_name := name |}) <$> omap (λ row, sf_cell_or row 1 0) rows).

Definition sf_list_schemas (request : MetadataRequest) : M W DriverError (list SchemaMetadata) :=
  rows ← sf_metadata_rows (mr_properties request) (sf_schemas_sql request);
  mret ((λ name, {| sm_catalog := mr_catalog request; sm_name := name |})
          <$> omap (λ row, sf_cell_or row 1 0) rows).

Definition sf_object (database schema : string) (pattern : option string) (row : SfRow) :
    option ObjectMetadata :=
  name ← sf_cell_or row 0 1;
  if negb (prefix_glob_matches pattern name) then None
  else
    let kind := match sf_cell_or row 1 2 with
                | Some k => if one_of ["VIEW"; "MATERIALIZED VIEW"] k then View
                            else if String.eqb k "TABLE" then Table else Other
                | None => Other
                end in
    Some {| om_catalog := Some database; om_schema := Some schema; om_name := name;
            om_kind := kind |}.

Definition sf_list_objects (request : MetadataRequest) : M W DriverError (list ObjectMetadata) :=
  database ← of_result (sf_context request "database" (mr_catalog request));
  schema ← of_result (sf_context request "schema" (mr_schema request));
  rows ← sf_metadata_rows (mr_properties request) (sf_objects_sql database schema);
  mret (omap (sf_object database schema (mr_pattern request)) rows).

Definition sf_column (row : SfRow) : option ColumnMetadata :=
  name ← sf_cell row 0;
  Some {| cm_name := name; cm_data_type := default "UNKNOWN" (sf_cell row 1);
          cm_nullable := (λ value, eq_ignore_ascii_case value "Y") <$> sf_cell row 3;
          cm_comment := value ← sf_cell row 8; if is_empty value then None else Some value |}.

Definition sf_describe_object (request : MetadataRequest) (object : string) :
    M W DriverError (list ColumnMetadata) :=
  rows ← sf_metadata_rows (mr_properties request) (sf_describe_sql request object);
  mret (omap sf_column rows).
End Execute.

Definition sf_capabilities : AdapterCapabilities :=
  from_supported
    [StreamResults; ListCatalogs; ListSchemas; ListObjects; DescribeObject; PreparedStatements].

Definition sf_identifier_capabilities : IdentifierCapabilities :=
  {| unquoted := Upper; quoted := Mixed; quote := of_char double_quote_char |}.
