(* ===== verification/SnowflakeFacts.v ===== *)
(** * Facts about the Snowflake adapter

    Its executions conform, and an execution that succeeds has sent every row of
    the stream, as many as the engine announced. *)
From S2P Require Import Prelude Text Chars Config Arrow ArrowTypes ArrowBuild DriverApi Core.
From S2P Require Import Sink Sql Snowflake.
Import Core.Queries.

(** ** Columns of values *)

Lemma push_row_columns row : ∀ done_ rest values,
  push_row (length done_) (done_ ++ rest) row = Ok values → length row = length rest →
  ∃ vs, row = Ok <$> vs ∧ values = done_ ++ zip_with (λ column v, column ++ [v]) rest vs.
Proof.
  induction row as [|cell row IH]; intros done_ [|column rest] values; [| done | done |];
    cbn [push_row].
  { intros [= <-] _. by exists []. }
  destruct cell as [v|e]; [|done]. simpl. rewrite list_lookup_middle by done.
  rewrite insert_app_r_alt, Nat.sub_diag by lia. cbn [insert list_insert].
  rewrite (cons_middle (column ++ [v])), app_assoc.
  replace (S (length done_)) with (length (done_ ++ [column ++ [v]]))
    by (rewrite length_app; simpl; lia).
  intros H [= Hl]. destruct (IH _ _ _ H Hl) as (vs & -> & ->). exists (v :: vs).
  split; [done|]. simpl. by rewrite <- app_assoc.
Qed.

Lemma sf_cell_ok vs j v : vs !! j = Some v → sf_cell (Ok <$> vs) j = v.
Proof.
  revert j. induction vs as [|v' vs IH]; intros [|j]; [done|done|by intros [= ->]|]. apply IH.
Qed.

(** Each row adds one value to each column. *)
Lemma push_rows_columns rows : ∀ values values',
  push_rows values rows = Ok values' → Forall (λ row, length row = length values) rows →
  length values' = length values ∧
  ∀ j column, values !! j = Some column →
    values' !! j = Some (column ++ ((λ row, sf_cell row j) <$> rows)).
Proof.
  induction rows as [|row rows IH]; intros values values'; cbn [push_rows].
  { intros [= <-] _. split; [done|]. intros j column Hj. by rewrite app_nil_r. }
  destruct (push_row 0 values row) as [v1|e] eqn:E; [|done]. simpl. intros H Hl.
  inversion Hl as [|?? Hrow Hrows]; subst.
  destruct (push_row_columns row [] values v1 E Hrow) as (vs & -> & ->).
  rewrite length_fmap in Hrow. simpl in *.
  assert (length (zip_with (λ column v, column ++ [v]) values vs) = length values) as Hv
    by (rewrite length_zip_with_l; lia).
  destruct (IH _ _ H) as [Hlen Hcol]; [by rewrite Hv|]. split; [by rewrite Hlen|].
  intros j column Hj. destruct (lookup_lt_is_Some_2 vs j) as [v Hvj].
  { apply lookup_lt_Some in Hj. lia. }
  rewrite (Hcol j (column ++ [v])).
  - rewrite <- app_assoc. simpl. replace (sf_cell (Ok <$> vs) j) with v; [done|].
    symmetry. by apply sf_cell_ok.
  - rewrite lookup_zip_with, Hj, Hvj. done.
Qed.

Section Batches.
Context `{bl : ArrowBuildLaws}.

(** A batch of rows: every cell, by column. *)
Definition batch_of_rows (width : nat) (b : RecordBatch) (rows : list SfRow) : Prop :=
  batch_columns b = (λ j, StringArray ((λ row, sf_cell row j) <$> rows)) <$> seq 0 width ∧
  num_rows b = Z.of_nat (length rows).

(** A row has one cell per column. *)
Definition row_fits (columns : list SfColumn) (row : SfRow) : Prop :=
  length row = length columns.

Lemma rows_to_batch_built columns rows b :
  rows_to_batch columns rows = Ok b → Forall (row_fits columns) rows →
  batch_of_rows (length columns) b rows.
Proof.
  intros Hb Hl. unfold rows_to_batch in Hb.
  destruct (push_rows _ rows) as [values|] eqn:E; [|done]. simpl in Hb.
  destruct (push_rows_columns rows _ _ E) as [Hlen Hcol].
  { eapply Forall_impl; [exact Hl|]. intros row Hr. by rewrite length_replicate. }
  rewrite length_replicate in Hlen.
  assert (values = (λ j, (λ row, sf_cell row j) <$> rows) <$> seq 0 (length columns)) as ->.
  { apply list_eq. intros j. rewrite list_lookup_fmap.
    destruct (decide (j < length columns)%nat) as [Hj|Hj].
    - rewrite lookup_seq_lt by done. apply (Hcol j []). by apply lookup_replicate.
    - rewrite lookup_seq_ge by lia. apply lookup_ge_None. lia. }
  destruct (try_new _ _) as [b'|] eqn:Eb; [|done]. injection Hb as <-.
  apply try_new_built in Eb as (_ & Hc & _ & Hr). rewrite <- list_fmap_compose in Hc, Hr.
  split; [exact Hc|]. unfold num_rows. destruct (length columns); [done|].
  unfold row_count in Hr. simpl in Hr. rewrite length_fmap in Hr. injection Hr as Hr.
  by rewrite Hr.
Qed.
End Batches.

(** ** The promise of the adapter *)

Section Conforms.
Context `{bl : ArrowBuildLaws} {W C : Type} (client : SfClient W C).
Context (ch : Channel) (i : Invocation).

(** What the client promises: every row it streams has one cell per column. *)
Definition rows_are_rectangular : Prop :=
  ∀ conn sql w r w', sf_query client conn sql w = (Ok r, w') →
    ∀ row, Ok row ∈ sr_rows r → row_fits (sr_columns r) row.

Lemma tracks_send_batch n columns rows total producing :
  (n ≤ 5)%nat → Forall (row_fits columns) rows →
  tracks (on_track n total producing) (sf_send_batch (W:=W) ch columns rows producing)
    (λ r items, r = true ∧ on_track n (usize_add total (Z.of_nat (length rows))) true items).
Proof.
  intros Hn Hr. unfold sf_send_batch. apply (tracks_bind _ _ _ (λ _, on_track n total true)).
  { destruct producing; [by apply tracks_ret|]. apply tracks_emit. apply on_track_producing. }
  intros ?. apply tracks_result; [done|]. intros b Hb.
  apply rows_to_batch_built in Hb as [_ Hb]; [|done].
  eapply tracks_bind; [by apply tracks_offer|]. intros ?. apply tracks_ret. intros items Ht.
  by rewrite <- Hb.
Qed.

Lemma tracks_read_stream n columns stream : ∀ buffered total producing,
  (n ≤ 5)%nat → Forall (row_fits columns) buffered →
  (∀ row, Ok row ∈ stream → row_fits columns row) →
  tracks (on_track n total producing) (read_stream (W:=W) ch i columns stream buffered total producing)
    (λ '(buffered', total', producing') items,
       Forall (row_fits columns) buffered' ∧ on_track n total' producing' items).
Proof.
  induction stream as [|row stream IH]; intros buffered total producing Hn Hb Hs; cbn [read_stream].
  { by apply tracks_ret. }
  eapply tracks_bind; [apply tracks_poll|]. intros cancelled.
  apply (tracks_bind _ _ _ (λ _, on_track n total producing)).
  { destruct cancelled; [by apply tracks_fail|by apply tracks_ret]. }
  intros ?. apply tracks_result; [done|]. intros cells Hc. destruct row as [r|e]; [|done].
  injection Hc as <-.
  assert (Forall (row_fits columns) (buffered ++ [r])) as Hb'.
  { apply Forall_app. split; [done|]. constructor; [|done]. apply Hs. by left. }
  destruct (Z.eqb_spec (Z.of_nat (length (buffered ++ [r]))) BATCH_ROWS) as [E|_].
  - eapply tracks_bind; [by apply tracks_send_batch|]. rewrite E. intros b.
    intros s [-> Ht]. apply IH; [done|constructor| |done]. intros. apply Hs. by right.
  - apply IH; [done..|]. intros. apply Hs. by right.
Qed.

Hypothesis rectangular : rows_are_rectangular.

(** The promise of the Snowflake adapter. *)
#[global] Instance sf_conforms :
  Conforms (λ '(request, w), Some (sf_execute client ch i request w)).
Proof.
  intros [request w] x [= <-]. unfold sf_execute.
  destruct (sf_connect client (rq_properties request) w) as [[conn|e] w1];
    [|apply conforming_refused].
  cut (tracks (λ items, items = []) (sf_run client ch i conn (rq_sql request)) (λ _, finished)).
  { intros Hm. specialize (Hm (Run_start w1) eq_refl). unfold execution.
    destruct (sf_run _ _ _ _ _ _) as [[[]|e] s].
    - destruct Hm as (n & total & p & items & Hn & Ht & ->). by eapply conforming_done.
    - destruct Hm as (n & total & p & Hn & Ht). by eapply conforming_failed. }
  unfold sf_run. apply (tracks_bind _ _ _ (λ _, on_track 1 0 false)).
  { apply (tracks_emit _ (on_track 1 0 false)). intros ? ->. apply on_track_start. }
  intros ?. apply (tracks_bind _ _ _ (λ r items,
    (∀ row, Ok row ∈ sr_rows r → row_fits (sr_columns r) row) ∧ on_track 1 0 false items)).
  { intros s Hs. unfold ask, on. simpl.
    destruct (sf_query client conn (rq_sql request) (world s)) as [[r|e] w'] eqn:E; simpl.
    - split; [|done]. by eapply rectangular.
    - exists 1%nat, 0, false. split; [lia|done]. }
  intros r. apply tracks_pure. intros Hr.
  eapply tracks_bind; [apply (tracks_read_stream 1); [lia|by constructor|exact Hr]|].
  intros [[buffered total] producing]. apply tracks_pure. intros Hb.
  apply (tracks_bind _ _ _ (λ total' items, ∃ producing', on_track 1 total' producing' items)).
  { destruct buffered as [|row rows]; [apply tracks_ret; by exists producing|].
    eapply tracks_bind; [apply tracks_send_batch; [lia|done]|]. intros b. apply tracks_ret.
    intros items [_ Ht]. by exists true. }
  intros total'. apply tracks_exists. intros producing'.
  apply tracks_result; [lia|]. intros _ _.
  apply (tracks_bind _ _ _ (λ _, on_track 2 total' producing')).
  - destruct (sf_session_update (rq_sql request)).
    + apply tracks_emit. intros ?. by apply on_track_event.
    + apply tracks_ret. intros ?. apply on_track_weaken. lia.
  - intros ?. apply tracks_report. lia.
Qed.
End Conforms.

(** ** Every row *)

Section Rows.
Context `{bl : ArrowBuildLaws} {W C : Type} (client : SfClient W C).
Context (ch : Channel) (i : Invocation).

Lemma emit_batches e (s : Run W) : batches_of (sent (emit e s).2) = batches_of (sent s).
Proof. simpl. by rewrite batches_of_snoc, app_nil_r. Qed.

Lemma send_batch_sends columns rows producing (s s' : Run W) r :
  sf_send_batch ch columns rows producing s = (Ok r, s') → Forall (row_fits columns) rows →
  ∃ b, batches_of (sent s') = batches_of (sent s) ++ [b] ∧ batch_of_rows (length columns) b rows.
Proof.
  intros Hs Hr. apply bind_Ok in Hs as ([] & s1 & E1 & Hs).
  apply bind_Ok in Hs as (b & s2 & E2 & Hs). unfold of_result in E2.
  destruct (rows_to_batch columns rows) as [b'|] eqn:Eb; [|done]. injection E2 as -> ->.
  apply bind_Ok in Hs as ([] & s3 & E3 & [= <- <-]).
  exists b. split; [|by apply rows_to_batch_built].
  assert (batches_of (sent s2) = batches_of (sent s)) as <-.
  { destruct producing; [by injection E1 as <-|]. injection E1 as <-. apply emit_batches. }
  unfold offer in E3. destruct (takes ch (offered s2)); [|done]. injection E3 as <-. simpl.
  by rewrite batches_of_snoc.
Qed.

(** The rows sent so far are groups of a thousand; fewer are buffered. *)
Lemma read_stream_sends columns stream : ∀ buffered total producing (s s' : Run W) buffered' total'
    producing',
  read_stream ch i columns stream buffered total producing s
  = (Ok (buffered', total', producing'), s') →
  Forall (row_fits columns) buffered → (∀ row, Ok row ∈ stream → row_fits columns row) →
  Z.of_nat (length buffered) < BATCH_ROWS → total mod 2 ^ 64 = total →
  ∃ groups bs rows, stream = Ok <$> rows ∧ buffered ++ rows = concat groups ++ buffered' ∧
    batches_of (sent s') = batches_of (sent s) ++ bs ∧
    Forall2 (batch_of_rows (length columns)) bs groups ∧
    Forall (λ g, Z.of_nat (length g) = BATCH_ROWS) groups ∧
    Forall (row_fits columns) buffered' ∧ Z.of_nat (length buffered') < BATCH_ROWS ∧
    total' = (total + Z.of_nat (length (concat groups))) mod 2 ^ 64.
Proof.
  induction stream as [|row stream IH]; intros buffered total producing s s' buffered' total'
    producing' Hr Hb Hs Hl Htot; cbn [read_stream] in Hr.
  { injection Hr as <- <- <- <-. exists [], [], []. rewrite !app_nil_r, Z.add_0_r.
    by repeat split. }
  apply bind_Ok in Hr as (cancelled & s1 & E1 & Hr). injection E1 as <- <-.
  apply bind_Ok in Hr as ([] & s2 & E2 & Hr). destruct (poll i (polls s)); [done|].
  injection E2 as <-. apply bind_Ok in Hr as (cells & s3 & E3 & Hr).
  destruct row as [cells'|e]; [|done]. injection E3 as -> <-.
  assert (Forall (row_fits columns) (buffered ++ [cells])) as Hb'.
  { apply Forall_app. split; [done|]. constructor; [|done]. apply Hs. by left. }
  destruct (Z.eqb_spec (Z.of_nat (length (buffered ++ [cells]))) BATCH_ROWS) as [E|Hne].
  - apply bind_Ok in Hr as (producing2 & s4 & E4 & Hr).
    apply send_batch_sends in E4 as (b & Hsent & Hbatch); [|done].
    apply IH in Hr as (groups & bs & rows & -> & Hc & Hs' & F & Hg & Hf & Hlt & Ht);
      [|by constructor|intros; apply Hs; by right|done|apply Zmod_mod].
    exists ((buffered ++ [cells]) :: groups), (b :: bs), (cells :: rows).
    split; [done|]. split; [simpl in *; by rewrite Hc, <- !app_assoc|].
    split; [rewrite Hs', Hsent; simpl; by rewrite <- app_assoc|].
    split; [by constructor|]. split; [by constructor|]. split; [done|]. split; [done|].
    rewrite Ht. cbn [concat]. unfold usize_add. rewrite Zplus_mod_idemp_l.
    f_equal. rewrite length_app. lia.
  - apply IH in Hr as (groups & bs & rows & -> & Hc & Hs' & F & Hg & Hf & Hlt & Ht);
      [|done|intros; apply Hs; by right|rewrite length_app in *; simpl in *; lia|done].
    exists groups, bs, (cells :: rows). split; [done|]. split; [|done].
    by rewrite <- Hc, <- app_assoc.
Qed.

(** What remains in the buffer is sent as a last batch. *)
Lemma last_batch_sends columns buffered total producing (s s' : Run W) total' :
  match buffered with
  | [] => mret total
  | _ => _ ← sf_send_batch ch columns buffered producing;
         mret (usize_add total (Z.of_nat (length buffered)))
  end s = (Ok total', s') →
  Forall (row_fits columns) buffered → Z.of_nat (length buffered) < BATCH_ROWS →
  total mod 2 ^ 64 = total →
  ∃ groups bs, concat groups = buffered ∧ batches_of (sent s') = batches_of (sent s) ++ bs ∧
    Forall2 (batch_of_rows (length columns)) bs groups ∧
    Forall (λ g, 1 ≤ Z.of_nat (length g) ≤ BATCH_ROWS) groups ∧
    total' = (total + Z.of_nat (length buffered)) mod 2 ^ 64.
Proof.
  intros Hm Hf Hl Ht. destruct buffered as [|row rest].
  - injection Hm as <- <-. exists [], []. by rewrite app_nil_r, Z.add_0_r.
  - apply bind_Ok in Hm as (p & s1 & E1 & [= <- <-]).
    apply send_batch_sends in E1 as (b & Hb & Fb); [|done].
    exists [row :: rest], [b]. simpl. rewrite app_nil_r. split_and!; try done.
    + constructor; [done|constructor].
    + constructor; [|done]. simpl in *. lia.
Qed.

Lemma conclude_sends sql total (s s' : Run W) :
  (_ ← match sf_session_update sql with
       | Some properties => emit (SessionProperties properties)
       | None => mret tt
       end;
   emit (RowsProduced total)) s = (Ok tt, s') →
  batches_of (sent s') = batches_of (sent s).
Proof.
  intros E. apply bind_Ok in E as ([] & s1 & E1 & [= <-]). destruct (sf_session_update sql).
  all: injection E1 as <-; simpl; by rewrite !batches_of_snoc, !app_nil_r.
Qed.

Lemma row_count_validated expected actual :
  validate_row_count expected actual = Ok tt → expected = actual.
Proof.
  unfold validate_row_count. destruct (expected <? 0); [done|].
  by destruct (Z.eqb_spec expected actual).
Qed.

(** C28: No row is lost.  An execution that succeeds has sent every row of the stream,
    in order and cell by cell, in batches of at most a thousand, and there are as
    many as the engine announced: a stream that fails, is cut short or carries
    too many rows does not succeed. *)
Theorem every_row_is_sent request w conn w1 r w2 :
  sf_connect client (rq_properties request) w = (Ok conn, w1) →
  sf_query client conn (rq_sql request) w1 = (Ok r, w2) →
  (∀ row, Ok row ∈ sr_rows r → row_fits (sr_columns r) row) →
  ex_result (sf_execute client ch i request w) = Ok tt →
  ∃ groups, sr_rows r = Ok <$> concat groups ∧
    sr_expected_result_length r = Z.of_nat (length (concat groups)) mod 2 ^ 64 ∧
    Forall2 (batch_of_rows (length (sr_columns r)))
      (batches_of (ex_items (sf_execute client ch i request w))) groups ∧
    Forall (λ g, 1 ≤ Z.of_nat (length g) ≤ BATCH_ROWS) groups.
Proof.
  intros Hc Hq Hr. unfold sf_execute. rewrite Hc. unfold execution.
  destruct (sf_run client ch i conn (rq_sql request) (Run_start w1)) as [[[]|e] s] eqn:E; [|done].
  intros _. simpl. unfold sf_run in E.
  apply bind_Ok in E as ([] & s1 & E1 & E). injection E1 as <-.
  apply bind_Ok in E as (r' & s2 & E2 & E). unfold ask, on in E2. simpl in E2. rewrite Hq in E2.
  injection E2 as <- <-. apply bind_Ok in E as ([[buffered total] producing] & s3 & E3 & E).
  apply read_stream_sends in E3 as (groups & bs & rows & -> & Hcat & Hs & F & Hg & Hf & Hlt & ->);
    [|by constructor|done|done|done].
  apply bind_Ok in E as (total' & s4 & E4 & E). apply bind_Ok in E as ([] & s5 & E5 & E).
  apply last_batch_sends in E4 as (groups' & bs' & <- & Hs' & F' & Hg' & ->);
    [|done|done|apply Zmod_mod].
  unfold of_result in E5. destruct (validate_row_count _ _) as [[]|] eqn:Ev; [|done].
  injection E5 as <-. apply row_count_validated in Ev. apply conclude_sends in E.
  exists (groups ++ groups'). rewrite concat_app. simpl in Hcat. rewrite <- Hcat. split; [done|].
  split; [by rewrite Ev, Zplus_mod_idemp_l, Hcat, length_app, Nat2Z.inj_add|].
  split; [rewrite E, Hs', Hs; by apply Forall2_app|].
  apply Forall_app. split; [|done]. eapply Forall_impl; [exact Hg|].
  unfold BATCH_ROWS. intros g. simpl. lia.
Qed.
End Rows.
