(* ===== verification/MetadataSql.v ===== *)
(** * The metadata statements the adapters send

    Whatever names a request carries, the statement sent for it reads as the
    fixed words of the adapter and exactly those names. *)
From S2P Require Import Prelude Text Chars Config DriverApi Sql Trino Databricks Snowflake.
From Stdlib Require Import Ascii.

Abbreviation dq := double_quote_char.
Abbreviation bt := backtick_char.

(** Fixed text, then a delimited name. *)
Lemma tokens_then_name q text name rest :
  unquoted_text q text = true → closed q rest = true →
  tokens q (text +:+ delimited q name +:+ rest)
  = app (raw text ++ [tok q name]) <$> tokens q rest.
Proof.
  intros Ht Hr. rewrite tokens_raw, tokens_delimited by auto.
  destruct (tokens q rest); [|done]. simpl. by rewrite <- app_assoc.
Qed.

(** Fixed text, then a literal. *)
Lemma tokens_then_literal q text value rest :
  unquoted_text q text = true → closed single_quote_char rest = true →
  tokens q (text +:+ of_char single_quote_char +:+ literal value +:+ of_char single_quote_char +:+ rest)
  = app (raw text ++ [Str value]) <$> tokens q rest.
Proof.
  intros Ht Hr. rewrite tokens_raw by done.
  change (of_char single_quote_char +:+ literal value +:+ of_char single_quote_char +:+ rest)
    with (String single_quote_char (literal value +:+ of_char single_quote_char +:+ rest)).
  rewrite <- (string_app_assoc (literal value)).
  change (String single_quote_char ((literal value +:+ of_char single_quote_char) +:+ rest))
    with (delimited single_quote_char value +:+ rest).
  rewrite tokens_delimited by auto. destruct (tokens q rest); [|done]. simpl.
  by rewrite <- app_assoc.
Qed.

(** Fixed text, then a qualified name. *)
Lemma tokens_then_dotted q text parts :
  unquoted_text q text = true → Ascii.eqb q "."%char = false →
  Ascii.eqb q single_quote_char = false →
  tokens q (text +:+ join "." (delimited q <$> parts)) = Some (raw text ++ dotted q parts).
Proof.
  intros Ht Hd Hs. rewrite tokens_raw by done.
  rewrite <- (string_app_nil_r (join "." _)), tokens_dotted by done. simpl. by rewrite app_nil_r.
Qed.

(** The parts of an object's name, as Trino takes it apart. *)
Definition object_parts (request : MetadataRequest) (object : string) : list string :=
  if contains "." object then split "."%char object
  else omap id [Trino.selected request (mr_catalog request) "catalog";
                Trino.selected request (mr_schema request) "schema"; Some object].

(** Names stay names in what Trino is sent. *)
Lemma trino_statements_are_exact request object catalog schema pattern :
  tokens dq (Trino.schemas_sql request)
  = Some match mr_catalog request with
         | None => raw "SHOW SCHEMAS"
         | Some c => raw "SHOW SCHEMAS FROM " ++ [Ident c]
         end ∧
  tokens dq (Trino.objects_sql catalog schema pattern)
  = Some (raw "SELECT table_catalog, table_schema, table_name, table_type FROM " ++ [Ident catalog]
          ++ raw ".information_schema.tables WHERE table_schema = " ++ [Str schema]
          ++ raw " AND table_name LIKE " ++ [Str pattern] ++ raw " ESCAPE " ++ [Str "$"]
          ++ raw " ORDER BY table_name") ∧
  tokens dq (Trino.describe_sql request object)
  = Some (raw "DESCRIBE " ++ dotted dq (object_parts request object)).
Proof.
  split; [|split].
  - unfold Trino.schemas_sql. destruct (mr_catalog request) as [c|]; [|done].
    rewrite <- (string_app_nil_r (identifier c)).
    change (identifier c) with (delimited dq c). by rewrite tokens_then_name.
  - unfold Trino.objects_sql, Trino.quote_mark. change (identifier catalog) with (delimited dq catalog).
    rewrite tokens_then_name by done. rewrite tokens_then_literal by done.
    rewrite tokens_then_literal by done.
    replace (tokens dq " ESCAPE '$' ORDER BY table_name")
      with (Some (raw " ESCAPE " ++ [Str "$"] ++ raw " ORDER BY table_name")) by done.
    cbn [fmap option_fmap option_map]. by rewrite <- !app_assoc.
  - unfold Trino.describe_sql, Trino.qualify_object, object_parts.
    destruct (contains "." object); by apply tokens_then_dotted.
Qed.

(** So do they in what Databricks is sent, *)
Lemma db_statements_are_exact request object catalog schema :
  tokens bt (Databricks.db_schemas_sql request)
  = Some match mr_catalog request with
         | None => raw "SHOW SCHEMAS"
         | Some c => raw "SHOW SCHEMAS IN " ++ [Ident c]
         end ∧
  tokens bt (Databricks.db_objects_sql catalog schema)
  = Some (raw "SHOW TABLES IN " ++ dotted bt [catalog; schema]) ∧
  tokens bt (Databricks.db_describe_sql request object)
  = Some (raw "DESCRIBE " ++ dotted bt (omap id [mr_catalog request; mr_schema request; Some object])).
Proof.
  split; [|split].
  - unfold Databricks.db_schemas_sql. destruct (mr_catalog request) as [c|]; [|done].
    rewrite <- (string_app_nil_r (backtick_identifier c)).
    change (backtick_identifier c) with (delimited bt c). by rewrite tokens_then_name.
  - by apply (tokens_then_dotted bt "SHOW TABLES IN " [catalog; schema]).
  - by apply tokens_then_dotted.
Qed.

(** and in what Snowflake is sent. *)
Lemma sf_statements_are_exact request object database schema :
  tokens dq (Snowflake.sf_schemas_sql request)
  = Some match mr_catalog request with
         | None => raw "SHOW SCHEMAS"
         | Some c => raw "SHOW SCHEMAS IN DATABASE " ++ [Ident c]
         end ∧
  tokens dq (Snowflake.sf_objects_sql database schema)
  = Some (raw "SHOW TERSE OBJECTS IN SCHEMA " ++ dotted dq [database; schema]) ∧
  tokens dq (Snowflake.sf_describe_sql request object)
  = Some (raw "DESCRIBE TABLE "
          ++ dotted dq (omap id [Trino.selected request (mr_catalog request) "database";
                                 Trino.selected request (mr_schema request) "schema"; Some object])).
Proof.
  split; [|split].
  - unfold Snowflake.sf_schemas_sql. destruct (mr_catalog request) as [c|]; [|done].
    rewrite <- (string_app_nil_r (identifier c)).
    change (identifier c) with (delimited dq c). by rewrite tokens_then_name.
  - by apply (tokens_then_dotted dq "SHOW TERSE OBJECTS IN SCHEMA " [database; schema]).
  - by apply tokens_then_dotted.
Qed.

(** C29: No name breaks out of its statement.  For every engine, request and object,
    the statements that list schemas and objects and describe an object consist
    of the adapter's own words and of the requested names as single delimited
    tokens, whatever characters those names contain. *)
Theorem metadata_statements_are_exact request object catalog schema pattern :
  (tokens dq (Trino.schemas_sql request)
   = Some match mr_catalog request with
          | None => raw "SHOW SCHEMAS"
          | Some c => raw "SHOW SCHEMAS FROM " ++ [Ident c]
          end ∧
   tokens dq (Trino.objects_sql catalog schema pattern)
   = Some (raw "SELECT table_catalog, table_schema, table_name, table_type FROM " ++ [Ident catalog]
           ++ raw ".information_schema.tables WHERE table_schema = " ++ [Str schema]
           ++ raw " AND table_name LIKE " ++ [Str pattern] ++ raw " ESCAPE " ++ [Str "$"]
           ++ raw " ORDER BY table_name") ∧
   tokens dq (Trino.describe_sql request object)
   = Some (raw "DESCRIBE " ++ dotted dq (object_parts request object))) ∧
  (tokens bt (Databricks.db_schemas_sql request)
   = Some match mr_catalog request with
          | None => raw "SHOW SCHEMAS"
          | Some c => raw "SHOW SCHEMAS IN " ++ [Ident c]
          end ∧
   tokens bt (Databricks.db_objects_sql catalog schema)
   = Some (raw "SHOW TABLES IN " ++ dotted bt [catalog; schema]) ∧
   tokens bt (Databricks.db_describe_sql request object)
   = Some (raw "DESCRIBE "
           ++ dotted bt (omap id [mr_catalog request; mr_schema request; Some object]))) ∧
  (tokens dq (Snowflake.sf_schemas_sql request)
   = Some match mr_catalog request with
          | None => raw "SHOW SCHEMAS"
          | Some c => raw "SHOW SCHEMAS IN DATABASE " ++ [Ident c]
          end ∧
   tokens dq (Snowflake.sf_objects_sql catalog schema)
   = Some (raw "SHOW TERSE OBJECTS IN SCHEMA " ++ dotted dq [catalog; schema]) ∧
   tokens dq (Snowflake.sf_describe_sql request object)
   = Some (raw "DESCRIBE TABLE "
           ++ dotted dq (omap id [Trino.selected request (mr_catalog request) "database";
                                  Trino.selected request (mr_schema request) "schema";
                                  Some object]))).
Proof.
  split; [apply trino_statements_are_exact|].
  split; [apply db_statements_are_exact|apply sf_statements_are_exact].
Qed.

(** An object named with its schema is one name for Databricks and Snowflake,
    where Trino takes it apart. *)
Example qualified_objects_are_one_name (request : MetadataRequest) :
  mr_catalog request = None → mr_schema request = None →
  Databricks.db_describe_sql request "sales.orders" = "DESCRIBE `sales.orders`".
Proof. intros E1 E2. unfold Databricks.db_describe_sql, Databricks.db_qualified. by rewrite E1, E2. Qed.
