(* ===== verification/CliArgs.v ===== *)
(** * The arguments of the command line (crates/qcli-cli/src/main.rs)

    Errors with their exit codes, the parsing of arguments, and the checks on the
    options of [serve]. *)
From S2P Require Import Prelude Text Chars Config DriverApi Core Auth Output ReplText Repl.
From S2P Require Import FlightPolicy.
From Stdlib Require Import Ascii.

Inductive AppError :=
| Usage (message : string)
| ConfigFailed (e : ConfigError)
| QueryFailed (e : CoreError)
| InputFailed (message : string)
| OutputFailed (e : OutputError)
| ReplFailed (e : ReplError)
| ServerFailed (message : string)
| FlightFailed (message : string)
| AuthenticationFailed (e : AuthenticationError).

Definition exit_code (e : AppError) : Z :=
  match e with
  | Usage _ | InputFailed _ => 2
  | ConfigFailed _ => 3
  | QueryFailed (Driver error) =>
      if one_of ["authentication"; "connection"; "insecure_authentication"; "timeout"]
           (de_code error)
      then 4 else 5
  | QueryFailed _ => 5
  | OutputFailed _ => 7
  | ReplFailed _ => 6
  | ServerFailed _ | FlightFailed _ => 8
  | AuthenticationFailed _ => 9
  end.

Definition app_is_broken_pipe (e : AppError) : bool :=
  match e with OutputFailed error => is_broken_pipe error | _ => false end.

(** [impl Display for AppError]. *)
Definition AppError_display (readline_text : ReadlineError → string) (e : AppError) : string :=
  match e with
  | Usage message => message
  | ConfigFailed error => ConfigError_display error
  | QueryFailed error => CoreError_display error
  | InputFailed error => "could not read SQL input: " +:+ error
  | OutputFailed error => "could not write query results: " +:+ oe_message error
  | ReplFailed error => "interactive terminal failed: " +:+ ReplError_display readline_text error
  | ServerFailed error => "HTTP service failed: " +:+ error
  | FlightFailed error => "Flight SQL service failed: " +:+ error
  | AuthenticationFailed error => "authentication failed: " +:+ ae_message error
  end.

(** [main]: the exit code and what is printed to standard error. *)
Definition main_exit (readline_text : ReadlineError → string) (r : result unit AppError) :
    Z * string :=
  match r with
  | Ok _ => (0, EmptyString)
  | Err e =>
      if app_is_broken_pipe e then (0, EmptyString)
      else (exit_code e, "error: " +:+ AppError_display readline_text e +:+ Output.newline)
  end.

(** ** Global arguments *)

(** [Path::join] with a relative path. *)
Definition path_join (base path : string) : string :=
  if is_empty base || ends_with "/" base then base +:+ path else base +:+ "/" +:+ path.

(** [default_config_path] (crates/qcli-config/src/lib.rs). *)
Definition default_config_path (env : string → option string) : result string ConfigError :=
  let? home := ok_or (match env "HOME" with Some h => Some h | None => env "USERPROFILE" end)
    {| ce_path := "~/.qcli/.env"; ce_line := None; ce_message := "cannot determine home directory" |} in
  Ok (path_join home ".qcli/.env").

Definition parse_global_args (env : string → option string) (args : list string) :
    result (string * list string) AppError :=
  let? path := map_err ConfigFailed (default_config_path env) in
  match args with
  | first :: rest =>
      if String.eqb first "--config" then
        match rest with
        | [] => Err (Usage "--config requires a path")
        | path :: rest => Ok (path, rest)
        end
      else Ok (path, args)
  | [] => Ok (path, [])
  end.

(** ** Queries *)

Inductive QuerySource := Command (sql : string) | File (path : string).

Record QueryArguments := {
  qa_target : string;
  qa_source : QuerySource;
  qa_format : option OutputFormat;
}.

(** The loop of [parse_query_args]. *)
Fixpoint parse_query_loop (arguments : list string) (target : option string)
    (source : option QuerySource) (format : option OutputFormat) :
    result (option string * option QuerySource * option OutputFormat) AppError :=
  match arguments with
  | [] => Ok (target, source, format)
  | [flag] => Err (Usage (flag +:+ " requires a value"))
  | flag :: value :: rest =>
      if String.eqb flag "--target" && bool_decide (target = None) then
        parse_query_loop rest (Some value) source format
      else if String.eqb flag "--command" && match source with None => true | _ => false end then
        parse_query_loop rest target (Some (Command value)) format
      else if String.eqb flag "--file" && match source with None => true | _ => false end then
        parse_query_loop rest target (Some (File value)) format
      else if String.eqb flag "--format" && match format with None => true | _ => false end then
        let? f := map_err (λ e, Usage (oe_message e)) (OutputFormat_from_str value) in
        parse_query_loop rest target source (Some f)
      else if one_of ["--command"; "--file"] flag then
        Err (Usage "specify exactly one of --command or --file")
      else Err (Usage ("unknown or repeated query option '" +:+ flag +:+ "'"))
  end.

Definition parse_query_args (arguments : list string) : result QueryArguments AppError :=
  let? parsed := parse_query_loop arguments None None None in
  let '(target, source, format) := parsed in
  let? target := ok_or target (Usage "query execution requires --target TARGET") in
  let? source := ok_or source
    (Usage "query execution requires exactly one of --command SQL or --file PATH") in
  Ok {| qa_target := target; qa_source := source; qa_format := format |}.

(** ** Serving *)

Record ServeArguments := {
  sa_address : string;
  sa_flight_address : option string;
  sa_auth_file : option string;
  sa_oidc_file : option string;
  sa_trusted_proxy : bool;
  sa_flight_trusted_proxy : bool;
  sa_flight_tls_certificate : option string;
  sa_flight_tls_private_key : option string;
  sa_flight_tls_client_ca : option string;
  sa_allowed_origins : list string;
  sa_cluster_url : option string;
  sa_node_id : option string;
  sa_result_store_url : option string;
  sa_flight_signing_key : option string;
}.

Definition ServeArguments_start : ServeArguments :=
  {| sa_address := "127.0.0.1:8088"; sa_flight_address := None; sa_auth_file := None;
     sa_oidc_file := None; sa_trusted_proxy := false; sa_flight_trusted_proxy := false;
     sa_flight_tls_certificate := None; sa_flight_tls_private_key := None;
     sa_flight_tls_client_ca := None; sa_allowed_origins := []; sa_cluster_url := None;
     sa_node_id := None; sa_result_store_url := None; sa_flight_signing_key := None |}.

(** The options that take a value. *)
Definition valued_options : list string :=
  ["--bind"; "--flight-bind"; "--flight-tls-cert"; "--flight-tls-key"; "--flight-tls-client-ca";
   "--auth-file"; "--oidc-file"; "--cluster-url"; "--node-id"; "--result-store-url";
   "--flight-signing-key"; "--cors-origin"].

(** The assignment for an option with its value. *)
Definition set_serve_option (flag value : string) (r : ServeArguments) : ServeArguments :=
  let new (name : string) (old : option string) :=
    if String.eqb flag name then Some value else old in
  {| sa_address := if String.eqb flag "--bind" then value else sa_address r;
     sa_flight_address := new "--flight-bind" (sa_flight_address r);
     sa_auth_file := new "--auth-file" (sa_auth_file r);
     sa_oidc_file := new "--oidc-file" (sa_oidc_file r);
     sa_trusted_proxy := sa_trusted_proxy r;
     sa_flight_trusted_proxy := sa_flight_trusted_proxy r;
     sa_flight_tls_certificate := new "--flight-tls-cert" (sa_flight_tls_certificate r);
     sa_flight_tls_private_key := new "--flight-tls-key" (sa_flight_tls_private_key r);
     sa_flight_tls_client_ca := new "--flight-tls-client-ca" (sa_flight_tls_client_ca r);
     sa_allowed_origins := if String.eqb flag "--cors-origin" then sa_allowed_origins r ++ [value]
                           else sa_allowed_origins r;
     sa_cluster_url := new "--cluster-url" (sa_cluster_url r);
     sa_node_id := new "--node-id" (sa_node_id r);
     sa_result_store_url := new "--result-store-url" (sa_result_store_url r);
     sa_flight_signing_key := new "--flight-signing-key" (sa_flight_signing_key r) |}.

Definition set_proxies (http flight : bool) (r : ServeArguments) : ServeArguments :=
  {| sa_address := sa_address r; sa_flight_address := sa_flight_address r;
     sa_auth_file := sa_auth_file r; sa_oidc_file := sa_oidc_file r;
     sa_trusted_proxy := http; sa_flight_trusted_proxy := flight;
     sa_flight_tls_certificate := sa_flight_tls_certificate r;
     sa_flight_tls_private_key := sa_flight_tls_private_key r;
     sa_flight_tls_client_ca := sa_flight_tls_client_ca r;
     sa_allowed_origins := sa_allowed_origins r; sa_cluster_url := sa_cluster_url r;
     sa_node_id := sa_node_id r; sa_result_store_url := sa_result_store_url r;
     sa_flight_signing_key := sa_flight_signing_key r |}.

(** The loop of [parse_serve_args]. *)
Fixpoint parse_serve_loop (arguments : list string) (r : ServeArguments) :
    result ServeArguments AppError :=
  match arguments with
  | [] => Ok r
  | flag :: rest =>
      if String.eqb flag "--trusted-proxy" && negb (sa_trusted_proxy r) then
        parse_serve_loop rest (set_proxies true (sa_flight_trusted_proxy r) r)
      else if String.eqb flag "--flight-trusted-proxy" && negb (sa_flight_trusted_proxy r) then
        parse_serve_loop rest (set_proxies (sa_trusted_proxy r) true r)
      else if one_of valued_options flag then
        match rest with
        | [] => Err (Usage (flag +:+ " requires a value"))
        | value :: rest => parse_serve_loop rest (set_serve_option flag value r)
        end
      else Err (Usage ("unknown serve option '" +:+ flag +:+ "'"))
  end.

Definition parse_serve_args (arguments : list string) : result ServeArguments AppError :=
  parse_serve_loop arguments ServeArguments_start.

(** [SocketAddr]: its text and [ip().is_loopback()]. *)
Record SocketAddr := { addr_text : string; addr_loopback : bool }.

Section Serve.
Variable env : string → option string.
Variable parse_addr : string → result SocketAddr string.
(** [fs::read]. *)
Variable read_bytes : string → result string string.

Definition read_signing_key (path : string) : result string AppError :=
  let? bytes := map_err InputFailed (read_bytes path) in
  if Nat.eqb (String.length bytes) 32 then Ok bytes
  else Err (Usage "Flight signing key must contain exactly 32 bytes").

(** [arguments.flight_signing_key.or(QCLI_FLIGHT_SIGNING_KEY)]. *)
Definition signing_key_path (a : ServeArguments) : option string :=
  match sa_flight_signing_key a with Some p => Some p | None => env "QCLI_FLIGHT_SIGNING_KEY" end.

(** [o.map(f).transpose()?]. *)
Definition transpose {A B E} (f : A → result B E) (o : option A) : result (option B) E :=
  match o with
  | Some a => let? b := f a in Ok (Some b)
  | None => Ok None
  end.

Definition flight_server_config (a : ServeArguments) (has_authenticator : bool) :
    result (option SocketAddr * FlightServerConfig) AppError :=
  let? address := map_err (λ error, Usage ("invalid Flight bind address: " +:+ error))
                    (transpose parse_addr (sa_flight_address a)) in
  let? tls :=
    match sa_flight_tls_certificate a, sa_flight_tls_private_key a with
    | Some certificate, Some private_key =>
        Ok (Some {| tls_certificate := certificate; tls_private_key := private_key;
                    tls_client_ca := sa_flight_tls_client_ca a |})
    | None, None => Ok None
    | _, _ => Err (Usage "--flight-tls-cert and --flight-tls-key must be supplied together")
    end in
  let given {A} (o : option A) := match o with Some _ => true | None => false end in
  if given (sa_flight_tls_client_ca a) && negb (given tls) then
    Err (Usage "--flight-tls-client-ca requires --flight-tls-cert and --flight-tls-key")
  else if given address && negb has_authenticator then
    Err (Usage "--flight-bind requires --auth-file or --oidc-file")
  else
    let? key := transpose read_signing_key (signing_key_path a) in
    let d := FlightServerConfig_default in
    Ok (address,
        {| fl_trusted_proxy := sa_flight_trusted_proxy a; max_message_bytes := max_message_bytes d;
           request_timeout := request_timeout d; keepalive_interval := keepalive_interval d;
           keepalive_timeout := keepalive_timeout d; fl_ticket_ttl := fl_ticket_ttl d;
           fl_session_ttl := fl_session_ttl d; max_concurrent_streams := max_concurrent_streams d;
           max_connection_age := max_connection_age d;
           max_connection_age_grace := max_connection_age_grace d; fl_tls := tls;
           shared_signing_key := key |}).
End Serve.
