(* ===== verification/Cli.v ===== *)
(** * The commands of the command line (crates/qcli-cli/src/main.rs)

    [run] and the commands it dispatches to, over a console: what [println!] and
    [eprintln!] have printed, and the writer of query results.  The file system,
    the environment, the interactive shell and the servers it starts are
    parameters. *)
From S2P Require Import Prelude Text Chars Config Arrow DriverApi Core Auth Output ReplText.
From S2P Require Import Repl FlightPolicy Http CliArgs.
From Stdlib Require Import Ascii.

Record Console (W : Type) := {
  co_out : W;
  co_printed : string;
  co_stderr : string;
}.
Arguments co_out {_}. Arguments co_printed {_}. Arguments co_stderr {_}.

(** What the commands read of the machine. *)
Record Machine := {
  env_var : string → option string;
  read_file : string → result string string;
  file_mode : string → result Z string;
  read_file_bytes : string → result string string;
  stdin : result string string;
  now_minute : string;
  session_ids : Sessions.SessionIdState;
  process_id : Z;
  elapsed_text : string;
}.

(** [print_help], line by line. *)
Definition help_lines : list string :=
  ["qcli — one query shell for cloud data platforms";
   "";
   "Usage: qcli [--config PATH] [--target TARGET]";
   "       qcli [--config PATH] <command>";
   "       qcli [--config PATH] --target TARGET (--command SQL | --file PATH) [--format FORMAT]";
   "";
   "Formats: table, vertical, csv, tsv, json, jsonl";
   "";
   "Commands:";
   "  --version            Print qcli version";
   "  config path          Print the configuration path";
   "  config check         Validate configuration and targets";
   "  config show          Show resolved configuration with secrets redacted";
   "  target list          List configured targets";
   "  target show NAME     Show one resolved target with secrets redacted";
   "  target test NAME     Test target connectivity with SELECT 1";
   "  target capabilities NAME  Show supported engine capabilities";
   "  auth key create ID   Generate an API key and Argon2id hash";
   "  serve [--bind ADDRESS] [--auth-file PATH] [--oidc-file PATH] [--trusted-proxy] [--cors-origin ORIGIN]";
   "        [--flight-bind ADDRESS] [--flight-tls-cert PATH --flight-tls-key PATH]";
   "        [--flight-trusted-proxy]";
   "        [--flight-tls-cert PATH --flight-tls-key PATH --flight-tls-client-ca PATH]";
   "        [--cluster-url POSTGRES_URL --node-id ID --result-store-url URL]";
   "        [--flight-signing-key 32_BYTE_FILE]"].

Section Cli.
Context `{ar : Arrow} {W : Type} `{!Write W}.
Context {Any : Type}.
Variable text_batch : RecordBatch → TextBatch (Any:=Any).
Variable format_any : Any → result string string.
Variable csv_text : bool → ascii → TextBatch (Any:=Any) → result string string.
Variable json_encode : TextBatch (Any:=Any) → result string string.
Variable json_parse : string → result (list Value) string.
Variable json_text : Value → string.
Variable machine : Machine.
(** [adapters()]. *)
Variable adapters : list EngineAdapter.

Abbreviation Cmd A := (M (Console W) AppError A).

Definition cli_println (text : string) : Cmd unit :=
  modify (λ c, {| co_out := co_out c; co_printed := co_printed c +:+ text +:+ Output.newline;
                  co_stderr := co_stderr c |}).
Definition cli_eprintln (text : string) : Cmd unit :=
  modify (λ c, {| co_out := co_out c; co_printed := co_printed c;
                  co_stderr := co_stderr c +:+ text +:+ Output.newline |}).

Fixpoint cli_print_lines (ls : list string) : Cmd unit :=
  match ls with
  | [] => mret tt
  | l :: ls => _ ← cli_println l; cli_print_lines ls
  end.

(** [Config::load(path)?]. *)
Definition load_config (path : string) : Cmd Config :=
  of_result (map_err ConfigFailed
    (Config_load (env_var machine) (read_file machine path) (file_mode machine path) path)).

(** [config.target(name).ok_or_else(..)?]. *)
Definition find_target (path : string) (config : Config) (name : string) : Cmd ResolvedTarget :=
  of_result (ok_or (config_target config name)
    (ConfigFailed (ConfigError_file path ("target '" +:+ name +:+ "' does not exist")))).

(** ** Showing the configuration *)

Definition property_text (e : string * ConfigValue) : string :=
  e.1 +:+ " = " +:+ display_value e.2.

Definition show_config (config : Config) : list string :=
  ["path = " +:+ config_path config]
  ++ (if bool_decide (config_defaults config = ∅) then []
      else [EmptyString; "[default]"] ++ (property_text <$> sorted_entries (config_defaults config)))
  ++ (sorted_entries (config_targets config) ≫= λ t,
        [EmptyString; "[" +:+ target_name t.2 +:+ "]"]
        ++ (property_text <$> sorted_entries (target_properties t.2))).

Definition show_target (target : ResolvedTarget) : list string :=
  ["target = " +:+ target_name target; "engine = " +:+ target_engine target]
  ++ (property_text <$> filter (λ e : string * ConfigValue, e.1 ≠ "engine")
        (sorted_entries (target_properties target))).

Definition list_targets (path : string) : Cmd unit :=
  targets ← of_result (map_err ConfigFailed
    (discover_targets (read_file machine path) (file_mode machine path) path));
  cli_print_lines ((λ t, pad_right 24 (ts_name t) +:+ " " +:+ ts_engine t) <$> targets).

Definition show_capabilities (path target_name_ : string) : Cmd unit :=
  config ← load_config path;
  target ← find_target path config target_name_;
  adapter ← of_result (ok_or (List.find (λ a, String.eqb (engine a) (target_engine target)) adapters)
             (QueryFailed (AdapterNotFound (target_engine target))));
  cli_print_lines
    (["target = " +:+ target_name_; "engine = " +:+ target_engine target]
     ++ ((λ c, AdapterCapability_as_str c +:+ " = "
            +:+ (if supports (capabilities adapter) c then "yes" else "no"))
           <$> AdapterCapability_ALL)).

(** ** Queries *)

(** [handle.next_batch()] to its end and the writing of every batch. *)
Definition write_results (format : OutputFormat) (options : DisplayOptions)
    (batches : list RecordBatch) : Cmd Z := λ c,
  match StreamOutput_new (co_out c) format options with
  | Err e => (Err (OutputFailed e), c)
  | Ok o =>
      let '(r, o) := (_ ← write_batches format_any csv_text json_encode json_parse json_text
                            (text_batch <$> batches);
                      finish_output) o in
      (map_err OutputFailed r,
       {| co_out := so_writer o; co_printed := co_printed c; co_stderr := co_stderr c |})
  end.

(** The last engine query id and the last progress of the events. *)
Definition last_query_id (events : list QueryEvent) : option string :=
  foldl (λ acc e, match e with EngineQueryId id => Some id | _ => acc end) None events.
Definition last_progress (events : list QueryEvent) : option QueryProgress :=
  foldl (λ acc e, match e with Progress p => Some p | _ => acc end) None events.

Definition progress_lines (p : QueryProgress) : list string :=
  match completed_splits p, total_splits p with
  | Some completed, Some total => ["Splits: " +:+ pretty completed +:+ "/" +:+ pretty total]
  | _, _ => []
  end
  ++ match processed_rows p, processed_bytes p with
     | Some rows, Some bytes =>
         ["Processed: " +:+ pretty rows +:+ " rows, " +:+ pretty bytes +:+ " bytes"]
     | _, _ => []
     end.

Fixpoint cli_eprint_lines (ls : list string) : Cmd unit :=
  match ls with
  | [] => mret tt
  | l :: ls => _ ← cli_eprintln l; cli_eprint_lines ls
  end.

Definition query_sql (source : QuerySource) : Cmd string :=
  match source with
  | Command sql => mret sql
  | File file =>
      of_result (map_err InputFailed
        (if String.eqb file "-" then stdin machine else read_file machine file))
  end.

(** [SessionManager::default().create(target)] and
    [QueryService::new(adapters(), 8).submit(..)?]; [i] is what the adapter observes. *)
Definition new_session (target : ResolvedTarget) : Cmd SessionSnapshot :=
  of_result (map_err QueryFailed
    (Sessions.create (env_var machine) (now_minute machine) target
       (Sessions.SessionManager_default (session_ids machine))).1).

Definition cli_submit (snapshot : SessionSnapshot) (sql : string) (i : Invocation) :
    Cmd Queries.QueryHandle :=
  of_result (map_err QueryFailed
    (Queries.submit snapshot sql i (Queries.QueryService_new adapters 8)).1).

Definition query_format (arguments : QueryArguments) (snapshot : SessionSnapshot) : OutputFormat :=
  default Output.Table
    (match qa_format arguments with
     | Some f => Some f
     | None => v ← snap_properties snapshot !! "output_format"; ok_of (OutputFormat_from_str v)
     end).

Definition run_query (path : string) (arguments : QueryArguments) (i : Invocation) : Cmd unit :=
  sql ← query_sql (qa_source arguments);
  config ← load_config path;
  target ← find_target path config (qa_target arguments);
  snapshot ← new_session target;
  handle ← cli_submit snapshot sql i;
  rendered_rows ← write_results (query_format arguments snapshot) (display_options snapshot)
                    (Queries.batches_of (Queries.qh_items handle));
  let events := Queries.events_of (Queries.qh_items handle) in
  _ ← of_result (map_err QueryFailed (Queries.finish handle));
  cli_eprint_lines
    ([pretty rendered_rows +:+ " rows"; "Query ID: " +:+ Queries.qh_id handle]
     ++ match last_query_id events with Some id => ["Engine query ID: " +:+ id] | None => [] end
     ++ match last_progress events with Some p => progress_lines p | None => [] end
     ++ ["Time: " +:+ elapsed_text machine +:+ "s"]).

Definition test_target (path target_name_ : string) (i : Invocation) : Cmd unit :=
  config ← load_config path;
  target ← find_target path config target_name_;
  snapshot ← new_session target;
  handle ← cli_submit snapshot "SELECT 1" i;
  let rows := sum_rows (Queries.batches_of (Queries.qh_items handle)) mod 2 ^ 64 in
  _ ← of_result (map_err QueryFailed (Queries.finish handle));
  cli_print_lines
    (["Target '" +:+ target_name_ +:+ "' is reachable (" +:+ target_engine target +:+ ", "
      +:+ pretty rows +:+ " test row(s))"]
     ++ match last_query_id (Queries.events_of (Queries.qh_items handle)) with
        | Some id => ["Engine query ID: " +:+ id]
        | None => []
        end).

(** ** Keys *)

Variable hash_password : string → string → result string string.
Variable encode_b64 : string → result string string.

Definition create_api_key (key_id uuid1 uuid2 uuid3 : string) : Cmd unit :=
  kh ← of_result (map_err AuthenticationFailed
    (generate_api_key_material hash_password encode_b64 key_id uuid1 uuid2 uuid3));
  let '(key, hash) := kh in
  cli_print_lines ["API key (shown once): " +:+ secret_text key;
                   "secret_hash = " +:+ dquote +:+ hash +:+ dquote].

(** ** Dispatch *)

(** [env!("CARGO_PKG_VERSION")]. *)
Variable version : string.
(** [qcli_repl::run(&config, target, adapters(), &history)] and
    [serve_gateway(path, arguments)]. *)
Variable repl_run : Config → option string → string → Cmd unit.
Variable serve_run : string → ServeArguments → Cmd unit.
(** [Path::parent]. *)
Variable parent : string → option string.
Variable uuids : string * string * string.

Definition interactive_target (command : list string) : result (option string) AppError :=
  match command with
  | [] => Ok None
  | [flag; target] =>
      if String.eqb flag "--target" then Ok (Some target)
      else Err (Usage "interactive usage: qcli [--target TARGET]")
  | _ => Err (Usage "interactive usage: qcli [--target TARGET]")
  end.

(** Whether the arguments ask for one query, for the shell or for the servers. *)
Definition asks_query (command : list string) : bool :=
  existsb (one_of ["--command"; "--file"; "--format"]) command.
Definition asks_shell (command : list string) : bool :=
  match command with [] => true | first :: _ => String.eqb first "--target" end.

(** The commands named by their words. *)
Definition run_named (config_path_ : string) (command : list string) (i : Invocation) : Cmd unit :=
  let unknown := fail (Usage "unknown command; run qcli --help for help") in
  match command with
  | [word] =>
      if one_of ["--version"; "-V"] word then cli_println ("qcli " +:+ version)
      else if one_of ["--help"; "-h"] word then cli_print_lines help_lines
      else unknown
  | [group; action] =>
      if String.eqb group "config" && String.eqb action "path" then cli_println config_path_
      else if String.eqb group "config" && String.eqb action "check" then
        config ← load_config config_path_;
        cli_println ("Configuration is valid: "
          +:+ pretty (Z.of_nat (size (config_targets config))) +:+ " target(s)")
      else if String.eqb group "config" && String.eqb action "show" then
        config ← load_config config_path_; cli_print_lines (show_config config)
      else if String.eqb group "target" && String.eqb action "list" then list_targets config_path_
      else unknown
  | [group; action; name] =>
      if String.eqb group "target" && String.eqb action "show" then
        config ← load_config config_path_;
        target ← find_target config_path_ config name;
        cli_print_lines (show_target target)
      else if String.eqb group "target" && String.eqb action "test" then
        test_target config_path_ name i
      else if String.eqb group "target" && String.eqb action "capabilities" then
        show_capabilities config_path_ name
      else unknown
  | [group; resource; action; key_id] =>
      if String.eqb group "auth" && String.eqb resource "key" && String.eqb action "create" then
        create_api_key key_id uuids.1.1 uuids.1.2 uuids.2
      else unknown
  | _ => unknown
  end.

Definition run (args : list string) (i : Invocation) : Cmd unit :=
  parsed ← of_result (parse_global_args (env_var machine) args);
  let '(config_path_, command) := parsed in
  if asks_query command then
    query ← of_result (parse_query_args command);
    run_query config_path_ query i
  else if asks_shell command then
    target ← of_result (interactive_target command);
    config ← load_config config_path_;
    repl_run config target (history_path (parent config_path_))
  else
    match command with
    | first :: rest =>
        if String.eqb first "serve" then
          arguments ← of_result (parse_serve_args rest);
          serve_run config_path_ arguments
        else run_named config_path_ command i
    | [] => run_named config_path_ command i
    end.
End Cli.
