(* ===== verification/Serve.v ===== *)
(** * Starting the servers (crates/qcli-cli/src/main.rs)

    [initialize_cluster] and [serve_gateway]: which listeners are bound, with which
    authentication and transport.
    The stores, the listeners and the loading of authentication files are
    parameters. *)
From S2P Require Import Prelude Text Chars Config DriverApi Core Auth Output ReplText Repl.
From S2P Require Import ServiceData FlightPolicy Http Sink CliArgs Cli.

Record ClusterCalls (W St Ob : Type) := {
  store_connect : string → M W string St;
  store_migrate : St → M W string unit;
  store_register_node : St → string → string → list string → Z → M W string unit;
  object_store_from_url : string → result Ob string;
}.
Arguments store_connect {_ _ _}. Arguments store_migrate {_ _ _}.
Arguments store_register_node {_ _ _}. Arguments object_store_from_url {_ _ _}.

Section Serve.
Context {W St Ob A : Type}.
Variable calls : ClusterCalls W St Ob.
Variable machine : Machine.
Variable version : string.
Variable parse_addr : string → result SocketAddr string.
(** [TcpListener::bind]. *)
Variable tcp_bind : SocketAddr → result unit string.
(** [ApiKeyAuthenticator::load] and [OidcAuthenticator::load]. *)
Variable load_api_keys load_oidc : string → result A AuthenticationError.

Definition env_or (given : option string) (name : string) : option string :=
  match given with Some v => Some v | None => env_var machine name end.

Definition call_store {B} (what : string) (m : M W string B) : M W AppError B :=
  on (λ w : W, w) (λ w _, w) (λ error, Usage (what +:+ ": " +:+ error)) m.

(** [initialize_cluster]: the store, the objects and the node's name. *)
Definition initialize_cluster (a : ServeArguments) : M W AppError (option (St * Ob * string)) :=
  match env_or (sa_cluster_url a) "QCLI_CLUSTER_URL" with
  | Some url =>
      let signing_key := env_or (sa_flight_signing_key a) "QCLI_FLIGHT_SIGNING_KEY" in
      if match sa_flight_address a with Some _ => true | None => false end
         && match signing_key with Some _ => false | None => true end then
        fail (Usage "clustered Flight SQL requires --flight-signing-key or QCLI_FLIGHT_SIGNING_KEY")
      else
        let node_id := default ("qcli-" +:+ pretty (process_id machine))
                         (env_or (sa_node_id a) "QCLI_NODE_ID") in
        store ← call_store "cluster store" (store_connect calls url);
        _ ← call_store "cluster migration" (store_migrate calls store);
        _ ← call_store "cluster registration"
              (store_register_node calls store node_id version ["http"; "flight-sql"] (from_secs 30));
        result_url ← of_result (ok_or (env_or (sa_result_store_url a) "QCLI_RESULT_STORE_URL")
          (Usage "cluster mode requires --result-store-url or QCLI_RESULT_STORE_URL"));
        objects ← of_result (map_err (λ error, Usage ("result store: " +:+ error))
                    (object_store_from_url calls result_url));
        mret (Some (store, objects, node_id))
  | None =>
      match sa_node_id a, sa_result_store_url a with
      | None, None => mret None
      | _, _ => fail (Usage "--node-id and --result-store-url require --cluster-url")
      end
  end.

(** What is served: the bound listeners and what they are given. *)
Record Serving := {
  sv_http : SocketAddr;
  sv_operations : HttpOperations;
  (** The providers of the [CompositeAuthenticator], if there is one. *)
  sv_authenticator : option (list A);
  sv_flight : option (SocketAddr * FlightServerConfig);
  sv_config : Config;
  sv_cluster : option (St * Ob * string);
}.

(** [serve_gateway], to the point where the listeners accept. *)
Definition serve_gateway (path : string) (a : ServeArguments) : M W AppError Serving :=
  cluster ← initialize_cluster a;
  address ← of_result (map_err (λ error,
    Usage ("invalid HTTP bind address '" +:+ sa_address a +:+ "': " +:+ error))
    (parse_addr (sa_address a)));
  keys ← of_result (map_err AuthenticationFailed (transpose load_api_keys (sa_auth_file a)));
  oidc ← of_result (map_err AuthenticationFailed (transpose load_oidc (sa_oidc_file a)));
  let providers := omap id [keys; oidc] in
  let authenticator := match providers with [] => None | _ => Some providers end in
  let authenticated := match authenticator with Some _ => true | None => false end in
  fc ← of_result (flight_server_config (env_var machine) parse_addr (read_file_bytes machine) a
         authenticated);
  let '(flight, flight_config) := fc in
  _ ← of_result (map_err ServerFailed
    (let? _ := bind_http (addr_loopback address) (sa_trusted_proxy a) authenticated in
     tcp_bind address));
  flight_listener ← match flight with
                    | Some flight_address =>
                        of_result (map_err FlightFailed
                          (let? _ := bind_flight (addr_loopback flight_address) flight_config in
                           let? _ := tcp_bind flight_address in
                           Ok (Some (flight_address, flight_config))))
                    | None => mret None
                    end;
  config ← of_result (map_err ConfigFailed
    (Config_load (env_var machine) (read_file machine path) (file_mode machine path) path));
  mret {| sv_http := address;
          sv_operations := {| trusted_proxy := sa_trusted_proxy a;
                              allowed_origins := sa_allowed_origins a |};
          sv_authenticator := authenticator; sv_flight := flight_listener; sv_config := config;
          sv_cluster := cluster |}.

(** ** What is exposed *)

Lemma map_err_Ok {B E F} (f : E → F) (r : result B E) b : map_err f r = Ok b → r = Ok b.
Proof. destruct r; simpl; [by intros [= ->]|done]. Qed.

Lemma transpose_Some {B C E} (f : B → result C E) o c :
  transpose f o = Ok (Some c) → ∃ b, o = Some b ∧ f b = Ok c.
Proof. destruct o as [b|]; simpl; [|done]. destruct (f b) eqn:E1; [|done]. intros [= <-]. eauto. Qed.

Lemma flight_config_guarded a authenticated flight config :
  flight_server_config (env_var machine) parse_addr (read_file_bytes machine) a authenticated
  = Ok (flight, config) →
  (is_Some flight → authenticated = true ∧ is_Some (sa_flight_address a)) ∧
  fl_trusted_proxy config = sa_flight_trusted_proxy a ∧
  (is_Some (sa_flight_tls_client_ca a) → is_Some (fl_tls config)) ∧
  (∀ key, shared_signing_key config = Some key → String.length key = 32%nat) ∧
  (is_Some (shared_signing_key config) ↔ is_Some (signing_key_path (env_var machine) a)).
Proof.
  unfold flight_server_config. destruct (transpose parse_addr _) as [address|] eqn:Et; [|done]. simpl.
  destruct (match sa_flight_tls_certificate a with Some _ => _ | None => _ end) as [tls|]; [|done].
  simpl. destruct (match sa_flight_tls_client_ca a with Some _ => true | None => false end
                   && negb (match tls with Some _ => true | None => false end)) eqn:Eca; [done|].
  destruct (match address with Some _ => true | None => false end && negb authenticated) eqn:Ea;
    [done|].
  destruct (transpose (read_signing_key _) _) as [key|] eqn:Ek; [|done].
  simpl. intros [= <- <-]. simpl. split_and!.
  - intros [addr ->]. simpl in Ea. apply transpose_Some in Et as (text & -> & _).
    by destruct authenticated.
  - done.
  - intros [ca Hca]. rewrite Hca in Eca. by destruct tls.
  - intros k ->. apply transpose_Some in Ek as (p & _ & Ek). unfold read_signing_key in Ek.
    destruct (read_file_bytes machine p) as [bytes|]; [|done]. simpl in Ek.
    destruct (Nat.eqb_spec (String.length bytes) 32); [|done]. by injection Ek as <-.
  - destruct (signing_key_path (env_var machine) a) as [p|]; simpl in Ek.
    + destruct (read_signing_key _ p); [|done]. injection Ek as <-.
      split; intros _; by eexists.
    + injection Ek as <-. split; by intros [? ?].
Qed.

(** [let a = r?;] succeeded. *)
Lemma of_result_Ok {S E B} (r : result B E) (s s' : S) b :
  of_result r s = (Ok b, s') → r = Ok b ∧ s = s'.
Proof. unfold of_result. by intros [= -> ->]. Qed.

(** A clustered node that serves Flight has a signing key. *)
Lemma cluster_has_key a w cluster w' :
  initialize_cluster a w = (Ok (Some cluster), w') → is_Some (sa_flight_address a) →
  is_Some (signing_key_path (env_var machine) a).
Proof.
  unfold initialize_cluster. destruct (env_or (sa_cluster_url a) _) as [url|].
  - intros H [address Ha]. rewrite Ha in H. cbn in H. change (signing_key_path (env_var machine) a)
      with (env_or (sa_flight_signing_key a) "QCLI_FLIGHT_SIGNING_KEY").
    destruct (env_or (sa_flight_signing_key a) _); [by eexists|done].
  - by destruct (sa_node_id a), (sa_result_store_url a).
Qed.

(** What was bound, and why it was allowed. *)
Lemma serve_gateway_Ok path a w sv w' :
  serve_gateway path a w = (Ok sv, w') →
  ∃ w1 flight config, initialize_cluster a w = (Ok (sv_cluster sv), w1) ∧
    flight_server_config (env_var machine) parse_addr (read_file_bytes machine) a
      (match sv_authenticator sv with Some _ => true | None => false end) = Ok (flight, config) ∧
    bind_http (addr_loopback (sv_http sv)) (sa_trusted_proxy a)
      (match sv_authenticator sv with Some _ => true | None => false end) = Ok tt ∧
    trusted_proxy (sv_operations sv) = sa_trusted_proxy a ∧
    match sv_flight sv with
    | Some (address, config') =>
        flight = Some address ∧ config' = config ∧ bind_flight (addr_loopback address) config = Ok tt
    | None => flight = None
    end.
Proof.
  intros H. unfold serve_gateway in H. apply bind_Ok in H as (cluster & w1 & Ec & H).
  apply bind_Ok in H as (address & w2 & Ea & H). apply bind_Ok in H as (keys & w3 & Ek & H).
  apply bind_Ok in H as (oidc & w4 & Eo & H). cbv zeta in H.
  apply bind_Ok in H as ([flight config] & w5 & Ef & H).
  apply bind_Ok in H as ([] & w6 & Eb & H). apply bind_Ok in H as (listener & w7 & El & H).
  apply bind_Ok in H as (cfg & w8 & Eg & [= <- <-]). simpl.
  exists w1, flight, config. split; [done|]. apply of_result_Ok in Ef as [Ef _]. split; [done|].
  apply of_result_Ok in Eb as [Eb%map_err_Ok _]. split.
  { by destruct (bind_http _ _ _) as [[]|]. }
  split; [done|]. destruct flight as [fa|].
  - apply of_result_Ok in El as [El%map_err_Ok _].
    destruct (bind_flight (addr_loopback fa) config) as [[]|] eqn:Ebf; [|done]. simpl in El.
    destruct (tcp_bind fa); [|done]. by injection El as <-.
  - by injection El as <-.
Qed.

(** C31: What [serve] exposes is guarded.  Once the listeners are bound: an HTTP
    address that is not loopback has an authenticator and a trusted proxy; the
    Flight listener always has an authenticator, and on an address that is not
    loopback TLS or a trusted proxy, never both; requested client certificates
    are checked under TLS; a clustered Flight listener has a shared signing key of
    32 bytes. *)
Theorem servers_are_guarded path a w sv w' :
  serve_gateway path a w = (Ok sv, w') →
  (addr_loopback (sv_http sv) = false →
     is_Some (sv_authenticator sv) ∧ trusted_proxy (sv_operations sv) = true) ∧
  (∀ address config, sv_flight sv = Some (address, config) →
     is_Some (sv_authenticator sv) ∧
     (addr_loopback address = false → is_Some (fl_tls config) ∨ fl_trusted_proxy config = true) ∧
     (fl_trusted_proxy config = true → fl_tls config = None) ∧
     (is_Some (sa_flight_tls_client_ca a) → is_Some (fl_tls config)) ∧
     (is_Some (sv_cluster sv) →
        ∃ key, shared_signing_key config = Some key ∧ String.length key = 32%nat)).
Proof.
  intros H. apply serve_gateway_Ok in H as (w1 & flight & config & Ec & Ef & Eb & Et & El).
  destruct (flight_config_guarded _ _ _ _ Ef) as (Ha & Hp & Hca & Hk & Hs). rewrite Et.
  split.
  - intros Hl. unfold bind_http, may_bind in Eb. rewrite Hl in Eb.
    destruct (sv_authenticator sv), (sa_trusted_proxy a); try done; by split; [eexists|].
  - intros address config' Hf. rewrite Hf in El. destruct El as (-> & -> & Hb).
    split; [|split_and!]; [|unfold bind_flight in Hb..| |].
    + destruct (sv_authenticator sv); [by eexists|]. by destruct Ha; [eexists|].
    + intros Hl. rewrite Hl in Hb. destruct (fl_tls config); [by left; eexists|].
      destruct (fl_trusted_proxy config); [by right|done].
    + intros Htp. rewrite Htp in Hb. by destruct (fl_tls config).
    + exact Hca.
    + intros [cluster Hc]. rewrite Hc in Ec.
      destruct Ha as [_ Hfa]; [by eexists|].
      apply (cluster_has_key _ _ _ _ Ec), Hs in Hfa as [key Hkey]. exists key. eauto.
Qed.
End Serve.
