(* ===== verification/CliFacts.v ===== *)
(** * Facts about the command line

    Reading the results before the events never stalls; the arguments of a query
    are accepted in any order; and the configuration is shown without its
    secrets. *)
From S2P Require Import Prelude Text Chars Config Arrow DriverApi Core CoreFacts Sink Auth.
From S2P Require Import Output OutputFacts ReplText Repl ReplFacts FlightPolicy Http CliArgs Cli Serve.
From Stdlib Require Import Ascii.
Import Core.Queries.

(** ** Reading a query *)

Section Reading.
Context `{Arrow}.

(** [execute] has returned, so that its senders are dropped: at most the report
    of the final state remains. *)
Definition returned (todo : list QueryItem) : bool := (length todo <=? 1)%nat.

(** The steps of [run_query] and [test_target]: batches are read first; events
    only once [next_batch] has answered [None]. *)
Inductive cli_step (capacity : Z) : Pipe → Pipe → Prop :=
| cli_send_event e rest eq bq d :
    Z.of_nat (length eq) < capacity →
    cli_step capacity
      {| todo := Event e :: rest; event_queue := eq; batch_queue := bq; delivered := d |}
      {| todo := rest; event_queue := eq ++ [e]; batch_queue := bq; delivered := d |}
| cli_send_batch b rest eq bq d :
    Z.of_nat (length bq) < capacity →
    cli_step capacity
      {| todo := Batch b :: rest; event_queue := eq; batch_queue := bq; delivered := d |}
      {| todo := rest; event_queue := eq; batch_queue := bq ++ [b]; delivered := d |}
| cli_next_batch t eq b bq d :
    cli_step capacity
      {| todo := t; event_queue := eq; batch_queue := b :: bq; delivered := d |}
      {| todo := t; event_queue := eq; batch_queue := bq; delivered := d ++ [Batch b] |}
| cli_next_event t e eq d :
    returned t = true →
    cli_step capacity
      {| todo := t; event_queue := e :: eq; batch_queue := []; delivered := d |}
      {| todo := t; event_queue := eq; batch_queue := []; delivered := d ++ [Event e] |}.

Lemma cli_step_pipe capacity p p' : cli_step capacity p p' → pipe_step capacity p p'.
Proof. intros []; by constructor. Qed.

(** Events are read only after the adapter has returned. *)
Definition cli_inv (items : list QueryItem) (p : Pipe) : Prop :=
  suffix (todo p) items ∧ (returned (todo p) = false → events_of (delivered p) = []).

Lemma suffix_cons_inv {A} (x : A) l k : suffix (x :: l) k → suffix l k.
Proof. intros [k1 ->]. exists (k1 ++ [x]). by rewrite <- app_assoc. Qed.

Lemma cli_step_inv capacity items p p' :
  cli_step capacity p p' → cli_inv items p → cli_inv items p'.
Proof.
  intros [e rest eq bq d Hlt|b rest eq bq d Hlt|t eq b bq d|t e eq d Hr] [Hs He];
    unfold cli_inv in *; simpl in *.
  1,2: split; [by eapply suffix_cons_inv|]; intros Hr; apply He;
    unfold returned in *; apply Nat.leb_gt in Hr; apply Nat.leb_gt; simpl; lia.
  - split; [done|]. intros Hr. by rewrite events_of_snoc, app_nil_r, He.
  - split; [done|]. by rewrite Hr.
Qed.

(** The last item of a query is the report of its final state. *)
Lemma todo_keeps_final x t :
  suffix t (task_items x) → t ≠ [] → ∃ t', t = t' ++ [Event (State (final_state (ex_result x)))].
Proof.
  intros [k Hk] Ht. destruct t as [|y t _] using rev_ind; [done|]. exists t.
  unfold task_items in Hk. rewrite app_comm_cons, app_assoc in Hk. apply app_inj_tail in Hk as [_ ->].
  done.
Qed.

Lemma task_events x :
  length (events_of (task_items x)) = S (S (length (events_of (ex_items x)))).
Proof.
  unfold task_items. change (events_of (Event (State Submitted) :: ?l))
    with (State Submitted :: events_of l).
  cbn [length]. rewrite events_of_app, length_app. simpl. lia.
Qed.

(** While the adapter runs, there is room for its events. *)
Lemma cli_progress x p :
  Conforming x → pipe_inv 8 (task_items x) p → cli_inv (task_items x) p →
  drained p ∨ ∃ p', cli_step 8 p p'.
Proof.
  intros Hx (He & _ & _ & _) [Hs Hd]. apply (f_equal length) in He. rewrite task_events in He.
  destruct p as [t eq bq d]. cbn [todo event_queue batch_queue delivered] in *.
  destruct bq as [|b bq]; [|right; eexists; apply cli_next_batch].
  destruct t as [|[e|b] t].
  - destruct eq as [|e eq]; [by left|right]. eexists. by apply cli_next_event.
  - right. destruct (returned (Event e :: t)) eqn:Hr.
    + destruct eq as [|e' eq]; eexists; [apply cli_send_event; simpl; lia|by apply cli_next_event].
    + eexists. apply cli_send_event. rewrite (Hd eq_refl) in He.
      destruct (todo_keeps_final x t) as [t' ->]; [by eapply suffix_cons_inv|by destruct t|].
      change (events_of (Event e :: ?l)) with (e :: events_of l) in He.
      rewrite events_of_snoc, length_app in He. simpl in He. rewrite length_app in He. simpl in He.
      destruct Hx as [_ _ Hfit _]. lia.
  - right. eexists. apply cli_send_batch. simpl. lia.
Qed.

(** A submitted query sends what its adapter's execution sends, over channels of
    eight. *)
Lemma submit_query_Ok adapters snapshot sql i h :
  (submit snapshot sql i (QueryService_new adapters 8)).1 = Ok h →
  ∃ adapter request, adapter ∈ adapters ∧ qh_capacity h = 8 ∧
    qh_items h = task_items (DriverApi.execute adapter request i) ∧
    qh_task h = Ok (ex_result (DriverApi.execute adapter request i)) ∧ rq_sql request = sql.
Proof.
  unfold submit, submit_with_parameters, adapter_for. unfold_M. simpl.
  destruct (foldl _ ∅ adapters !! snap_engine snapshot) as [adapter|] eqn:E; [|done].
  simpl. intros [= <-]. exists adapter. eexists. split; [|split_and!; [done|reflexivity..]].
  assert (∀ m : gmap string EngineAdapter,
    foldl (λ m a, <[engine a := a]> m) m adapters !! snap_engine snapshot = Some adapter →
    m !! snap_engine snapshot = Some adapter ∨ adapter ∈ adapters) as Hin.
  { clear E. induction adapters as [|a l IH]; intros m; simpl; [by left|]. intros E.
    destruct (IH _ E) as [Hm|?]; [|right; by right].
    rewrite lookup_insert_Some in Hm. destruct Hm as [[_ <-]|[_ Hm]]; [right; by left|by left]. }
  destruct (Hin ∅ E) as [Hm|?]; [|done]. by rewrite lookup_empty in Hm.
Qed.

(** C24: The command line never stalls.  It reads all batches of a query before its
    first event, over channels that hold eight items each; for adapters that keep
    their promise no state of that exchange is stuck before everything has been
    read, it ends within twice as many steps as there are items, and every batch
    and every event arrives, in order. *)
Theorem cli_never_stalls adapters snapshot sql i h n p :
  (∀ adapter request, adapter ∈ adapters → Conforming (DriverApi.execute adapter request i)) →
  (submit snapshot sql i (QueryService_new adapters 8)).1 = Ok h →
  nsteps (cli_step (qh_capacity h)) n (pipe_of h) p →
  (n ≤ 2 * length (qh_items h))%nat ∧
  (drained p ∨ ∃ p', cli_step (qh_capacity h) p p') ∧
  (drained p → delivery (qh_items h) (delivered p)).
Proof.
  intros Hc Hs Hn. apply submit_query_Ok in Hs as (adapter & request & Ha & Hcap & Hi & _).
  specialize (Hc adapter request Ha). rewrite Hcap, Hi in *.
  set (x := DriverApi.execute adapter request i) in *.
  assert (pipe_inv 8 (task_items x) p ∧ cli_inv (task_items x) p ∧
          (n + pipe_measure p ≤ pipe_measure (pipe_of h))%nat) as (Hinv & Hcli & Hm).
  { assert (pipe_inv 8 (task_items x) (pipe_of h)) as H1 by (by rewrite <- Hi).
    assert (cli_inv (task_items x) (pipe_of h)) as H2 by (by split; [rewrite <- Hi|]).
    revert H1 H2 Hn. generalize (pipe_of h) as q. induction n as [|n IH]; intros q H1 H2 Hn.
    - inversion Hn; subst. split; [done|]. split; [done|lia].
    - inversion Hn as [|? ? q' ? Hstep Hrest]; subst.
      destruct (IH q') as (? & ? & ?); [|by eapply cli_step_inv|done|].
      { eapply pipe_step_inv; [by apply cli_step_pipe|done]. }
      split; [done|]. split; [done|]. apply cli_step_pipe, pipe_step_measure in Hstep. lia. }
  split; [unfold pipe_measure, pipe_of in Hm; simpl in Hm; rewrite Hi in Hm; lia|].
  split; [by apply cli_progress with x|].
  intros (Ht & Heq & Hbq). destruct Hinv as (He & Hb & _). rewrite Ht, Heq, Hbq in *. simpl in *.
  rewrite app_nil_r in *. by split.
Qed.

(** An adapter that sends more events would stall it: with eight events before
    its first batch there is a state in which nothing can be sent or read. *)
Definition chatty (b : RecordBatch) : Execution :=
  {| ex_items := replicate 8 (Event (EngineQueryId "q")) ++ [Batch b]; ex_result := Ok tt |}.
Definition stuck (b : RecordBatch) : Pipe :=
  {| todo := [Event (EngineQueryId "q"); Batch b; Event (State Completed)];
     event_queue := State Submitted :: replicate 7 (EngineQueryId "q");
     batch_queue := []; delivered := [] |}.

Lemma chatty_adapters_stall b :
  rtc (cli_step 8) {| todo := task_items (chatty b); event_queue := []; batch_queue := [];
                      delivered := [] |} (stuck b) ∧
  ¬ drained (stuck b) ∧ ∀ p, ¬ cli_step 8 (stuck b) p.
Proof.
  split; [|split].
  - unfold task_items, chatty, stuck. simpl.
    do 8 (eapply rtc_l; [apply cli_send_event; simpl; lia|]; simpl). apply rtc_refl.
  - by intros [? _].
  - intros p Hp. inversion Hp; simpl in *; [lia|done].
Qed.
End Reading.

(** ** Writing its results *)

Section Results.
Context `{ar : Arrow} {Any : Type}.
Variable text_batch : RecordBatch → TextBatch (Any:=Any).
Variable format_any : Any → result string string.
Variable csv_text : bool → ascii → TextBatch (Any:=Any) → result string string.
Variable json_encode : TextBatch (Any:=Any) → result string string.
Variable json_parse : string → result (list Value) string.
Variable json_text : Value → string.
Variable machine : Machine.
Variable adapters : list EngineAdapter.
(** The view of a batch the writers have is of the same rows. *)
Hypothesis text_rows : ∀ b, Z.of_nat (tb_rows (text_batch b)) = num_rows b.

Abbreviation render_stream :=
  (Output.render_stream format_any csv_text json_encode json_parse json_text).
Abbreviation stream_document := (stream_document format_any json_encode json_parse json_text).
Abbreviation write_results :=
  (write_results (W:=string) text_batch format_any csv_text json_encode json_parse json_text).
Abbreviation run_query := (run_query (W:=string) text_batch format_any csv_text json_encode
  json_parse json_text machine adapters).

Lemma total_rows_batches bs : total_rows (text_batch <$> bs) = sum_rows bs.
Proof.
  induction bs as [|b bs IH]; [done|]. rewrite fmap_cons. cbn [total_rows foldr].
  fold (total_rows (text_batch <$> bs)). by rewrite IH, text_rows.
Qed.

Lemma task_batches x : batches_of (task_items x) = batches_of (ex_items x).
Proof.
  unfold task_items. change (batches_of (Event ?e :: ?l)) with (batches_of l).
  by rewrite batches_of_snoc, app_nil_r.
Qed.

Lemma write_results_Ok format options bs (c c' : Console string) rows :
  write_results format options bs c = (Ok rows, c') →
  render_stream (co_out c) format options (text_batch <$> bs) = Ok (rows, co_out c') ∧
  co_printed c' = co_printed c ∧ co_stderr c' = co_stderr c.
Proof.
  unfold Cli.write_results, Output.render_stream.
  destruct (StreamOutput_new (co_out c) format options) as [o|e]; [|done].
  cbn [and_then]. destruct ((_ ← _; finish_output) o) as [[r|e] o']; simpl; [|done].
  by intros [= <- <-].
Qed.

Lemma write_results_err format options bs (c c' : Console string) e :
  write_results format options bs c = (Err e, c') →
  co_printed c' = co_printed c ∧ co_stderr c' = co_stderr c.
Proof.
  unfold Cli.write_results. destruct (StreamOutput_new (co_out c) format options) as [o|];
    [|by intros [= _ <-]].
  destruct ((_ ← _; finish_output) o) as [r o']. by intros [= _ <-].
Qed.

Lemma eprint_lines_spec ls (c : Console string) :
  cli_eprint_lines ls c
  = (Ok tt, {| co_out := co_out c; co_printed := co_printed c;
               co_stderr := co_stderr c +:+ unchars ((λ l, l +:+ Output.newline) <$> ls) |}).
Proof.
  revert c. induction ls as [|l ls IH]; intros c; cbn [cli_eprint_lines].
  { simpl. rewrite string_app_nil_r. by destruct c. }
  etrans; [apply IH|]. simpl. by rewrite !string_app_assoc.
Qed.

(** The steps of a query that succeeds, from its submission on. *)
Lemma run_query_Ok path a i (c c' : Console string) :
  run_query path a i c = (Ok tt, c') →
  ∃ snapshot sql h rows rest,
    (submit snapshot sql i (QueryService_new adapters 8)).1 = Ok h ∧
    (∀ text, qa_source a = Command text → sql = text) ∧ finish h = Ok tt ∧
    render_stream (co_out c) (query_format a snapshot) (display_options snapshot)
      (text_batch <$> batches_of (qh_items h)) = Ok (rows, co_out c') ∧
    co_printed c' = co_printed c ∧
    co_stderr c' = co_stderr c +:+ (pretty rows +:+ " rows" +:+ Output.newline) +:+ rest.
Proof.
  unfold Cli.run_query. intros H. apply bind_Ok in H as (sql & c1 & Hsql & H).
  assert (c1 = c ∧ ∀ text, qa_source a = Command text → sql = text) as [-> Htext].
  { destruct (qa_source a); simpl in Hsql; [by injection Hsql as -> ->; split; [|intros ? [= ->]]|].
    by apply of_result_Ok in Hsql as [_ ->]. }
  apply bind_Ok in H as (config & c2 & Hc & H). apply of_result_Ok in Hc as [_ <-].
  apply bind_Ok in H as (target & c3 & Ht & H). apply of_result_Ok in Ht as [_ <-].
  apply bind_Ok in H as (snapshot & c4 & Hs & H). apply of_result_Ok in Hs as [_ <-].
  apply bind_Ok in H as (h & c5 & Hh & H). apply of_result_Ok in Hh as [Hh%map_err_Ok <-].
  apply bind_Ok in H as (rows & c6 & Hw & H). apply write_results_Ok in Hw as (Hw & Hp & He).
  cbv zeta in H. apply bind_Ok in H as ([] & c7 & Hf & H).
  apply of_result_Ok in Hf as [Hf%map_err_Ok <-]. rewrite eprint_lines_spec in H.
  injection H as <-. eexists snapshot, sql, h, rows, _. cbn [co_out co_printed co_stderr].
  split_and!; [done..|]. rewrite He. f_equal. refine (f_equal2 String.append _ eq_refl).
  by rewrite string_app_assoc.
Qed.

Lemma bind_Err {S E A B} (m : M S E A) (f : A → M S E B) s e s' :
  mbind f m s = (Err e, s') →
  m s = (Err e, s') ∨ ∃ a s1, m s = (Ok a, s1) ∧ f a s1 = (Err e, s').
Proof.
  unfold_M. destruct (m s) as [[b|e'] s1]; intros H; [right; by exists b, s1|].
  injection H as -> ->. by left.
Qed.

(** What a command says on the terminal besides results. *)
Definition says_nothing (c c' : Console string) : Prop :=
  co_printed c' = co_printed c ∧ co_stderr c' = co_stderr c.

Lemma silent_result {A} (r : result A AppError) (c c' : Console string) out :
  of_result r c = (out, c') → says_nothing c c'.
Proof. unfold of_result. by intros [= _ <-]. Qed.

(** A query that fails has reported nothing. *)
Lemma run_query_Err path a i (c c' : Console string) e :
  run_query path a i c = (Err e, c') → says_nothing c c'.
Proof.
  unfold Cli.run_query. intros H.
  apply bind_Err in H as [H|(sql & c1 & Hsql & H)].
  { destruct (qa_source a); [done|]. by eapply silent_result. }
  assert (c1 = c) as ->.
  { destruct (qa_source a); simpl in Hsql; [by injection Hsql|by apply of_result_Ok in Hsql as [_ ->]]. }
  do 4 (apply bind_Err in H as [H|(? & ? & [_ <-]%of_result_Ok & H)]; [by eapply silent_result|]).
  apply bind_Err in H as [H|(rows & c6 & Hw & H)]; [by apply write_results_err in H|].
  apply write_results_Ok in Hw as (_ & Hp & He). cbv zeta in H. split; rewrite <- ?Hp, <- ?He;
    (apply bind_Err in H as [H|(? & ? & [_ <-]%of_result_Ok & H)];
     [by eapply silent_result|by rewrite eprint_lines_spec in H]).
Qed.

(** C23: One query of the command line, end to end.  With adapters that keep their
    promise, a query that succeeds has written what its format makes of exactly
    the batches the adapter sent, in order, and reports on standard error the
    number of rows written; in the formats that stream rows, the output is the
    document of all rows together and the number is the one the adapter counted.
    A query that fails reports nothing but its error. *)
Theorem queries_print_their_results path a i (c : Console string) r c' :
  (∀ adapter request, adapter ∈ adapters → Conforming (DriverApi.execute adapter request i)) →
  co_out c = EmptyString → run_query path a i c = (r, c') →
  match r with
  | Err _ => says_nothing c c'
  | Ok _ => ∃ snapshot adapter request items rows rest,
      let format := query_format a snapshot in
      let options := display_options snapshot in
      let batches := text_batch <$> batches_of items in
      adapter ∈ adapters ∧
      (∀ text, qa_source a = Command text → rq_sql request = text) ∧
      DriverApi.execute adapter request i
      = {| ex_items := items ++ [Event (RowsProduced (counted items))]; ex_result := Ok tt |} ∧
      render_stream EmptyString format options batches = Ok (rows, co_out c') ∧
      co_printed c' = co_printed c ∧
      co_stderr c' = co_stderr c +:+ (pretty rows +:+ " rows" +:+ Output.newline) +:+ rest ∧
      (format = JsonFormat ∨ format = JsonLines ∨ format = Vertical →
       sum_rows (batches_of items) ≤ usize_max - 1 →
       rows = counted items ∧ stream_document format options batches = Ok (co_out c'))
  end.
Proof.
  intros Hconf Hout Hrun. destruct r as [[]|e]; [|by eapply run_query_Err].
  apply run_query_Ok in Hrun as (snapshot & sql & h & rows & rest & Hh & Hsql & Hf & Hr & Hp & He).
  apply submit_query_Ok in Hh as (adapter & request & Ha & _ & Hi & Ht & Hq).
  pose proof (conforming_reports _ (Hconf adapter request Ha)) as Hx.
  unfold finish in Hf. rewrite Ht in Hf.
  destruct (DriverApi.execute adapter request i) as [all_items [[]|e]] eqn:Ee; [|done].
  destruct Hx as (items & Hitems & _). simpl in Hitems. subst all_items.
  rewrite Hi, task_batches, Hout in Hr. cbn [ex_items] in Hr.
  rewrite batches_of_snoc, app_nil_r in Hr.
  exists snapshot, adapter, request, items, rows, rest. cbv zeta.
  split_and!; [done|intros text Htext; rewrite Hq; by apply Hsql|done..|].
  intros Hformat Hmax. rewrite streams_depend_on_rows_only in Hr by (rewrite ?total_rows_batches; done).
  destruct (stream_document _ _ _) as [text|]; [|done]. cbn [and_then] in Hr. injection Hr as <- <-.
  split; [|done]. rewrite total_rows_batches. unfold counted. symmetry. apply Z.mod_small.
  rewrite sum_rows_all_rows in *. unfold usize_max in *. lia.
Qed.
End Results.

(** ** Arguments *)

Definition format_name (f : OutputFormat) : string :=
  match f with
  | Output.Table => "table"
  | Vertical => "vertical"
  | Csv => "csv"
  | Tsv => "tsv"
  | JsonFormat => "json"
  | JsonLines => "jsonl"
  end.

(** The options that say what a query is. *)
Definition source_option (s : QuerySource) : string * string :=
  match s with Command sql => ("--command", sql) | File path => ("--file", path) end.
Definition format_option (f : option OutputFormat) : list (string * string) :=
  match f with Some f => [("--format", format_name f)] | None => [] end.
Definition query_options (a : QueryArguments) : list (string * string) :=
  [("--target", qa_target a); source_option (qa_source a)] ++ format_option (qa_format a).

(** As arguments. *)
Definition as_arguments (options : list (string * string)) : list string :=
  options ≫= λ o, [o.1; o.2].

(** The options still to come, where the flags say which were read. *)
Definition to_come (a : QueryArguments) (target source format : bool) : list (string * string) :=
  (if target then [] else [("--target", qa_target a)])
  ++ (if source then [] else [source_option (qa_source a)])
  ++ (if format then [] else format_option (qa_format a)).

Lemma parse_query_loop_accepts a ps : ∀ t s f : bool,
  ps ≡ₚ to_come a t s f →
  parse_query_loop (as_arguments ps) (if t then Some (qa_target a) else None)
    (if s then Some (qa_source a) else None) (if f then qa_format a else None)
  = Ok (Some (qa_target a), Some (qa_source a), qa_format a).
Proof.
  induction ps as [|p ps IH]; intros t s f Hp.
  - apply Permutation_nil in Hp. unfold to_come, format_option in Hp.
    destruct t, s; try done. destruct f; [done|]. by destruct (qa_format a).
  - assert (p ∈ to_come a t s f) as Hin by (rewrite <- Hp; by left).
    unfold to_come in Hin. rewrite !elem_of_app in Hin. destruct Hin as [Hin|[Hin|Hin]].
    + destruct t; [by inversion Hin|]. apply list_elem_of_singleton in Hin as ->.
      simpl. apply (IH true). by apply Permutation_cons_inv in Hp.
    + destruct s; [by inversion Hin|]. apply list_elem_of_singleton in Hin as ->.
      apply Permutation_cons_app_inv in Hp. specialize (IH t true f Hp).
      by destruct (qa_source a); simpl; destruct t.
    + destruct f; [by inversion Hin|]. unfold to_come, format_option in Hp, Hin.
      destruct (qa_format a) as [fmt|] eqn:Ef; [|by inversion Hin].
      apply list_elem_of_singleton in Hin as ->. rewrite app_assoc in Hp.
      apply Permutation_cons_app_inv in Hp. rewrite <- app_assoc in Hp.
      specialize (IH t s true Hp). by destruct fmt, t, s.
Qed.

(** Arguments are read in any order.  Whatever the target, the statement or the
    file are called, the options of a query in any order are parsed to exactly
    that query. *)
Theorem query_arguments_in_any_order a options :
  options ≡ₚ query_options a → parse_query_args (as_arguments options) = Ok a.
Proof.
  intros Hp. unfold parse_query_args.
  rewrite (parse_query_loop_accepts a options false false false Hp). by destruct a.
Qed.

Definition csv_query : QueryArguments :=
  {| qa_target := "--file"; qa_source := Command "SELECT 1"; qa_format := Some Csv |}.
Definition csv_options : list (string * string) :=
  [("--format", "csv"); ("--command", "SELECT 1"); ("--target", "--file")].

Lemma query_arguments_witness :
  csv_options ≡ₚ query_options csv_query ∧
  parse_query_args (as_arguments csv_options) = Ok csv_query.
Proof.
  split; [exact (Permutation_rev csv_options)|].
  apply (query_arguments_in_any_order csv_query csv_options). exact (Permutation_rev csv_options).
Defined.

(** Without a home directory the path given with [--config] is not looked at. *)
Example config_needs_a_home path :
  parse_global_args (λ _, None) ["--config"; path]
  = Err (ConfigFailed (ConfigError_file "~/.qcli/.env" "cannot determine home directory")).
Proof. reflexivity. Qed.

(** ** Secrets *)

(** Without the values of secrets. *)
Definition mask_value (v : ConfigValue) : ConfigValue :=
  {| cv_value := if cv_secret v then EmptyString else cv_value v; cv_secret := cv_secret v |}.
Definition mask_properties (m : gmap string ConfigValue) : gmap string ConfigValue :=
  map_imap (λ _ v, Some (mask_value v)) m.
Definition mask_target (t : ResolvedTarget) : ResolvedTarget :=
  {| target_name := target_name t; target_engine := target_engine t;
     target_properties := mask_properties (target_properties t) |}.
Definition mask_config (c : Config) : Config :=
  {| config_path := config_path c; config_defaults := mask_properties (config_defaults c);
     config_targets := map_imap (λ _ t, Some (mask_target t)) (config_targets c) |}.

Lemma property_text_masked k v : property_text (k, mask_value v) = property_text (k, v).
Proof. unfold property_text, display_value, mask_value. simpl. by destruct (cv_secret v). Qed.

Lemma property_texts_masked m :
  property_text <$> sorted_entries (mask_properties m) = property_text <$> sorted_entries m.
Proof.
  unfold mask_properties. rewrite sorted_entries_imap, <- list_fmap_compose.
  apply list_fmap_ext. intros _ [k v] _. apply property_text_masked.
Qed.

Lemma mask_properties_empty m : mask_properties m = ∅ ↔ m = ∅.
Proof.
  split; [|by intros ->]. intros E. apply map_empty. intros k.
  assert (mask_properties m !! k = None) as Hk by (by rewrite E).
  unfold mask_properties in Hk. rewrite map_lookup_imap in Hk. by destruct (m !! k).
Qed.

Lemma show_target_masked t : show_target (mask_target t) = show_target t.
Proof.
  unfold show_target, mask_target, mask_properties. simpl. do 2 f_equal.
  rewrite sorted_entries_imap. induction (sorted_entries _) as [|[k v] l IH]; [done|].
  csimpl. rewrite !filter_cons. simpl. destruct (decide (k ≠ "engine")); [|done].
  csimpl. by rewrite IH, property_text_masked.
Qed.

Lemma show_config_masked c : show_config (mask_config c) = show_config c.
Proof.
  unfold show_config, mask_config. simpl. f_equal.
  rewrite property_texts_masked, sorted_entries_imap. f_equal.
  - by rewrite (bool_decide_ext _ _ (mask_properties_empty (config_defaults c))).
  - induction (sorted_entries (config_targets c)) as [|[k t] l IH]; [done|]. csimpl.
    by rewrite IH, property_texts_masked.
Qed.

(** Secrets are not shown.  What [config show] and [target show] print depends on
    the configuration without the values of its secrets only: two configurations
    that differ in nothing else are shown alike. *)
Theorem secrets_are_not_shown c c' :
  mask_config c = mask_config c' →
  show_config c = show_config c' ∧
  ∀ name, show_target <$> config_target c name = show_target <$> config_target c' name.
Proof.
  intros E. split.
  - by rewrite <- (show_config_masked c), <- (show_config_masked c'), E.
  - intros name. assert (mask_target <$> config_target c name = mask_target <$> config_target c' name)
      as Ht.
    { apply (f_equal config_targets) in E. apply (f_equal (λ m, m !! name)) in E.
      simpl in E. rewrite !map_lookup_imap in E. unfold config_target.
      by destruct (config_targets c !! name), (config_targets c' !! name). }
    destruct (config_target c name) as [t|], (config_target c' name) as [t'|]; try done.
    injection Ht as Ht1 Ht2 Ht3. simpl. f_equal.
    rewrite <- (show_target_masked t), <- (show_target_masked t'). unfold mask_target.
    by rewrite Ht1, Ht2, Ht3.
Qed.
