(* ===== verification/AuthLoad.v ===== *)
(** * Loading authentication files (crates/qcli-auth/src/lib.rs)

    [ApiKeyAuthenticator::load] and [OidcAuthenticator::load] over the texts of
    their files and what [toml] and [serde_json] read of them; the credentials of
    the engine adapters.  A loaded authenticator is consistent: each of its keys
    decides by its hash, its flag and its expiry alone. *)
From stdpp Require Import sorting.
From S2P Require Import Prelude Text Config DriverApi Auth AuthFacts.

Definition configuration_error (message : string) : AuthenticationError :=
  {| ae_kind := Configuration; ae_message := message |}.

(** [validate_auth_permissions] (unix); [mode] is the file's mode or the error. *)
Definition validate_auth_permissions (mode : result Z string) (path : string) :
    result unit AuthenticationError :=
  let? mode := map_err (λ error,
    configuration_error (path +:+ ": cannot inspect permissions: " +:+ error)) mode in
  if negb (Z.land mode 63 =? 0) then
    Err (configuration_error (path +:+ ": authentication config permissions are "
      +:+ format_octal (Z.land mode 511) +:+ "; run: chmod 600 " +:+ path))
  else Ok tt.

(** ** API keys *)

Record AuthFile := {
  af_principals : gmap string PrincipalEntry;
  af_keys : gmap string KeyEntry;
}.

Section ApiKeys.
(** [toml::from_str::<AuthFile>]. *)
Variable auth_toml : string → result AuthFile string.
Variable hash_parses : string → bool.
Variable verify_password : string → string → bool.
Variable hash_password : string → string → result string string.
Variable encode_b64 : string → result string string.

(** The check of every key, in their order. *)
Fixpoint check_keys (path : string) (principals : gmap string PrincipalEntry)
    (keys : list (string * KeyEntry)) : result unit AuthenticationError :=
  match keys with
  | [] => Ok tt
  | (key_id, key) :: keys =>
      if bool_decide (principals !! ke_principal key = None) then
        Err (configuration_error (path +:+ ": key '" +:+ key_id
          +:+ "' references missing principal '" +:+ ke_principal key +:+ "'"))
      else if negb (hash_parses (ke_secret_hash key)) then
        Err (configuration_error (path +:+ ": key '" +:+ key_id +:+ "' has an invalid hash"))
      else check_keys path principals keys
  end.

(** [ApiKeyAuthenticator::load]; the UUIDs are those of the dummy key. *)
Definition api_keys_load (mode : result Z string) (source : result string string)
    (path uuid1 uuid2 uuid3 : string) : result ApiKeyAuthenticator AuthenticationError :=
  let? _ := validate_auth_permissions mode path in
  let? text := map_err (λ error,
    configuration_error (path +:+ ": cannot read authentication config: " +:+ error)) source in
  let? file := map_err (λ error,
    configuration_error (path +:+ ": invalid authentication config: " +:+ error)) (auth_toml text) in
  let? _ := check_keys path (af_principals file) (sorted_entries (af_keys file)) in
  let? (_, dummy_hash) := generate_api_key_material hash_password encode_b64 "dummy" uuid1 uuid2 uuid3 in
  Ok {| ak_path := path; ak_principals := af_principals file; ak_keys := af_keys file;
        ak_dummy_hash := dummy_hash |}.
End ApiKeys.

(** ** OIDC *)

Inductive SigningAlgorithm := RS256 | RS384 | RS512 | ES256 | ES384 | HS256.

#[global] Instance SigningAlgorithm_eq_dec : EqDecision SigningAlgorithm.
Proof. solve_decision. Defined.

Definition parse_algorithm (value : string) : result SigningAlgorithm AuthenticationError :=
  if String.eqb value "RS256" then Ok RS256
  else if String.eqb value "RS384" then Ok RS384
  else if String.eqb value "RS512" then Ok RS512
  else if String.eqb value "ES256" then Ok ES256
  else if String.eqb value "ES384" then Ok ES384
  else if String.eqb value "HS256" then Ok HS256
  else Err (configuration_error ("unsupported OIDC signing algorithm '" +:+ value +:+ "'")).

Record OidcFile := {
  of_issuer : string;
  of_audiences : gset string;
  of_jwks_file : string;
  of_algorithms : gset string;
  of_groups_claim : string;
  of_clock_skew_seconds : Z;
  of_defaults : OidcPolicy;
  of_group_policies : gmap string OidcPolicy;
}.

(** What [serde] fills in for an absent field. *)
Definition default_oidc_algorithms : gset string := {[ "RS256"; "ES256" ]}.
Definition default_groups_claim : string := "groups".
Definition default_clock_skew : Z := 30.

Fixpoint parse_algorithms (values : list string) :
    result (list SigningAlgorithm) AuthenticationError :=
  match values with
  | [] => Ok []
  | value :: values =>
      let? algorithm := parse_algorithm value in
      let? algorithms := parse_algorithms values in
      Ok (algorithm :: algorithms)
  end.

Section Oidc.
Context {Jwk : Type}.
Variable oidc_toml : string → result OidcFile string.
Variable parse_jwks : string → result (gmap string Jwk) string.
Variable read_file : string → result string string.
(** [Path::is_relative], [Path::parent] and [Path::join]. *)
Variable is_relative : string → bool.
Variable path_parent : string → option string.
Variable join_path : string → string → string.
(** The elements of a [BTreeSet], in order. *)
Definition in_order (s : gset string) : list string := merge_sort string_le (elements s).

Definition load_jwks (path : string) : result (JwksSnapshot (Jwk:=Jwk)) AuthenticationError :=
  let? source := map_err (λ error,
    configuration_error (path +:+ ": cannot read JWKS: " +:+ error)) (read_file path) in
  let? keys := map_err (λ error,
    configuration_error (path +:+ ": invalid JWKS: " +:+ error)) (parse_jwks source) in
  Ok {| jwks_source := source; jwks_keys := keys |}.

(** [OidcAuthenticator::load]. *)
Definition oidc_load (path : string) :
    result (OidcAuthenticator (Algorithm:=SigningAlgorithm) (Jwk:=Jwk)) AuthenticationError :=
  let? source := map_err (λ error,
    configuration_error (path +:+ ": cannot read OIDC config: " +:+ error)) (read_file path) in
  let? file := map_err (λ error,
    configuration_error (path +:+ ": invalid OIDC config: " +:+ error)) (oidc_toml source) in
  if is_empty (trim (of_issuer file)) || bool_decide (of_audiences file = ∅) then
    Err (configuration_error "OIDC issuer and at least one audience are required")
  else
    let jwks_file := if is_relative (of_jwks_file file)
                     then join_path (default "." (path_parent path)) (of_jwks_file file)
                     else of_jwks_file file in
    let? algorithms := parse_algorithms (in_order (of_algorithms file)) in
    let? snapshot := load_jwks jwks_file in
    Ok {| oi_issuer := of_issuer file; oi_audiences := of_audiences file; oi_jwks_path := jwks_file;
          oi_algorithms := algorithms; oi_groups_claim := of_groups_claim file;
          oi_clock_skew_seconds := of_clock_skew_seconds file; oi_defaults := of_defaults file;
          oi_group_policies := of_group_policies file; oi_jwks := snapshot |}.
End Oidc.

(** ** Credentials of engine adapters *)

(** [trait BearerCredentialProvider] and its implementation for a fixed token. *)
Record StaticBearerCredential := { sb_method : string; sb_token : SecretString }.
Definition static_bearer_new (method token : string) : StaticBearerCredential :=
  {| sb_method := method; sb_token := {| secret_text := token |} |}.
Definition static_bearer_credential (c : StaticBearerCredential) : result SecretString string :=
  Ok (sb_token c).

Record UsernamePasswordCredential := { up_username : string; up_password : SecretString }.
Definition username_password_new (username password : string) : UsernamePasswordCredential :=
  {| up_username := username; up_password := {| secret_text := password |} |}.

(** [debug_struct(..).field(..)] of the two: the secret through its own [Debug];
    [quoted] is the [Debug] of a string. *)
Definition static_bearer_debug (quoted : string → string) (c : StaticBearerCredential) : string :=
  "StaticBearerCredential { method: " +:+ quoted (sb_method c) +:+ ", token: "
  +:+ SecretString_debug (sb_token c) +:+ " }".
Definition username_password_debug (quoted : string → string) (c : UsernamePasswordCredential) :
    string :=
  "UsernamePasswordCredential { username: " +:+ quoted (up_username c) +:+ ", password: "
  +:+ SecretString_debug (up_password c) +:+ " }".

(** ** Loaded authenticators *)

Section Loaded.
Variable auth_toml : string → result AuthFile string.
Variable hash_parses : string → bool.
Variable verify_password : string → string → bool.
Variable hash_password : string → string → result string string.
Variable encode_b64 : string → result string string.

Lemma check_keys_Ok path principals keys :
  check_keys hash_parses path principals keys = Ok tt →
  Forall (λ e : string * KeyEntry, is_Some (principals !! ke_principal e.2) ∧
                 hash_parses (ke_secret_hash e.2) = true) keys.
Proof.
  induction keys as [|[id key] keys IH]; simpl; [by constructor|].
  case_bool_decide as Hp; [done|]. destruct (hash_parses (ke_secret_hash key)) eqn:Eh; [|done].
  intros H. constructor; [|by apply IH]. split; [by apply not_eq_None_Some|done].
Qed.

(** A loaded file is private and consistent.  The authenticator made of an
    authentication file has read it from a file that only its owner can access,
    and each of its keys authenticates a bearer that names it exactly when its
    hash verifies the secret and it is enabled and unexpired: no key fails later
    for a missing principal or a hash that cannot be parsed. *)
Theorem loaded_keys_are_consistent mode source path u1 u2 u3 a :
  api_keys_load auth_toml hash_parses hash_password encode_b64 mode source path u1 u2 u3 = Ok a →
  (∃ m, mode = Ok m ∧ Z.land m 63 = 0) ∧
  ∀ bearer key_id secret entry now,
    parse_api_key bearer = Some (key_id, secret) → ak_keys a !! key_id = Some entry →
    (is_ok (api_key_authenticate hash_parses verify_password a bearer now) = true ↔
     verify_password secret (ke_secret_hash entry) = true ∧ ke_enabled entry = true ∧
     unexpired now (ke_expires_at entry)).
Proof.
  unfold api_keys_load, validate_auth_permissions.
  destruct mode as [m|]; [|done]. simpl. destruct (Z.eqb_spec (Z.land m 63) 0) as [Hm|]; [|done].
  simpl. destruct source as [text|]; [|done]. simpl. destruct (auth_toml text) as [file|]; [|done].
  simpl. destruct (check_keys _ _ _ _) as [[]|] eqn:Ec; [|done]. simpl.
  destruct (generate_api_key_material _ _ _ _ _ _) as [[k dummy]|]; [|done]. simpl.
  intros [= <-]. split; [by exists m|]. intros bearer key_id secret entry now Hp Hk. simpl in Hk.
  apply check_keys_Ok in Ec. rewrite Forall_forall in Ec.
  destruct (Ec (key_id, entry)) as [[policy Hpo] Hh]; [by apply elem_of_sorted_entries|].
  simpl in *. unfold api_key_authenticate. rewrite Hp. simpl. rewrite Hk, Hh. simpl.
  rewrite Hpo. destruct (verify_password secret _), (ke_enabled entry); simpl; try naive_solver.
  unfold unexpired. destruct (ke_expires_at entry) as [e|]; simpl; [|naive_solver].
  destruct (Z.leb_spec e now); simpl; naive_solver lia.
Qed.
End Loaded.

Section LoadedOidc.
Context {Jwk : Type}.
Variable oidc_toml : string → result OidcFile string.
Variable parse_jwks : string → result (gmap string Jwk) string.
Variable read_file : string → result string string.
Variable is_relative : string → bool.
Variable path_parent : string → option string.
Variable join_path : string → string → string.

Lemma parse_algorithms_allowed values algorithms :
  parse_algorithms values = Ok algorithms →
  Forall2 (λ v a, parse_algorithm v = Ok a) values algorithms.
Proof.
  revert algorithms. induction values as [|v values IH]; simpl; intros algorithms.
  { intros [= <-]. constructor. }
  destruct (parse_algorithm v) as [a|] eqn:E; [|done]. simpl.
  destruct (parse_algorithms values) as [l|]; [|done]. intros [= <-]. constructor; auto.
Qed.

(** A loaded OIDC policy names its issuer and an audience, accepts the configured
    algorithms only, and starts with the keys of its JWKS file. *)
Lemma loaded_oidc_is_complete path a :
  oidc_load oidc_toml parse_jwks read_file is_relative path_parent join_path path = Ok a →
  is_empty (trim (oi_issuer a)) = false ∧ oi_audiences a ≠ ∅ ∧
  (∃ text, read_file (oi_jwks_path a) = Ok text ∧ jwks_source (oi_jwks a) = text ∧
           parse_jwks text = Ok (jwks_keys (oi_jwks a))) ∧
  ∃ source file, read_file path = Ok source ∧ oidc_toml source = Ok file ∧
    Forall2 (λ v g, parse_algorithm v = Ok g) (in_order (of_algorithms file)) (oi_algorithms a).
Proof.
  unfold oidc_load. destruct (read_file path) as [source|] eqn:Er; [|done]. simpl.
  destruct (oidc_toml source) as [file|] eqn:Et; [|done]. simpl.
  destruct (is_empty (trim (of_issuer file))) eqn:Ei; [done|]. simpl. case_bool_decide; [done|].
  destruct (parse_algorithms _) as [algorithms|] eqn:Ea; [|done]. simpl.
  unfold load_jwks. set (jwks := if is_relative _ then _ else _).
  destruct (read_file jwks) as [text|] eqn:Ej; [|done]. simpl.
  destruct (parse_jwks text) as [keys|] eqn:Ek; [|done]. simpl. intros [= <-]. simpl.
  split; [done|]. split; [done|]. split; [by exists text|]. exists source, file.
  split; [done|]. split; [done|]. by apply parse_algorithms_allowed.
Qed.
End LoadedOidc.
