(* ===== verification/DriverExamples.v ===== *)
(** * The adapters on concrete engines

    Engines that answer from lists of pages, chunks and rows, over batches whose
    rows are their cells ([Cells]), and the theorems on the adapters applied to
    them. *)
From S2P Require Import Prelude Text Chars Config Arrow ArrowTypes ArrowBuild DriverApi Core.
From S2P Require Import Sink Demo DemoFacts Sql TrinoTypes TrinoTypeFacts TrinoValues Trino.
From S2P Require Import TrinoFacts Databricks DatabricksFacts Snowflake SnowflakeFacts.
From Stdlib Require Import Ascii.
Import Core.Queries.

#[local] Existing Instance Cells.arrow.
#[local] Existing Instance Cells.build.
#[local] Existing Instance Cells.build_laws.

(** Nobody cancels and every batch is taken. *)
Definition open_channel : Channel := {| takes _ := true; has_room _ := true |}.
Definition patient : Invocation := {| invoked_at := 0; poll _ := false |}.
Definition impatient : Invocation := {| invoked_at := 0; poll _ := true |}.

Lemma calm : undisturbed open_channel patient.
Proof. by split. Qed.

Definition query_of (sql : string) (properties : gmap string string) : QueryRequest :=
  {| qcli_query_id := "q1"; rq_session_id := "s1"; rq_session_version := 1; rq_target := "t";
     rq_engine := "e"; rq_sql := sql; rq_properties := properties |}.

(** ** The demo adapter *)

Lemma generate_witness :
  ∃ bs, demo_execute open_channel patient ∅ (query_of "generate 3" ∅) =
      Some {| ex_items :=
                [Event (State Running); Event (EngineQueryId "demo-q1");
                 Event (State ProducingResults)]
                ++ (Batch <$> bs) ++ [Event (RowsProduced 3)];
              ex_result := Ok tt |} ∧
    Forall (λ b, num_rows b ≤ 1024) bs ∧ bs ≫= ids_of = to_i64 <$> seqZ 0 3.
Proof.
  apply (generate_counts_up open_channel patient ∅ (query_of "generate 3" ∅) 3).
  - apply calm.
  - vm_compute. by repeat split.
  - vm_compute. reflexivity.
  - vm_compute. reflexivity.
Defined.

Definition generated : Execution :=
  DriverApi.execute (DemoAdapter open_channel ∅) (query_of "generate 3" ∅) patient.

Lemma portable_witness :
  Conforming generated ∧
  assert_portable_query (outcome_of generated)
  = is_ok (ex_result generated) && (0 <? outcome_row_count (outcome_of generated)).
Proof.
  split; [apply demo_adapter_conforms|]. apply conforming_executions_pass.
  apply demo_adapter_conforms.
Defined.

(** ** Trino types *)

Definition row_type : TrinoType :=
  TRow [(Some "a", TArray (TDecimal 10 2)); (None, TMap (TScalar "varchar") (TScalar "bigint"))].
Definition row_value : Value :=
  Array [Array [VString "1.25"; Null]; Object [("k", Number 7)]].

Lemma row_type_ok : type_ok row_type.
Proof. vm_compute. repeat split; try done; eexists; reflexivity. Qed.

Lemma signatures_witness :
  type_ok row_type ∧
  signature_type (λ what _, "cannot decode " +:+ what) (signature_of row_type) = Ok (denote row_type).
Proof. split; [apply row_type_ok|]. apply signatures_denote. apply row_type_ok. Defined.

Lemma row_value_wire : wire row_type row_value.
Proof.
  right. eexists. split; [reflexivity|]. split; [|split; [|done]].
  - right. eexists. split; [reflexivity|].
    constructor; [by right|]. constructor; [by left|constructor].
  - right. eexists. split; [reflexivity|]. constructor; [by right|constructor].
Qed.

Lemma row_type_regular : regular row_type.
Proof. vm_compute. repeat split; try done. repeat constructor; set_solver. Qed.

Lemma values_witness :
  ∃ v', normalize_signature (λ what _, "cannot decode " +:+ what) (signature_of row_type) row_value
        = Ok v' ∧ shaped (denote row_type) v' ∧ leaves v' = leaves row_value.
Proof.
  apply values_take_the_shape_of_their_type.
  - apply row_type_ok.
  - apply row_type_regular.
  - apply row_value_wire.
Defined.

(** ** A JSON reader *)

(** Documents as lines: enough of [serde_json::to_writer] for rows of scalars. *)
Fixpoint render (v : Value) : string :=
  match v with
  | Null => "null"
  | Bool b => if b then "true" else "false"
  | Number n => pretty n
  | Float text => text
  | VString s => String dquote_char (s +:+ String dquote_char EmptyString)
  | Array l => "[" +:+ join "," (render <$> l) +:+ "]"
  | Object l => "{" +:+ join "," ((λ e : string * Value, e.1 +:+ ":" +:+ render e.2) <$> l) +:+ "}"
  end.

Definition line_end : ascii := ascii_of_N 10.
Definition one_line (s : string) : string := replace_char line_end " " s.

(** A batch whose rows are the lines. *)
Definition line_batch (fs : ArrowSchema) (ls : list string) : Cells.batch :=
  {| Cells.fields := fs; Cells.columns := []; Cells.rows := (λ l, [Some l]) <$> ls |}.

#[local] Instance line_json : ArrowJson :=
  {| read_json (fs : ArrowSchema) (_ : Z) (text : string) :=
       match removelast (split line_end text) with
       | [] => Ok []
       | ls => Ok [Ok (line_batch fs ls : @RecordBatch Cells.arrow)]
       end;
     json_line v := Ok (one_line (render v)) |}.

Definition no_line_end (s : string) : bool := string_forallb (λ c, negb (Ascii.eqb c line_end)) s.

Lemma one_line_clean s : no_line_end (one_line s) = true.
Proof.
  unfold no_line_end, one_line. induction s as [|c s IH]; [done|]. cbn [replace_char].
  destruct (Ascii.eqb c line_end) eqn:E; cbn [String.append string_forallb]; [done|].
  by rewrite E, IH.
Qed.

Lemma split_line t rest :
  no_line_end t = true →
  split line_end (t +:+ String line_end rest) = t :: split line_end rest.
Proof.
  unfold split, no_line_end. induction t as [|c t IH]; intros Ht; cbn [String.append split_char].
  - rewrite Ascii.eqb_refl. by destruct (split_char line_end rest).
  - cbn [string_forallb] in Ht. apply andb_true_iff in Ht as [Hc Ht]. apply negb_true_iff in Hc.
    specialize (IH Ht). destruct (split_char line_end (t +:+ String line_end rest)) as [p ps].
    rewrite Hc. destruct (split_char line_end rest) as [q qs]. by injection IH as -> ->.
Qed.

Lemma split_lines texts :
  Forall (λ t, no_line_end t = true) texts →
  split line_end (unchars ((λ t, t +:+ String line_end EmptyString) <$> texts))
  = texts ++ [EmptyString].
Proof.
  induction 1 as [|t texts Ht _ IH]; [done|]. csimpl. unfold unchars. cbn [foldr].
  rewrite string_app_assoc. cbn [String.append]. rewrite split_line by done. by f_equal.
Qed.

#[local] Instance line_json_laws : ArrowJsonLaws.
Proof.
  constructor. intros fs n docs texts b rest Ht _. simpl.
  assert (texts = (λ v, one_line (render v)) <$> docs) as ->.
  { revert texts Ht. induction docs as [|d docs IH]; intros [|t texts] E; try done.
    csimpl in E. injection E as E1 E2. csimpl. rewrite <- E1. f_equal. by apply IH. }
  rewrite split_lines by (apply Forall_fmap, Forall_true; intros; apply one_line_clean).
  rewrite removelast_last. destruct docs as [|d docs]; [done|]. csimpl.
  intros [= <- _]. unfold num_rows. simpl. by rewrite !length_fmap.
Qed.

(** ** Trino *)

Definition no_stats : Stat :=
  {| st_state := "FINISHED"; st_scheduled := true; st_completed_splits := 1; st_total_splits := 1;
     st_processed_rows := 2; st_processed_bytes := 16; st_elapsed_time_millis := 5 |}.
Definition id_columns : Value :=
  Array [Object [("name", VString "id"); ("type", VString "bigint")]].
Definition page (next : option string) (columns : option Value) (rows : list (list Value)) : Page :=
  {| pg_id := "20240101_1"; pg_next_uri := next; pg_stats := no_stats; pg_error := None;
     pg_columns := Ok <$> columns; pg_data := Some (Direct rows) |}.
Definition two_pages : list Page :=
  [page (Some "/next") (Some id_columns) [[Number 1]; [Number 2]]; page None None [[Number 3]]].

(** An engine that serves a list of pages, and confirms cancellations. *)
Definition next_page : M (list Page) ClientError Page := λ w,
  match w with
  | p :: w => (Ok p, w)
  | [] => (Err {| ce_kind := Protocol; ce_text := "no page" |}, [])
  end.
Definition page_client : Client (list Page) :=
  {| client_get _ := next_page; client_get_next _ := next_page; client_cancel _ := mret tt;
     client_abandon _ _ w := w |}.

Definition https_url (text : string) : result Url string :=
  match strip_prefix "https://" text with
  | Some host => Ok {| url_host := Some host; url_scheme := "https"; url_port := None |}
  | None => Err "unsupported scheme"
  end.
Definition trino_target : gmap string string :=
  {[ "url" := "https://trino.example"; "user" := "ada"; "token" := "secret" ]}.
Definition decode_text : string → Value → string := λ what _, "cannot decode " +:+ what.

Lemma serves_two_pages : serves page_client "SELECT id" false two_pages two_pages.
Proof.
  eapply serves_more; [vm_compute; reflexivity|reflexivity|].
  eapply serves_last; [vm_compute; reflexivity|reflexivity].
Qed.

Definition trino_config : ClientConfig :=
  {| cc_user := "ada"; cc_host := "trino.example"; cc_port := 8080; cc_secure := true;
     cc_source := "qcli"; cc_no_verify := false; cc_max_attempt := 4; cc_catalog := None;
     cc_schema := None; cc_client_tags := []; cc_properties := ∅; cc_request_timeout := None;
     cc_auth := Some (Jwt "secret") |}.

Lemma trino_config_built :
  build_client https_url (λ _, Ok tt) trino_target = Ok trino_config.
Proof. vm_compute. reflexivity. Qed.

Definition page_batches : list RecordBatch :=
  [line_batch [Field_new "id" Int64 true] ["{id:1}"; "{id:2}"];
   line_batch [Field_new "id" Int64 true] ["{id:3}"]].

Lemma pages_witness :
  ∃ x, trino_execute decode_text https_url (λ _, Ok tt) (λ _, page_client) open_channel patient 2
         (query_of "SELECT id" trino_target) two_pages = Some x ∧
    ex_result x = Ok tt ∧ batches_of (ex_items x) = page_batches ∧
    sum_rows page_batches = Z.of_nat (length (two_pages ≫= page_rows)).
Proof.
  apply (every_page_is_followed decode_text https_url (λ _, Ok tt) (λ _, page_client) open_channel
           patient (query_of "SELECT id" trino_target) two_pages trino_config two_pages).
  - apply calm.
  - apply trino_config_built.
  - apply serves_two_pages.
  - vm_compute. reflexivity.
  - simpl. lia.
Defined.

Lemma https_witness :
  cc_secure trino_config = true ∧
  (trino_target !! "password" = None ∨ trino_target !! "token" = None) ∧
  ∃ url text, trino_target !! "url" = Some text ∧ https_url text = Ok url ∧
              url_scheme url = "https" ∧ url_host url = Some (cc_host trino_config).
Proof.
  apply (credentials_need_https https_url (λ _, Ok tt)).
  - apply trino_config_built.
  - by eexists.
Defined.

Lemma cancellation_witness :
  ∃ e s', get_or_cancel page_client impatient "/next" (Some "20240101_1")
            (Run_start two_pages) = (Err e, s') ∧
    sent s' = [] ++ [Event (State Cancelling)] ∧
    (de_code e = "cancelled" ∨ de_code e = "cancel_unconfirmed") ∧
    (de_code e = "cancelled" ↔
     ∃ id w', Some "20240101_1" = Some id ∧
       client_cancel page_client id (client_abandon page_client "/next" true two_pages)
       = (Ok tt, w')).
Proof.
  apply (cancellations_are_confirmed page_client impatient "/next" (Some "20240101_1")
           (Run_start two_pages)).
  reflexivity.
Defined.

(** ** Databricks *)

(** A service that answers from a list, with bodies the decoders know. *)
Definition next_response : HttpRequest → M (list HttpResponse) HttpFailure HttpResponse := λ _ w,
  match w with
  | r :: w => (Ok r, w)
  | [] => (Err {| hf_timeout := true; hf_text := "no answer" |}, [])
  end.
Definition db_statement (state : string) (columns : option (list DbColumn))
    (chunk : option ResultData) : StatementResponse :=
  {| sr_statement_id := Some "st1"; sr_status := Some {| ss_state := state; ss_error := None |};
     Databricks.sr_columns := columns; sr_result := chunk |}.
Definition name_column : list DbColumn := [{| dc_name := "name"; dc_type_text := "STRING" |}].
Definition first_chunk : ResultData :=
  {| rd_data_array := [[Some (VString "a")]; [None]]; rd_next_chunk_internal_link := Some "/c2" |}.
Definition last_chunk : ResultData :=
  {| rd_data_array := [[Some (VString "b")]]; rd_next_chunk_internal_link := None |}.
Definition decode_statement (body : string) : result StatementResponse string :=
  if String.eqb body "running" then Ok (db_statement "RUNNING" None None)
  else if String.eqb body "done" then Ok (db_statement "SUCCEEDED" (Some name_column) (Some first_chunk))
  else Err "unexpected body".
Definition decode_result (body : string) : result ResultData string :=
  if String.eqb body "c2" then Ok last_chunk else Err "unexpected body".
Definition ok_response (body : string) : HttpResponse := {| hr_status := 200; hr_body := body |}.
Definition service : list HttpResponse := [ok_response "running"; ok_response "done"; ok_response "c2"].
Definition databricks_target : gmap string string :=
  {[ "host" := "https://dbc.example/"; "http_path" := "/sql/1.0/warehouses/w1"; "token" := "pat" ]}.
Definition databricks_connection : Connection :=
  {| cn_host := "https://dbc.example"; cn_warehouse_id := "w1"; cn_catalog := None;
     cn_schema := None; cn_connect_timeout := 10000; cn_token := "pat" |}.

Lemma statement_succeeds :
  succeeds next_response decode_statement decode_result (λ _, None) (λ _, None)
    databricks_connection "st1" 1 (db_statement "RUNNING" None None)
    [ok_response "done"; ok_response "c2"] name_column [first_chunk; last_chunk].
Proof.
  eapply succeeds_waiting; [reflexivity|reflexivity|vm_compute; reflexivity|].
  apply (succeeds_result _ _ _ _ _ _ _ (db_statement "SUCCEEDED" (Some name_column) (Some first_chunk))
           _ first_chunk); [reflexivity|reflexivity|].
  eapply linked_more; [reflexivity|vm_compute; reflexivity|]. by apply linked_last.
Qed.

Lemma chunks_witness :
  ∃ x, db_execute next_response decode_statement decode_result (λ _, Err "no value") (λ _, None)
         (λ _, None) render (λ _, Ok tt) open_channel patient 4
         (query_of "SELECT name" databricks_target) service = Some x ∧
    ex_result x = Ok tt ∧
    Forall2 (batch_of render name_column) (batches_of (ex_items x))
      (chunk_rows [first_chunk; last_chunk]).
Proof.
  apply (every_chunk_is_sent next_response decode_statement decode_result (λ _, Err "no value")
           (λ _, None) (λ _, None) render (λ _, Ok tt) open_channel patient
           (query_of "SELECT name" databricks_target) service databricks_connection
           (db_statement "RUNNING" None None) [ok_response "done"; ok_response "c2"] "st1" 1).
  - apply calm.
  - vm_compute. reflexivity.
  - vm_compute. reflexivity.
  - reflexivity.
  - apply statement_succeeds.
  - discriminate.
  - simpl. lia.
Defined.

(** ** Snowflake *)

Definition sf_columns : list SfColumn :=
  [{| sc_name := "N"; sc_type := "FIXED"; sc_precision := Some 38; sc_scale := Some 0;
      sc_nullable := true |}].
Definition sf_result : SfResult :=
  {| sr_expected_result_length := 2; Snowflake.sr_columns := sf_columns;
     sr_rows := [Ok [Ok (Some "1")]; Ok [Ok None]] |}.
Definition sf_client : SfClient unit unit :=
  {| sf_build _ := Ok tt; sf_open _ := mret tt; sf_query _ _ := mret sf_result;
     sf_fetch_all _ _ := mret [] |}.
Definition snowflake_target : gmap string string :=
  {[ "user" := "ada"; "password" := "secret"; "account" := "acme" ]}.

Lemma sf_rows_fit row : Ok row ∈ sr_rows sf_result → row_fits sf_columns row.
Proof.
  intros Hr. inversion Hr as [?? E|? ? ? Hr']; subst; [done|].
  inversion Hr' as [?? E|? ? ? Hr'']; subst; [done|]. by inversion Hr''.
Qed.

Lemma rows_witness :
  ∃ groups, sr_rows sf_result = Ok <$> concat groups ∧
    sr_expected_result_length sf_result = Z.of_nat (length (concat groups)) mod 2 ^ 64 ∧
    Forall2 (batch_of_rows (length sf_columns))
      (batches_of (ex_items (sf_execute sf_client open_channel patient
                               (query_of "SELECT n" snowflake_target) tt))) groups ∧
    Forall (λ g, 1 ≤ Z.of_nat (length g) ≤ BATCH_ROWS) groups.
Proof.
  apply (every_row_is_sent sf_client open_channel patient (query_of "SELECT n" snowflake_target)
           tt tt tt sf_result tt).
  - vm_compute. reflexivity.
  - reflexivity.
  - apply sf_rows_fit.
  - vm_compute. reflexivity.
Defined.

(** An error about a table named like an author is taken for one of authentication. *)
Example author_errors_are_authentication :
  de_code (sf_error "Object 'AUTHORS' does not exist") = "authentication".
Proof. reflexivity. Qed.

(** The patterns [?] and an inner star describe nothing to Databricks and Snowflake. *)
Example prefix_patterns_only :
  prefix_glob_matches (Some "order?") "orders" = false ∧
  prefix_glob_matches (Some "*_daily") "sales_daily" = false.
Proof. split; reflexivity. Qed.
