(* ===== verification/CliExamples.v ===== *)
(** * The command line on concrete arguments

    The theorems on the command line and on loading authentication files applied
    to the demo adapter, a server start and an authentication file. *)
From S2P Require Import Prelude Text Chars Config Arrow ArrowTypes ArrowBuild DriverApi Core.
From S2P Require Import Auth AuthFacts AuthLoad Sink Demo DemoFacts Output ReplText Repl.
From S2P Require Import ServiceData FlightPolicy Http CliArgs Cli CliFacts Serve DriverExamples.
Import Core.Queries.

#[local] Existing Instance Cells.arrow.
#[local] Existing Instance Cells.build.
#[local] Existing Instance Cells.build_laws.

(** ** Reading a query *)

Definition demo_adapters : list EngineAdapter := [DemoAdapter open_channel ∅].
Definition demo_snapshot : SessionSnapshot :=
  {| snap_id := "ada_1"; snap_version := 1; snap_target := "demo"; snap_engine := "demo";
     snap_properties := ∅; snap_overrides := ∅ |}.
Definition demo_handle : QueryHandle :=
  let request := request_of (query_id_of 1) demo_snapshot "generate 3" in
  let x := DriverApi.execute (DemoAdapter open_channel ∅) request patient in
  {| qh_id := query_id_of 1; qh_session_id := "ada_1"; qh_session_version := 1;
     qh_items := task_items x; qh_capacity := 8; qh_cancellation := signal_default;
     qh_task := Ok (ex_result x) |}.
Definition after_one_step : Pipe :=
  {| todo := tail (qh_items demo_handle); event_queue := [State Submitted]; batch_queue := [];
     delivered := [] |}.

Lemma stall_witness :
  (1 ≤ 2 * length (qh_items demo_handle))%nat ∧
  (drained after_one_step ∨ ∃ p', cli_step (qh_capacity demo_handle) after_one_step p') ∧
  (drained after_one_step → delivery (qh_items demo_handle) (delivered after_one_step)).
Proof.
  apply (cli_never_stalls demo_adapters demo_snapshot "generate 3" patient demo_handle 1
           after_one_step).
  - intros adapter request Ha. apply list_elem_of_singleton in Ha as ->. apply demo_adapter_conforms.
  - reflexivity.
  - eapply nsteps_l; [|apply nsteps_O]. by apply cli_send_event.
Defined.

(** ** Serving *)

Definition exposed_arguments : list string :=
  ["--bind"; "0.0.0.0:80"; "--trusted-proxy"; "--auth-file"; "keys.toml"; "--flight-bind";
   "0.0.0.0:81"; "--flight-tls-cert"; "cert.pem"; "--flight-tls-key"; "key.pem"].
Definition exposed : ServeArguments :=
  {| sa_address := "0.0.0.0:80"; sa_flight_address := Some "0.0.0.0:81";
     sa_auth_file := Some "keys.toml"; sa_oidc_file := None; sa_trusted_proxy := true;
     sa_flight_trusted_proxy := false; sa_flight_tls_certificate := Some "cert.pem";
     sa_flight_tls_private_key := Some "key.pem"; sa_flight_tls_client_ca := None;
     sa_allowed_origins := []; sa_cluster_url := None; sa_node_id := None;
     sa_result_store_url := None; sa_flight_signing_key := None |}.

Example exposed_parses : parse_serve_args exposed_arguments = Ok exposed.
Proof. reflexivity. Qed.

Definition demo_config_text : string :=
  "[demo]" +:+ Output.newline +:+ "engine = demo" +:+ Output.newline.
Definition demo_machine : Machine :=
  {| env_var _ := None; read_file _ := Ok demo_config_text; file_mode _ := Ok 384;
     read_file_bytes _ := Err "no file"; stdin := Err "closed"; now_minute := "202401011200";
     session_ids := Sessions.SessionIdState_default; process_id := 7; elapsed_text := "0.010" |}.
Definition any_address (text : string) : result SocketAddr string :=
  Ok {| addr_text := text; addr_loopback := false |}.
Definition no_cluster : ClusterCalls unit unit unit :=
  {| store_connect _ := mret tt; store_migrate _ := mret tt;
     store_register_node _ _ _ _ _ := mret tt; object_store_from_url _ := Ok tt |}.

Definition serving : result (Serving (St:=unit) (Ob:=unit) (A:=string)) AppError :=
  (serve_gateway no_cluster demo_machine "1.0.0" any_address (λ _, Ok tt) (λ _, Ok "keys")
     (λ _, Ok "oidc") "qcli.ini" exposed tt).1.

Example serving_exposed : is_ok serving = true.
Proof. vm_compute. reflexivity. Qed.

Definition exposed_address (text : string) : SocketAddr :=
  {| addr_text := text; addr_loopback := false |}.
Definition exposed_flight : FlightServerConfig :=
  match flight_server_config (λ _, None) any_address (λ _, Err "no file") exposed true with
  | Ok (_, config) => config
  | Err _ => FlightServerConfig_default
  end.
Definition exposed_serving : Serving (St:=unit) (Ob:=unit) (A:=string) :=
  {| sv_http := exposed_address "0.0.0.0:80";
     sv_operations := {| trusted_proxy := true; allowed_origins := [] |};
     sv_authenticator := Some ["keys"];
     sv_flight := Some (exposed_address "0.0.0.0:81", exposed_flight);
     sv_config := match Config_load (λ _, None) (Ok demo_config_text) (Ok 384) "qcli.ini" with
                  | Ok c => c
                  | Err _ => {| config_path := EmptyString; config_defaults := ∅; config_targets := ∅ |}
                  end;
     sv_cluster := None |}.

Lemma serve_witness :
  (addr_loopback (sv_http exposed_serving) = false →
     is_Some (sv_authenticator exposed_serving) ∧ trusted_proxy (sv_operations exposed_serving) = true) ∧
  (∀ address config, sv_flight exposed_serving = Some (address, config) →
     is_Some (sv_authenticator exposed_serving) ∧
     (addr_loopback address = false → is_Some (fl_tls config) ∨ fl_trusted_proxy config = true) ∧
     (fl_trusted_proxy config = true → fl_tls config = None) ∧
     (is_Some (sa_flight_tls_client_ca exposed) → is_Some (fl_tls config)) ∧
     (is_Some (sv_cluster exposed_serving) →
        ∃ key, shared_signing_key config = Some key ∧ String.length key = 32%nat)).
Proof.
  apply (servers_are_guarded no_cluster demo_machine "1.0.0" any_address (λ _, Ok tt)
           (λ _, Ok "keys") (λ _, Ok "oidc") "qcli.ini" exposed tt exposed_serving tt).
  vm_compute. reflexivity.
Defined.

(** ** One query *)

Definition counted_batch (b : RecordBatch) : TextBatch (Any:=unit) :=
  {| tb_fields := []; tb_columns := []; tb_rows := Z.to_nat (num_rows b) |}.
Definition generate_three : QueryArguments :=
  {| qa_target := "demo"; qa_source := Command "generate 3"; qa_format := Some Vertical |}.
Definition blank : Console string := {| co_out := ""; co_printed := ""; co_stderr := "" |}.
Abbreviation run_demo := (run_query counted_batch (λ _ : unit, Ok "") (λ _ _ _, Ok "")
  (λ _, Ok "[]") (λ _, Ok []) (λ _, "") demo_machine demo_adapters).
Definition after_query : Console string := (run_demo "qcli.ini" generate_three patient blank).2.

Lemma counted_rows b : Z.of_nat (tb_rows (counted_batch b)) = num_rows b.
Proof. simpl. rewrite Z2Nat.id; [done|]. unfold num_rows. simpl. lia. Qed.

Lemma printed_witness :
  ∃ (rows : Z) rest, co_stderr after_query = (pretty rows +:+ " rows" +:+ Output.newline) +:+ rest.
Proof.
  pose proof (queries_print_their_results counted_batch (λ _ : unit, Ok "") (λ _ _ _, Ok "")
    (λ _, Ok "[]") (λ _, Ok []) (λ _, "") demo_machine demo_adapters counted_rows
    "qcli.ini" generate_three patient blank (Ok tt) after_query) as H.
  destruct H as (_ & _ & _ & _ & rows & rest & _ & _ & _ & _ & _ & He & _).
  - intros adapter request Ha. apply list_elem_of_singleton in Ha as ->. apply demo_adapter_conforms.
  - reflexivity.
  - vm_compute. reflexivity.
  - exists rows, rest. exact He.
Defined.

Example three_records :
  co_out after_query
  = vertical_header 1 +:+ vertical_header 2 +:+ vertical_header 3.
Proof. vm_compute. reflexivity. Qed.

(** ** Secrets *)

Definition with_password (password : string) : Config :=
  {| config_path := "qcli.ini"; config_defaults := ∅;
     config_targets := {[ "w" := {| target_name := "w"; target_engine := "snowflake";
       target_properties := {[ "password" := {| cv_value := password; cv_secret := true |} ]} |} ]} |}.

Lemma secrets_witness :
  show_config (with_password "a") = show_config (with_password "b") ∧
  ∀ name, show_target <$> config_target (with_password "a") name
          = show_target <$> config_target (with_password "b") name.
Proof. apply secrets_are_not_shown. vm_compute. reflexivity. Defined.

(** ** Authentication files *)

Definition key_file : AuthFile :=
  {| af_principals := {["ada" := ada_entry]}; af_keys := {["laptop-1" := key_entry]} |}.
Definition loaded : ApiKeyAuthenticator :=
  {| ak_path := "keys.toml"; ak_principals := af_principals key_file; ak_keys := af_keys key_file;
     ak_dummy_hash := "u1u2u3" |}.

Lemma load_witness :
  (∃ m, Ok (E:=string) 384 = Ok m ∧ Z.land m 63 = 0) ∧
  ∀ bearer key_id secret entry now,
    parse_api_key bearer = Some (key_id, secret) → ak_keys loaded !! key_id = Some entry →
    (is_ok (api_key_authenticate (λ _, true) toy_verify loaded bearer now) = true ↔
     toy_verify secret (ke_secret_hash entry) = true ∧ ke_enabled entry = true ∧
     unexpired now (ke_expires_at entry)).
Proof.
  apply (loaded_keys_are_consistent (λ _, Ok key_file) (λ _, true) toy_verify toy_hash
           (λ uuid, Ok uuid) (Ok 384) (Ok "") "keys.toml" "u1" "u2" "u3").
  vm_compute. reflexivity.
Defined.
